(* ===== verification/_CoqProject ===== *)
-Q . S2P
Prelude.v
Dll.v
CList.v
ExpireBuffer.v
Fifo.v
Command.v
UniMsg.v
TransState.v
TimerQueue.v
TransMachine.v
VarChar.v
HashTable.v
CStr.v
MsgCodec.v
Uri.v
RscMsg.v
Regexp.v
Table.v
TaskSelector.v
SelectorRefinement.v
TaskRouting.v
FrameCtrl.v
TaskContainer.v
ContainerRun.v
Transport.v
PsaRsc.v
PsaRun.v
Mqtt.v
MqttLink.v
