(* ===== verification/Prelude.v ===== *)
(** * spf / xframe: a verification library (root file)

    xframe ([src/xframe]) is a C++ framework for message-driven servers.  A
    host runs one control thread and several task containers (threads), each
    with its receive queue and its tasks.  Everything that happens is a message
    ([TUniNetMsg], [TEventMsg]) or a timer.  The control thread takes messages
    from its queue and has the task selector put them into the queue of a
    container; a container hands them, and its own timeouts, to its tasks; a
    transport task keeps one transaction per request between hosts.  All of it
    stands on the containers of [comserv]: list, hash table, expiring buffer,
    strings, queues.

    ** Reading the development

    A member function is a computation [M S A = S → option (A * S)] on the state
    it touches.  [None] is undefined behaviour of C++ - reading through a NULL,
    freed or unallocated pointer, reading memory nobody wrote, running past a
    buffer, a second delete - and also a loop whose fuel ran out, so that
    [wp m Q s] (defined below) says that [m] is defined, ends, and establishes
    [Q].  Heap objects are in finite maps by address, [UINT]s are [Z] with their
    wrap-around written out ([u32], [i32]), characters are bytes in [Z].  A map
    keyed by [CStr] is ordered by [strcmp], so its keys are C strings, up to
    their first zero byte ([c_string]).  Where the flow runs off the end of a
    function that must return a value, the call is undefined; a value that such
    a function leaves for its caller in practice ([waitCount]) is a parameter
    that may be missing.  Each
    component has a specification over lists, and a refinement relates the two:
    "any program over the member functions has the results of the same program
    over the lists".

    ** Files

    - Prelude.v: the monad, [wp] and its rules, loops, machine integers.
    - Fifo.v: the queues between threads ([include/comserv/fifo*.h]), with the
      consumer's waits as steps.
    - Dll.v, CList.v: [include/comserv/clist.h], the doubly linked list with a
      cursor, on a heap of entries.
    - ExpireBuffer.v: [include/comserv/cexpirebuffer.h], the keyed buffer whose
      entries expire, on the same ring.
    - HashTable.v: [include/comserv/unihashtable.h]; Table.v: the interface
      ([Table], [TableLaws]) under which the kernel uses it, and its instance.
    - VarChar.v, CStr.v: the character buffers and the growing string of
      [comserv/comtypedef_vchar.C] and its headers, with their wire format.
    - Command.v: [CStr::split], which takes management commands apart.
    - UniMsg.v: [TUniNetMsg] and the COM header and helpers
      ([include/msg/msgdef.h], [msg/msgdef_com.C], [msg/msghelper_com.C]).
    - TimerQueue.v: the timers of a container ([kernel/timerqueue.C]).
    - TransState.v, TransMachine.v: [transport/transstate.C], one transaction as
      a state machine and all transactions of a transport.  TransMachine.v uses
      ExpireBuffer.v and TimerQueue.v through their refinements.
    - TaskSelector.v: [kernel/taskselector.C], over HashTable.v (through
      Table.v), CList.v and ExpireBuffer.v, and its specification;
      SelectorRefinement.v: the proof that it implements it; TaskRouting.v: what
      follows for the routing.
    - FrameCtrl.v: [kernel/framectrl.C], the main loop, against the interface
      [Routing] of a selector, with the selector and its specification as
      instances.
    - TaskContainer.v: [task/taskcontainer.C] and [task/abstracttask.C], a thread
      with its queue, timers and tasks, over Fifo.v, TimerQueue.v and Command.v;
      the code of the tasks is an instance of [TaskCode].  ContainerRun.v: its
      invariant and what holds of its runs.
    - MsgCodec.v: the wire format of messages, COM headers and bodies
      ([msg/msgdef.C], [msg/msgdef_com.C]), written with the codecs of CStr.v;
      Uri.v: [TURI]; Regexp.v: [comserv/cregexp.C] and [comserv/cregexpele.C],
      rules parsed from a text and matched against strings; Transport.v: [transport/transport.C] and
      [transport/transportudp.C], messages as datagrams, over MsgCodec.v, Uri.v
      and the message store of TaskSelector.v.
    - RscMsg.v: resource messages ([msg/msgdef_rsc.C]); PsaRsc.v:
      [facility/psarsc/psarsctask.C], the task that carries them between hosts,
      over TransMachine.v and Transport.v; PsaRun.v: what it does with messages.
    - Mqtt.v: the packets of [facility/psamqtt/mqttmsg.C]; MqttLink.v: the two
      ends of a connection and the UDP server ([mqttlink.C], [mqttserver.C]).

    ** What the theorems show

    - Refinement: every client program over the list, the expiring buffer, the
      hash table, the strings, the transactions, the selector and the control
      thread to which its specification gives a meaning does what that says; with
      it memory safety, the absence of leaks where the destructor is modelled,
      and termination.  The specifications give no meaning to what is undefined
      in the code, and each theorem names what that is.
    - Messages: a transaction reports a response at most once and answers a
      repeated request from what it kept; the resource task is a filter of
      repeated messages, and resends nothing; the turns of a task's containers are
      fair; each message is in one queue; a queue is in order, and a container
      hands out what is queued, in order, whatever well-formed messages its tasks
      and other threads add meanwhile.
    - Timers: due timers and no others fire, in order; a deleted timer does not;
      a timer that is due when a turn starts reaches its task, and an idle
      container wakes up for the next one - except where it waits with 0 ms.
    - Events: each task of a container answers a management event once, unless
      it is a command that the container takes for itself.
    - Wire formats: what a string, a message or a URI encodes, decodes to an
      equal one, and leaves the buffer at the next byte.
    - Regular expressions: a rule without excluding classes that is written down
      is parsed back, and matching decides the strings it means; with excluding
      classes it reads behind the object.
    - Links: what a transport sends arrives at another one in order, and an
      answer to it finds its way back; a resource message goes from a task to
      the task its URI names, once; the two ends of an MQTT connection
      understand each other's packets, take them from a byte stream, and keep an
      idle connection open.
    - Errors: the undefined behaviour that the code has, each with the condition
      under which it happens (use after [clear], double deletes, over-reads,
      a command with too many words, lost transactions, a task that is never reached again, a
      start-up that does not end).

    ** Bounds and fuel

    The loops over linked structures run with the number of entries as fuel, the
    loops over strings and messages with their length; the refinement theorems
    are [wp] statements and so show that this is enough.  Counters are 32 bits
    wide where they wrap; sizes of strings and lists are assumed to stay below
    2^31, bodies of MQTT packets below 2^21, which the theorems that need it
    say.

    ** Not modelled, and why

    - Threads, locks and their interleaving: a component is used by one thread at
      a time or under its lock; Fifo.v, FrameCtrl.v and ContainerRun.v have other
      threads as steps between.  The loops of the threads and the start-up
      ([task/taskthread.C], [framemng.C]) only call what is modelled.
    - Sockets, databases, configuration: input and output around calls of code
      outside [src/] (libmysqlclient, hiredis).  Logging, except where it is
      undefined on what is modelled: the formatting of received strings into an
      array of 8096 characters (MqttLink.v) and of an [UINT] with [%s] (the
      registration of a task, TaskSelector.v and TaskContainer.v).  The text of
      the kernel's status is formatted into such an array too, and is taken to
      fit.  Formatting of other texts.
    - The generated codecs of event messages, and of all messages the access
      to fields by name, comparison where nothing uses it, printing and XML.
    - MD5 and DES: published algorithms with no specification here.  XML
      and JSON (tinyxml is vendored).
    - [_3pty]: the vendored SIP stack and network library, which make up almost
      all of the lines under [src/], and the facilities that only call them.
    - [task/mptask.C], which does not match its header. *)

From stdpp Require Export base gmap sets list strings.
From Stdlib Require Export ZArith Lia.

(** ** The state-and-undefined-behaviour monad

    A C++ member function that mutates its object is a function
    [S → option (A * S)]: [None] is undefined behaviour (a read or a write
    through a pointer that is NULL, freed or never allocated, a read of an
    uninitialised member, control running off the end of a function that must
    return a value). *)
Definition M (S A : Type) : Type := S → option (A * S).

#[export] Instance M_ret S : MRet (M S) := λ A x s, Some (x, s).
#[export] Instance M_bind S : MBind (M S) := λ A B f m s,
  match m s with Some (x, s') => f x s' | None => None end.

Definition ub {S A} : M S A := λ _, None.
Definition gets {S A} (f : S → A) : M S A := λ s, Some (f s, s).
Definition modify {S} (f : S → S) : M S unit := λ s, Some (tt, f s).

(** A value that may be undefined. *)
Definition defined {S A} (o : option A) : M S A :=
  match o with Some x => mret x | None => ub end.

(** Running a computation on a field of a larger state. *)
Definition zoom {S T A} (get : T → S) (set : S → T → T) (m : M S A) : M T A :=
  λ t, match m (get t) with Some (x, s) => Some (x, set s t) | None => None end.

Lemma bind_eq {S A B} (m : M S A) (f : A → M S B) s a s' :
  m s = Some (a, s') → (m ≫= f) s = f a s'.
Proof. intros H. unfold mbind, M_bind. by rewrite H. Qed.

Lemma bind_assoc_eq {S A B C} (m : M S A) (f : A → M S B) (g : B → M S C) s :
  ((m ≫= f) ≫= g) s = (m ≫= (λ x, f x ≫= g)) s.
Proof. unfold mbind, M_bind. by destruct (m s) as [[??]|]. Qed.

(** Taking a run of a sequence apart. *)
Lemma bind_some {S A B} (f : M S A) (g : A → M S B) s r s' : (f ≫= g) s = Some (r, s') →
  ∃ x s1, f s = Some (x, s1) ∧ g x s1 = Some (r, s').
Proof. unfold mbind, M_bind. destruct (f s) as [[x s1]|]; [|done]. intros Hg. by exists x, s1. Qed.

(** ** Machine integers *)
Definition u8 (x : Z) : Z := (x mod 2 ^ 8)%Z.
Definition u16 (x : Z) : Z := (x mod 2 ^ 16)%Z.
Definition u32 (x : Z) : Z := (x mod 2 ^ 32)%Z.
Definition u64 (x : Z) : Z := (x mod 2 ^ 64)%Z.
Definition i8 (x : Z) : Z := ((x + 2 ^ 7) mod 2 ^ 8 - 2 ^ 7)%Z.
Definition i32 (x : Z) : Z := ((x + 2 ^ 31) mod 2 ^ 32 - 2 ^ 31)%Z.

Definition is_byte (b : Z) : Prop := (0 ≤ b < 256)%Z.
#[export] Instance is_byte_dec b : Decision (is_byte b).
Proof. unfold is_byte. apply _. Defined.

Lemma u32_small x : (0 ≤ x < 2 ^ 32)%Z → u32 x = x.
Proof. apply Z.mod_small. Qed.
Lemma u32_range x : (0 ≤ u32 x < 2 ^ 32)%Z.
Proof. apply Z.mod_pos_bound. lia. Qed.

Lemma i32_small x : (- 2 ^ 31 ≤ x < 2 ^ 31)%Z → i32 x = x.
Proof. intros. unfold i32. rewrite Z.mod_small; lia. Qed.

(** ** Lists *)

(** The first position whose element satisfies the test. *)
Fixpoint find_pos {A} (P : A → bool) (l : list A) : option nat :=
  match l with
  | [] => None
  | x :: l => if P x then Some 0 else S <$> find_pos P l
  end.

Lemma find_pos_lt {A} (P : A → bool) l i : find_pos P l = Some i → i < length l.
Proof.
  revert i. induction l as [|x l IH]; intros i; simpl; [done|].
  destruct (P x); [intros [= <-]; lia|]. intros (j & Hj & ->)%fmap_Some.
  apply IH in Hj. lia.
Qed.

(** ** Pointers: [0] is NULL *)
Abbreviation ptr := N.
Abbreviation NULL := 0%N.

(** ** Total-correctness assertions

    [wp m Q s]: run from [s], [m] has no undefined behaviour, returns, and its
    result and final state satisfy [Q].  Because [None] also stands for a loop
    whose fuel ran out, a [wp] statement includes termination. *)
Definition wp {S A} (m : M S A) (Q : A → S → Prop) (s : S) : Prop :=
  match m s with Some (a, s') => Q a s' | None => False end.

Section wp.
Context {S : Type}.

Lemma wp_bind {A B} (m : M S A) (f : A → M S B) Q s :
    wp m (λ a, wp (f a) Q) s → wp (m ≫= f) Q s.
Proof. unfold wp, mbind, M_bind. destruct (m s) as [[??]|]; naive_solver. Qed.

Lemma wp_ret {A} (a : A) (Q : A → S → Prop) s : Q a s → wp (mret a) Q s.
Proof. done. Qed.

Lemma wp_gets {A} (f : S → A) (Q : A → S → Prop) s :
    Q (f s) s → wp (gets f) Q s.
Proof. done. Qed.

Lemma wp_modify (f : S → S) (Q : unit → S → Prop) s :
    Q tt (f s) → wp (modify f) Q s.
Proof. done. Qed.

Lemma wp_mono {A} (m : M S A) (Q R : A → S → Prop) s :
    wp m Q s → (∀ a s', Q a s' → R a s') → wp m R s.
Proof. unfold wp. destruct (m s) as [[??]|]; naive_solver. Qed.

Lemma wp_elim {A} (m : M S A) (Q : A → S → Prop) s :
    wp m Q s → ∃ a s', m s = Some (a, s') ∧ Q a s'.
Proof. unfold wp. destruct (m s) as [[a s']|]; naive_solver. Qed.

Lemma wp_some {A} (m : M S A) (Q : A → S → Prop) s a s' :
    m s = Some (a, s') → Q a s' → wp m Q s.
Proof. unfold wp. by intros ->. Qed.

Lemma wp_defined {A} (o : option A) a (Q : A → S → Prop) s : o = Some a → Q a s → wp (defined o) Q s.
Proof. by intros ->. Qed.

Lemma wp_zoom {T A} (get : T → S) (set : S → T → T) (m : M S A)
      (Q : A → T → Prop) t :
    wp m (λ a s', Q a (set s' t)) (get t) → wp (zoom get set m) Q t.
Proof. unfold wp, zoom. destruct (m (get t)) as [[??]|]; naive_solver. Qed.

Lemma wp_if {A} (P : Prop) `{Decision P} (m1 m2 : M S A) Q s :
    (P → wp m1 Q s) → (¬ P → wp m2 Q s) → wp (if decide P then m1 else m2) Q s.
Proof. destruct (decide P); auto. Qed.
End wp.

(** Undefined behaviour of a sequence: the first part runs, the rest fails. *)
Lemma ub_bind {S A B} (m : M S A) (f : A → M S B) s :
  wp m (λ a s', f a s' = None) s → (m ≫= f) s = None.
Proof. unfold wp, mbind, M_bind. destruct (m s) as [[??]|]; naive_solver. Qed.
Lemma ub_fail {S A B} (m : M S A) (f : A → M S B) s : m s = None → (m ≫= f) s = None.
Proof. unfold mbind, M_bind. by intros ->. Qed.

(** A [while] loop; [fuel] bounds the number of iterations, exhausting it is
    [None] (so a [wp] of a loop proves that the bound was enough). *)
Fixpoint while_loop {S} (fuel : nat) (cond : M S bool) (body : M S unit) : M S unit :=
  match fuel with
  | O => ub
  | Datatypes.S fuel =>
      c ← cond; if (c : bool) then body ;; while_loop fuel cond body else mret tt
  end.

(** The rule of a loop with a decreasing measure. *)
Lemma wp_while {S} (I : nat → S → Prop) (cond : M S bool) (body : M S unit)
    (Q : unit → S → Prop) n fuel s :
  (∀ k s, I k s → wp cond (λ c s', if (c : bool)
      then ∃ k', k = Datatypes.S k' ∧ wp body (λ _ s'', I k' s'') s' else Q tt s') s) →
  n < fuel → I n s → wp (while_loop fuel cond body) Q s.
Proof.
  intros Hstep. revert n s.
  induction fuel as [|fuel IH]; intros n s Hlt HI; [lia|].
  simpl. apply wp_bind. eapply wp_mono; [by apply (Hstep n)|].
  intros [] s'; simpl; [|by intros HQ; apply wp_ret].
  intros (k' & -> & Hbody). apply wp_bind.
  eapply wp_mono; [exact Hbody|]. intros [] s'' HI'. apply (IH k'); [lia|done].
Qed.

(** One step of symbolic execution. *)
Ltac wp_step :=
  first [ apply wp_bind | apply wp_ret | apply wp_gets | apply wp_modify ].

(** A byte string: the content of a [CStr], a [char] array or a packet. *)
Abbreviation bytes := (list Z).
(** The characters of a string literal. *)
Definition lit (s : string) : bytes := (λ a, Z.of_N (Ascii.N_of_ascii a)) <$> String.list_ascii_of_string s.
