(* ===== verification/Dll.v ===== *)
(** * Doubly linked rings on an explicit heap

    [CList] ([include/comserv/clist.h]) and [CExpireBuffer]
    ([include/comserv/cexpirebuffer.h]) both keep their entries in a circular
    doubly linked list through a sentinel entry [m_pTag].  This file has the
    heap of entries, the primitive reads and writes ([None] on a pointer that
    is not allocated), the ring invariant and its two lemmas (linking a fresh
    entry between two neighbours, unlinking an entry). *)

From S2P Require Import Prelude.

(** ** The heap of entries *)

(** [_Entry]: the value (absent in the sentinel, whose [m_value] the two
    argument constructor leaves uninitialised), [m_prev] and [m_next]. *)
Record node (E : Type) := Node { nval : option E; nprev : ptr; nnext : ptr }.
Arguments Node {E} _ _ _.
Arguments nval {E} _.
Arguments nprev {E} _.
Arguments nnext {E} _.

Abbreviation nheap E := (gmap ptr (node E)).

Definition h_next {E} (p q : ptr) : nheap E → nheap E :=
  alter (λ n, Node (nval n) (nprev n) q) p.
Definition h_prev {E} (p q : ptr) : nheap E → nheap E :=
  alter (λ n, Node (nval n) q (nnext n)) p.
Definition h_val {E} (p : ptr) (v : E) : nheap E → nheap E :=
  alter (λ n, Node (Some v) (nprev n) (nnext n)) p.

Definition nx {E} (h : nheap E) (p : ptr) : option ptr := nnext <$> h !! p.
Definition pv {E} (h : nheap E) (p : ptr) : option ptr := nprev <$> h !! p.
Definition vl {E} (h : nheap E) (p : ptr) : option E := h !! p ≫= nval.

(** An address that is neither NULL nor allocated. *)
Definition fresh_ptr {E} (h : nheap E) : ptr := fresh ({[NULL]} ∪ dom h : gset ptr).

Section heap_lemmas.
Context {E : Type}.
Implicit Types (h : nheap E) (p q x : ptr) (v : E).

Lemma nx_h_next h p q x :
    nx (h_next p q h) x = if decide (p = x) then (λ _, q) <$> nx h x else nx h x.
Proof.
    unfold nx, h_next. case_decide as Heq; [subst x|by rewrite lookup_alter_ne].
    rewrite lookup_alter_eq. by destruct (h !! p).
Qed.
Lemma nx_h_prev h p q x : nx (h_prev p q h) x = nx h x.
Proof.
    unfold nx, h_prev. destruct (decide (p = x)) as [->|]; [|by rewrite lookup_alter_ne].
    rewrite lookup_alter_eq. by destruct (h !! x).
Qed.
Lemma nx_h_val h p v x : nx (h_val p v h) x = nx h x.
Proof.
    unfold nx, h_val. destruct (decide (p = x)) as [->|]; [|by rewrite lookup_alter_ne].
    rewrite lookup_alter_eq. by destruct (h !! x).
Qed.
Lemma nx_insert h p n x :
    nx (<[p:=n]> h) x = if decide (p = x) then Some (nnext n) else nx h x.
Proof. unfold nx. case_decide; by simplify_map_eq. Qed.
Lemma nx_delete h p x :
    nx (delete p h) x = if decide (p = x) then None else nx h x.
Proof. unfold nx. case_decide; by simplify_map_eq. Qed.

Lemma pv_h_prev h p q x :
    pv (h_prev p q h) x = if decide (p = x) then (λ _, q) <$> pv h x else pv h x.
Proof.
    unfold pv, h_prev. case_decide as Heq; [subst x|by rewrite lookup_alter_ne].
    rewrite lookup_alter_eq. by destruct (h !! p).
Qed.
Lemma pv_h_next h p q x : pv (h_next p q h) x = pv h x.
Proof.
    unfold pv, h_next. destruct (decide (p = x)) as [->|]; [|by rewrite lookup_alter_ne].
    rewrite lookup_alter_eq. by destruct (h !! x).
Qed.
Lemma pv_h_val h p v x : pv (h_val p v h) x = pv h x.
Proof.
    unfold pv, h_val. destruct (decide (p = x)) as [->|]; [|by rewrite lookup_alter_ne].
    rewrite lookup_alter_eq. by destruct (h !! x).
Qed.
Lemma pv_insert h p n x :
    pv (<[p:=n]> h) x = if decide (p = x) then Some (nprev n) else pv h x.
Proof. unfold pv. case_decide; by simplify_map_eq. Qed.
Lemma pv_delete h p x :
    pv (delete p h) x = if decide (p = x) then None else pv h x.
Proof. unfold pv. case_decide; by simplify_map_eq. Qed.

Lemma vl_h_val h p v x :
    vl (h_val p v h) x = if decide (p = x) then (λ _, v) <$> h !! x else vl h x.
Proof.
    unfold vl, h_val. case_decide as Heq; [subst x|by rewrite lookup_alter_ne].
    rewrite lookup_alter_eq. by destruct (h !! p).
Qed.
Lemma vl_h_next h p q x : vl (h_next p q h) x = vl h x.
Proof.
    unfold vl, h_next. destruct (decide (p = x)) as [->|]; [|by rewrite lookup_alter_ne].
    rewrite lookup_alter_eq. by destruct (h !! x).
Qed.
Lemma vl_h_prev h p q x : vl (h_prev p q h) x = vl h x.
Proof.
    unfold vl, h_prev. destruct (decide (p = x)) as [->|]; [|by rewrite lookup_alter_ne].
    rewrite lookup_alter_eq. by destruct (h !! x).
Qed.
Lemma vl_insert h p n x :
    vl (<[p:=n]> h) x = if decide (p = x) then nval n else vl h x.
Proof. unfold vl. case_decide; by simplify_map_eq. Qed.
Lemma vl_delete h p x :
    vl (delete p h) x = if decide (p = x) then None else vl h x.
Proof. unfold vl. case_decide; by simplify_map_eq. Qed.

(** Writing the two links of an unlinking twice is the same as once. *)
Lemma unlink_idem1 h a b : h_prev b a (h_next a b (h_prev b a h)) = h_prev b a (h_next a b h).
Proof.
  apply map_eq. intros x. unfold h_prev, h_next.
  destruct (decide (b = x)) as [->|], (decide (a = x)) as [->|]; by simplify_map_eq;
    rewrite ?lookup_alter_eq; try destruct (h !! x).
Qed.
Lemma unlink_idem2 h a b : h_prev b a (h_next a b (h_next a b h)) = h_prev b a (h_next a b h).
Proof.
  apply map_eq. intros x. unfold h_prev, h_next.
  destruct (decide (b = x)) as [->|], (decide (a = x)) as [->|]; by simplify_map_eq;
    rewrite ?lookup_alter_eq; try destruct (h !! x).
Qed.

Lemma dom_h_next h p q : dom (h_next p q h) = dom h.
Proof. apply leibniz_equiv, dom_alter. Qed.
Lemma dom_h_prev h p q : dom (h_prev p q h) = dom h.
Proof. apply leibniz_equiv, dom_alter. Qed.
Lemma dom_h_val h p v : dom (h_val p v h) = dom h.
Proof. apply leibniz_equiv, dom_alter. Qed.

Lemma elem_of_dom_nx h p : p ∈ dom h ↔ is_Some (nx h p).
Proof. unfold nx. by rewrite fmap_is_Some, elem_of_dom. Qed.
Lemma elem_of_dom_pv h p : p ∈ dom h ↔ is_Some (pv h p).
Proof. unfold pv. by rewrite fmap_is_Some, elem_of_dom. Qed.

Lemma fresh_ptr_fresh h : fresh_ptr h ≠ NULL ∧ fresh_ptr h ∉ dom h.
Proof.
    unfold fresh_ptr.
    pose proof (is_fresh ({[NULL]} ∪ dom h : gset ptr)) as Hf. set_solver.
Qed.
End heap_lemmas.

Create Rewrite HintDb heap.
#[export] Hint Rewrite @nx_h_next @nx_h_prev @nx_h_val @nx_insert @nx_delete
  @pv_h_prev @pv_h_next @pv_h_val @pv_insert @pv_delete
  @vl_h_val @vl_h_next @vl_h_prev @vl_insert @vl_delete
  @dom_h_next @dom_h_prev @dom_h_val : heap.

(** ** The ring invariant *)

(** [x]'s [m_next] is [y] and [y]'s [m_prev] is [x]. *)
Definition lnk {E} (h : nheap E) (x y : ptr) : Prop :=
  nx h x = Some y ∧ pv h y = Some x.

Fixpoint linked {E} (h : nheap E) (xs : list ptr) : Prop :=
  match xs with
  | x :: (y :: _) as xs' => lnk h x y ∧ linked h xs'
  | _ => True
  end.

(** [ps] are the entries in order, [tag] the sentinel that closes the ring. *)
Record hring {E} (h : nheap E) (tag : ptr) (ps : list ptr) : Prop := {
  hr_nodup : NoDup (tag :: ps);
  hr_null : NULL ∉ tag :: ps;
  hr_linked : linked h (tag :: ps ++ [tag]);
}.

(** The neighbours of the position between [ps1] and [ps2]. *)
Definition pred_of (tag : ptr) (ps1 : list ptr) : ptr := default tag (last ps1).
Definition succ_of (tag : ptr) (ps2 : list ptr) : ptr := default tag (head ps2).

Section ring_lemmas.
Context {E : Type}.
Implicit Types (h : nheap E) (tag p x y : ptr) (xs ys ps : list ptr).

Lemma linked_app h xs a ys :
    linked h (xs ++ a :: ys) ↔ linked h (xs ++ [a]) ∧ linked h (a :: ys).
Proof.
    induction xs as [|x xs IH]; [simpl; tauto|].
    destruct xs as [|y xs]; simpl in *; [destruct ys; tauto|]. tauto.
Qed.

Lemma linked_frame h h' a xs b :
    linked h (a :: xs ++ [b]) →
    (∀ x, x ∈ a :: xs → nx h' x = nx h x) → (∀ x, x ∈ xs ++ [b] → pv h' x = pv h x) →
    linked h' (a :: xs ++ [b]).
Proof.
    revert a. induction xs as [|x xs IH]; intros a; cbn.
    - intros [[??] _] Hn Hp. split_and!; [|done]. split.
      + rewrite Hn; [done|set_solver]. + rewrite Hp; [done|set_solver].
    - intros [[??] Hl] Hn Hp. split.
      + split; [rewrite Hn|rewrite Hp]; first [done|set_solver].
      + apply IH; [done|set_solver|set_solver].
Qed.

Lemma pred_of_snoc tag xs x : pred_of tag (xs ++ [x]) = x.
Proof. unfold pred_of. by rewrite last_snoc. Qed.
Lemma succ_of_cons tag xs x : succ_of tag (x :: xs) = x.
Proof. done. Qed.

Lemma succ_of_nil tag : succ_of tag [] = tag.
Proof. done. Qed.

Lemma pred_of_app tag xs x ys : pred_of tag (xs ++ x :: ys) = pred_of tag (x :: ys).
Proof. unfold pred_of. by rewrite last_app_cons. Qed.

Lemma pred_of_elem tag ps : pred_of tag ps = tag ∨ pred_of tag ps ∈ ps.
Proof.
    unfold pred_of. destruct (last ps) as [x|] eqn:Hl; simpl; [right|by left].
    apply last_Some in Hl as [xs ->]. set_solver.
Qed.
Lemma succ_of_elem tag ps : succ_of tag ps = tag ∨ succ_of tag ps ∈ ps.
Proof. destruct ps; unfold succ_of; set_solver. Qed.

Lemma succ_of_tag tag ps : tag ∉ ps → succ_of tag ps = tag ↔ ps = [].
Proof. destruct ps; unfold succ_of; simpl; [done|]. set_solver. Qed.
Lemma pred_of_tag tag ps : tag ∉ ps → pred_of tag ps = tag ↔ ps = [].
Proof.
    destruct ps as [|x ps _] using rev_ind; [done|]. rewrite pred_of_snoc.
    split; [set_solver|]. by destruct ps.
Qed.

(** A list that ends in the sentinel's position, split at its last pointer. *)
Lemma pred_split tag ps : ∃ xs, tag :: ps = xs ++ [pred_of tag ps].
Proof.
    destruct ps as [|x ps _] using rev_ind; [by exists []|].
    exists (tag :: ps). by rewrite pred_of_snoc.
Qed.
Lemma succ_split tag ps : ∃ ys, ps ++ [tag] = succ_of tag ps :: ys.
Proof. destruct ps as [|x ps]; [by exists []|by exists (ps ++ [tag])]. Qed.

(** The two halves of a ring, cut between [ps1] and [ps2]. *)
Lemma linked_cut h tag ps1 ps2 :
    linked h (tag :: (ps1 ++ ps2) ++ [tag]) ↔
    linked h (tag :: ps1) ∧ lnk h (pred_of tag ps1) (succ_of tag ps2) ∧
    linked h (ps2 ++ [tag]).
Proof.
    destruct (pred_split tag ps1) as [xs Hxs], (succ_split tag ps2) as [ys Hys].
    rewrite <- (app_assoc ps1), app_comm_cons, Hxs, Hys, <- app_assoc. cbn [app].
    rewrite linked_app. simpl. tauto.
Qed.

Lemma hring_cut h tag ps1 ps2 :
    hring h tag (ps1 ++ ps2) → lnk h (pred_of tag ps1) (succ_of tag ps2).
Proof. intros [_ _ Hl]. by apply linked_cut in Hl as (_ & ? & _). Qed.

Lemma hring_next h tag ps1 p ps2 :
    hring h tag (ps1 ++ p :: ps2) → nx h p = Some (succ_of tag ps2).
Proof.
    intros H. rewrite cons_middle, app_assoc in H. apply hring_cut in H as [H _].
    by rewrite pred_of_snoc in H.
Qed.
Lemma hring_prev h tag ps1 p ps2 :
    hring h tag (ps1 ++ p :: ps2) → pv h p = Some (pred_of tag ps1).
Proof. intros H. by apply hring_cut in H as [_ H]. Qed.
Lemma hring_tag_next h tag ps : hring h tag ps → nx h tag = Some (succ_of tag ps).
Proof. intros H. by apply (hring_cut h tag [] ps) in H as [H _]. Qed.
Lemma hring_tag_prev h tag ps : hring h tag ps → pv h tag = Some (pred_of tag ps).
Proof.
    intros H. rewrite <- (app_nil_r ps) in H. by apply (hring_cut h tag ps []) in H as [_ H].
Qed.

(** Half of a ring is not affected by a change of the other half's links. *)
Lemma linked_left h h' tag ps1 :
    linked h (tag :: ps1) → NoDup (tag :: ps1) →
    (∀ x, x ∈ tag :: ps1 → x ≠ pred_of tag ps1 → nx h' x = nx h x) →
    (∀ x, x ∈ ps1 → pv h' x = pv h x) → linked h' (tag :: ps1).
Proof.
    intros Hl Hnd Hn Hp. destruct ps1 as [|x ps1 _] using rev_ind; [done|].
    rewrite pred_of_snoc in Hn. apply (linked_frame h); [done| |done].
    intros y Hy. apply Hn; [set_solver|]. intros ->.
    rewrite app_comm_cons in Hnd. apply NoDup_app in Hnd. set_solver.
Qed.
Lemma linked_right h h' tag ps2 :
    linked h (ps2 ++ [tag]) → NoDup (tag :: ps2) →
    (∀ x, x ∈ ps2 → nx h' x = nx h x) →
    (∀ x, x ∈ tag :: ps2 → x ≠ succ_of tag ps2 → pv h' x = pv h x) →
    linked h' (ps2 ++ [tag]).
Proof.
    intros Hl Hnd Hn Hp. destruct ps2 as [|x ps2]; [done|].
    rewrite succ_of_cons in Hp. apply (linked_frame h); [done|done|].
    intros y Hy. apply Hp; [set_solver|]. intros ->.
    apply NoDup_cons in Hnd as [? Hnd]. apply NoDup_cons in Hnd. set_solver.
Qed.

Lemma nodup_halves tag ps1 ps2 :
    NoDup (tag :: ps1 ++ ps2) →
    NoDup (tag :: ps1) ∧ NoDup (tag :: ps2) ∧
    (pred_of tag ps1 ∉ ps2) ∧ (succ_of tag ps2 ∉ ps1).
Proof.
    intros Hnd. pose proof (pred_of_elem tag ps1) as H. pose proof (succ_of_elem tag ps2) as H0.
    apply NoDup_cons in Hnd as [Htag Hnd]. apply NoDup_app in Hnd as (? & Hd & ?).
    rewrite not_elem_of_app in Htag. destruct Htag as [Htag1 Htag2].
    rewrite !NoDup_cons. split_and!; [done..| |].
    - intros Hp. destruct H as [H|H]; [by rewrite H in Hp|by apply (Hd _ H)].
    - intros Hp. destruct H0 as [H0|H0]; [by rewrite H0 in Hp|by apply (Hd _ Hp)].
Qed.

(** Linking [p] between [ps1] and [ps2]. *)
Lemma hring_insert h h' tag ps1 p ps2 :
    hring h tag (ps1 ++ ps2) → p ≠ NULL → p ∉ tag :: ps1 ++ ps2 →
    nx h' p = Some (succ_of tag ps2) → pv h' p = Some (pred_of tag ps1) →
    (∀ x, x ∈ tag :: ps1 ++ ps2 →
      nx h' x = if decide (x = pred_of tag ps1) then Some p else nx h x) →
    (∀ x, x ∈ tag :: ps1 ++ ps2 →
      pv h' x = if decide (x = succ_of tag ps2) then Some p else pv h x) →
    hring h' tag (ps1 ++ p :: ps2).
Proof.
    intros [Hnd Hnull Hl] Hp Hfresh Hpn Hpp Hn Hv.
    pose proof (nodup_halves _ _ _ Hnd) as (Hnd1 & Hnd2 & Hpred & Hsucc).
    pose proof (pred_of_elem tag ps1). pose proof (succ_of_elem tag ps2).
    apply linked_cut in Hl as (Hl1 & Hl & Hl2).
    split; [|set_solver|].
    { rewrite <- Permutation_middle, Permutation_swap. by apply NoDup_cons. }
    rewrite linked_cut. rewrite succ_of_cons. split_and!.
    - eapply linked_left; [done|done|..].
      + intros x ??. rewrite Hn by set_solver. by rewrite decide_False.
      + intros x ?. rewrite Hv by set_solver. rewrite decide_False; [done|set_solver].
    - split; [|done]. rewrite Hn by set_solver. by rewrite decide_True.
    - cbn [app]. destruct (succ_split tag ps2) as [ys Hys].
      assert (linked h' (ps2 ++ [tag])) as Hr.
      { eapply linked_right; [done|done|..].
        + intros x ?. rewrite Hn by set_solver. rewrite decide_False; [done|set_solver].
        + intros x ??. rewrite Hv by set_solver. by rewrite decide_False. }
      rewrite Hys in *. simpl. split; [|done]. split; [done|].
      rewrite Hv by set_solver. by rewrite decide_True.
Qed.

(** Unlinking [p]. *)
Lemma hring_remove h h' tag ps1 p ps2 :
    hring h tag (ps1 ++ p :: ps2) →
    (∀ x, x ∈ tag :: ps1 ++ ps2 →
      nx h' x = if decide (x = pred_of tag ps1) then Some (succ_of tag ps2) else nx h x) →
    (∀ x, x ∈ tag :: ps1 ++ ps2 →
      pv h' x = if decide (x = succ_of tag ps2) then Some (pred_of tag ps1) else pv h x) →
    hring h' tag (ps1 ++ ps2).
Proof.
    intros [Hnd Hnull Hl] Hn Hv.
    assert (NoDup (tag :: ps1 ++ ps2)) as Hnd'.
    { rewrite <- Permutation_middle, Permutation_swap in Hnd. by apply NoDup_cons in Hnd as [_ ?]. }
    pose proof (nodup_halves _ _ _ Hnd') as (Hnd1 & Hnd2 & Hpred & Hsucc).
    pose proof (pred_of_elem tag ps1). pose proof (succ_of_elem tag ps2).
    apply linked_cut in Hl as (Hl1 & Hl & Hl2).
    split; [done|set_solver|].
    rewrite linked_cut. split_and!.
    - eapply linked_left; [done|done|..].
      + intros x ??. rewrite Hn by set_solver. by rewrite decide_False.
      + intros x ?. rewrite Hv by set_solver. rewrite decide_False; [done|set_solver].
    - split; [rewrite Hn by set_solver|rewrite Hv by set_solver]; by rewrite decide_True.
    - assert (linked h (ps2 ++ [tag])) as Hr.
      { cbn in Hl2. destruct (ps2 ++ [tag]); [done|tauto]. }
      eapply linked_right; [done|done|..].
      + intros x ?. rewrite Hn by set_solver. rewrite decide_False; [done|set_solver].
      + intros x ??. rewrite Hv by set_solver. by rewrite decide_False.
Qed.

(** A heap that agrees on the links of a ring has the same ring. *)
Lemma hring_ext h h' tag ps :
    hring h tag ps → (∀ x, x ∈ tag :: ps → nx h' x = nx h x) →
    (∀ x, x ∈ tag :: ps → pv h' x = pv h x) → hring h' tag ps.
Proof.
    intros [? ? Hl] Hn Hv. split; [done|done|].
    apply (linked_frame h); [done|done|]. set_solver.
Qed.
End ring_lemmas.

(** ** The members of a list object and its primitive steps *)

(** [heap] are the entries the object has allocated and not freed. *)
Record dlist (E : Type) := DList {
  heap : nheap E; m_pTag : ptr; m_pHead : ptr; m_pTail : ptr;
  m_pCurrent : ptr; m_count : Z;
}.
Arguments DList {E} _ _ _ _ _ _.
Arguments heap {E} _.
Arguments m_pTag {E} _.
Arguments m_pHead {E} _.
Arguments m_pTail {E} _.
Arguments m_pCurrent {E} _.
Arguments m_count {E} _.

Definition upd_heap {E} (f : nheap E → nheap E) (d : dlist E) : dlist E :=
  DList (f (heap d)) (m_pTag d) (m_pHead d) (m_pTail d) (m_pCurrent d) (m_count d).
Definition set_head {E} (p : ptr) : M (dlist E) unit := modify (λ d,
  DList (heap d) (m_pTag d) p (m_pTail d) (m_pCurrent d) (m_count d)).
Definition set_tail {E} (p : ptr) : M (dlist E) unit := modify (λ d,
  DList (heap d) (m_pTag d) (m_pHead d) p (m_pCurrent d) (m_count d)).
Definition set_cur {E} (p : ptr) : M (dlist E) unit := modify (λ d,
  DList (heap d) (m_pTag d) (m_pHead d) (m_pTail d) p (m_count d)).
Definition set_count {E} (n : Z) : M (dlist E) unit := modify (λ d,
  DList (heap d) (m_pTag d) (m_pHead d) (m_pTail d) (m_pCurrent d) n).

(** [p->m_next], [p->m_prev], [p->m_value] as an rvalue. *)
Definition next_of {E} (p : ptr) : M (dlist E) ptr := λ d,
  match nx (heap d) p with Some q => Some (q, d) | None => None end.
Definition prev_of {E} (p : ptr) : M (dlist E) ptr := λ d,
  match pv (heap d) p with Some q => Some (q, d) | None => None end.
Definition value_of {E} (p : ptr) : M (dlist E) E := λ d,
  match vl (heap d) p with Some v => Some (v, d) | None => None end.

(** [p->m_next = q], [p->m_prev = q], [p->m_value = v], [delete p]: all need an
    allocated [p]. *)
Definition on_alloc {E} (p : ptr) (f : nheap E → nheap E) : M (dlist E) unit := λ d,
  if decide (p ∈ dom (heap d)) then Some (tt, upd_heap f d) else None.
Definition set_next {E} (p q : ptr) : M (dlist E) unit := on_alloc p (h_next p q).
Definition set_prev {E} (p q : ptr) : M (dlist E) unit := on_alloc p (h_prev p q).
Definition set_value {E} (p : ptr) (v : E) : M (dlist E) unit := on_alloc p (h_val p v).
Definition free {E} (p : ptr) : M (dlist E) unit := on_alloc p (delete p).

(** [new _Entry(value, prev, next)]. *)
Definition new_entry {E} (v : E) (prev next : ptr) : M (dlist E) ptr := λ d,
  let p := fresh_ptr (heap d) in
  Some (p, upd_heap (<[p := Node (Some v) prev next]>) d).

(** The sentinel-only object the constructors build: [new _Entry(NULL, NULL)],
    then every member and both links of the sentinel point to it. *)
Definition init {E} : dlist E :=
  let tag := fresh_ptr (∅ : nheap E) in
  DList {[tag := Node None tag tag]} tag tag tag tag 0.

(** [ring d ps l]: the entries of [d] are [ps], in order, and hold [l]; nothing
    else is allocated. *)
Record ring {E} (d : dlist E) (ps : list ptr) (l : list E) : Prop := {
  rg_ring : hring (heap d) (m_pTag d) ps;
  rg_dom : dom (heap d) = list_to_set (m_pTag d :: ps);
  rg_vals : Forall2 (λ p v, vl (heap d) p = Some v) ps l;
  rg_head : m_pHead d = succ_of (m_pTag d) ps;
  rg_tail : m_pTail d = pred_of (m_pTag d) ps;
}.

(** The cursor: position [i] of the list, or the sentinel. *)
Definition cursor (tag : ptr) (ps : list ptr) (c : option nat) (p : ptr) : Prop :=
  match c with None => p = tag | Some i => ps !! i = Some p end.

Section prim_lemmas.
Context {E : Type}.
Implicit Types (d : dlist E) (p q : ptr) (v : E).

Lemma wp_next_of p q (Q : ptr → dlist E → Prop) d :
    nx (heap d) p = Some q → Q q d → wp (next_of p) Q d.
Proof. unfold wp, next_of. by intros ->. Qed.
Lemma wp_prev_of p q (Q : ptr → dlist E → Prop) d :
    pv (heap d) p = Some q → Q q d → wp (prev_of p) Q d.
Proof. unfold wp, prev_of. by intros ->. Qed.
Lemma wp_value_of p v (Q : E → dlist E → Prop) d :
    vl (heap d) p = Some v → Q v d → wp (value_of p) Q d.
Proof. unfold wp, value_of. by intros ->. Qed.
Lemma wp_on_alloc p f (Q : unit → dlist E → Prop) d :
    p ∈ dom (heap d) → Q tt (upd_heap f d) → wp (on_alloc p f) Q d.
Proof. unfold wp, on_alloc. intros. by rewrite decide_True. Qed.
Lemma wp_new_entry v a b (Q : ptr → dlist E → Prop) d :
    (∀ p, p ≠ NULL → p ∉ dom (heap d) →
      Q p (upd_heap (<[p := Node (Some v) a b]>) d)) → wp (new_entry v a b) Q d.
Proof.
    intros HQ. unfold wp, new_entry.
    destruct (fresh_ptr_fresh (heap d)). by apply HQ.
Qed.

Lemma ring_length d ps l : ring d ps l → length ps = length l.
Proof. intros H. by eapply Forall2_length, rg_vals. Qed.

Lemma ring_not_elem d ps l p : ring d ps l → p ∉ dom (heap d) → p ∉ m_pTag d :: ps.
Proof. intros [_ Hd _ _ _]. rewrite Hd, not_elem_of_list_to_set. done. Qed.

Lemma ring_tag_nelem d ps l : ring d ps l → m_pTag d ∉ ps.
Proof. intros [[Hnd _ _] _ _ _ _]. by apply NoDup_cons in Hnd as [? _]. Qed.

Lemma vals_frame (h h' : nheap E) ps l :
    Forall2 (λ p v, vl h p = Some v) ps l → (∀ x, x ∈ ps → vl h' x = vl h x) →
    Forall2 (λ p v, vl h' p = Some v) ps l.
Proof.
    intros H. induction H as [|p v ps l Hp _ IH]; intros Hx; constructor.
    - rewrite Hx; [done|set_solver].
    - apply IH. set_solver.
Qed.

(** The ring lemmas, with the allocation and value parts carried along. *)
Lemma ring_insert d d' ps1 ps2 l1 l2 p v :
    ring d (ps1 ++ ps2) (l1 ++ l2) → length ps1 = length l1 →
    p ≠ NULL → p ∉ dom (heap d) → m_pTag d' = m_pTag d →
    nx (heap d') p = Some (succ_of (m_pTag d) ps2) →
    pv (heap d') p = Some (pred_of (m_pTag d) ps1) →
    vl (heap d') p = Some v →
    (∀ x, x ≠ p → nx (heap d') x =
      if decide (x = pred_of (m_pTag d) ps1) then Some p else nx (heap d) x) →
    (∀ x, x ≠ p → pv (heap d') x =
      if decide (x = succ_of (m_pTag d) ps2) then Some p else pv (heap d) x) →
    (∀ x, x ≠ p → vl (heap d') x = vl (heap d) x) →
    dom (heap d') = {[p]} ∪ dom (heap d) →
    m_pHead d' = succ_of (m_pTag d) (ps1 ++ p :: ps2) →
    m_pTail d' = pred_of (m_pTag d) (ps1 ++ p :: ps2) →
    ring d' (ps1 ++ p :: ps2) (l1 ++ v :: l2).
Proof.
    intros Hr Hlen Hp Hf Ht Hn Hv Hvl Hnx Hpv Hval Hdom Hhd Htl.
    pose proof (ring_not_elem _ _ _ _ Hr Hf) as Hne.
    destruct Hr as [Hr Hd Hvals _ _]. split; rewrite ?Ht; [| | |done|done].
    - eapply hring_insert; [done..| |]; intros x ?; [apply Hnx|apply Hpv]; set_solver.
    - rewrite Hdom, Hd. set_solver.
    - apply Forall2_app_inv in Hvals as [Hv1 Hv2]; [|done].
      apply Forall2_app; [|constructor; [done|]];
        eapply vals_frame; try done; intros x ?; apply Hval; set_solver.
Qed.

Lemma ring_remove d d' ps1 p ps2 l1 v l2 :
    ring d (ps1 ++ p :: ps2) (l1 ++ v :: l2) → length ps1 = length l1 →
    m_pTag d' = m_pTag d →
    (∀ x, x ≠ p → nx (heap d') x = if decide (x = pred_of (m_pTag d) ps1)
      then Some (succ_of (m_pTag d) ps2) else nx (heap d) x) →
    (∀ x, x ≠ p → pv (heap d') x = if decide (x = succ_of (m_pTag d) ps2)
      then Some (pred_of (m_pTag d) ps1) else pv (heap d) x) →
    (∀ x, x ≠ p → vl (heap d') x = vl (heap d) x) →
    dom (heap d') = dom (heap d) ∖ {[p]} →
    m_pHead d' = succ_of (m_pTag d) (ps1 ++ ps2) →
    m_pTail d' = pred_of (m_pTag d) (ps1 ++ ps2) →
    ring d' (ps1 ++ ps2) (l1 ++ l2).
Proof.
    intros Hr Hlen Ht Hnx Hpv Hval Hdom Hhd Htl.
    destruct Hr as [Hr Hd Hvals _ _].
    assert (p ∉ m_pTag d :: ps1 ++ ps2) as Hp.
    { pose proof (hr_nodup _ _ _ Hr) as Hnd.
      rewrite <- Permutation_middle, Permutation_swap in Hnd. by apply NoDup_cons in Hnd as [? _]. }
    split; rewrite ?Ht; [| | |done|done].
    - eapply hring_remove; [done|..]; intros x ?; [apply Hnx|apply Hpv]; set_solver.
    - rewrite Hdom, Hd. set_solver.
    - apply Forall2_app_inv in Hvals as [Hv1 Hv2]; [|done].
      apply Forall2_cons_1 in Hv2 as [_ Hv2].
      apply Forall2_app; eapply vals_frame; try done; intros x ?; apply Hval; set_solver.
Qed.

(** Only the cursor or the count changed. *)
Lemma ring_members d d' ps l :
    ring d ps l → heap d' = heap d → m_pTag d' = m_pTag d → m_pHead d' = m_pHead d →
    m_pTail d' = m_pTail d → ring d' ps l.
Proof. intros [] Hh Ht Hhd Htl. split; rewrite ?Hh, ?Ht, ?Hhd, ?Htl; done. Qed.

Lemma init_ring : ring (init : dlist E) [] [].
Proof.
    unfold init. set (tag := fresh_ptr ∅).
    assert (tag ≠ NULL) by apply (fresh_ptr_fresh (∅ : nheap E)).
    split; simpl; [|by rewrite dom_singleton_L; set_solver|constructor|done|done].
    split; [by apply NoDup_singleton|set_solver|].
    simpl. unfold lnk, nx, pv. by rewrite lookup_singleton_eq.
Qed.

(** Splitting a ring at the cursor. *)
Lemma ring_split d ps l i p :
    ring d ps l → ps !! i = Some p → ∃ ps1 ps2 l1 v l2,
      ps = ps1 ++ p :: ps2 ∧ l = l1 ++ v :: l2 ∧ length ps1 = i ∧ length l1 = i ∧
      vl (heap d) p = Some v ∧
      nx (heap d) p = Some (succ_of (m_pTag d) ps2) ∧
      pv (heap d) p = Some (pred_of (m_pTag d) ps1) ∧ p ∈ dom (heap d).
Proof.
    intros Hr Hi. pose proof (ring_length _ _ _ Hr) as Hlen.
    destruct (lookup_lt_is_Some_2 l i) as [v Hv].
    { rewrite <- Hlen. by eapply lookup_lt_Some. }
    exists (take i ps), (drop (S i) ps), (take i l), v, (drop (S i) l).
    pose proof (take_drop_middle ps i p Hi) as Hps.
    pose proof (lookup_lt_Some _ _ _ Hi). pose proof (lookup_lt_Some _ _ _ Hv).
    destruct Hr as [Hr Hd Hvals _ _].
    pose proof (Forall2_lookup_lr _ _ _ _ _ _ Hvals Hi Hv) as Hvl. simpl in Hvl.
    rewrite <- Hps in Hr at 1.
    rewrite Hps, (take_drop_middle l i v Hv), !length_take.
    split_and!; [done|done|lia|lia|done|by eapply hring_next|by eapply hring_prev|].
    rewrite Hd. apply elem_of_list_to_set, list_elem_of_further. by eapply list_elem_of_lookup_2.
Qed.
End prim_lemmas.

(** Evaluating links and values in a concrete updated heap. *)
Ltac heap_simpl :=
  cbn in *; autorewrite with heap in *; cbn in *;
  repeat (case_decide; simplify_eq/=; try done; try congruence).

(** Closes a link equation of an updated heap ([ring_insert], [ring_remove]):
    compute the update, split on pointer equalities, use the known links. *)
Ltac link_solve :=
  intros; cbn; autorewrite with heap; cbn;
  repeat (case_decide; simplify_eq/=; try done; try congruence);
  repeat match goal with
  | H : nx ?h ?x = Some _ |- context [nx ?h ?x] => rewrite H; cbn
  | H : pv ?h ?x = Some _ |- context [pv ?h ?x] => rewrite H; cbn
  end;
  try done; try congruence; try set_solver.

Lemma dom_of_nx {E} (h : nheap E) p q : nx h p = Some q → p ∈ dom h.
Proof. rewrite elem_of_dom_nx. eauto. Qed.
Lemma dom_of_pv {E} (h : nheap E) p q : pv h p = Some q → p ∈ dom h.
Proof. rewrite elem_of_dom_pv. eauto. Qed.

Lemma ring_dom {E} (d : dlist E) ps l p :
  ring d ps l → p ∈ dom (heap d) ↔ p = m_pTag d ∨ p ∈ ps.
Proof. intros [_ -> _ _ _]. set_solver. Qed.

Lemma ring_succ_dom {E} (d : dlist E) ps1 ps2 l :
  ring d (ps1 ++ ps2) l → succ_of (m_pTag d) ps2 ∈ dom (heap d).
Proof. intros H. rewrite (ring_dom _ _ _ _ H). destruct (succ_of_elem (m_pTag d) ps2); set_solver. Qed.
Lemma ring_pred_dom {E} (d : dlist E) ps1 ps2 l :
  ring d (ps1 ++ ps2) l → pred_of (m_pTag d) ps1 ∈ dom (heap d).
Proof. intros H. rewrite (ring_dom _ _ _ _ H). destruct (pred_of_elem (m_pTag d) ps1); set_solver. Qed.

Ltac dl_cbn := cbn [heap m_pTag m_pHead m_pTail m_pCurrent m_count upd_heap
  nval nprev nnext fst snd].

(** Symbolic execution of straight-line code over [dlist]; allocation and link
    side conditions are looked up in the context. *)
Ltac wp_alloc := dl_cbn; autorewrite with heap;
  first [ solve [eauto using dom_of_nx, dom_of_pv]
        | rewrite ?dom_delete_L, ?dom_insert_L; solve [set_solver] ].
Ltac wp_read := dl_cbn; autorewrite with heap;
  repeat (rewrite decide_True by done || rewrite decide_False by congruence);
  repeat match goal with
  | H : nx ?h ?x = Some _ |- context [nx ?h ?x] => rewrite H; cbn
  | H : pv ?h ?x = Some _ |- context [pv ?h ?x] => rewrite H; cbn
  | H : vl ?h ?x = Some _ |- context [vl ?h ?x] => rewrite H; cbn
  end; reflexivity.
Ltac wp_run :=
  dl_cbn;
  repeat (lazymatch goal with
    | |- wp (_ ≫= _) _ _ => apply wp_bind
    | |- wp (mret _) _ _ => apply wp_ret
    | |- wp (zoom _ _ _) _ _ => apply wp_zoom
    | |- wp (modify _) _ _ => apply wp_modify
    | |- wp (gets _) _ _ => apply wp_gets
    | |- wp (set_cur _) _ _ => apply wp_modify
    | |- wp (set_head _) _ _ => apply wp_modify
    | |- wp (set_tail _) _ _ => apply wp_modify
    | |- wp (set_count _) _ _ => apply wp_modify
    | |- wp (next_of _) _ _ => eapply wp_next_of; [wp_read|]
    | |- wp (prev_of _) _ _ => eapply wp_prev_of; [wp_read|]
    | |- wp (value_of _) _ _ => eapply wp_value_of; [wp_read|]
    | |- wp (set_next _ _) _ _ => apply wp_on_alloc; [wp_alloc|]
    | |- wp (set_prev _ _) _ _ => apply wp_on_alloc; [wp_alloc|]
    | |- wp (set_value _ _) _ _ => apply wp_on_alloc; [wp_alloc|]
    | |- wp (free _) _ _ => apply wp_on_alloc; [wp_alloc|]
    | |- wp (new_entry _ _ _) _ _ => apply wp_new_entry; intros ???
    | |- wp (if decide ?P then _ else _) _ _ =>
        first [rewrite (decide_True (P:=P)) by (first [done | lia | tauto])
              |rewrite (decide_False (P:=P)) by (first [congruence | lia | tauto])]
    end; dl_cbn).

(** ** The four structural updates

    What [pop_front], [pop_back], [push_front], [push_back] and the removal or
    insertion in the middle leave behind; shared by the two list classes. *)
Section updates.
Context {E : Type}.
Implicit Types (d : dlist E) (p q : ptr) (v : E).

Lemma ring_facts d ps1 p ps2 l :
    ring d (ps1 ++ p :: ps2) l →
    p ∉ ps1 ∧ p ∉ ps2 ∧ p ≠ m_pTag d ∧
    p ≠ pred_of (m_pTag d) ps1 ∧ p ≠ succ_of (m_pTag d) ps2 ∧
    nx (heap d) p = Some (succ_of (m_pTag d) ps2) ∧
    pv (heap d) p = Some (pred_of (m_pTag d) ps1) ∧ p ∈ dom (heap d) ∧
    pred_of (m_pTag d) ps1 ∈ dom (heap d) ∧ succ_of (m_pTag d) ps2 ∈ dom (heap d).
Proof.
    intros Hr. pose proof (hr_nodup _ _ _ (rg_ring _ _ _ Hr)) as Hnd.
    apply NoDup_cons in Hnd as [Ht Hnd]. apply NoDup_app in Hnd as (_ & Hd & Hnd).
    apply NoDup_cons in Hnd as [Hp _].
    assert (p ∉ ps1) by (intros Hx; eapply Hd; [done|set_solver]).
    pose proof (pred_of_elem (m_pTag d) ps1). pose proof (succ_of_elem (m_pTag d) ps2).
    pose proof (ring_succ_dom d ps1 (p :: ps2) l Hr).
    pose proof (ring_pred_dom d ps1 (p :: ps2) l Hr).
    assert (p ≠ m_pTag d) by (intros ->; set_solver).
    split_and!; try done; try (intros ->; set_solver).
    - by eapply hring_next, rg_ring.
    - by eapply hring_prev, rg_ring.
    - eapply (ring_succ_dom d (ps1 ++ [p]) ps2). rewrite <- app_assoc. done.
Qed.

Lemma ring_tag_facts d ps l :
    ring d ps l → m_pTag d ∉ ps ∧ m_pTag d ∈ dom (heap d) ∧ m_pTag d ≠ NULL ∧
    nx (heap d) (m_pTag d) = Some (m_pHead d) ∧ pv (heap d) (m_pTag d) = Some (m_pTail d) ∧
    m_pHead d ∈ dom (heap d) ∧ m_pTail d ∈ dom (heap d).
Proof.
    intros Hr. pose proof (hring_tag_next _ _ _ (rg_ring _ _ _ Hr)) as Hn.
    pose proof (hring_tag_prev _ _ _ (rg_ring _ _ _ Hr)) as Hp.
    pose proof (ring_succ_dom d [] ps l Hr) as Hs.
    rewrite <- (app_nil_r ps) in Hr. pose proof (ring_pred_dom d ps [] l Hr) as Hpr.
    rewrite app_nil_r in Hr. rewrite <- (rg_head _ _ _ Hr), <- (rg_tail _ _ _ Hr) in *.
    pose proof (hr_null _ _ _ (rg_ring _ _ _ Hr)).
    split_and!; try done; [by eapply ring_tag_nelem|eauto using dom_of_nx|set_solver].
Qed.

(** Unlinking the entry between [ps1] and [ps2], in either order of writes. *)
Lemma ring_unlink d d' ps1 p ps2 l1 v l2 (a := pred_of (m_pTag d) ps1)
      (b := succ_of (m_pTag d) ps2) :
    ring d (ps1 ++ p :: ps2) (l1 ++ v :: l2) → length ps1 = length l1 →
    m_pTag d' = m_pTag d →
    (heap d' = delete p (h_next a b (h_prev b a (heap d))) ∨
     heap d' = h_next a b (h_prev b a (delete p (heap d))) ∨
     heap d' = delete p (h_prev b a (h_next a b (heap d))) ∨
     heap d' = h_prev b a (h_next a b (delete p (heap d)))) →
    m_pHead d' = succ_of (m_pTag d) (ps1 ++ ps2) →
    m_pTail d' = pred_of (m_pTag d) (ps1 ++ ps2) →
    ring d' (ps1 ++ ps2) (l1 ++ l2).
Proof.
    intros Hr Hlen Ht Hh Hhd Htl. subst a b.
    pose proof (ring_facts _ _ _ _ _ Hr) as (? & ? & ? & ? & ? & ? & ? & ? & Ha & Hb).
    apply elem_of_dom_nx in Ha as [? Ha]. apply elem_of_dom_pv in Hb as [? Hb].
    eapply (ring_remove d d' ps1 p ps2); try done;
      destruct Hh as [->|[->|[->| ->]]]; link_solve; by rewrite dom_delete_L; autorewrite with heap.
Qed.

(** Linking a fresh entry between [ps1] and [ps2]. *)
Lemma ring_link d d' ps1 p ps2 l1 v l2 (a := pred_of (m_pTag d) ps1)
      (b := succ_of (m_pTag d) ps2) :
    ring d (ps1 ++ ps2) (l1 ++ l2) → length ps1 = length l1 →
    p ≠ NULL → p ∉ dom (heap d) → m_pTag d' = m_pTag d →
    (heap d' = h_next a p (h_prev b p (<[p := Node (Some v) a b]> (heap d))) ∨
     heap d' = h_prev b p (h_next a p (<[p := Node (Some v) a b]> (heap d)))) →
    m_pHead d' = succ_of (m_pTag d) (ps1 ++ p :: ps2) →
    m_pTail d' = pred_of (m_pTag d) (ps1 ++ p :: ps2) →
    ring d' (ps1 ++ p :: ps2) (l1 ++ v :: l2).
Proof.
    intros Hr Hlen Hp Hf Ht Hh Hhd Htl. subst a b.
    pose proof (ring_succ_dom d _ _ _ Hr) as Hb. pose proof (ring_pred_dom d _ _ _ Hr) as Ha.
    assert (pred_of (m_pTag d) ps1 ≠ p) by (by intros <-).
    assert (succ_of (m_pTag d) ps2 ≠ p) by (by intros <-).
    apply elem_of_dom_nx in Ha as [? Ha]. apply elem_of_dom_pv in Hb as [? Hb].
    eapply (ring_insert d d' ps1 ps2); try done;
      destruct Hh as [-> | ->]; link_solve; by rewrite dom_insert_L.
Qed.

(** The same at the tail. *)
Lemma ring_unlink_last d d' ps p l v (tag := m_pTag d) (a := pred_of tag ps) :
    ring d (ps ++ [p]) (l ++ [v]) → m_pTag d' = tag →
    (heap d' = delete p (h_prev tag a (h_next a tag (heap d))) ∨
     heap d' = h_prev tag a (h_next a tag (delete p (heap d)))) →
    m_pHead d' = succ_of tag ps → m_pTail d' = pred_of tag ps → ring d' ps l.
Proof.
    intros Hr Ht Hh Hhd Htl.
    pose proof (ring_unlink d d' ps p [] l v []) as Hx. rewrite !app_nil_r in Hx.
    apply Hx; try done; [|tauto].
    apply ring_length in Hr. rewrite !length_app in Hr. cbn in Hr. lia.
Qed.
Lemma ring_link_last d d' ps p l v (tag := m_pTag d) (a := pred_of tag ps) :
    ring d ps l → p ≠ NULL → p ∉ dom (heap d) → m_pTag d' = tag →
    (heap d' = h_next a p (h_prev tag p (<[p := Node (Some v) a tag]> (heap d))) ∨
     heap d' = h_prev tag p (h_next a p (<[p := Node (Some v) a tag]> (heap d)))) →
    m_pHead d' = succ_of tag (ps ++ [p]) → m_pTail d' = p → ring d' (ps ++ [p]) (l ++ [v]).
Proof.
    intros Hr Hp Hf Ht Hh Hhd Htl. apply (ring_link d d' ps p [] l v []); rewrite ?app_nil_r; try done.
    - by eapply ring_length.
    - by rewrite pred_of_snoc.
Qed.

(** Moving an entry to the tail, its value rewritten on the way. *)
Lemma ring_move_last d d' ps1 p ps2 l1 v l2 w (tag := m_pTag d)
    (a := pred_of tag ps1) (b := succ_of tag ps2) :
  ring d (ps1 ++ p :: ps2) (l1 ++ v :: l2) → length ps1 = length l1 → ps2 ≠ [] →
  m_pTag d' = tag →
  heap d' = h_prev p (m_pTail d) (h_next p tag (h_prev tag p (h_next (m_pTail d) p
    (h_prev b a (h_next a b (h_val p w (heap d))))))) →
  m_pHead d' = succ_of tag (ps1 ++ ps2 ++ [p]) → m_pTail d' = p →
  ring d' (ps1 ++ ps2 ++ [p]) (l1 ++ l2 ++ [w]).
Proof.
  intros Hr Hlen Hne Ht Hh Hhd Htl. subst a b.
  pose proof (ring_facts _ _ _ _ _ Hr) as (? & ? & ? & ? & ? & Hn & Hp & Hd & Ha & Hb).
  pose proof (ring_tag_facts _ _ _ Hr) as (_ & Htd & _).
  pose proof (hr_null _ _ _ (rg_ring _ _ _ Hr)) as Hnull.
  assert (m_pTail d = pred_of tag (ps1 ++ ps2)) as Htl'.
  { rewrite (rg_tail _ _ _ Hr). destruct ps2 as [|q ps2 _] using rev_ind; [done|].
    by rewrite app_comm_cons, !app_assoc, !pred_of_snoc. }
  assert (m_pTail d ∈ ps2) as Hin.
  { rewrite (rg_tail _ _ _ Hr). destruct ps2 as [|q ps2 _] using rev_ind; [done|].
    rewrite app_comm_cons, !app_assoc, pred_of_snoc. set_solver. }
  assert (m_pTail d ∈ dom (heap d)) as Htld by (apply (ring_dom _ _ _ _ Hr); set_solver).
  assert (m_pTail d ≠ p) by (intros <-; done).
  set (h1 := h_prev (succ_of tag ps2) (pred_of tag ps1)
    (h_next (pred_of tag ps1) (succ_of tag ps2) (h_val p w (heap d)))) in *.
  apply elem_of_dom_nx in Ha as [za Ha]. apply elem_of_dom_pv in Hb as [zb Hb].
  assert (∀ x, x ≠ p → nx h1 x = if decide (x = pred_of tag ps1)
    then Some (succ_of tag ps2) else nx (heap d) x) as Hn1 by (unfold h1; link_solve).
  assert (∀ x, x ≠ p → pv h1 x = if decide (x = succ_of tag ps2)
    then Some (pred_of tag ps1) else pv (heap d) x) as Hp1 by (unfold h1; link_solve).
  assert (hring h1 tag (ps1 ++ ps2)) as Hr1.
  { eapply hring_remove; [apply Hr|..]; intros x Hx; [apply Hn1|apply Hp1]; set_solver. }
  assert (dom h1 = dom (heap d)) as Hd1 by (unfold h1; by autorewrite with heap).
  assert (nx h1 p = nx (heap d) p) as Hnp by (unfold h1; link_solve).
  assert (pv h1 p = pv (heap d) p) as Hpp by (unfold h1; link_solve).
  split; rewrite ?Ht.
  - rewrite app_assoc. eapply (hring_insert h1); rewrite ?app_nil_r.
    + done.
    + set_solver.
    + set_solver.
    + rewrite Hh. autorewrite with heap. rewrite decide_True, decide_False by done.
      by rewrite Hnp, Hn.
    + rewrite Hh, <- Htl'. autorewrite with heap. rewrite decide_True, decide_False by done.
      by rewrite Hpp, Hp.
    + intros x Hx. assert (x ≠ p) by (intros ->; set_solver).
      rewrite Hh, <- Htl'. autorewrite with heap. rewrite decide_False by done.
      destruct (decide (x = m_pTail d)) as [->|]; [|by rewrite !decide_False].
      rewrite !decide_True by done. apply elem_of_dom_nx in Htld as [z Hz].
      rewrite Hn1, Hz by done. by case_decide.
    + intros x Hx. assert (x ≠ p) by (intros ->; set_solver).
      rewrite Hh. autorewrite with heap. rewrite decide_False by done.
      destruct (decide (x = tag)) as [->|]; [|by rewrite !decide_False].
      rewrite !decide_True by done. apply elem_of_dom_pv in Htd as [z Hz]. fold tag in Hz.
      rewrite Hp1, Hz by done. by case_decide.
  - rewrite Hh. autorewrite with heap. rewrite Hd1, (rg_dom _ _ _ Hr). set_solver.
  - pose proof (rg_vals _ _ _ Hr) as Hv. apply Forall2_app_inv in Hv as [Hv1 Hv2]; [|done].
    apply Forall2_cons_1 in Hv2 as [Hv0 Hv2].
    apply Forall2_app; [|apply Forall2_app; [|constructor; [|constructor]]].
    + eapply vals_frame; [done|]. intros x Hx. rewrite Hh. subst h1. autorewrite with heap.
      by rewrite decide_False by (intros ->; done).
    + eapply vals_frame; [done|]. intros x Hx. rewrite Hh. subst h1. autorewrite with heap.
      by rewrite decide_False by (intros ->; done).
    + rewrite Hh. subst h1. autorewrite with heap. rewrite decide_True by done.
      apply elem_of_dom in Hd as [z Hz]. by rewrite Hz.
  - done.
  - by rewrite Htl, app_assoc, pred_of_snoc.
Qed.

(** Rewriting the value of an entry in place. *)
Lemma ring_set_value d d' ps1 p ps2 l1 v l2 w :
  ring d (ps1 ++ p :: ps2) (l1 ++ v :: l2) → length ps1 = length l1 →
  heap d' = h_val p w (heap d) → m_pTag d' = m_pTag d → m_pHead d' = m_pHead d →
  m_pTail d' = m_pTail d → ring d' (ps1 ++ p :: ps2) (l1 ++ w :: l2).
Proof.
  intros Hr Hlen Hh Ht Hhd Htl.
  pose proof (ring_facts _ _ _ _ _ Hr) as (Hp1 & Hp2 & _ & _ & _ & _ & _ & Hd & _).
  destruct Hr as [Hr Hdom Hv Hh' Ht']. split; rewrite ?Ht, ?Hhd, ?Htl; [| | |done|done].
  - eapply hring_ext; [done|..]; intros; rewrite Hh; by autorewrite with heap.
  - rewrite Hh. by autorewrite with heap.
  - rewrite Hh. apply Forall2_app_inv in Hv as [Hv1 Hv2]; [|done].
    apply Forall2_cons_1 in Hv2 as [_ Hv2].
    apply Forall2_app; [|constructor].
    + eapply vals_frame; [done|]. intros x Hx. autorewrite with heap.
      by rewrite decide_False by (intros ->; done).
    + autorewrite with heap. rewrite decide_True by done. apply elem_of_dom in Hd as [z Hz]. by rewrite Hz.
    + eapply vals_frame; [done|]. intros x Hx. autorewrite with heap.
      by rewrite decide_False by (intros ->; done).
Qed.
End updates.

Lemma h_val_idem {E} (h : nheap E) p v w : h_val p w (h_val p v h) = h_val p w h.
Proof.
  apply map_eq. intros x. unfold h_val.
  destruct (decide (p = x)) as [->|]; [|by rewrite !lookup_alter_ne].
  rewrite !lookup_alter_eq. by destruct (h !! x).
Qed.
