(* ===== verification/CList.v ===== *)
(** * [CList<TValue>] ([include/comserv/clist.h])

    The doubly linked list with an internal cursor ([m_pCurrent]) on the heap
    of [Dll.v].  Every member function is a computation on the object's state;
    the specification is a list with an optional cursor position, and each
    operation is proved to refine its list-level function ([crepr_*]). *)

From S2P Require Import Prelude Dll.

(** ** Operations *)
Section operations.
Context {E : Type}.
(** [TValue]'s [==], [>=] and [<=]. *)
Variable eqb geb leb : E → E → bool.

  Local Abbreviation L := (M (dlist E)).

(** Enough iterations for a walk over all entries and back to the sentinel. *)
Definition walk_fuel (d : dlist E) : nat := S (S (size (heap d))).

Definition ishead : L bool :=
  cur ← gets m_pCurrent; tag ← gets m_pTag;
  if decide (cur = tag) then mret false
  else p ← prev_of cur; mret (bool_decide (p = tag)).

Definition istail : L bool :=
  cur ← gets m_pCurrent; tag ← gets m_pTag;
  if decide (cur = tag) then mret false
  else p ← next_of cur; mret (bool_decide (p = tag)).

Definition empty_ : L bool :=
  n ← gets m_count; if decide (0 < n)%Z then mret false else mret true.

Definition count : L Z := gets m_count.

Definition front : L bool :=
  n ← gets m_count; hd ← gets m_pHead; tag ← gets m_pTag;
  if decide (0 < n ∧ hd ≠ tag)%Z then set_cur hd ;; mret true else mret false.

Definition front_v : L (option E) :=
  b ← front;
  if (b : bool) then hd ← gets m_pHead; v ← value_of hd; mret (Some v)
  else mret None.

Definition front_r : L E := hd ← gets m_pHead; value_of hd.

Definition back : L bool :=
  n ← gets m_count; tl ← gets m_pTail; tag ← gets m_pTag;
  if decide (0 < n ∧ tl ≠ tag)%Z then set_cur tl ;; mret true else mret false.

Definition back_r : L E := tl ← gets m_pTail; value_of tl.

Definition back_v : L (option E) :=
  b ← back;
  if (b : bool) then tl ← gets m_pTail; v ← value_of tl; mret (Some v)
  else mret None.

Definition pop_front : L Z :=
  n ← gets m_count;
  (if decide (0 < n)%Z then
    hd ← gets m_pHead; tag ← gets m_pTag;
    c ← next_of hd; set_cur c ;;
    set_prev c tag ;;
    set_next tag c ;;
    free hd ;;
    set_head c ;;
    set_count (i32 (n - 1)) ;;
    n' ← gets m_count;
    if decide (n' = 0)%Z then set_tail tag else mret tt
  else mret tt) ;;
  n ← gets m_count; mret (u32 n).

Definition pop_back : L Z :=
  n ← gets m_count;
  (if decide (0 < n)%Z then
    tl ← gets m_pTail; tag ← gets m_pTag;
    c ← prev_of tl; set_cur c ;;
    set_next c tag ;;
    set_prev tag c ;;
    free tl ;;
    set_tail c ;;
    set_count (i32 (n - 1)) ;;
    n' ← gets m_count;
    if decide (n' = 0)%Z then set_head tag else mret tt
  else mret tt) ;;
  n ← gets m_count; mret (u32 n).

Definition pop_current : L Z :=
  n ← gets m_count; cur ← gets m_pCurrent; tag ← gets m_pTag;
  if decide (n = 0%Z ∨ cur = tag) then mret 0%Z else
  pPrev ← prev_of cur;
  pNext ← next_of cur;
  if decide (pNext = tag) then pop_back else
  if decide (pPrev = tag) then pop_front else
  free cur ;;
  set_cur pNext ;;
  set_prev pNext pPrev ;;
  set_next pPrev pNext ;;
  set_count (i32 (n - 1)) ;;
  n ← gets m_count; mret (u32 n).

Definition pop_front_v : L (option E * Z) :=
  n ← gets m_count;
  v ← (if decide (0 < n)%Z then hd ← gets m_pHead; v ← value_of hd; mret (Some v)
       else mret None);
  r ← pop_front; mret (v, r).

Definition pop_back_v : L (option E * Z) :=
  n ← gets m_count;
  v ← (if decide (0 < n)%Z then tl ← gets m_pTail; v ← value_of tl; mret (Some v)
       else mret None);
  r ← pop_back; mret (v, r).

Definition pop_current_v : L (option E * Z) :=
  n ← gets m_count; cur ← gets m_pCurrent; tag ← gets m_pTag;
  v ← (if decide (0 < n ∧ cur ≠ tag)%Z then v ← value_of cur; mret (Some v)
       else mret None);
  r ← pop_current; mret (v, r).

Definition push_front_r (value : E) : L Z :=
  tag ← gets m_pTag; hd ← gets m_pHead;
  cur ← new_entry value tag hd;
  set_cur cur ;;
  n ← gets m_count;
  (if decide (0 = n)%Z then
    set_head cur ;; set_tail cur ;;
    set_prev tag cur
  else
    set_prev hd cur ;; set_head cur) ;;
  hd' ← gets m_pHead;
  set_next tag hd' ;;
  set_count (i32 (n + 1)) ;;
  n ← gets m_count; mret (u32 n).

Definition push_back_r (value : E) : L Z :=
  tag ← gets m_pTag; tl ← gets m_pTail;
  cur ← new_entry value tl tag;
  set_cur cur ;;
  n ← gets m_count;
  (if decide (0 = n)%Z then
    set_head cur ;; set_tail cur ;;
    set_next tag cur
  else
    set_next tl cur ;; set_tail cur) ;;
  tl' ← gets m_pTail;
  set_prev tag tl' ;;
  set_count (i32 (n + 1)) ;;
  n ← gets m_count; mret (u32 n).

Definition push_front (value : E) : L Z := push_front_r value.
Definition push_back (value : E) : L Z := push_back_r value.

(** [do { } while (pop_front());] *)
Definition remove : L unit :=
  fuel ← gets walk_fuel;
  while_loop fuel (r ← pop_front; mret (negb (r =? 0)%Z)) (mret tt).

Definition clear : L unit := remove.

Definition next : L bool :=
  t ← istail;
  if (t : bool) then mret false else
  cur ← gets m_pCurrent; tag ← gets m_pTag;
  c ← next_of cur; set_cur c ;;
  if decide (c = tag) then mret false else mret true.

Definition cur_value : L E := cur ← gets m_pCurrent; value_of cur.

Definition next_v : L (option E) :=
  b ← next; if (b : bool) then v ← cur_value; mret (Some v) else mret None.

Definition prev : L bool :=
  t ← ishead;
  if (t : bool) then mret false else
  cur ← gets m_pCurrent;
  c ← prev_of cur; set_cur c ;; mret true.

Definition prev_v : L (option E) :=
  b ← prev; if (b : bool) then v ← cur_value; mret (Some v) else mret None.

Definition current : L (option E) :=
  cur ← gets m_pCurrent; tag ← gets m_pTag;
  if decide (cur = tag ∨ cur = NULL) then mret None
  else v ← value_of cur; mret (Some v).

(** No [return] when there is no current entry. *)
Definition current_r : L E :=
  cur ← gets m_pCurrent; tag ← gets m_pTag;
  if decide (cur ≠ tag ∧ cur ≠ NULL) then value_of cur else ub.

Definition reset : L unit := hd ← gets m_pHead; set_cur hd.
Definition reset_t : L unit := tl ← gets m_pTail; set_cur tl.
Definition reset_d : L unit := tag ← gets m_pTag; set_cur tag.

(** The result and the value written to the reference, if any. *)
Definition next_d : L (bool * option E) :=
  v ← next_v;
  match v with
  | Some v => mret (true, Some v)
  | None =>
      t ← istail; n ← gets m_count;
      if decide ((t : bool) = true ∧ 1 < n)%Z then
        reset ;; v ← current; mret (bool_decide (is_Some v), v)
      else mret (true, None)
  end.

Definition prev_d : L (bool * option E) :=
  v ← prev_v;
  match v with
  | Some v => mret (true, Some v)
  | None =>
      t ← ishead; n ← gets m_count;
      if decide ((t : bool) = true ∧ 1 < n)%Z then
        reset_t ;; v ← current; mret (bool_decide (is_Some v), v)
      else mret (true, None)
  end.

(** [while(pos>0 && p!=m_pTag && p!=NULL) { p = p->m_next; pos--; }] *)
Fixpoint addr_walk (tag : ptr) (pos : nat) (p : ptr) : L ptr :=
  match pos with
  | O => mret p
  | S pos =>
      if decide (p ≠ tag ∧ p ≠ NULL) then q ← next_of p; addr_walk tag pos q
      else mret p
  end.

Definition _addr (pos : Z) : L bool :=
  n ← gets m_count;
  if decide (n ≤ 0)%Z then mret false else
  if decide (pos < 0 ∨ n ≤ pos)%Z then mret false else
  hd ← gets m_pHead; tag ← gets m_pTag;
  p ← addr_walk tag (Z.to_nat pos) hd;
  set_cur p ;; mret true.

Definition get (pos : Z) : L (option E) :=
  b ← _addr pos; if (b : bool) then v ← cur_value; mret (Some v) else mret None.

Definition get_p (pos : Z) : L (option ptr) :=
  b ← _addr pos; if (b : bool) then p ← gets m_pCurrent; mret (Some p) else mret None.

Definition set (pos : Z) (value : E) : L bool :=
  b ← _addr pos;
  if (b : bool) then cur ← gets m_pCurrent; set_value cur value ;; mret true
  else mret false.

(** No [return] when [index] is out of range. *)
Definition reset_pos (index : Z) : L bool :=
  n ← gets m_count;
  if decide (0 ≤ index ∧ index ≤ n)%Z then _addr index else ub.

Fixpoint contain_loop (fuel : nat) (value : E) : L bool :=
  match fuel with
  | O => ub
  | S fuel =>
      cur ← gets m_pCurrent; tag ← gets m_pTag;
      if decide (cur ≠ tag ∧ cur ≠ NULL) then
        v ← value_of cur;
        if eqb v value then mret true
        else c ← next_of cur; set_cur c ;; contain_loop fuel value
      else mret false
  end.
Definition contain (value : E) : L bool :=
  fuel ← gets walk_fuel; contain_loop fuel value.

Fixpoint index_loop (fuel : nat) (test : ptr → L bool) (p : ptr) (i : Z) : L Z :=
  match fuel with
  | O => ub
  | S fuel =>
      tag ← gets m_pTag;
      if decide (p ≠ tag ∧ p ≠ NULL) then
        b ← test p;
        if (b : bool) then mret i else q ← next_of p; index_loop fuel test q (i32 (i + 1))
      else mret (-1)%Z
  end.
Definition index (value : E) : L Z :=
  fuel ← gets walk_fuel; hd ← gets m_pHead;
  index_loop fuel (λ p, v ← value_of p; mret (eqb v value)) hd 0.
Definition index_it (j : ptr) : L Z :=
  fuel ← gets walk_fuel; hd ← gets m_pHead;
  index_loop fuel (λ p, mret (bool_decide (j = p))) hd 0.

Fixpoint remove_v_loop (fuel : nat) (value : E) (i : Z) : L Z :=
  match fuel with
  | O => ub
  | S fuel =>
      b ← contain value;
      if (b : bool) then pop_current ;; reset ;; remove_v_loop fuel value (i32 (i + 1))
      else mret (u32 i)
  end.
Definition remove_v (value : E) : L Z :=
  reset ;; fuel ← gets walk_fuel; remove_v_loop fuel value 0.

Definition getCurrentHandle : L ptr := gets m_pCurrent.

Definition removeByHandle (handle : ptr) : L unit :=
  if decide (handle = NULL) then mret tt else
  set_cur handle ;; pop_current ;; reset.

Definition insert_r (value : E) : L Z :=
  n ← gets m_count;
  h ← (if decide (0 = n)%Z then mret true else ishead);
  if (h : bool) then push_front_r value else
  cur ← gets m_pCurrent; tag ← gets m_pTag;
  if decide (cur = tag) then mret 0%Z else
  t ← istail;
  if (t : bool) then push_back_r value else
  pNext ← next_of cur;
  p ← new_entry value cur pNext; set_cur p ;;
  set_next cur p ;;
  set_prev pNext p ;;
  set_count (i32 (n + 1)) ;;
  n ← gets m_count; mret (u32 n).
Definition insert (value : E) : L Z := insert_r value.

Fixpoint sort_walk (fuel : nat) (value : E) (mode : Z) : L unit :=
  match fuel with
  | O => ub
  | S fuel =>
      cur ← gets m_pCurrent; tag ← gets m_pTag;
      if decide (cur ≠ tag) then
        v ← value_of cur;
        if (if decide (mode = 0)%Z then geb value v else leb value v) then
          c ← next_of cur; set_cur c ;; sort_walk fuel value mode
        else mret tt
      else mret tt
  end.

Definition insertSort (value : E) (mode : Z) : L Z :=
  reset ;;
  fuel ← gets walk_fuel; sort_walk fuel value mode ;;
  cur ← gets m_pCurrent; hd ← gets m_pHead; tag ← gets m_pTag;
  if decide (cur = hd) then push_front_r value else
  if decide (cur = tag) then push_back_r value else
  pPrev ← prev_of cur;
  p ← new_entry value pPrev cur; set_cur p ;;
  set_next pPrev p ;;
  set_prev cur p ;;
  n ← gets m_count;
  set_count (i32 (n + 1)) ;;
  n ← gets m_count; mret (u32 n).

(** Copying from a second list: the state is (this, v). *)
Local Abbreviation L2 := (M (dlist E * dlist E)).
Definition this_ {A} (m : L A) : L2 A := zoom fst (λ d s, (d, s.2)) m.
Definition that_ {A} (m : L A) : L2 A := zoom snd (λ d s, (s.1, d)) m.

Definition copy_loop : L2 unit :=
  that_ reset_d ;;
  fuel ← gets (λ s, walk_fuel s.2);
  while_loop fuel (that_ next) (v ← that_ current_r; this_ (push_back v) ;; mret tt).

Definition assign : L2 unit := this_ remove ;; copy_loop.

(** [CList(CList& c)]: the members as in the default constructor, then the loop. *)
Definition copy_ctor (c : dlist E) : option (unit * (dlist E * dlist E)) :=
  copy_loop (init, c).

(** [v = v]: both names denote the same object. *)
Definition assign_self : L unit :=
  remove ;; reset_d ;;
  fuel ← gets walk_fuel;
  while_loop fuel next (v ← current_r; push_back v ;; mret tt).

(** The destructor: the entries, then the sentinel. *)
Definition destroy : L unit :=
  remove ;; tag ← gets m_pTag; if decide (tag ≠ NULL) then free tag else mret tt.

(** [iterator]: a pointer to an entry. *)
Definition iter_begin : L ptr := gets m_pHead.
Definition iter_end : L ptr := tl ← gets m_pTail; next_of tl.
Definition iter_deref (p : ptr) : L E := value_of p.
Definition iter_incr (p : ptr) : L ptr := if decide (p ≠ NULL) then next_of p else mret p.
Definition iter_decr (p : ptr) : L ptr := if decide (p ≠ NULL) then prev_of p else mret p.
Fixpoint pos_walk (index : nat) (p : ptr) : L ptr :=
  match index with
  | O => mret p
  | S index =>
      e ← iter_end; if decide (p ≠ e) then q ← next_of p; pos_walk index q else mret p
  end.
Definition pos (index : Z) : L ptr := hd ← gets m_pHead; pos_walk (Z.to_nat index) hd.
End operations.

(** ** The specification: a list with a cursor *)

(** [None] is the position of the sentinel ("no current entry"). *)
Definition cursor_list (E : Type) : Type := list E * option nat.

(** The object represents the list: entries in order, the cursor on the entry
    of its position, [m_count] the length (an [int], so below [2^31]). *)
Definition crepr {E} (d : dlist E) (s : cursor_list E) : Prop :=
  ∃ ps, ring d ps s.1 ∧ cursor (m_pTag d) ps s.2 (m_pCurrent d) ∧
    m_count d = Z.of_nat (length s.1) ∧ (Z.of_nat (length s.1) < 2 ^ 31)%Z.

(** The position of the last entry, [None] for the empty list. *)
Definition last_pos {E} (l : list E) : option nat :=
  match length l with O => None | S n => Some n end.
Definition first_pos {E} (l : list E) : option nat :=
  match l with [] => None | _ => Some 0 end.

Section spec.
Context {E : Type}.
Implicit Types (l : list E) (c : option nat).
Variable eqb geb leb : E → E → bool.
  Local Abbreviation CL := (cursor_list E).

(** [Some (r, s')]: the call returns [r] and leaves [s'];
    [None]: the call has no defined behaviour. *)
Definition op (A : Type) : Type := CL → option (A * CL).

Definition s_count : op Z := λ s, Some (Z.of_nat (length s.1), s).
Definition s_empty : op bool := λ s, Some (bool_decide (s.1 = []), s).
Definition s_ishead : op bool := λ s, Some (bool_decide (s.2 = Some 0), s).
Definition s_istail : op bool := λ s,
  Some (match s.2 with Some i => bool_decide (S i = length s.1) | None => false end, s).

Definition s_front : op bool := λ s,
  Some (match s.1 with [] => (false, s) | _ => (true, (s.1, Some 0)) end).
Definition s_back : op bool := λ s,
  Some (match last_pos s.1 with None => (false, s) | c => (true, (s.1, c)) end).

Definition s_pop_front : op Z := λ s,
  match s.1 with
  | [] => Some (0%Z, s)
  | _ :: l => Some (Z.of_nat (length l), (l, first_pos l))
  end.
Definition s_pop_back : op Z := λ s,
  match length s.1 with
  | O => Some (0%Z, s)
  | S n => Some (Z.of_nat n, (take n s.1, last_pos (take n s.1)))
  end.
Definition s_pop_current : op Z := λ s,
  match s.2 with
  | None => Some (0%Z, s)
  | Some i =>
      if decide (S i = length s.1) then s_pop_back s
      else if decide (i = 0) then s_pop_front s
      else Some ((Z.of_nat (length s.1) - 1)%Z, (delete i s.1, Some i))
  end.

(** The pushes need room in [m_count]. *)
Definition s_push_front (v : E) : op Z := λ s,
  if decide (Z.of_nat (length s.1) + 1 < 2 ^ 31)%Z then
    Some ((Z.of_nat (length s.1) + 1)%Z, (v :: s.1, Some 0)) else None.
Definition s_push_back (v : E) : op Z := λ s,
  if decide (Z.of_nat (length s.1) + 1 < 2 ^ 31)%Z then
    Some ((Z.of_nat (length s.1) + 1)%Z, (s.1 ++ [v], Some (length s.1))) else None.

(** Insertion between position [i] and the next one. *)
Definition s_insert_at (i : nat) (v : E) : op Z := λ s,
  if decide (Z.of_nat (length s.1) + 1 < 2 ^ 31)%Z then
    Some ((Z.of_nat (length s.1) + 1)%Z, (take i s.1 ++ v :: drop i s.1, Some i)) else None.
Definition s_insert (v : E) : op Z := λ s,
  match s.2 with
  | None => if decide (s.1 = []) then s_push_front v s else Some (0%Z, s)
  | Some O => s_push_front v s
  | Some i => s_insert_at (S i) v s
  end.

Definition s_next : op bool := λ s,
  match s.2 with
  | None => Some (bool_decide (s.1 ≠ []), (s.1, first_pos s.1))
  | Some i => if decide (S i = length s.1) then Some (false, s)
              else Some (true, (s.1, Some (S i)))
  end.
Definition s_prev : op bool := λ s,
  match s.2 with
  | None => Some (true, (s.1, last_pos s.1))
  | Some O => Some (false, s)
  | Some (S i) => Some (true, (s.1, Some i))
  end.
Definition s_current : op (option E) := λ s, Some (s.2 ≫= (s.1 !!.), s).
Definition s_current_r : op E := λ s, v ← s.2 ≫= (s.1 !!.); Some (v, s).

(** A move, then the value at the new position (none to read: undefined). *)
Definition s_with_value (m : op bool) : op (option E) := λ s,
  '(b, s') ← m s;
  if (b : bool) then v ← s'.2 ≫= (s'.1 !!.); Some (Some v, s') else Some (None, s').

Definition s_next_d : op (bool * option E) := λ s,
  '(v, s') ← s_with_value s_next s;
  match v with
  | Some v => Some ((true, Some v), s')
  | None => if decide (s'.2 = last_pos s'.1 ∧ 1 < length s'.1)
            then Some ((true, s'.1 !! 0), (s'.1, Some 0)) else Some ((true, None), s')
  end.
Definition s_prev_d : op (bool * option E) := λ s,
  '(v, s') ← s_with_value s_prev s;
  match v with
  | Some v => Some ((true, Some v), s')
  | None => if decide (s'.2 = Some 0 ∧ 1 < length s'.1)
            then Some ((true, last s'.1), (s'.1, last_pos s'.1)) else Some ((true, None), s')
  end.

Definition s_reset : op unit := λ s, Some (tt, (s.1, first_pos s.1)).
Definition s_reset_t : op unit := λ s, Some (tt, (s.1, last_pos s.1)).
Definition s_reset_d : op unit := λ s, Some (tt, (s.1, None)).

Definition s_addr (pos : Z) : op bool := λ s,
  Some (if decide (0 ≤ pos < Z.of_nat (length s.1))%Z
        then (true, (s.1, Some (Z.to_nat pos))) else (false, s)).
Definition s_reset_pos (pos : Z) : op bool := λ s,
  if decide (0 ≤ pos ≤ Z.of_nat (length s.1))%Z then s_addr pos s else None.
Definition s_set (pos : Z) (v : E) : op bool := λ s,
  Some (if decide (0 ≤ pos < Z.of_nat (length s.1))%Z
        then (true, (<[Z.to_nat pos := v]> s.1, Some (Z.to_nat pos))) else (false, s)).

Definition s_remove : op unit := λ s, Some (tt, ([], None)).

Definition s_index (v : E) : op Z := λ s,
  Some (from_option Z.of_nat (-1)%Z (find_pos (λ x, eqb x v) s.1), s).
Definition s_contain (v : E) : op bool := λ s,
  let r := i ← s.2; Nat.add i <$> find_pos (λ x, eqb x v) (drop i s.1) in
  Some (bool_decide (is_Some r), (s.1, r)).
Definition s_remove_v (v : E) : op Z := λ s,
  Some (Z.of_nat (length (filter (λ x, eqb x v = true) s.1)),
        (filter (λ x, ¬ eqb x v = true) s.1, None)).

(** [insertSort] stops at the first entry that fails the comparison. *)
Definition sort_test (mode : Z) (v x : E) : bool :=
  if decide (mode = 0)%Z then geb v x else leb v x.
Definition s_insertSort (v : E) (mode : Z) : op Z := λ s,
  let k := default (length s.1) (find_pos (λ x, negb (sort_test mode v x)) s.1) in
  s_insert_at k v s.
End spec.

(** ** Refinement *)

(** Wherever the specification is defined, the code is, and they agree. *)
Definition refines {E A} (m : M (dlist E) A) (f : op A) : Prop :=
  ∀ d s r s', crepr d s → f s = Some (r, s') → wp m (λ r' d', r' = r ∧ crepr d' s') d.

Lemma take_S_app_cons {E} (l1 : list E) v l2 :
  take (S (length l1)) (l1 ++ v :: l2) = l1 ++ [v].
Proof.
  rewrite cons_middle, app_assoc. rewrite take_app_le by (rewrite length_app; simpl; lia).
  apply take_ge. rewrite length_app; simpl; lia.
Qed.

Lemma drop_S_app_cons {E} (l1 : list E) v l2 :
  drop (S (length l1)) (l1 ++ v :: l2) = l2.
Proof.
  rewrite cons_middle, app_assoc. apply drop_app_length'. rewrite length_app; simpl; lia.
Qed.

(** Opening the representation: members, ring and sentinel facts. *)
Ltac open_ring Hr :=
  let Hhd := fresh "Hhd" in let Htl := fresh "Htl" in
  let Hlen := fresh "Hlen" in
  pose proof (rg_head _ _ _ Hr) as Hhd; pose proof (rg_tail _ _ _ Hr) as Htl;
  pose proof (ring_length _ _ _ Hr) as Hlen;
  pose proof (ring_tag_facts _ _ _ Hr) as (? & ? & ? & ? & ? & ? & ?);
  cbn in Hhd, Htl, Hlen; cbn [fst snd heap m_pTag m_pHead m_pTail] in *.
Ltac open_refines :=
  let h := fresh "h" in let tag := fresh "tag" in let hd := fresh "hd" in
  let tl := fresh "tl" in let cur := fresh "cur" in let n := fresh "n" in
  let l := fresh "l" in let c := fresh "c" in let r := fresh "r" in let s := fresh "s" in
  let Hf := fresh "Hf" in let ps := fresh "ps" in let Hr := fresh "Hr" in
  let Hc := fresh "Hc" in let Hn := fresh "Hn" in let Hlt := fresh "Hlt" in
  let Hs := fresh "Hs" in
  intros [h tag hd tl cur n] [l c] r s Hs Hf;
  pose proof Hs as (ps & Hr & Hc & Hn & Hlt);
  cbn in Hc, Hn, Hlt; open_ring Hr.

Section refinement.
Context {E : Type}.
Implicit Types (l : list E) (c : option nat) (d : dlist E) (s : cursor_list E).

Lemma refines_bind {A B} (m : M (dlist E) A) (f : op A)
      (m' : A → M (dlist E) B) (f' : A → op B) :
    refines m f → (∀ a, refines (m' a) (f' a)) →
    refines (m ≫= m') (λ s, '(a, s') ← f s; f' a s').
Proof.
    intros Hm Hm' d s r s' Hs Hf. apply wp_bind.
    destruct (f s) as [[a s'']|] eqn:Hfs; [|done]. simpl in Hf.
    eapply wp_mono; [by eapply Hm|]. intros ? d' [-> Hs']. by eapply Hm'.
Qed.

Lemma refines_ext {A} (m : M (dlist E) A) (f f' : op A) :
    refines m f → (∀ s, f' s = f s) → refines m f'.
Proof. intros Hm Hf d s r s' Hs H. rewrite Hf in H. by eapply Hm. Qed.

Lemma count_refines : refines count (s_count (E:=E)).
Proof. open_refines. injection Hf as <- <-. wp_run. split; [done|]. by exists ps. Qed.

Lemma empty_refines : refines empty_ (s_empty (E:=E)).
Proof.
    open_refines. injection Hf as <- <-. unfold empty_.
    destruct l; cbn in Hn; wp_run; (split; [done|by exists ps]).
Qed.

Lemma pop_front_refines : refines pop_front (s_pop_front (E:=E)).
Proof.
    open_refines. unfold pop_front. destruct l as [|v l]; injection Hf as <- <-.
    { cbn in Hn. wp_run. split; [by subst|]. by exists ps. }
    destruct ps as [|p ps]; [done|]. cbn [length] in *. cbn in Hhd; subst hd.
    pose proof (ring_facts _ [] _ _ _ Hr) as (? & ? & ? & ? & ? & ? & ? & ? & ? & ?).
    cbn [heap m_pTag] in *.
    wp_run. rewrite i32_small by lia. case_decide; wp_run.
    all: split; [rewrite u32_small by lia; cbn; lia|].
    all: exists ps; cbn.
    all: split_and!; [ |destruct ps, l; cbn in *; simplify_eq; done|lia|lia].
    - destruct ps; [|cbn in *; lia]. eapply (ring_unlink _ _ [] _ [] []); [done..|by left|done|done].
    - eapply (ring_unlink _ _ [] _ ps []); [done..|by left|done|].
      cbn. rewrite Htl. destruct ps; [cbn in *; lia|done].
Qed.

Lemma pop_back_refines : refines pop_back (s_pop_back (E:=E)).
Proof.
    open_refines. unfold pop_back.
    destruct l as [|v l _] using rev_ind.
    { injection Hf as <- <-. cbn in Hn. wp_run. split; [by subst|]. by exists ps. }
    destruct ps as [|p ps _] using rev_ind.
    { rewrite length_app in Hlen. cbn in Hlen. lia. }
    rewrite !length_app in Hlen. cbn in Hlen.
    unfold s_pop_back in Hf. cbn [fst snd] in Hf. rewrite length_app, Nat.add_comm in Hf. cbn in Hf.
    rewrite take_app_length in Hf. injection Hf as <- <-.
    rewrite length_app in Hn, Hlt. cbn [length] in Hn, Hlt.
    rewrite pred_of_snoc in Htl; subst tl.
    pose proof (ring_facts _ ps p [] _ Hr) as (? & ? & ? & ? & ? & ? & ? & ? & ? & ?).
    cbn [heap m_pTag] in *.
    wp_run. rewrite i32_small by lia. case_decide; wp_run.
    all: split; [rewrite u32_small by lia; cbn; lia|].
    all: exists ps; cbn.
    all: split_and!; [ |unfold last_pos, pred_of; destruct (length l) eqn:Hl|lia|lia].
    - eapply (ring_unlink_last _ _ ps); [done|done|by left| |done].
      destruct ps; [done|cbn in *; lia].
    - destruct ps; cbn in *; first [done|lia].
    - cbn in *; lia.
    - eapply (ring_unlink_last _ _ ps); [done|done|by left| |done].
      cbn. rewrite Hhd. destruct ps; [cbn in *; lia|done].
    - destruct ps; cbn in *; first [done|lia].
    - destruct ps as [|q ps _] using rev_ind; [cbn in *; lia|].
      rewrite last_snoc. cbn. rewrite length_app in Hlen. cbn in Hlen.
      rewrite lookup_app_r by lia. replace (_ - length ps) with 0 by lia. done.
Qed.

(** The cursor's entry, when it has one. *)
Lemma cursor_split (d : dlist E) ps l i :
    ring d ps l → cursor (m_pTag d) ps (Some i) (m_pCurrent d) →
    ∃ ps1 ps2 l1 v l2, ps = ps1 ++ m_pCurrent d :: ps2 ∧ l = l1 ++ v :: l2 ∧
      length ps1 = i ∧ length l1 = i ∧ vl (heap d) (m_pCurrent d) = Some v ∧
      m_pCurrent d ≠ m_pTag d ∧ m_pCurrent d ≠ NULL ∧
      (succ_of (m_pTag d) ps2 = m_pTag d ↔ S i = length l) ∧
      (pred_of (m_pTag d) ps1 = m_pTag d ↔ i = 0).
Proof.
    intros Hr Hc. cbn in Hc.
    destruct (ring_split _ _ _ _ _ Hr Hc) as (ps1 & ps2 & l1 & v & l2 & -> & -> & H1 & H2 & Hv & _).
    pose proof (ring_tag_nelem _ _ _ Hr) as Ht. apply ring_length in Hr as Hlen.
    pose proof (hr_null _ _ _ (rg_ring _ _ _ Hr)).
    rewrite !length_app in *. cbn in *.
    exists ps1, ps2, l1, v, l2. split_and!; try done; [set_solver|set_solver|..].
    - rewrite succ_of_tag by set_solver. destruct ps2; cbn in *; split; try done; lia.
    - rewrite pred_of_tag by set_solver. destruct ps1; cbn in *; split; try done; lia.
Qed.

Lemma pop_current_refines : refines pop_current (s_pop_current (E:=E)).
Proof.
    open_refines. unfold pop_current, s_pop_current in *. destruct c as [i|]; cbn [fst snd] in Hf.
    2:{ injection Hf as <- <-. cbn in Hc. subst cur. wp_run. done. }
    destruct (cursor_split _ _ _ _ Hr Hc)
      as (ps1 & ps2 & l1 & v & l2 & -> & -> & H1' & H2' & Hv & Hct & Hcn & Hs1 & Hp1).
    cbn [heap m_pTag m_pCurrent] in *.
    pose proof (ring_facts _ ps1 cur ps2 _ Hr) as (? & ? & ? & ? & ? & ? & ? & ? & ? & ?).
    cbn [heap m_pTag] in *.
    assert (n ≠ 0%Z) by (rewrite Hn, length_app; cbn; lia).
    wp_run. case_decide as Hd1.
    { wp_run. by apply (pop_back_refines _ _ _ _ Hs). }
    case_decide as Hd2.
    { wp_run. by apply (pop_front_refines _ _ _ _ Hs). }
    injection Hf as <- <-.
    wp_run. rewrite i32_small, u32_small by lia.
    split; [lia|]. exists (ps1 ++ ps2). cbn.
    rewrite !length_app in *. cbn [length] in *. rewrite <- H2', delete_middle, H2'.
    split_and!; [ | |rewrite length_app; lia|rewrite length_app; lia].
    - eapply (ring_unlink _ _ ps1 _ ps2 l1 v l2); [done|congruence|done| | |].
      + by right; left.
      + cbn. rewrite Hhd. destruct ps1; [cbn in *; lia|done].
      + cbn. rewrite Htl. destruct ps2 as [|q ps2 _] using rev_ind; [cbn in *; tauto|].
        by rewrite app_comm_cons, !app_assoc, !pred_of_snoc.
    - rewrite lookup_app_r by lia. replace (i - length ps1) with 0 by lia.
      destruct ps2; [cbn in *; tauto|done].
Qed.

(** What every push leaves: one more entry, which the cursor is on. *)
Lemma crepr_linked (d : dlist E) ps l i :
    ring d ps l → ps !! i = Some (m_pCurrent d) →
    m_count d = i32 (Z.of_nat (length l)) → (Z.of_nat (length l) < 2 ^ 31)%Z →
    crepr d (l, Some i).
Proof. intros. exists ps. rewrite i32_small in * by lia. done. Qed.

Lemma push_front_refines (v : E) : refines (push_front_r v) (s_push_front v).
Proof.
    open_refines. unfold push_front_r, s_push_front in *. cbn [fst] in Hf.
    case_decide; [injection Hf as <- <-|done]. subst hd tl.
    wp_run. case_decide as Hd.
    all: wp_run.
    all: split; [rewrite i32_small, u32_small; lia|].
    all: apply (crepr_linked _ (p :: ps)); [|done|cbn; f_equal; lia|cbn; lia].
    - destruct ps; [|cbn in *; lia]. destruct l; [|cbn in *; lia].
      eapply (ring_link _ _ [] p [] []); [done..|by left|done|done].
    - eapply (ring_link _ _ [] p ps []); [done..|by left|done|].
      cbn. destruct ps; [cbn in *; lia|done].
Qed.

Lemma push_back_refines (v : E) : refines (push_back_r v) (s_push_back v).
Proof.
    open_refines. unfold push_back_r, s_push_back in *. cbn [fst] in Hf.
    case_decide; [injection Hf as <- <-|done]. subst hd tl.
    wp_run. case_decide as Hd.
    all: wp_run.
    all: split; [rewrite i32_small, u32_small; lia|].
    all: apply (crepr_linked _ (ps ++ [p])); [| |rewrite length_app; cbn; f_equal; lia|rewrite length_app; cbn; lia].
    all: try (rewrite lookup_app_r by lia; by replace (length l - length ps) with 0 by lia).
    - destruct ps; [|cbn in *; lia]. destruct l; [|cbn in *; lia].
      eapply (ring_link_last _ _ []); [done..|by right|done|done].
    - eapply (ring_link_last _ _ ps); [done..|by right| |done].
      cbn. destruct ps; [cbn in *; lia|done].
Qed.

Ltac keep := split; try done.

Lemma cursor_none_or_elem (d : dlist E) ps l c :
    ring d ps l → cursor (m_pTag d) ps c (m_pCurrent d) →
    match c with None => m_pCurrent d = m_pTag d | Some i => i < length l end.
Proof.
    intros Hr. apply ring_length in Hr. destruct c; cbn; [|done].
    intros Hc%lookup_lt_Some. lia.
Qed.

Lemma ishead_refines : refines ishead (s_ishead (E:=E)).
Proof.
    open_refines. unfold ishead. injection Hf as <- <-. destruct c as [i|]; cbn [snd fst] in *.
    2:{ cbn in Hc. subst cur. wp_run. keep. }
    destruct (cursor_split _ _ _ _ Hr Hc)
      as (ps1 & ps2 & l1 & v & l2 & -> & -> & H1' & H2' & Hv & Hct & Hcn & Hs1 & Hp1).
    pose proof (ring_facts _ ps1 cur ps2 _ Hr) as (? & ? & ? & ? & ? & ? & ? & ? & ? & ?).
    cbn [heap m_pTag m_pCurrent] in *. wp_run. keep.
    apply bool_decide_ext. rewrite Hp1. naive_solver.
Qed.

Lemma istail_refines : refines istail (s_istail (E:=E)).
Proof.
    open_refines. unfold istail. injection Hf as <- <-. destruct c as [i|]; cbn [snd fst] in *.
    2:{ cbn in Hc. subst cur. wp_run. keep. }
    destruct (cursor_split _ _ _ _ Hr Hc)
      as (ps1 & ps2 & l1 & v & l2 & -> & -> & H1' & H2' & Hv & Hct & Hcn & Hs1 & Hp1).
    pose proof (ring_facts _ ps1 cur ps2 _ Hr) as (? & ? & ? & ? & ? & ? & ? & ? & ? & ?).
    cbn [heap m_pTag m_pCurrent] in *. wp_run. keep.
    by apply bool_decide_ext.
Qed.

(** Moving the cursor only. *)
Lemma crepr_move (h : nheap E) tag hd tl cur cur' n l c c' :
    crepr (DList h tag hd tl cur n) (l, c) →
    (∀ ps, ring (DList h tag hd tl cur n) ps l → cursor tag ps c' cur') →
    crepr (DList h tag hd tl cur' n) (l, c').
Proof.
    intros (ps & Hr & _ & Hn & Hlt) Hc. exists ps. split_and!; [|by apply Hc|done|done].
    eapply ring_members; [exact Hr|done..].
Qed.

Lemma cursor_first (h : nheap E) tag hd tl cur n ps l :
    ring (DList h tag hd tl cur n) ps l → cursor tag ps (first_pos l) hd.
Proof.
    intros Hr. open_ring Hr. subst hd. destruct l, ps; done.
Qed.
Lemma cursor_last (h : nheap E) tag hd tl cur n ps l :
    ring (DList h tag hd tl cur n) ps l → cursor tag ps (last_pos l) tl.
Proof.
    intros Hr. open_ring Hr. subst tl. unfold last_pos. rewrite <- Hlen.
    destruct ps as [|p ps _] using rev_ind; [done|].
    rewrite length_app, Nat.add_comm, pred_of_snoc. cbn.
    rewrite lookup_app_r by lia. by rewrite Nat.sub_diag.
Qed.

Lemma reset_refines : refines reset (s_reset (E:=E)).
Proof.
    open_refines. injection Hf as <- <-. unfold reset. wp_run. keep.
    eapply crepr_move; [done|]. intros ps' Hr'. by eapply cursor_first.
Qed.
Lemma reset_t_refines : refines reset_t (s_reset_t (E:=E)).
Proof.
    open_refines. injection Hf as <- <-. unfold reset_t. wp_run. keep.
    eapply crepr_move; [done|]. intros ps' Hr'. by eapply cursor_last.
Qed.
Lemma reset_d_refines : refines reset_d (s_reset_d (E:=E)).
Proof.
    open_refines. injection Hf as <- <-. unfold reset_d. wp_run. keep.
    by eapply crepr_move.
Qed.

Lemma front_refines : refines front (s_front (E:=E)).
Proof.
    open_refines. unfold front. destruct l as [|v l], ps as [|p ps]; try done; injection Hf as <- <-.
    - cbn in Hn. wp_run. keep.
    - cbn in Hhd, Hn. assert (hd ≠ tag) by (intros ->; set_solver). wp_run. keep.
      eapply crepr_move; [done|]. intros ps' Hr'. by eapply (cursor_first _ _ _ _ _ _ _ (v :: l)).
Qed.

Lemma back_refines : refines back (s_back (E:=E)).
Proof.
    open_refines. unfold back. destruct (last_pos l) as [i|] eqn:Hl.
    - assert (hd ≠ tag ∧ tl ≠ tag) as [??].
      { rewrite Hhd, Htl, succ_of_tag, pred_of_tag by done.
        destruct ps, l; try done; cbn in *; lia. }
      assert (0 < n)%Z by (destruct l; cbn in *; [done|lia]).
      unfold s_back in Hf. cbn [fst] in Hf. rewrite Hl in Hf. injection Hf as <- <-.
      wp_run. keep.
      eapply crepr_move; [done|]. intros ps' Hr'. rewrite <- Hl. by eapply cursor_last.
    - destruct l; [|done]. injection Hf as <- <-. cbn in Hn. wp_run. keep.
Qed.

Lemma next_refines : refines next (s_next (E:=E)).
Proof.
    intros d s r s' Hs Hf. unfold next. apply wp_bind.
    eapply wp_mono; [by eapply istail_refines|]. intros b d' [-> Hs'].
    clear d Hs. revert d' s r s' Hs' Hf. open_refines. destruct c as [i|]; cbn [snd fst] in *.
    - destruct (cursor_split _ _ _ _ Hr Hc)
        as (ps1 & ps2 & l1 & v & l2 & -> & -> & H1' & H2' & Hv & Hct & Hcn & Hs1 & Hp1).
      pose proof (ring_facts _ ps1 cur ps2 _ Hr) as (? & ? & ? & ? & ? & ? & ? & ? & ? & ?).
      cbn [heap m_pTag m_pCurrent] in *. unfold s_next in Hf. cbn [fst snd] in Hf.
      case_bool_decide; case_decide; try done; injection Hf as <- <-; wp_run; [keep|].
      keep.
      exists (ps1 ++ cur :: ps2). split_and!; [eapply ring_members; [exact Hr|done..]| |done|done].
      cbn. rewrite lookup_app_r by lia. replace (S i - length ps1) with 1 by lia.
      destruct ps2; [cbn in *; tauto|done].
    - cbn in Hc. subst cur. injection Hf as <- <-. wp_run.
      destruct l as [|v l], ps as [|p ps]; try done; cbn in Hhd; subst hd.
      + wp_run. keep.
      + assert (p ≠ tag) by (intros ->; set_solver). wp_run. keep.
        eapply crepr_move; [done|]. intros ps' Hr'. by eapply (cursor_first _ _ _ _ _ _ _ (v :: l)).
Qed.

Lemma prev_refines : refines prev (s_prev (E:=E)).
Proof.
    intros d s r s' Hs Hf. unfold prev. apply wp_bind.
    eapply wp_mono; [by eapply ishead_refines|]. intros b d' [-> Hs'].
    clear d Hs. revert d' s r s' Hs' Hf. open_refines. destruct c as [i|]; cbn [snd fst] in *.
    - destruct (cursor_split _ _ _ _ Hr Hc)
        as (ps1 & ps2 & l1 & v & l2 & -> & -> & H1' & H2' & Hv & Hct & Hcn & Hs1 & Hp1).
      pose proof (ring_facts _ ps1 cur ps2 _ Hr) as (? & ? & ? & ? & ? & ? & ? & ? & ? & ?).
      cbn [heap m_pTag m_pCurrent] in *. destruct i as [|i].
      { injection Hf as <- <-. wp_run. keep. }
      injection Hf as <- <-. rewrite bool_decide_false by done. wp_run. keep.
      exists (ps1 ++ cur :: ps2). split_and!; [eapply ring_members; [exact Hr|done..]| |done|done].
      destruct ps1 as [|q ps1 _] using rev_ind; [done|]. cbn. rewrite pred_of_snoc, <- app_assoc.
      rewrite length_app in H1'. cbn in H1'. rewrite lookup_app_r by lia.
      by replace (i - length ps1) with 0 by lia.
    - cbn in Hc. subst cur. injection Hf as <- <-. rewrite bool_decide_false by done. wp_run. keep.
      eapply crepr_move; [done|]. intros ps' Hr'. by eapply cursor_last.
Qed.

(** The position after the last entry is the sentinel. *)
Definition at_pos (l : list E) (i : nat) : option nat :=
    if decide (i < length l) then Some i else None.

Lemma first_pos_at l : first_pos l = at_pos l 0.
Proof. by destruct l. Qed.

Definition with_cur (q : ptr) (d : dlist E) : dlist E :=
    DList (heap d) (m_pTag d) (m_pHead d) (m_pTail d) q (m_count d).

(** One step of a walk of the cursor. *)
Lemma crepr_at d l i :
    crepr d (l, Some i) → ∃ v q, l !! i = Some v ∧ vl (heap d) (m_pCurrent d) = Some v ∧
      nx (heap d) (m_pCurrent d) = Some q ∧ m_pCurrent d ≠ m_pTag d ∧ m_pCurrent d ≠ NULL ∧
      crepr (with_cur q d) (l, at_pos l (S i)).
Proof.
    intros (ps & Hr & Hc & Hn & Hlt). cbn [fst snd] in *.
    destruct (cursor_split _ _ _ _ Hr Hc)
      as (ps1 & ps2 & l1 & v & l2 & Hps & -> & H1' & H2' & Hv & Hct & Hcn & Hs1 & Hp1).
    rewrite Hps in Hr. pose proof (ring_facts _ ps1 _ ps2 _ Hr) as (? & ? & ? & ? & ? & Hnx & ? & ? & ? & ?).
    exists v, (succ_of (m_pTag d) ps2). split_and!; try done.
    - rewrite lookup_app_r by lia. by replace (i - length l1) with 0 by lia.
    - exists ps. rewrite Hps. split_and!; [eapply ring_members; [exact Hr|done..]| |done|done].
      apply ring_length in Hr. rewrite !length_app in Hr. cbn in Hr. unfold at_pos. cbn.
      rewrite length_app. cbn. case_decide.
      + cbn. rewrite lookup_app_r by lia. replace (S i - length ps1) with 1 by lia.
        destruct ps2; [cbn in *; lia|done].
      + destruct ps2; [done|cbn in *; lia].
Qed.
Lemma crepr_none d l : crepr d (l, None) → m_pCurrent d = m_pTag d.
Proof. by intros (ps & _ & Hc & _). Qed.
Lemma crepr_at_pos d l i : crepr d (l, Some i) → i < length l.
Proof. intros (v & _ & Hv & _)%crepr_at. by eapply lookup_lt_Some. Qed.
Lemma crepr_fuel d l c : crepr d (l, c) → walk_fuel d = S (S (S (length l))).
Proof.
    intros (ps & Hr & _). cbn in Hr. unfold walk_fuel. rewrite <- size_dom, (rg_dom _ _ _ Hr).
    rewrite size_list_to_set by apply Hr. cbn. by rewrite (ring_length _ _ _ Hr).
Qed.

Lemma cur_value_refines : refines cur_value (s_current_r (E:=E)).
Proof.
    intros d [l [i|]] r s Hs Hf; [|done]. destruct (crepr_at _ _ _ Hs) as (v & q & Hv & Hvl & _).
    unfold s_current_r in Hf. simpl in Hf. rewrite Hv in Hf. injection Hf as <- <-.
    unfold cur_value. apply wp_bind, wp_gets. by eapply wp_value_of.
Qed.

Lemma current_r_refines : refines current_r (s_current_r (E:=E)).
Proof.
    intros d [l [i|]] r s Hs Hf; [|done]. destruct (crepr_at _ _ _ Hs) as (v & q & Hv & Hvl & ? & ? & ? & _).
    unfold s_current_r in Hf. simpl in Hf. rewrite Hv in Hf. injection Hf as <- <-.
    unfold current_r. apply wp_bind, wp_gets, wp_bind, wp_gets.
    rewrite decide_True by done. by eapply wp_value_of.
Qed.

Lemma current_refines : refines current (s_current (E:=E)).
Proof.
    intros d [l [i|]] r s Hs Hf; injection Hf as <- <-; unfold current;
      apply wp_bind, wp_gets, wp_bind, wp_gets.
    - destruct (crepr_at _ _ _ Hs) as (v & q & Hv & Hvl & ? & ? & ? & _). cbn. rewrite Hv.
      rewrite decide_False by tauto. apply wp_bind. eapply wp_value_of; [done|]. by apply wp_ret.
    - rewrite decide_True by (left; by eapply crepr_none). by apply wp_ret.
Qed.

Lemma with_value_refines m (f : op bool) :
    refines m f →
    refines (b ← m; if (b : bool) then v ← cur_value; mret (Some v) else mret (None : option E))
      (s_with_value f).
Proof.
    intros Hm. eapply refines_ext; [apply (refines_bind _ f _ (λ b s,
      if (b : bool) then s_current_r s ≫= (λ '(v, s0), Some (Some v, s0)) else Some (None, s)))|].
    - exact Hm.
    - intros [].
      + apply (refines_bind _ _ _ (λ v s, Some (Some v, s)) cur_value_refines).
        intros a d s r s' Hs Hf. injection Hf as <- <-. by apply wp_ret.
      + intros d s r s' Hs Hf. injection Hf as <- <-. by apply wp_ret.
    - intros s. unfold s_with_value, s_current_r. destruct (f s) as [[[] s']|]; [|done..]. simpl.
      by destruct (s'.2 ≫= _).
Qed.

Lemma next_v_refines : refines next_v (s_with_value (s_next (E:=E))).
Proof. apply with_value_refines, next_refines. Qed.
Lemma prev_v_refines : refines prev_v (s_with_value (s_prev (E:=E))).
Proof. apply with_value_refines, prev_refines. Qed.

Lemma front_r_refines : refines front_r (λ s : cursor_list E, v ← head s.1; Some (v, s)).
Proof.
    open_refines. unfold front_r. destruct l as [|v l], ps as [|p ps]; try done.
    injection Hf as <- <-. pose proof (rg_vals _ _ _ Hr) as Hv. apply Forall2_cons_1 in Hv as [Hv _].
    cbn in Hhd, Hv. subst hd. wp_run. done.
Qed.
Lemma back_r_refines : refines back_r (λ s : cursor_list E, v ← last s.1; Some (v, s)).
Proof.
    open_refines. unfold back_r. destruct l as [|v l _] using rev_ind; [done|].
    cbn [fst] in Hf. rewrite last_snoc in Hf. injection Hf as <- <-.
    destruct ps as [|p ps _] using rev_ind; [rewrite length_app in Hlen; cbn in *; lia|].
    rewrite pred_of_snoc in Htl. subst tl.
    pose proof (rg_vals _ _ _ Hr) as Hv. rewrite !length_app in Hlen. cbn in Hlen.
    apply Forall2_app_inv in Hv as [_ Hv]; [|lia].
    apply Forall2_cons_1 in Hv as [Hv _]. cbn in Hv. wp_run. done.
Qed.

Definition s_front_v : op (option E) := λ s, Some (head s.1, (s.1, if s.1 is [] then s.2 else Some 0)).
Definition s_back_v : op (option E) := λ s, Some (last s.1, (s.1, if s.1 is [] then s.2 else last_pos s.1)).

Lemma front_v_refines : refines front_v s_front_v.
Proof.
    eapply refines_ext; [apply (refines_bind _ s_front _ (λ b s,
      if (b : bool) then v ← head s.1; Some (Some v, s) else Some (None, s)))|].
    - apply front_refines.
    - intros [] d s r s' Hs Hf.
      + destruct (head s.1) as [v|] eqn:Hh; [|done]. injection Hf as <- <-.
        apply (wp_bind (A:=ptr)). 
        pose proof (front_r_refines d s v s Hs) as Hw. unfold front_r in Hw.
        rewrite Hh in Hw. specialize (Hw eq_refl).
        unfold wp, mbind, M_bind in *. cbn in *. destruct (value_of _ _) as [[??]|]; naive_solver.
      + injection Hf as <- <-. by apply wp_ret.
    - intros [[|v l] c]; done.
Qed.
Lemma back_v_refines : refines back_v s_back_v.
Proof.
    eapply refines_ext; [apply (refines_bind _ s_back _ (λ b s,
      if (b : bool) then v ← last s.1; Some (Some v, s) else Some (None, s)))|].
    - apply back_refines.
    - intros [] d s r s' Hs Hf.
      + destruct (last s.1) as [v|] eqn:Hh; [|done]. injection Hf as <- <-.
        apply (wp_bind (A:=ptr)). 
        pose proof (back_r_refines d s v s Hs) as Hw. unfold back_r in Hw.
        rewrite Hh in Hw. specialize (Hw eq_refl).
        unfold wp, mbind, M_bind in *. cbn in *. destruct (value_of _ _) as [[??]|]; naive_solver.
      + injection Hf as <- <-. by apply wp_ret.
    - intros [l c]. destruct l as [|v l _] using rev_ind; [done|].
      unfold s_back, s_back_v, last_pos. cbn [fst snd]. rewrite length_app, Nat.add_comm, last_snoc. simpl.
      rewrite last_snoc. simpl. by destruct l.
Qed.

Lemma addr_walk_spec d ps l i k p :
    ring d ps l → ps !! i = Some p → i + k < length l →
    wp (addr_walk (m_pTag d) k p) (λ q d', d' = d ∧ ps !! (i + k) = Some q) d.
Proof.
    revert i p. induction k as [|k IH]; intros i p Hr Hp Hlt; cbn.
    { apply wp_ret. by rewrite Nat.add_0_r. }
    pose proof (ring_length _ _ _ Hr) as Hlen.
    destruct (ring_split _ _ _ _ _ Hr Hp) as (ps1 & ps2 & l1 & v & l2 & -> & -> & ? & ? & _ & Hn & _).
    pose proof (ring_facts _ _ _ _ _ Hr) as (? & ? & ? & _).
    pose proof (hr_null _ _ _ (rg_ring _ _ _ Hr)) as Hnull.
    rewrite decide_True by (split; [done|set_solver]).
    apply wp_bind. eapply wp_next_of; [done|].
    rewrite !length_app in *. cbn in *.
    destruct ps2 as [|q ps2]; [cbn in *; lia|]. rewrite succ_of_cons.
    replace (i + S k) with (S i + k) by lia. apply (IH (S i) q); [done| |lia].
    rewrite lookup_app_r by lia. by replace (S i - length ps1) with 1 by lia.
Qed.

Lemma addr_refines pos : refines (_addr pos) (s_addr (E:=E) pos).
Proof.
    open_refines. unfold _addr, s_addr in *. cbn [fst snd] in Hf.
    case_decide as Hp; injection Hf as <- <-.
    - wp_run. destruct l as [|v l], ps as [|p ps]; cbn in *; try lia. subst hd.
      eapply wp_mono.
      { apply (addr_walk_spec _ _ _ 0 (Z.to_nat pos) p Hr); [done|cbn; lia]. }
      cbn. intros q d' [-> Hq]. wp_run. split; [done|].
      eexists (p :: ps). split_and!; [eapply ring_members; [exact Hr|done..]|done|done|done].
    - wp_run. case_decide; wp_run; done.
Qed.

Lemma get_refines pos : refines (get pos) (s_with_value (s_addr (E:=E) pos)).
Proof. apply with_value_refines, addr_refines. Qed.

Lemma reset_pos_refines pos : refines (reset_pos pos) (s_reset_pos (E:=E) pos).
Proof.
    open_refines. unfold reset_pos, s_reset_pos in *. cbn [fst snd] in Hf.
    case_decide; [|done]. wp_run. by apply (addr_refines _ _ _ _ _ Hs).
Qed.

Lemma set_refines pos (v : E) : refines (set pos v) (s_set pos v).
Proof.
    intros d [l c] r s Hs Hf. unfold set, s_set in *. cbn [fst snd] in Hf. apply wp_bind.
    case_decide as Hp; injection Hf as <- <-; (eapply wp_mono;
      [eapply addr_refines; [done|unfold s_addr; cbn [fst snd];
         first [rewrite decide_True by done|rewrite decide_False by done]; reflexivity]|]);
      intros b d' [-> Hs']; [|by apply wp_ret].
    destruct (crepr_at _ _ _ Hs') as (w & q & Hw & Hvw & Hnw & _).
    destruct Hs' as (ps & Hr & Hc & Hn & Hlt). cbn [fst snd] in *.
    apply wp_bind, wp_gets, wp_bind, wp_on_alloc; [by eapply dom_of_nx|]. apply wp_ret. split; [done|].
    exists ps. destruct d' as [h tag hd tl cur n]. cbn in *. rewrite length_insert.
    split_and!; [|done|done|done].
    pose proof (hr_nodup _ _ _ (rg_ring _ _ _ Hr)) as Hnd. apply NoDup_cons in Hnd as [_ Hnd]. cbn in *.
    destruct Hr as [Hr Hd Hvals Hh Ht]. cbn in *. split; cbn; [|by rewrite dom_h_val| |done|done].
    - eapply hring_ext; [done|..]; intros; by autorewrite with heap.
    - apply Forall2_same_length_lookup. rewrite length_insert. split; [by eapply Forall2_length|].
      intros i x y Hx Hy. autorewrite with heap. case_decide as Hcx.
      + subst x. assert (i = Z.to_nat pos) as -> by (by eapply NoDup_lookup).
        rewrite list_lookup_insert_eq in Hy by lia. simplify_eq.
        pose proof (dom_of_nx _ _ _ Hnw) as Hdw. apply elem_of_dom in Hdw as [? ->]. done.
      + assert (i ≠ Z.to_nat pos) by (intros ->; simplify_eq).
        rewrite list_lookup_insert_ne in Hy by done. by eapply Forall2_lookup_lr in Hvals.
Qed.

Definition s_pop_front_v : op (option E * Z) := λ s,
    '(r, s') ← s_pop_front s; Some ((head s.1, r), s').
Definition s_pop_back_v : op (option E * Z) := λ s,
    '(r, s') ← s_pop_back s; Some ((last s.1, r), s').
Definition s_pop_current_v : op (option E * Z) := λ s,
    '(r, s') ← s_pop_current s; Some ((s.2 ≫= (s.1 !!.), r), s').

(** Reading a value first, then popping. *)
Lemma read_pop_refines (pop : M (dlist E) Z) (f : op Z) d s (w : option E) x s' :
    refines pop f → crepr d s → f s = Some (x, s') →
    wp pop (λ r, wp (mret (w, r)) (λ a d', a = (w, x) ∧ crepr d' s')) d.
Proof.
    intros Hm Hs Hf. eapply wp_mono; [by eapply Hm|].
    intros a d' [-> ?]. by apply wp_ret.
Qed.

Lemma pop_front_v_refines : refines pop_front_v s_pop_front_v.
Proof.
    open_refines. unfold pop_front_v, s_pop_front_v in *. destruct (s_pop_front _) as [[x s']|] eqn:Hp; [|done].
    injection Hf as <- <-. cbn [fst]. destruct l as [|v l], ps as [|p ps]; try done; cbn in Hn.
    - wp_run. by eapply read_pop_refines; [apply pop_front_refines|..].
    - pose proof (rg_vals _ _ _ Hr) as Hv. apply Forall2_cons_1 in Hv as [Hv _]. cbn in Hv, Hhd. subst hd.
      wp_run. by eapply read_pop_refines; [apply pop_front_refines|..].
Qed.
Lemma pop_back_v_refines : refines pop_back_v s_pop_back_v.
Proof.
    open_refines. unfold pop_back_v, s_pop_back_v in *. destruct (s_pop_back _) as [[x s']|] eqn:Hp; [|done].
    injection Hf as <- <-. cbn [fst]. destruct l as [|v l]; cbn in Hn.
    { wp_run. by eapply read_pop_refines; [apply pop_back_refines|..]. }
    destruct (last (v :: l)) as [w|] eqn:Hl; [|by apply last_None in Hl].
    pose proof (back_r_refines _ (v :: l, c) w (v :: l, c) Hs) as Hb.
    cbn [fst] in Hb. rewrite Hl in Hb. specialize (Hb eq_refl).
    unfold back_r in Hb. wp_run. apply wp_elim in Hb as (a & d' & Hd & -> & Hs').
    eapply wp_some; [exact Hd|]. wp_run. by eapply read_pop_refines; [apply pop_back_refines|..].
Qed.
Lemma pop_current_v_refines : refines pop_current_v s_pop_current_v.
Proof.
    intros d [l c] r s Hs Hf. unfold pop_current_v, s_pop_current_v in *.
    destruct (s_pop_current _) as [[x s']|] eqn:Hp; [|done]. injection Hf as <- <-. cbn [fst snd].
    apply wp_bind, wp_gets, wp_bind, wp_gets, wp_bind, wp_gets, wp_bind.
    destruct c as [i|].
    - destruct (crepr_at _ _ _ Hs) as (v & q & Hv & Hvl & ? & ? & ? & _).
      rewrite decide_True.
      2:{ destruct Hs as (ps & _ & _ & Hn & _). apply lookup_lt_Some in Hv. cbn in Hn. split; [lia|done]. }
      apply wp_bind. eapply wp_value_of; [done|]. apply wp_ret. cbn. rewrite Hv.
      apply wp_bind. by eapply read_pop_refines; [apply pop_current_refines|..].
    - rewrite decide_False by (intros [_ Hc]; by apply Hc; eapply crepr_none). apply wp_ret.
      apply wp_bind. by eapply read_pop_refines; [apply pop_current_refines|..].
Qed.

(** Linking a new entry before an entry that has a predecessor. *)
Lemma link_mid_spec (h : nheap E) tag hd tl cur n ps1 q ps2 l1 l2 v p :
    ring (DList h tag hd tl cur n) (ps1 ++ q :: ps2) (l1 ++ l2) →
    length ps1 = length l1 → ps1 ≠ [] → p ≠ NULL → p ∉ dom h →
    n = Z.of_nat (length (l1 ++ l2)) → (n + 1 < 2 ^ 31)%Z →
    crepr (DList (h_prev q p (h_next (pred_of tag ps1) p (<[p := Node (Some v) (pred_of tag ps1) q]> h)))
      tag hd tl p (i32 (n + 1))) (l1 ++ v :: l2, Some (length l1)).
Proof.
    intros Hr Hlen Hne Hp Hf Hn Hlt. open_ring Hr.
    rewrite length_app in Hn.
    apply (crepr_linked _ (ps1 ++ p :: q :: ps2)); cbn;
      rewrite ?length_app; cbn; [| |f_equal; lia|lia].
    - eapply (ring_link _ _ ps1 p (q :: ps2)); [exact Hr|done..|by right| |].
      + cbn. rewrite Hhd. by destruct ps1.
      + cbn. rewrite Htl, !pred_of_app. exact (eq_sym (pred_of_app tag [p] q ps2)).
    - rewrite lookup_app_r by lia. by rewrite Hlen, Nat.sub_diag.
Qed.

Lemma insert_refines v : refines (insert_r v) (s_insert (E:=E) v).
Proof.
    open_refines. unfold insert_r.
    assert (n = 0%Z ↔ l = []) as Hn0 by (destruct l; cbn in *; split; try done; lia).
    destruct c as [i|]; cbn [snd] in *.
    2:{ cbn in Hc. subst cur. unfold s_insert in Hf. cbn [fst snd] in Hf. case_decide as Hl.
      - assert (n = 0%Z) by tauto. wp_run. by apply (push_front_refines v _ _ _ _ Hs).
      - assert (n ≠ 0%Z) by tauto. injection Hf as <- <-. wp_run. unfold ishead. wp_run. done. }
    destruct (cursor_split _ _ _ _ Hr Hc)
      as (ps1 & ps2 & l1 & w & l2 & -> & -> & H1' & H2' & Hv & Hct & Hcn & Hs1 & Hp1).
    pose proof (ring_facts _ ps1 cur ps2 _ Hr) as (? & ? & ? & ? & ? & ? & ? & ? & ? & ?).
    cbn [heap m_pTag m_pCurrent] in *.
    assert (n ≠ 0%Z) by (rewrite Hn0; destruct l1; done).
    wp_run. unfold ishead. wp_run. destruct i as [|i].
    { rewrite bool_decide_true by tauto. by apply (push_front_refines v _ _ _ _ Hs). }
    rewrite bool_decide_false by (rewrite Hp1; done). wp_run. unfold istail. wp_run.
    case_bool_decide as Ht.
    { assert (s_push_back v (l1 ++ w :: l2, Some (S i)) = Some (r, s)) as Hf'.
      { rewrite <- Hf. cbn [s_insert snd]. unfold s_push_back, s_insert_at. cbn [fst].
        apply Hs1 in Ht. rewrite Ht, firstn_all, drop_all. done. }
      by apply (push_back_refines v _ _ _ _ Hs). }
    cbn [s_insert snd] in Hf. unfold s_insert_at in Hf. cbn [fst] in Hf. case_decide; [|done].
    injection Hf as <- <-.
    destruct ps2 as [|q ps2]; [done|]. rewrite succ_of_cons in *.
    wp_run. split; [rewrite i32_small, u32_small; lia|].
    rewrite <- H2', take_S_app_cons, drop_S_app_cons.
    replace (S (length l1)) with (length (l1 ++ [w])) by (rewrite length_app; cbn; lia).
    rewrite <- (pred_of_snoc tag ps1 cur).
    rewrite (cons_middle cur), app_assoc, (cons_middle w), app_assoc in Hr.
    eapply (link_mid_spec h tag hd tl _ n (ps1 ++ [cur]) q ps2 (l1 ++ [w]) l2); [exact Hr| | |done..| |].
    - rewrite !length_app. cbn. lia.
    - by destruct ps1.
    - rewrite Hn, <- app_assoc. done.
    - lia.
Qed.

(** [index]: a walk that does not move the cursor. *)
Lemma index_loop_spec {X} (P : X → bool) (xs : list X) test d ps l i fuel k :
    ring d ps l → length xs = length ps →
    (∀ j p x, ps !! j = Some p → xs !! j = Some x → wp (test p) (λ b d', d' = d ∧ b = P x) d) →
    i ≤ length ps → length ps - i < fuel → (0 ≤ k)%Z → (k + Z.of_nat (length ps) - Z.of_nat i < 2 ^ 31)%Z →
    wp (index_loop fuel test (default (m_pTag d) (ps !! i)) k)
      (λ r d', r = from_option (λ j, k + Z.of_nat j)%Z (-1)%Z (find_pos P (drop i xs)) ∧ d' = d) d.
Proof.
    intros Hr Hlen Htest. revert i k. induction fuel as [|fuel IH]; intros i k Hi Hfuel Hk Hlt; [lia|].
    simpl. apply wp_bind, wp_gets.
    destruct (ps !! i) as [p|] eqn:Hp; cbn [default from_option id].
    - destruct (lookup_lt_is_Some_2 xs i) as [x Hx]; [apply lookup_lt_Some in Hp; lia|].
      destruct (ring_split _ _ _ _ _ Hr Hp) as (ps1 & ps2 & l1 & v & l2 & Hps & Hl & H1' & ? & _ & Hn & _).
      rewrite Hps in Hr. pose proof (ring_facts _ _ _ _ _ Hr) as (? & ? & ? & _).
      pose proof (hr_null _ _ _ (rg_ring _ _ _ Hr)) as Hnull. rewrite <- Hps in Hr.
      rewrite decide_True by (split; [done|set_solver]).
      apply wp_bind. eapply wp_mono; [by eapply Htest|]. intros b d' [-> ->].
      rewrite (drop_S xs x i Hx). simpl. destruct (P x).
      + apply wp_ret. simpl. split; [lia|done].
      + apply wp_bind. eapply wp_next_of; [done|].
        assert (succ_of (m_pTag d) ps2 = default (m_pTag d) (ps !! S i)) as ->.
        { rewrite Hps, lookup_app_r by lia. replace (S i - length ps1) with 1 by lia. by destruct ps2. }
        apply lookup_lt_Some in Hp. rewrite i32_small by lia.
        eapply wp_mono; [apply IH; lia|]. intros r d' [-> ->]. split; [|done].
        destruct (find_pos P (drop (S i) xs)); simpl; lia.
    - rewrite decide_False by tauto. apply wp_ret.
      apply lookup_ge_None in Hp. rewrite drop_ge by lia. done.
Qed.

Lemma count_bound d s : crepr d s → (Z.of_nat (length s.1) < 2 ^ 31)%Z.
Proof. by intros (ps & _ & _ & _ & ?). Qed.

Lemma index_refines eqb v : refines (index eqb v) (s_index (E:=E) eqb v).
Proof.
    open_refines. injection Hf as <- <-. unfold index. wp_run.
    pose proof (crepr_fuel _ _ _ Hs) as Hfu. pose proof (rg_vals _ _ _ Hr) as Hvals.
    rewrite Hfu. replace hd with (default tag (ps !! 0)) at 1 by (subst hd; by destruct ps).
    eapply wp_mono.
    - apply (index_loop_spec (λ x, eqb x v) l _ _ ps l 0 _ 0 Hr); try lia.
      intros j p x Hp Hx. eapply Forall2_lookup_lr in Hvals; [|done..]. cbn in Hvals.
      wp_run. by split.
    - intros a d' [-> ->]. split; [|done]. rewrite drop_0. by destruct (find_pos _ l).
Qed.

Lemma index_it_spec d ps l j :
    ring d ps l → (Z.of_nat (length ps) < 2 ^ 31)%Z →
    wp (index_it j) (λ r d', d' = d ∧
      r = from_option Z.of_nat (-1)%Z (find_pos (λ p, bool_decide (j = p)) ps)) d.
Proof.
    intros Hr Hlt. destruct d as [h tag hd tl cur n]. open_ring Hr. unfold index_it. wp_run.
    assert (length ps < walk_fuel (DList h tag hd tl cur n)).
    { unfold walk_fuel. rewrite <- size_dom, (rg_dom _ _ _ Hr), size_list_to_set by apply Hr. cbn. lia. }
    generalize dependent (walk_fuel (DList h tag hd tl cur n)). intros fuel Hfuel.
    replace hd with (default tag (ps !! 0)) at 1 by (subst hd; by destruct ps).
    eapply wp_mono.
    - apply (index_loop_spec (λ p, bool_decide (j = p)) ps _ _ ps l 0 _ 0 Hr); try lia.
      intros i p x Hp Hx. simplify_eq. by apply wp_ret.
    - intros a d' [-> ->]. split; [done|]. rewrite drop_0. by destruct (find_pos _ ps).
Qed.

Lemma at_pos_Some l i : i < length l → at_pos l i = Some i.
Proof. intros. unfold at_pos. by rewrite decide_True. Qed.
Lemma at_pos_None l i : length l ≤ i → at_pos l i = None.
Proof. intros. unfold at_pos. rewrite decide_False by lia. done. Qed.

(** [contain] from position [i] on. *)
Lemma contain_loop_spec eqb v fuel d l i :
    crepr d (l, at_pos l i) → i ≤ length l → length l - i < fuel →
    wp (contain_loop eqb fuel v) (λ r d',
      r = bool_decide (is_Some (find_pos (λ x, eqb x v) (drop i l))) ∧
      crepr d' (l, Nat.add i <$> find_pos (λ x, eqb x v) (drop i l))) d.
Proof.
    revert d i. induction fuel as [|fuel IH]; intros d i Hs Hi Hfuel; [lia|].
    simpl. apply wp_bind, wp_gets, wp_bind, wp_gets.
    destruct (decide (i < length l)) as [Hlt|Hge].
    - rewrite at_pos_Some in Hs by done.
      destruct (crepr_at _ _ _ Hs) as (x & q & Hx & Hvl & Hnx & Ht & Hnull & Hs').
      rewrite decide_True by done. apply wp_bind. eapply wp_value_of; [done|].
      rewrite (drop_S _ _ _ Hx). simpl. destruct (eqb x v).
      + apply wp_ret. simpl. rewrite Nat.add_0_r. by split.
      + apply wp_bind. eapply wp_next_of; [done|]. apply wp_bind, wp_modify.
        eapply wp_mono; [apply (IH (with_cur q d) (S i) Hs'); lia|].
        intros r d' [-> Hd']. destruct (find_pos _ _) as [j|]; simpl in *.
        * by rewrite <- Nat.add_succ_r in Hd'.
        * by split.
    - rewrite at_pos_None in Hs by lia.
      rewrite decide_False by (intros [Hc _]; by apply Hc; eapply crepr_none).
      apply wp_ret. rewrite drop_ge by lia. by split.
Qed.

Lemma contain_refines eqb v : refines (contain eqb v) (s_contain (E:=E) eqb v).
Proof.
    intros d [l c] r s Hs Hf. injection Hf as <- <-. unfold contain. apply wp_bind, wp_gets.
    rewrite (crepr_fuel _ _ _ Hs). cbn [fst snd].
    assert (∃ i, c = at_pos l i ∧ i ≤ length l) as (i & -> & Hi).
    { destruct c as [i|].
      - pose proof (crepr_at_pos _ _ _ Hs). exists i. rewrite at_pos_Some by done. split; [done|lia].
      - exists (length l). by rewrite at_pos_None. }
    eapply wp_mono; [apply contain_loop_spec; [done|done|lia]|]. intros r d' [-> Hd'].
    unfold at_pos in *. case_decide; simpl.
    - split; [|done]. apply bool_decide_ext. by rewrite fmap_is_Some.
    - rewrite drop_ge in * by lia. split; [|done]. done.
Qed.

(** [insertSort]'s walk. *)
Lemma sort_walk_spec geb leb v mode fuel d l i :
    crepr d (l, at_pos l i) → i ≤ length l → length l - i < fuel →
    wp (sort_walk geb leb fuel v mode) (λ _ d',
      crepr d' (l, Nat.add i <$> find_pos (λ x, negb (sort_test geb leb mode v x)) (drop i l))) d.
Proof.
    revert d i. induction fuel as [|fuel IH]; intros d i Hs Hi Hfuel; [lia|].
    simpl. apply wp_bind, wp_gets, wp_bind, wp_gets.
    destruct (decide (i < length l)) as [Hlt|Hge].
    - rewrite at_pos_Some in Hs by done.
      destruct (crepr_at _ _ _ Hs) as (x & q & Hx & Hvl & Hnx & Ht & Hnull & Hs').
      rewrite decide_True by done. apply wp_bind. eapply wp_value_of; [done|].
      rewrite (drop_S _ _ _ Hx). simpl. fold (sort_test geb leb mode v x).
      destruct (sort_test geb leb mode v x); simpl.
      + apply wp_bind. eapply wp_next_of; [done|]. apply wp_bind, wp_modify.
        eapply wp_mono; [apply (IH (with_cur q d) (S i) Hs'); lia|].
        intros [] d' Hd'. cbv beta in Hd'. destruct (find_pos _ _) as [j|]; simpl in *; [|done].
        by rewrite <- Nat.add_succ_r in Hd'.
      + apply wp_ret. by rewrite Nat.add_0_r.
    - rewrite at_pos_None in Hs by lia.
      rewrite decide_False by (intros Hc; by apply Hc; eapply crepr_none).
      apply wp_ret. rewrite drop_ge by lia. done.
Qed.

Lemma insertSort_refines geb leb v mode :
    refines (insertSort geb leb v mode) (s_insertSort (E:=E) geb leb v mode).
Proof.
    intros d [l c] r s Hs Hf. unfold insertSort, s_insertSort in *. cbn [fst] in Hf.
    apply wp_bind. eapply wp_mono; [eapply reset_refines; [done|reflexivity]|].
    cbn [fst]. intros [] d1 [_ Hs1]. apply wp_bind, wp_gets, wp_bind.
    rewrite first_pos_at in Hs1. rewrite (crepr_fuel _ _ _ Hs1).
    eapply wp_mono; [apply (sort_walk_spec geb leb v mode _ _ l 0); [done|lia|lia]|].
    rewrite drop_0. intros [] d2 Hs2. cbv beta in Hs2.
    set (k := find_pos _ l) in *. rewrite (option_fmap_ext _ id), option_fmap_id in Hs2 by done.
    unfold s_insert_at in Hf. cbn [fst] in Hf. case_decide as Hroom; [|done].
    injection Hf as <- <-. clear d d1 Hs Hs1.
    assert (∀ i, k = Some i → i < length l) as Hk by (intros; by eapply find_pos_lt).
    destruct d2 as [h tag hd tl cur n]. pose proof Hs2 as (ps & Hr & Hc & Hn & Hlt).
    cbn [fst snd m_pCurrent m_pTag m_count] in Hr, Hc, Hn, Hlt. open_ring Hr. wp_run.
    case_decide as Hch.
    - (* before the first entry *)
      assert (default (length l) k = 0) as ->.
      { destruct k as [i|]; simpl.
        - subst cur hd. destruct ps as [|p ps]; [done|]. cbn in Hc.
          eapply (NoDup_lookup (p :: ps)); [|exact Hc|done].
          pose proof (hr_nodup _ _ _ (rg_ring _ _ _ Hr)) as Hnd. by apply NoDup_cons in Hnd as [_ ?].
        - cbn in Hc. subst cur. rewrite <- Hlen. symmetry in Hch. rewrite Hhd, succ_of_tag in Hch by done. by subst ps. }
      apply (push_front_refines v _ _ _ _ Hs2). unfold s_push_front. cbn. by rewrite decide_True.
    - case_decide as Hct.
      + destruct k as [i|]; cbn in Hc.
        { subst cur. exfalso. apply list_elem_of_lookup_2 in Hc. done. }
        simpl. apply (push_back_refines v _ _ _ _ Hs2). unfold s_push_back. cbn.
        rewrite decide_True by done. by rewrite firstn_all, drop_all.
      + destruct k as [i|]; [|cbn in Hc; done]. simpl. specialize (Hk i eq_refl).
        destruct (cursor_split _ _ _ _ Hr Hc)
          as (ps1 & ps2 & l1 & w & l2 & -> & -> & H1' & H2' & Hv & _ & Hcn & Hs1 & Hp1).
        pose proof (ring_facts _ ps1 cur ps2 _ Hr) as (? & ? & ? & ? & ? & ? & ? & ? & ? & ?).
        cbn [heap m_pTag m_pCurrent] in *. wp_run.
        split; [rewrite i32_small, u32_small; lia|].
        rewrite <- H2', take_app_length, drop_app_length.
        eapply (link_mid_spec h tag hd tl _ n ps1 cur ps2 l1 (w :: l2)); [exact Hr|lia| |done..|lia].
        intros ->. cbn in *. lia.
Qed.

Lemma remove_refines : refines remove (s_remove (E:=E)).
Proof.
    intros d [l c] r s Hs Hf. injection Hf as <- <-. unfold remove. apply wp_bind, wp_gets.
    rewrite (crepr_fuel _ _ _ Hs).
    assert (∀ n fuel d l c, crepr d (l, c) → length l = n → n < fuel →
      wp (while_loop fuel (r ← pop_front; mret (negb (r =? 0)%Z)) (mret tt))
        (λ _ d', crepr d' ([], None)) d) as Hloop.
    { clear. induction n as [|n IH]; intros [|fuel] d l c Hs Hl Hfuel; try lia; simpl;
        destruct l as [|v l]; try done; apply wp_bind, wp_bind;
        (eapply wp_mono; [eapply pop_front_refines; [done|reflexivity]|]); intros a d' [-> Hs'];
        cbn [fst] in *.
      - apply wp_ret. apply wp_ret. destruct c as [i|]; [|done].
        apply crepr_at_pos in Hs'. cbn in Hs'. lia.
      - apply wp_ret. case_match eqn:Hz.
        + apply wp_bind, wp_ret. eapply IH; [exact Hs'|cbn in *; lia|lia].
        + apply wp_ret. destruct l; [done|]. apply negb_false_iff, Z.eqb_eq in Hz. cbn in Hz. lia. }
    eapply wp_mono; [eapply Hloop; [done|done|lia]|]. by intros [] d' ?.
Qed.

(** Deleting the entry the cursor is on, as a list function. *)
Lemma s_pop_current_delete l i :
    i < length l → ∃ n c, s_pop_current (l, Some i) = Some (n, (delete i l, c)).
Proof.
    intros Hi. unfold s_pop_current. cbn [fst snd]. case_decide.
    - unfold s_pop_back. cbn [fst]. destruct (length l) as [|n] eqn:Hl; [lia|].
      assert (i = n) as -> by lia.
      assert (delete n l = take n l) as ->; [|eauto].
      rewrite delete_take_drop, drop_ge by lia. apply app_nil_r.
    - case_decide as H0; [|eauto]. subst i. destruct l; [simpl in *; lia|]. unfold s_pop_front. simpl. eauto.
Qed.

Lemma find_pos_filter P l i :
    find_pos P l = Some i →
    length (filter (λ x, P x = true) l) = S (length (filter (λ x, P x = true) (delete i l))) ∧
    filter (λ x, ¬ P x = true) (delete i l) = filter (λ x, ¬ P x = true) l.
Proof.
    revert i. induction l as [|x l IH]; intros i; simpl; [done|].
    destruct (P x) eqn:HP.
    - intros [= <-]. simpl. rewrite !filter_cons, HP. simpl. done.
    - intros (j & Hj & ->)%fmap_Some. apply IH in Hj as [H1 H2]. simpl.
      rewrite !filter_cons, HP. simpl. rewrite H1, H2. done.
Qed.
Lemma find_pos_None_filter P l :
    find_pos P l = None →
    filter (λ x, P x = true) l = [] ∧ filter (λ x, ¬ P x = true) l = l.
Proof.
    induction l as [|x l IH]; simpl; [done|]. destruct (P x) eqn:HP; [done|].
    intros ?%fmap_None. rewrite !filter_cons, HP. simpl. destruct IH as [-> ->]; done.
Qed.

Lemma remove_v_loop_spec eqb v fuel d l k :
    crepr d (l, first_pos l) → length l < fuel → (0 ≤ k)%Z →
    (k + Z.of_nat (length l) < 2 ^ 31)%Z →
    wp (remove_v_loop eqb fuel v k) (λ r d',
      r = (k + Z.of_nat (length (filter (λ x, eqb x v = true) l)))%Z ∧
      crepr d' (filter (λ x, ¬ eqb x v = true) l, None)) d.
Proof.
    revert d l k. induction fuel as [|fuel IH]; intros d l k Hs Hfuel Hk Hlt; [lia|]. simpl.
    apply wp_bind. eapply wp_mono; [eapply contain_refines; [exact Hs|reflexivity]|].
    cbn [fst snd]. intros b d1 [-> Hs1].
    assert ((i ← first_pos l; Nat.add i <$> find_pos (λ x, eqb x v) (drop i l)) =
      find_pos (λ x, eqb x v) l) as Heq.
    { destruct l; [done|]. simpl. case_match; [done|].
      by destruct (find_pos _ _). }
    rewrite Heq in *. destruct (find_pos _ l) as [i|] eqn:Hf.
    - rewrite bool_decide_true by eauto.
      pose proof (find_pos_lt _ _ _ Hf) as Hi. pose proof (find_pos_filter _ _ _ Hf) as [Hf1 Hf2].
      destruct (s_pop_current_delete l i Hi) as (n & c & Hp).
      apply wp_bind. eapply wp_mono; [eapply pop_current_refines; [exact Hs1|exact Hp]|].
      intros ? d2 [-> Hs2]. apply wp_bind. eapply wp_mono; [eapply reset_refines; [exact Hs2|reflexivity]|].
      intros [] d3 [_ Hs3]. cbn [fst] in Hs3.
      assert (length (delete i l) = length l - 1) by by apply length_delete, lookup_lt_is_Some_2.
      rewrite i32_small by lia. eapply wp_mono; [apply IH; [exact Hs3|lia..]|].
      intros r d' [-> Hd']. rewrite Hf2 in Hd'. split; [rewrite Hf1; lia|done].
    - rewrite bool_decide_false by (intros [? ?]; done).
      apply find_pos_None_filter in Hf as [-> ->]. apply wp_ret.
      rewrite u32_small by lia. simpl. split; [lia|done].
Qed.

Lemma remove_v_refines eqb v : refines (remove_v eqb v) (s_remove_v (E:=E) eqb v).
Proof.
    intros d [l c] r s Hs Hf. injection Hf as <- <-. unfold remove_v. cbn [fst].
    apply wp_bind. eapply wp_mono; [eapply reset_refines; [exact Hs|reflexivity]|].
    intros [] d1 [_ Hs1]. cbn [fst] in Hs1. apply wp_bind, wp_gets.
    rewrite (crepr_fuel _ _ _ Hs1). pose proof (count_bound _ _ Hs1) as Hb. cbn in Hb.
    eapply wp_mono; [apply remove_v_loop_spec; [exact Hs1|lia..]|].
    intros r d' [-> Hd']. by split.
Qed.

(** The wrap-around moves. *)
Lemma next_d_refines : refines next_d (s_next_d (E:=E)).
Proof.
    eapply refines_ext; [apply (refines_bind _ _ _ (λ v s, match v with
      | Some v => Some ((true, Some v), s)
      | None => if decide (s.2 = last_pos s.1 ∧ 1 < length s.1)
                then Some ((true, s.1 !! 0), (s.1, Some 0)) else Some ((true, None), s)
      end) next_v_refines)|by intros s; unfold s_next_d; destruct (s_with_value _ _) as [[[] ?]|]].
    intros [v|] d [l c] r s Hs Hf; [injection Hf as <- <-; by apply wp_ret|]. cbn [fst snd] in Hf.
    apply wp_bind. eapply wp_mono; [eapply istail_refines; [exact Hs|reflexivity]|].
    cbn [fst snd]. intros b d1 [-> Hs1]. apply wp_bind, wp_gets.
    assert (m_count d1 = Z.of_nat (length l)) as Hn by (by destruct Hs1 as (? & _ & _ & ? & _)).
    assert (c = last_pos l ∧ 1 < length l ↔
      (match c with Some i => bool_decide (S i = length l) | None => false end) = true ∧ (1 < m_count d1)%Z) as Hd.
    { rewrite Hn. unfold last_pos. destruct c as [i|], (length l) eqn:Hl; try case_bool_decide; naive_solver lia. }
    case_decide as Hcase.
    - injection Hf as <- <-. rewrite decide_True by tauto.
      apply wp_bind. eapply wp_mono; [eapply reset_refines; [exact Hs1|reflexivity]|].
      intros [] d2 [_ Hs2]. apply wp_bind.
      eapply wp_mono; [eapply current_refines; [exact Hs2|reflexivity]|].
      intros v d3 [-> Hs3]. apply wp_ret. destruct l as [|x l]; [cbn in *; lia|]. by split.
    - rewrite decide_False by tauto. injection Hf as <- <-. by apply wp_ret.
Qed.

Lemma prev_d_refines : refines prev_d (s_prev_d (E:=E)).
Proof.
    eapply refines_ext; [apply (refines_bind _ _ _ (λ v s, match v with
      | Some v => Some ((true, Some v), s)
      | None => if decide (s.2 = Some 0 ∧ 1 < length s.1)
                then Some ((true, last s.1), (s.1, last_pos s.1)) else Some ((true, None), s)
      end) prev_v_refines)|by intros s; unfold s_prev_d; destruct (s_with_value _ _) as [[[] ?]|]].
    intros [v|] d [l c] r s Hs Hf; [injection Hf as <- <-; by apply wp_ret|]. cbn [fst snd] in Hf.
    apply wp_bind. eapply wp_mono; [eapply ishead_refines; [exact Hs|reflexivity]|].
    cbn [fst snd]. intros b d1 [-> Hs1]. apply wp_bind, wp_gets.
    assert (m_count d1 = Z.of_nat (length l)) as Hn by (by destruct Hs1 as (? & _ & _ & ? & _)).
    assert (c = Some 0 ∧ 1 < length l ↔ bool_decide (c = Some 0) = true ∧ (1 < m_count d1)%Z) as Hd.
    { rewrite Hn, bool_decide_eq_true. naive_solver lia. }
    case_decide as Hcase.
    - injection Hf as <- <-. rewrite decide_True by tauto.
      apply wp_bind. eapply wp_mono; [eapply reset_t_refines; [exact Hs1|reflexivity]|].
      intros [] d2 [_ Hs2]. apply wp_bind.
      eapply wp_mono; [eapply current_refines; [exact Hs2|reflexivity]|].
      intros v d3 [-> Hs3]. apply wp_ret. cbn [fst snd] in *.
      destruct l as [|x l _] using rev_ind; [cbn in *; lia|].
      unfold last_pos in *. rewrite length_app, Nat.add_comm, last_snoc in *. simpl in *.
      rewrite lookup_app_r, Nat.sub_diag in * by lia. by split.
    - rewrite decide_False by tauto. injection Hf as <- <-. by apply wp_ret.
Qed.

(** A handle is the address of an entry; removing by handle deletes that
      entry and resets the cursor. *)
Lemma removeByHandle_spec d ps l c i handle :
    ring d ps l → crepr d (l, c) → ps !! i = Some handle →
    wp (removeByHandle handle) (λ _ d', crepr d' (delete i l, first_pos (delete i l))) d.
Proof.
    intros Hr Hs Hi. unfold removeByHandle.
    assert (handle ≠ NULL).
    { intros ->. eapply (hr_null _ _ _ (rg_ring _ _ _ Hr)). apply list_elem_of_further.
      by eapply list_elem_of_lookup_2. }
    rewrite decide_False by done. apply wp_bind, wp_modify.
    assert (crepr (with_cur handle d) (l, Some i)) as Hs1.
    { destruct Hs as (ps' & _ & _ & Hn & Hlt). exists ps.
      split_and!; [eapply ring_members; [exact Hr|done..]|done|done|done]. }
    destruct (s_pop_current_delete l i (crepr_at_pos _ _ _ Hs1)) as (n & c' & Hp).
    apply wp_bind. eapply wp_mono; [eapply pop_current_refines; [exact Hs1|exact Hp]|].
    intros ? d2 [-> Hs2]. eapply wp_mono; [eapply reset_refines; [exact Hs2|reflexivity]|].
    by intros [] d3 [_ Hs3].
Qed.

Lemma init_crepr : crepr (init : dlist E) ([], None).
Proof. exists []. split_and!; [apply init_ring|done|done|done]. Qed.

(** The copy loop walks the source and appends every value. *)
Lemma copy_loop_spec (d e : dlist E) l c :
    crepr d ([], None) → crepr e (l, c) →
    wp copy_loop (λ _ t, crepr t.1 (l, last_pos l) ∧ crepr t.2 (l, last_pos l)) (d, e).
Proof.
    intros Hd He. pose proof (count_bound _ _ He) as Hb. cbn in Hb. unfold copy_loop.
    apply wp_bind, wp_zoom. eapply wp_mono; [eapply reset_d_refines; [exact He|reflexivity]|].
    intros [] e1 [_ He1]. cbn [fst snd] in *. apply wp_bind, wp_gets. cbn [snd].
    rewrite (crepr_fuel _ _ _ He1).
    set (before := λ i : nat, match i with O => None | S j => Some j end : option nat).
    apply (wp_while (λ k t, ∃ i, k + i = length l ∧
      crepr t.1 (take i l, last_pos (take i l)) ∧ crepr t.2 (l, before i)) _ _ _ (length l));
      [|lia|exists 0; by split_and!].
    clear Hd He He1. intros k [d1 e2] (i & Hk & Hd1 & He2). cbn [fst snd] in *.
    apply wp_zoom. cbn [fst snd]. destruct (decide (i < length l)) as [Hi|Hi].
    - assert (s_next (l, before i) = Some (true, (l, Some i))) as Hnext.
      { destruct i; simpl; [by destruct l; [simpl in *; lia|]|].
        unfold s_next. cbn [fst snd]. by rewrite decide_False by lia. }
      eapply wp_mono; [eapply next_refines; [exact He2|exact Hnext]|].
      intros b e3 [-> He3]. exists (length l - S i). split; [lia|].
      destruct (lookup_lt_is_Some_2 l i Hi) as [v Hv].
      apply wp_bind, wp_zoom. cbn [fst snd].
      eapply wp_mono; [eapply (current_r_refines _ _ v); [exact He3|unfold s_current_r; simpl; by rewrite Hv]|].
      intros w e4 [-> He4]. apply wp_bind, wp_zoom. cbn [fst snd].
      assert (length (take i l) = i) as Hlen by (rewrite length_take; lia).
      eapply wp_mono; [eapply push_back_refines; [exact Hd1|]|].
      { unfold s_push_back. cbn [fst]. rewrite decide_True by lia. reflexivity. }
      intros n d2 [_ Hd2]. apply wp_ret. exists (S i). cbn [fst snd].
      rewrite (take_S_r _ _ _ Hv). split_and!; [lia| |done].
      cbn [fst] in Hd2. unfold last_pos. rewrite length_app, Nat.add_comm. simpl. done.
    - rewrite take_ge in Hd1 by lia. assert (i = length l) as -> by lia.
      assert (s_next (l, before (length l)) = Some (false, (l, before (length l)))) as Hnext.
      { destruct l; simpl; [done|]. unfold s_next. cbn [fst snd length]. by rewrite decide_True. }
      eapply wp_mono; [eapply next_refines; [exact He2|exact Hnext]|].
      intros b e3 [-> He3]. done.
Qed.

Lemma assign_spec (d e : dlist E) l c l' c' :
    crepr d (l', c') → crepr e (l, c) →
    wp assign (λ _ t, crepr t.1 (l, last_pos l) ∧ crepr t.2 (l, last_pos l)) (d, e).
Proof.
    intros Hd He. unfold assign. apply wp_bind, wp_zoom.
    eapply wp_mono; [eapply remove_refines; [exact Hd|reflexivity]|].
    intros [] d1 [_ Hd1]. by eapply copy_loop_spec.
Qed.

Lemma assign_self_spec d s : crepr d s → wp assign_self (λ _ d', crepr d' ([], None)) d.
Proof.
    intros Hd. unfold assign_self. apply wp_bind.
    eapply wp_mono; [eapply remove_refines; [exact Hd|reflexivity]|]. intros [] d1 [_ Hd1].
    apply wp_bind. eapply wp_mono; [eapply reset_d_refines; [exact Hd1|reflexivity]|].
    intros [] d2 [_ Hd2]. apply wp_bind, wp_gets. rewrite (crepr_fuel _ _ _ Hd2). simpl.
    apply wp_bind. eapply wp_mono; [eapply next_refines; [exact Hd2|reflexivity]|].
    intros b d3 [-> Hd3]. by apply wp_ret.
Qed.

(** The destructor frees every entry and the sentinel. *)
Lemma destroy_spec d s : crepr d s → wp destroy (λ _ d', heap d' = ∅) d.
Proof.
    intros Hd. unfold destroy. apply wp_bind.
    eapply wp_mono; [eapply remove_refines; [exact Hd|reflexivity]|]. intros [] d1 [_ (ps & Hr & _)].
    cbn [fst] in Hr. apply wp_bind, wp_gets. pose proof (ring_tag_facts _ _ _ Hr) as (_ & Ht & Hn & _).
    rewrite decide_True by done. apply wp_on_alloc; [done|].
    pose proof (ring_length _ _ _ Hr). destruct ps; [|done].
    apply dom_empty_inv_L. cbn. rewrite dom_delete_L, (rg_dom _ _ _ Hr). set_solver.
Qed.

Lemma iter_end_spec d ps l :
    ring d ps l → wp iter_end (λ p d', p = m_pTag d ∧ d' = d) d.
Proof.
    intros Hr. destruct d as [h tag hd tl cur n]. open_ring Hr. unfold iter_end.
    destruct ps as [|p ps _] using rev_ind.
    - cbn in *. subst. wp_run. done.
    - rewrite pred_of_snoc in Htl. subst tl.
      pose proof (ring_facts _ ps p [] l Hr) as (? & ? & ? & ? & ? & ? & _). cbn in *. wp_run. done.
Qed.

(** [pos(i)] points at entry [i], at [end()] when there is none. *)
Lemma pos_spec d ps l i :
    ring d ps l → (0 ≤ i)%Z →
    wp (pos i) (λ p d', p = default (m_pTag d) (ps !! Z.to_nat i) ∧ d' = d) d.
Proof.
    intros Hr Hi. unfold pos. apply wp_bind, wp_gets.
    assert (∀ k j, wp (pos_walk k (default (m_pTag d) (ps !! j)))
      (λ p d', p = default (m_pTag d) (ps !! (j + k)) ∧ d' = d) d) as Hwalk.
    { intros k. induction k as [|k IH]; intros j; simpl.
      { apply wp_ret. by rewrite Nat.add_0_r. }
      apply wp_bind. eapply wp_mono; [by apply (iter_end_spec d ps l)|]. intros e d' [-> ->].
      pose proof (ring_tag_nelem _ _ _ Hr) as Htag.
      destruct (ps !! j) as [p|] eqn:Hp; cbn [default from_option id].
      - destruct (ring_split _ _ _ _ _ Hr Hp) as (ps1 & ps2 & l1 & v & l2 & Hps & _ & H1 & _ & _ & Hn & _).
        rewrite decide_True by (intros ->; apply Htag; by eapply list_elem_of_lookup_2).
        apply wp_bind. eapply wp_next_of; [done|].
        replace (succ_of (m_pTag d) ps2) with (default (m_pTag d) (ps !! S j)).
        + rewrite <- Nat.add_succ_comm. apply IH.
        + rewrite Hps, lookup_app_r by lia. replace (S j - length ps1) with 1 by lia. by destruct ps2.
      - rewrite decide_False by tauto. apply wp_ret. split; [|done].
        apply lookup_ge_None in Hp. by rewrite lookup_ge_None_2 by lia. }
    replace (m_pHead d) with (default (m_pTag d) (ps !! 0)).
    - apply (Hwalk (Z.to_nat i) 0).
    - rewrite (rg_head _ _ _ Hr). by destruct ps.
Qed.
End refinement.

(** ** Clients

    A client is a program over the public member functions, free to branch on
    the results it gets back. *)
Section client.
Context {E : Type}.
Variable eqb geb leb : E → E → bool.

Inductive call : Type → Type :=
  | Count : call Z | Empty : call bool | IsHead : call bool | IsTail : call bool
  | Front : call bool | FrontV : call (option E) | FrontR : call E
  | Back : call bool | BackV : call (option E) | BackR : call E
  | PopFront : call Z | PopBack : call Z | PopCurrent : call Z
  | PopFrontV : call (option E * Z) | PopBackV : call (option E * Z)
  | PopCurrentV : call (option E * Z)
  | PushFront (v : E) : call Z | PushBack (v : E) : call Z | Insert (v : E) : call Z
  | InsertSort (v : E) (mode : Z) : call Z
  | Next : call bool | NextV : call (option E) | NextD : call (bool * option E)
  | Prev : call bool | PrevV : call (option E) | PrevD : call (bool * option E)
  | Current : call (option E) | CurrentR : call E
  | Reset : call unit | ResetT : call unit | ResetD : call unit | ResetPos (i : Z) : call bool
  | Get (i : Z) : call (option E) | Set_ (i : Z) (v : E) : call bool
  | Contain (v : E) : call bool | Index (v : E) : call Z
  | RemoveV (v : E) : call Z | Clear : call unit.

(** The member function a call runs. *)
Definition exec {A} (c : call A) : M (dlist E) A :=
  match c with
  | Count => count | Empty => empty_ | IsHead => ishead | IsTail => istail
  | Front => front | FrontV => front_v | FrontR => front_r
  | Back => back | BackV => back_v | BackR => back_r
  | PopFront => pop_front | PopBack => pop_back | PopCurrent => pop_current
  | PopFrontV => pop_front_v | PopBackV => pop_back_v | PopCurrentV => pop_current_v
  | PushFront v => push_front v | PushBack v => push_back v | Insert v => insert v
  | InsertSort v mode => insertSort geb leb v mode
  | Next => next | NextV => next_v | NextD => next_d
  | Prev => prev | PrevV => prev_v | PrevD => prev_d
  | Current => current | CurrentR => current_r
  | Reset => reset | ResetT => reset_t | ResetD => reset_d | ResetPos i => reset_pos i
  | Get i => get i | Set_ i v => set i v
  | Contain v => contain eqb v | Index v => index eqb v
  | RemoveV v => remove_v eqb v | Clear => clear
  end.

(** Its list-level meaning. *)
Definition meaning {A} (c : call A) : op A :=
  match c with
  | Count => s_count | Empty => s_empty | IsHead => s_ishead | IsTail => s_istail
  | Front => s_front | FrontV => s_front_v | FrontR => λ s, v ← head s.1; Some (v, s)
  | Back => s_back | BackV => s_back_v | BackR => λ s, v ← last s.1; Some (v, s)
  | PopFront => s_pop_front | PopBack => s_pop_back | PopCurrent => s_pop_current
  | PopFrontV => s_pop_front_v | PopBackV => s_pop_back_v | PopCurrentV => s_pop_current_v
  | PushFront v => s_push_front v | PushBack v => s_push_back v | Insert v => s_insert v
  | InsertSort v mode => s_insertSort geb leb v mode
  | Next => s_next | NextV => s_with_value s_next | NextD => s_next_d
  | Prev => s_prev | PrevV => s_with_value s_prev | PrevD => s_prev_d
  | Current => s_current | CurrentR => s_current_r
  | Reset => s_reset | ResetT => s_reset_t | ResetD => s_reset_d | ResetPos i => s_reset_pos i
  | Get i => s_with_value (s_addr i) | Set_ i v => s_set i v
  | Contain v => s_contain eqb v | Index v => s_index eqb v
  | RemoveV v => s_remove_v eqb v | Clear => s_remove
  end.

Inductive prog (A : Type) : Type :=
  | Ret (a : A)
  | Call {B : Type} (c : call B) (k : B → prog A).
Arguments Ret {A} _.
Arguments Call {A B} _ _.

Fixpoint exec_prog {A} (p : prog A) : M (dlist E) A :=
  match p with
  | Ret a => mret a
  | Call c k => r ← exec c; exec_prog (k r)
  end.
Fixpoint meaning_prog {A} (p : prog A) : op A :=
  match p with
  | Ret a => λ s, Some (a, s)
  | Call c k => λ s, '(r, s') ← meaning c s; meaning_prog (k r) s'
  end.

Lemma exec_refines {A} (c : call A) : refines (exec c) (meaning c).
Proof.
    destruct c; simpl.
    - apply count_refines. - apply empty_refines. - apply ishead_refines. - apply istail_refines.
    - apply front_refines. - apply front_v_refines. - apply front_r_refines.
    - apply back_refines. - apply back_v_refines. - apply back_r_refines.
    - apply pop_front_refines. - apply pop_back_refines. - apply pop_current_refines.
    - apply pop_front_v_refines. - apply pop_back_v_refines. - apply pop_current_v_refines.
    - apply push_front_refines. - apply push_back_refines. - apply insert_refines.
    - apply insertSort_refines.
    - apply next_refines. - apply next_v_refines. - apply next_d_refines.
    - apply prev_refines. - apply prev_v_refines. - apply prev_d_refines.
    - apply current_refines. - apply current_r_refines.
    - apply reset_refines. - apply reset_t_refines. - apply reset_d_refines.
    - apply reset_pos_refines. - apply get_refines. - apply set_refines.
    - apply contain_refines. - apply index_refines. - apply remove_v_refines.
    - apply remove_refines.
Qed.

Lemma exec_prog_refines {A} (p : prog A) : refines (exec_prog p) (meaning_prog p).
Proof.
    induction p as [a|B c k IH]; simpl.
    - intros d s r s' Hs Hf. injection Hf as <- <-. by apply wp_ret.
    - apply refines_bind; [apply exec_refines|done].
Qed.
End client.
Arguments Ret {E A} _.
Arguments Call {E A B} _ _.

(** ** Properties *)

(** C2: any client program over [CList]'s member functions, started on a fresh
    list, behaves on the pointer structure exactly as on the abstract list with
    a cursor, as long as the abstract run is defined (no read through a missing
    current entry, no [reset_pos] out of range, no more than [2^31 - 1]
    entries): every loop ends, no freed or NULL entry is touched, the results
    agree and the final object represents the final list. *)
Theorem clist_program_refinement {E A} (eqb geb leb : E → E → bool) (p : prog A)
    (r : A) (s : cursor_list E) :
  meaning_prog eqb geb leb p ([], None) = Some (r, s) →
  ∃ d, exec_prog eqb geb leb p init = Some (r, d) ∧ crepr d s.
Proof.
  intros Hp. eapply exec_prog_refines in Hp; [|apply init_crepr].
  apply wp_elim in Hp as (a & d & Hd & -> & Hs). by exists d.
Qed.

(** C35: whatever a client did with a list, its destructor releases every entry
    that was ever allocated, and the sentinel. *)
Theorem clist_no_leak {E A} (eqb geb leb : E → E → bool) (p : prog A)
    (r : A) (s : cursor_list E) :
  meaning_prog eqb geb leb p ([], None) = Some (r, s) →
  ∃ d, (exec_prog eqb geb leb p ;; destroy) init = Some (tt, d) ∧ heap d = ∅.
Proof.
  intros Hp. eapply exec_prog_refines in Hp; [|apply init_crepr].
  assert (wp (exec_prog eqb geb leb p ;; destroy) (λ _ d, heap d = ∅) init) as Hw.
  { apply wp_bind. eapply wp_mono; [exact Hp|]. intros a d [_ Hd]. by eapply destroy_spec. }
  apply wp_elim in Hw as ([] & d & Hd & Hh). by exists d.
Qed.

(** [operator=] and the copy constructor make the target hold the source's
    values in the source's order, and leave the source's entries in place with
    its cursor on the last entry. *)
Theorem clist_copy {E} (d e : dlist E) l c s :
  crepr d s → crepr e (l, c) →
  (∃ d' e', assign (d, e) = Some (tt, (d', e')) ∧
    crepr d' (l, last_pos l) ∧ crepr e' (l, last_pos l)) ∧
  (∃ d' e', copy_ctor e = Some (tt, (d', e')) ∧
    crepr d' (l, last_pos l) ∧ crepr e' (l, last_pos l)).
Proof.
  intros Hd He. split.
  - destruct s as [l' c']. pose proof (assign_spec _ _ _ _ _ _ Hd He) as Hw.
    apply wp_elim in Hw as ([] & [d' e'] & Heq & ? & ?). by exists d', e'.
  - pose proof (copy_loop_spec _ _ _ _ init_crepr He) as Hw.
    apply wp_elim in Hw as ([] & [d' e'] & Heq & ? & ?). by exists d', e'.
Qed.

(** Assigning a list to itself empties it (the guard against it is
    commented out in the source). *)
Theorem clist_self_assign_empties {E} (d : dlist E) s :
  crepr d s → ∃ d', assign_self d = Some (tt, d') ∧ crepr d' ([], None).
Proof.
  intros Hd. apply assign_self_spec in Hd. apply wp_elim in Hd as ([] & d' & ? & ?). by exists d'.
Qed.

(** The search loop of the header comment: [reset(); while(contain(value)) next();] *)
Definition scan_idiom {E} (eqb : E → E → bool) (fuel : nat) (v : E) : M (dlist E) unit :=
  reset ;; while_loop fuel (contain eqb v) (next ;; mret tt).

(** The search loop the header comment documents does not end when the
    value of the last entry matches: [next] does not move off the last entry,
    so [contain] finds it again, however many iterations are allowed. *)
Theorem clist_scan_idiom_diverges {E} (eqb : E → E → bool) (d : dlist E) l x c v fuel :
  crepr d (l ++ [x], c) → eqb x v = true → scan_idiom eqb fuel v d = None.
Proof.
  intros Hs Hx. unfold scan_idiom.
  assert (∀ d i, crepr d (l ++ [x], Some i) →
    while_loop fuel (contain eqb v) (next ;; mret tt) d = None) as Hloop.
  { clear d c Hs. induction fuel as [|fuel IH]; intros d i Hs; [done|]. cbn [while_loop].
    pose proof (crepr_at_pos _ _ _ Hs) as Hi. rewrite length_app in Hi. cbn in Hi.
    assert (is_Some (find_pos (λ y, eqb y v) (drop i (l ++ [x])))) as [j Hj].
    { rewrite drop_app_le by lia. generalize (drop i l). intros l'.
      induction l' as [|y l' [j Hj]]; simpl; [rewrite Hx; eauto|]. rewrite Hj. case_match; eauto. }
    pose proof (contain_refines eqb v _ _ _ _ Hs eq_refl) as Hw. simpl in Hw. rewrite Hj in Hw.
    apply wp_elim in Hw as (b & d1 & Hd1 & -> & Hs1). simpl in Hs1. rewrite (bind_eq _ _ _ _ _ Hd1).
    rewrite bool_decide_true by eauto. rewrite bind_assoc_eq.
    destruct (s_next (l ++ [x], Some (i + j))) as [[b [l' c']]|] eqn:Hn.
    2:{ unfold s_next in Hn. simpl in Hn. by case_decide. }
    pose proof (next_refines _ _ _ _ Hs1 Hn) as Hw. apply wp_elim in Hw as (b' & d2 & Hd2 & _ & Hs2).
    rewrite (bind_eq _ _ _ _ _ Hd2). simpl.
    unfold s_next in Hn. simpl in Hn. case_decide; simplify_eq; eapply IH; exact Hs2. }
  pose proof (reset_refines _ _ _ _ Hs eq_refl) as Hw.
  apply wp_elim in Hw as ([] & d1 & Hd1 & _ & Hs1). rewrite (bind_eq _ _ _ _ _ Hd1).
  assert (first_pos (l ++ [x]) = Some 0) as Hp by (by destruct l).
  cbn [fst] in Hs1. rewrite Hp in Hs1. by eapply Hloop.
Qed.

(** ** Witnesses *)

(** Builds [3; 5; 7] by sorted insertion, removes 5, walks, reads the first entry. *)
Definition demo : prog (E:=Z) (Z * option Z) :=
  Call (InsertSort 5%Z 0) (λ _, Call (InsertSort 3%Z 0) (λ _, Call (InsertSort 7%Z 0) (λ n,
  Call (RemoveV 5%Z) (λ _, Call Front (λ b,
    if (b : bool) then Call NextV (λ v, Ret (n, v)) else Ret (n, None)))))).

Lemma one_entry_crepr : ∃ d : dlist Z, push_back 4%Z init = Some (1%Z, d) ∧ crepr d ([] ++ [4%Z], Some 0).
Proof.
  pose proof (push_back_refines 4%Z init ([], None) 1%Z ([4%Z], Some 0) init_crepr) as Hw.
  apply wp_elim in Hw as (r & d & Hd & -> & Hs); [by exists d|]. vm_compute. done.
Qed.

Lemma clist_program_refinement_witness :
  meaning_prog Z.eqb Z.geb Z.leb demo ([], None) = Some ((3%Z, Some 7%Z), ([3%Z; 7%Z], Some 1)) ∧
  ∃ d, exec_prog Z.eqb Z.geb Z.leb demo init = Some ((3, Some 7)%Z, d) ∧ crepr d ([3; 7]%Z, Some 1).
Proof.
  split; [vm_compute; reflexivity|].
  apply (clist_program_refinement Z.eqb Z.geb Z.leb demo). vm_compute. reflexivity.
Defined.

Lemma clist_no_leak_witness :
  ∃ d, (exec_prog Z.eqb Z.geb Z.leb demo ;; destroy) init = Some (tt, d) ∧ heap d = ∅.
Proof.
  apply (clist_no_leak Z.eqb Z.geb Z.leb demo (3, Some 7)%Z ([3; 7]%Z, Some 1)).
  vm_compute. reflexivity.
Defined.

Lemma clist_copy_witness :
  ∃ e : dlist Z, (∃ d' e', assign (init, e) = Some (tt, (d', e')) ∧
    crepr d' ([4%Z], Some 0) ∧ crepr e' ([4%Z], Some 0)) ∧
  (∃ d' e', copy_ctor e = Some (tt, (d', e')) ∧
    crepr d' ([4%Z], Some 0) ∧ crepr e' ([4%Z], Some 0)).
Proof.
  destruct one_entry_crepr as (e & _ & He). exists e.
  apply (clist_copy init e [4%Z] (Some 0) ([], None)); [apply init_crepr|exact He].
Defined.

Lemma clist_self_assign_empties_witness :
  ∃ d d' : dlist Z, assign_self d = Some (tt, d') ∧ crepr d' ([], None).
Proof.
  destruct one_entry_crepr as (d & _ & Hd). exists d.
  apply (clist_self_assign_empties d ([4%Z], Some 0) Hd).
Defined.

Lemma clist_scan_idiom_diverges_witness :
  ∃ d : dlist Z, scan_idiom Z.eqb 1000 4%Z d = None.
Proof.
  destruct one_entry_crepr as (d & _ & Hs). exists d.
  apply (clist_scan_idiom_diverges Z.eqb d [] 4%Z (Some 0) 4%Z 1000 Hs). reflexivity.
Defined.
