(* ===== verification/ExpireBuffer.v ===== *)
(** * [CExpireBuffer<TKey, TValue>] ([include/comserv/cexpirebuffer.h])

    A keyed buffer whose entries are kept in insertion (or refresh) order and
    expire: a [std::map] from key to entry next to the doubly linked ring of
    [Dll.v].  The transport layer's transactions ([TransState.v]) live in it.

    [time(0)] is a parameter of the functions that read the clock: [now] is
    what it returns during the call; [pop_old] reads it once per iteration, so
    it takes the sequence of readings. *)

From Stdlib Require Import Sorted.
From S2P Require Import Prelude Dll.

(** ** State *)

(** [_ExpireBuffer_Value] *)
Record xval (K V : Type) := XVal {
  x_value : V; x_key : K; x_inittime : Z; x_refreshtime : Z; x_endtime : Z }.
Arguments XVal {K V} _ _ _ _ _.
Arguments x_value {K V} _.
Arguments x_key {K V} _.
Arguments x_inittime {K V} _.
Arguments x_refreshtime {K V} _.
Arguments x_endtime {K V} _.

(** [_ExpireBuffer_Value(key, value, inittime)]; [inittime = 0] reads the clock. *)
Definition new_xval {K V} (now : Z) (key : K) (value : V) (inittime : Z) : xval K V :=
  let t := if decide (inittime ≠ 0%Z) then inittime else now in
  XVal value key t t 0.

Definition set_x_value {K V} (v : V) (e : xval K V) : xval K V :=
  XVal v (x_key e) (x_inittime e) (x_refreshtime e) (x_endtime e).
Definition set_x_refresh {K V} (t : Z) (e : xval K V) : xval K V :=
  XVal (x_value e) (x_key e) (x_inittime e) t (x_endtime e).
Definition setRefreshTime {K V} (now t : Z) (e : xval K V) : xval K V :=
  set_x_refresh (if decide (t ≠ 0%Z) then t else now) e.
Definition setEndTime {K V} (now t : Z) (e : xval K V) : xval K V :=
  XVal (x_value e) (x_key e) (x_inittime e) (x_refreshtime e) (if decide (t ≠ 0%Z) then t else now).

Section state.
Context (K V : Type) `{Countable K}.

(** The ring members ([m_pHead] .. [m_count]), the map, the result of [[]] on
    a missing key, and the three settings. *)
Record xbuf := XBuf {
  ring_ : dlist (xval K V);
  m_map : gmap K ptr;
  tmpValue : V;
  m_count_max : Z;
  m_destroy_old : bool;
  m_living_time : Z;
}.
End state.
Arguments XBuf {K V _ _} _ _ _ _ _ _.
Arguments ring_ {K V _ _} _.
Arguments m_map {K V _ _} _.
Arguments tmpValue {K V _ _} _.
Arguments m_count_max {K V _ _} _.
Arguments m_destroy_old {K V _ _} _.
Arguments m_living_time {K V _ _} _.

Section operations.
Context {K V : Type} `{Countable K}.
Implicit Types (key : K) (value : V) (now : Z).
  Local Abbreviation X := (M (xbuf K V)).

Definition upd_ring (d : dlist (xval K V)) (x : xbuf K V) : xbuf K V :=
  XBuf d (m_map x) (tmpValue x) (m_count_max x) (m_destroy_old x) (m_living_time x).
Definition upd_map (f : gmap K ptr → gmap K ptr) (x : xbuf K V) : xbuf K V :=
  XBuf (ring_ x) (f (m_map x)) (tmpValue x) (m_count_max x) (m_destroy_old x) (m_living_time x).
Definition on_ring {A} (m : M (dlist (xval K V)) A) : X A := zoom ring_ upd_ring m.
Definition map_erase (key : K) : X unit := modify (upd_map (delete key)).
Definition map_set (key : K) (p : ptr) : X unit := modify (upd_map <[key := p]>).
Definition map_clear : X unit := modify (upd_map (λ _, ∅)).

(** The constructor. *)
Definition create (tmp : V) (max_count : Z) (destroy_old : bool) (living_time : Z) : xbuf K V :=
  XBuf init ∅ tmp max_count destroy_old living_time.

(** The destructor: the entries one by one from the head, the sentinel, the map. *)
Definition destroy_step : X unit :=
  hd ← on_ring (gets m_pHead); c ← on_ring (next_of hd);
  on_ring (set_cur c) ;; on_ring (free hd) ;; on_ring (set_head c).
Definition destroy : X unit :=
  fuel ← on_ring (gets (λ d, S (size (heap d))));
  while_loop fuel (hd ← on_ring (gets m_pHead); tag ← on_ring (gets m_pTag);
                   mret (bool_decide (hd ≠ tag))) destroy_step ;;
  tag ← on_ring (gets m_pTag);
  (if decide (tag ≠ NULL) then on_ring (free tag) else mret tt) ;; map_clear.

Definition setMaxCount (n : Z) : X unit := modify (λ x,
  XBuf (ring_ x) (m_map x) (tmpValue x) n (m_destroy_old x) (m_living_time x)).
Definition setLivingTime (n : Z) : X unit := modify (λ x,
  XBuf (ring_ x) (m_map x) (tmpValue x) (m_count_max x) (m_destroy_old x) n).
Definition setDestroyPolicy (b : bool) : X unit := modify (λ x,
  XBuf (ring_ x) (m_map x) (tmpValue x) (m_count_max x) b (m_living_time x)).
Definition getMaxSize : X Z := gets (λ x, i32 (m_count_max x)).
Definition getDestoryPolicy : X bool := gets m_destroy_old.
Definition getLivingTime : X Z := gets (λ x, i32 (m_living_time x)).
Definition count : X Z := n ← on_ring (gets m_count); mret (i32 n).

(** Reading the key and value of an entry. *)
Definition read_kv (p : ptr) : X (K * V) :=
  e ← on_ring (value_of p); mret (x_key e, x_value e).
Definition read_v (p : ptr) : X V := e ← on_ring (value_of p); mret (x_value e).

Definition front_kv : X (option (K * V)) :=
  n ← on_ring (gets m_count);
  if decide (0 < n)%Z then
    hd ← on_ring (gets m_pHead); on_ring (set_cur hd) ;; r ← read_kv hd; mret (Some r)
  else mret None.

Definition back_kv : X (option (K * V)) :=
  n ← on_ring (gets m_count);
  if decide (0 < n)%Z then
    tl ← on_ring (gets m_pTail); on_ring (set_cur tl) ;; r ← read_kv tl; mret (Some r)
  else mret None.
Definition back_v : X (option V) :=
  n ← on_ring (gets m_count);
  if decide (0 < n)%Z then
    tl ← on_ring (gets m_pTail); on_ring (set_cur tl) ;; r ← read_v tl; mret (Some r)
  else mret None.

Definition next : X bool :=
  n ← on_ring (gets m_count);
  if decide (0 < n)%Z then
    cur ← on_ring (gets m_pCurrent);
    if decide (cur = NULL) then mret false else
    c ← on_ring (next_of cur); on_ring (set_cur c) ;;
    tag ← on_ring (gets m_pTag); mret (bool_decide (c ≠ tag))
  else mret false.
Definition next_kv : X (option (K * V)) :=
  b ← next;
  if (b : bool) then cur ← on_ring (gets m_pCurrent); r ← read_kv cur; mret (Some r)
  else mret None.
Definition next_v : X (option V) :=
  b ← next;
  if (b : bool) then cur ← on_ring (gets m_pCurrent); r ← read_v cur; mret (Some r)
  else mret None.

Definition prev : X bool :=
  n ← on_ring (gets m_count);
  if decide (0 < n)%Z then
    cur ← on_ring (gets m_pCurrent);
    if decide (cur = NULL) then mret false else
    c ← on_ring (prev_of cur); on_ring (set_cur c) ;;
    tag ← on_ring (gets m_pTag); mret (bool_decide (c ≠ tag))
  else mret false.
Definition prev_kv : X (option (K * V)) :=
  b ← prev;
  if (b : bool) then cur ← on_ring (gets m_pCurrent); r ← read_kv cur; mret (Some r)
  else mret None.
Definition prev_v : X (option V) :=
  b ← prev;
  if (b : bool) then cur ← on_ring (gets m_pCurrent); r ← read_v cur; mret (Some r)
  else mret None.

(** The lookup the three searches share: the entry of a key becomes current. *)
Definition find_v key : X (option V) :=
  n ← on_ring (gets m_count);
  if decide (n = 0)%Z then mret None else
  m ← gets m_map;
  match m !! key with
  | Some p =>
      if decide (p = NULL) then map_erase key ;; mret None
      else on_ring (set_cur p) ;; v ← read_v p; mret (Some v)
  | None => mret None
  end.
Definition find key : X bool :=
  n ← on_ring (gets m_count);
  if decide (n = 0)%Z then mret false else
  m ← gets m_map;
  match m !! key with
  | Some p =>
      if decide (p = NULL) then map_erase key ;; mret false
      else on_ring (set_cur p) ;; mret true
  | None => mret false
  end.
Definition subscript key : X V :=
  n ← on_ring (gets m_count); tmp ← gets tmpValue;
  if decide (n = 0)%Z then mret tmp else
  m ← gets m_map;
  match m !! key with
  | Some p =>
      if decide (p = NULL) then map_erase key ;; mret tmp
      else on_ring (set_cur p) ;; read_v p
  | None => mret tmp
  end.

(** [if(!oldtime) oldtime=time(0);] *)
Definition old_time (now currenttime : Z) : Z :=
  if decide (currenttime = 0)%Z then now else currenttime.

(** [(long)m_living_time < oldtime - m_pHead->m_value.m_refreshtime] *)
Definition head_expired now currenttime : X bool :=
  hd ← on_ring (gets m_pHead); e ← on_ring (value_of hd); living ← gets m_living_time;
  mret (bool_decide (living < old_time now currenttime - x_refreshtime e)%Z).

Definition front_old_kv now currenttime : X (option (K * V)) :=
  n ← on_ring (gets m_count);
  if decide (0 < n)%Z then
    b ← head_expired now currenttime;
    if (b : bool) then
      hd ← on_ring (gets m_pHead); on_ring (set_cur hd) ;; r ← read_kv hd; mret (Some r)
    else mret None
  else mret None.
Definition front_old now currenttime : X bool :=
  n ← on_ring (gets m_count);
  if decide (0 < n)%Z then
    b ← head_expired now currenttime;
    if (b : bool) then hd ← on_ring (gets m_pHead); on_ring (set_cur hd) ;; mret true
    else mret false
  else mret false.

Definition pop_front : X bool :=
  n ← on_ring (gets m_count);
  if decide (0 < n)%Z then
    hd ← on_ring (gets m_pHead); tag ← on_ring (gets m_pTag);
    c ← on_ring (next_of hd); on_ring (set_cur c) ;;
    on_ring (set_prev c tag) ;;
    on_ring (set_next tag c) ;;
    e ← on_ring (value_of hd); map_erase (x_key e) ;;
    on_ring (free hd) ;;
    on_ring (set_head c) ;;
    on_ring (set_count (u32 (n - 1))) ;;
    n' ← on_ring (gets m_count);
    (if decide (n' = 0)%Z then on_ring (set_tail tag) else mret tt) ;;
    mret true
  else mret false.

Definition pop_front_v : X (option V * bool) :=
  n ← on_ring (gets m_count);
  if decide (0 < n)%Z then
    hd ← on_ring (gets m_pHead); v ← read_v hd; r ← pop_front; mret (Some v, r)
  else mret (None, false).
Definition pop_front_kv : X (option (K * V) * bool) :=
  n ← on_ring (gets m_count);
  if decide (0 < n)%Z then
    hd ← on_ring (gets m_pHead); kv ← read_kv hd; r ← pop_front; mret (Some kv, r)
  else mret (None, false).

Definition pop_front_old now currenttime : X bool :=
  n ← on_ring (gets m_count);
  if decide (0 < n)%Z then
    b ← head_expired now currenttime;
    if (b : bool) then pop_front else mret false
  else mret false.
(** The references are written whether or not the entry has expired. *)
Definition pop_front_old_kv now currenttime : X (option (K * V) * bool) :=
  n ← on_ring (gets m_count);
  if decide (0 < n)%Z then
    hd ← on_ring (gets m_pHead); kv ← read_kv hd;
    r ← pop_front_old now currenttime; mret (Some kv, r)
  else mret (None, false).
Definition pop_front_old_v now currenttime : X (option V * bool) :=
  n ← on_ring (gets m_count);
  if decide (0 < n)%Z then
    hd ← on_ring (gets m_pHead); v ← read_v hd;
    r ← pop_front_old now currenttime; mret (Some v, r)
  else mret (None, false).

Fixpoint pop_old_loop (fuel : nat) (clock : nat → Z) (i : nat) currenttime (n : Z) : X Z :=
  match fuel with
  | O => ub
  | S fuel =>
      b ← pop_front_old (clock i) currenttime;
      if (b : bool) then pop_old_loop fuel clock (S i) currenttime (i32 (n + 1)) else mret n
  end.
Definition pop_old (clock : nat → Z) currenttime : X Z :=
  n ← on_ring (gets m_count);
  if decide (0 < n)%Z then
    fuel ← on_ring (gets (λ d, S (size (heap d))));
    pop_old_loop fuel clock 0 currenttime 0
  else mret 0%Z.

Definition pop_back : X bool :=
  n ← on_ring (gets m_count);
  if decide (0 < n)%Z then
    tl ← on_ring (gets m_pTail); tag ← on_ring (gets m_pTag);
    c ← on_ring (prev_of tl); on_ring (set_cur c) ;;
    on_ring (set_next c tag) ;;
    on_ring (set_prev tag c) ;;
    e ← on_ring (value_of tl); map_erase (x_key e) ;;
    on_ring (free tl) ;;
    on_ring (set_tail c) ;;
    on_ring (set_count (u32 (n - 1))) ;;
    n' ← on_ring (gets m_count);
    (if decide (n' = 0)%Z then on_ring (set_head tag) else mret tt) ;;
    mret true
  else mret false.
Definition pop_back_kv : X (option (K * V) * bool) :=
  n ← on_ring (gets m_count);
  if decide (0 < n)%Z then
    tl ← on_ring (gets m_pTail); kv ← read_kv tl; r ← pop_back; mret (Some kv, r)
  else mret (None, false).
Definition pop_back_v : X (option V * bool) :=
  n ← on_ring (gets m_count);
  if decide (0 < n)%Z then
    tl ← on_ring (gets m_pTail); v ← read_v tl; r ← pop_back; mret (Some v, r)
  else mret (None, false).

(** [pop(key, value)] *)
Definition pop_v key : X (option V) :=
  n ← on_ring (gets m_count);
  if decide (n = 0)%Z then mret None else
  m ← gets m_map;
  match m !! key with
  | Some p =>
      if decide (p = NULL) then map_erase key ;; mret None else
      v ← read_v p;
      pPrev ← on_ring (prev_of p);
      pNext ← on_ring (next_of p);
      on_ring (set_count (u32 (n - 1))) ;;
      on_ring (free p) ;;
      n' ← on_ring (gets m_count); tag ← on_ring (gets m_pTag);
      (if decide (pNext = tag) then
        on_ring (set_prev tag pPrev) ;; on_ring (set_tail pPrev) ;; on_ring (set_cur pPrev) ;;
        if decide (n' = 0)%Z then on_ring (set_head tag) else mret tt
      else mret tt) ;;
      (if decide (pPrev = tag) then
        on_ring (set_next tag pNext) ;; on_ring (set_head pNext) ;; on_ring (set_cur pNext) ;;
        if decide (n' = 0)%Z then on_ring (set_tail tag) else mret tt
      else mret tt) ;;
      on_ring (set_next pPrev pNext) ;;
      on_ring (set_prev pNext pPrev) ;;
      map_erase key ;;
      mret (Some v)
  | None => mret None
  end.
Definition pop key : X bool := r ← pop_v key; mret (bool_decide (is_Some r)).

Definition push now key value : X Z :=
  m ← gets m_map;
  if decide (is_Some (m !! key)) then mret 0%Z else
  destroy_old ← gets m_destroy_old; mx ← gets m_count_max; n ← on_ring (gets m_count);
  if decide (destroy_old = false ∧ 0 < mx ∧ mx ≤ n)%Z then mret 0%Z else
  tl ← on_ring (gets m_pTail); tag ← on_ring (gets m_pTag);
  on_ring (set_cur NULL) ;;
  cur ← on_ring (new_entry (new_xval now key value 0) tl tag);
  on_ring (set_cur cur) ;;
  if decide (cur = NULL) then mret 0%Z else
  map_set key cur ;;
  (if decide (0 = n)%Z then
    on_ring (set_head cur) ;; on_ring (set_tail cur) ;; on_ring (set_next tag cur)
  else
    on_ring (set_next tl cur) ;; on_ring (set_tail cur)) ;;
  tl' ← on_ring (gets m_pTail);
  on_ring (set_prev tag tl') ;;
  on_ring (set_count (u32 (n + 1))) ;;
  n' ← on_ring (gets m_count);
  if decide (0 < mx ∧ mx < n')%Z then pop_front ;; mret 2%Z else mret 1%Z.

(** [push(key, value, oldValue)]: the result and what is written to [oldValue]
    ([tmp] is the fresh local's value when the head was not read). *)
Definition push_old (tmp : V) now key value : X (Z * option V) :=
  mx ← gets m_count_max; n ← on_ring (gets m_count);
  v ← (if decide (0 < mx ∧ mx ≤ n)%Z then hd ← on_ring (gets m_pHead); read_v hd
       else mret tmp);
  ret ← push now key value;
  if decide (ret = 2)%Z then mret (ret, Some v) else mret (ret, None).

(** Re-linking the current entry at the tail, shared by both [update]s. *)
Definition move_to_tail : X unit :=
  cur ← on_ring (gets m_pCurrent);
  pPrev ← on_ring (prev_of cur);
  pNext ← on_ring (next_of cur);
  on_ring (set_next pPrev pNext) ;;
  on_ring (set_prev pNext pPrev) ;;
  hd ← on_ring (gets m_pHead);
  (if decide (cur = hd) then on_ring (set_head pNext) else mret tt) ;;
  tl ← on_ring (gets m_pTail); tag ← on_ring (gets m_pTag);
  on_ring (set_next tl cur) ;;
  on_ring (set_prev tag cur) ;;
  on_ring (set_next cur tag) ;;
  on_ring (set_prev cur tl) ;;
  on_ring (set_tail cur).

(** [update(key, value, oldValue)]: the old value when the key is there. *)
Definition update_v now key value : X (option V) :=
  m ← gets m_map;
  match m !! key with
  | None => mret None
  | Some p =>
      on_ring (set_cur p) ;;
      e ← on_ring (value_of p);
      on_ring (set_value p (set_x_value value e)) ;;
      e' ← on_ring (value_of p);
      on_ring (set_value p (set_x_refresh now e')) ;;
      tl ← on_ring (gets m_pTail);
      (if decide (p = tl) then mret tt else move_to_tail) ;;
      mret (Some (x_value e))
  end.

(** [update(key, refreshtime)] *)
Definition update now key refreshtime : X bool :=
  m ← gets m_map;
  match m !! key with
  | None => mret false
  | Some p =>
      on_ring (set_cur p) ;;
      e ← on_ring (value_of p);
      on_ring (set_value p
        (set_x_refresh (if decide (refreshtime = 0)%Z then now else refreshtime) e)) ;;
      tl ← on_ring (gets m_pTail);
      (if decide (p = tl) then mret tt else move_to_tail) ;;
      mret true
  end.

Definition clear_step : X unit :=
  hd ← on_ring (gets m_pHead); tag ← on_ring (gets m_pTag);
  c ← on_ring (next_of hd); on_ring (set_cur c) ;;
  on_ring (set_prev c tag) ;;
  on_ring (set_next tag c) ;;
  on_ring (free hd) ;;
  on_ring (set_head c) ;;
  n ← on_ring (gets m_count); on_ring (set_count (u32 (n - 1))).
Definition clear : X unit :=
  n ← on_ring (gets m_count);
  if decide (n = 0)%Z then mret tt else
  map_clear ;;
  hd ← on_ring (gets m_pHead); on_ring (set_cur hd) ;;
  fuel ← on_ring (gets (λ d, S (size (heap d))));
  while_loop fuel (n ← on_ring (gets m_count); mret (bool_decide (n ≠ 0)%Z)) clear_step.
End operations.

(** ** The specification: a bounded list of entries with unique keys *)

(** [acur]: where the current entry is ([Some None] the sentinel); [None] when
    it may point to a freed entry. *)
Record abuf (K V : Type) := ABuf {
  ents : list (xval K V); acur : option (option nat);
  a_tmp : V; a_max : Z; a_destroy : bool; a_living : Z }.
Arguments ABuf {K V} _ _ _ _ _ _.
Arguments ents {K V} _.
Arguments acur {K V} _.
Arguments a_tmp {K V} _.
Arguments a_max {K V} _.
Arguments a_destroy {K V} _.
Arguments a_living {K V} _.

Section spec.
Context {K V : Type} `{Countable K}.
Implicit Types (key : K) (value : V) (l : list (xval K V)) (s : abuf K V).

Definition aop (A : Type) : Type := abuf K V → option (A * abuf K V).
Definition with_ents l (c : option (option nat)) s : abuf K V :=
  ABuf l c (a_tmp s) (a_max s) (a_destroy s) (a_living s).
Definition at_first l : option nat := match l with [] => None | _ => Some 0 end.
Definition at_last l : option nat := match length l with O => None | S n => Some n end.
Definition kpos key l : option nat := find_pos (λ e, bool_decide (x_key e = key)) l.

Definition a_pop_front : aop bool := λ s,
  match ents s with
  | [] => Some (false, s)
  | _ :: l => Some (true, with_ents l (Some (at_first l)) s)
  end.
Definition a_pop_back : aop bool := λ s,
  match length (ents s) with
  | O => Some (false, s)
  | S n => Some (true, with_ents (take n (ents s)) (Some (at_last (take n (ents s)))) s)
  end.

(** Deleting the entry at [i]: at the tail the current entry becomes the
    previous one, at the head the next one; elsewhere it is left alone. *)
Definition a_delete (i : nat) s : abuf K V :=
  let l := delete i (ents s) in
  with_ents l
    (if decide (i = 0) then Some (at_first l)
     else if decide (S i = length (ents s)) then Some (Some (i - 1))
     else match acur s with
          | Some (Some j) => if decide (j = i) then None
                             else Some (Some (if decide (i < j) then j - 1 else j))
          | c => c
          end) s.
Definition a_pop_v key : aop (option V) := λ s,
  match kpos key (ents s) with
  | None => Some (None, s)
  | Some i => Some (x_value <$> ents s !! i, a_delete i s)
  end.

Definition a_push (now : Z) key value : aop Z := λ s,
  if decide (is_Some (kpos key (ents s))) then Some (0%Z, s) else
  if decide (a_destroy s = false ∧ 0 < a_max s ∧ a_max s ≤ Z.of_nat (length (ents s)))%Z
  then Some (0%Z, s) else
  if decide (Z.of_nat (length (ents s)) + 1 < 2 ^ 32)%Z then
    let l := ents s ++ [new_xval now key value 0] in
    if decide (0 < a_max s ∧ a_max s < Z.of_nat (length l))%Z
    then Some (2%Z, with_ents (tail l) (Some (at_first (tail l))) s)
    else Some (1%Z, with_ents l (Some (Some (length (ents s)))) s)
  else None.

(** Refreshing the entry at [i]: it becomes the last one. *)
Definition a_touch (i : nat) (e : xval K V) s : abuf K V :=
  with_ents (delete i (ents s) ++ [e]) (Some (Some (length (ents s) - 1))) s.
Definition a_update (now : Z) key (refreshtime : Z) : aop bool := λ s,
  match i ← kpos key (ents s); e ← ents s !! i; Some (i, e) with
  | None => Some (false, s)
  | Some (i, e) => Some (true, a_touch i
      (set_x_refresh (if decide (refreshtime = 0)%Z then now else refreshtime) e) s)
  end.
Definition a_update_v (now : Z) key value : aop (option V) := λ s,
  match i ← kpos key (ents s); e ← ents s !! i; Some (i, e) with
  | None => Some (None, s)
  | Some (i, e) => Some (Some (x_value e), a_touch i (set_x_refresh now (set_x_value value e)) s)
  end.

Definition a_find_v key : aop (option V) := λ s,
  match kpos key (ents s) with
  | None => Some (None, s)
  | Some i => Some (x_value <$> ents s !! i, with_ents (ents s) (Some (Some i)) s)
  end.

Definition expired (living now currenttime : Z) (e : xval K V) : Prop :=
  (living < old_time now currenttime - x_refreshtime e)%Z.
Global Instance expired_dec living now t e : Decision (expired living now t e).
Proof. unfold expired. apply _. Defined.

Definition a_pop_front_old (now currenttime : Z) : aop bool := λ s,
  match ents s with
  | e :: _ => if decide (expired (a_living s) now currenttime e) then a_pop_front s
              else Some (false, s)
  | [] => Some (false, s)
  end.

(** [pop_old]: the longest expired prefix, each entry against its own reading
    of the clock. *)
Fixpoint drop_expired (living : Z) (clock : nat → Z) (i : nat) (currenttime : Z) l
    : nat * list (xval K V) :=
  match l with
  | e :: l' => if decide (expired living (clock i) currenttime e)
               then let '(n, r) := drop_expired living clock (S i) currenttime l' in (S n, r)
               else (0, l)
  | [] => (0, [])
  end.
Definition a_pop_old (clock : nat → Z) (currenttime : Z) : aop Z := λ s,
  match drop_expired (a_living s) clock 0 currenttime (ents s) with
  | (O, _) => Some (0%Z, s)
  | (n, l) => if decide (Z.of_nat n < 2 ^ 31)%Z
              then Some (Z.of_nat n, with_ents l (Some (at_first l)) s) else None
  end.

Definition a_next : aop bool := λ s,
  match ents s, acur s with
  | [], _ => Some (false, s)
  | _, None => None
  | l, Some None => Some (true, with_ents l (Some (Some 0)) s)
  | l, Some (Some i) =>
      if decide (S i = length l) then Some (false, with_ents l (Some None) s)
      else Some (true, with_ents l (Some (Some (S i))) s)
  end.
Definition a_prev : aop bool := λ s,
  match ents s, acur s with
  | [], _ => Some (false, s)
  | _, None => None
  | l, Some None => Some (true, with_ents l (Some (at_last l)) s)
  | l, Some (Some O) => Some (false, with_ents l (Some None) s)
  | l, Some (Some (S i)) => Some (true, with_ents l (Some (Some i)) s)
  end.
End spec.

(** ** Representation *)
Section repr.
Context {K V : Type} `{Countable K}.
Implicit Types (key : K) (l : list (xval K V)) (ps : list ptr).

(** The map finds the entry of a key by its position. *)
Fixpoint kfind key l ps : option ptr :=
  match l, ps with
  | e :: l, p :: ps => if decide (x_key e = key) then Some p else kfind key l ps
  | _, _ => None
  end.

Record xrepr_at (ps : list ptr) (x : xbuf K V) (s : abuf K V) : Prop := {
  xr_ring : ring (ring_ x) ps (ents s);
  xr_keys : NoDup (x_key <$> ents s);
  xr_map : ∀ key, m_map x !! key = kfind key (ents s) ps;
  xr_cur : match acur s with
           | Some c => cursor (m_pTag (ring_ x)) ps c (m_pCurrent (ring_ x))
           | None => True
           end;
  xr_count : m_count (ring_ x) = Z.of_nat (length (ents s));
  xr_bound : (Z.of_nat (length (ents s)) < 2 ^ 32)%Z;
  xr_conf : (tmpValue x, m_count_max x, m_destroy_old x, m_living_time x) =
            (a_tmp s, a_max s, a_destroy s, a_living s);
}.
Definition xrepr (x : xbuf K V) (s : abuf K V) : Prop := ∃ ps, xrepr_at ps x s.

Definition xrefines {A} (m : M (xbuf K V) A) (f : aop A) : Prop :=
  ∀ x s r s', xrepr x s → f s = Some (r, s') → wp m (λ r' x', r' = r ∧ xrepr x' s') x.

Lemma kfind_app key l1 l2 ps1 ps2 :
  length l1 = length ps1 →
  kfind key (l1 ++ l2) (ps1 ++ ps2) =
    match kfind key l1 ps1 with Some p => Some p | None => kfind key l2 ps2 end.
Proof.
  revert ps1. induction l1 as [|e l1 IH]; intros [|p ps1] Hlen; simpl in *; try done.
  case_decide; [done|]. apply IH. lia.
Qed.
Lemma kfind_None key l ps : key ∉ x_key <$> l → kfind key l ps = None.
Proof.
  revert ps. induction l as [|e l IH]; intros [|p ps] Hk; simpl in *; try done.
  apply not_elem_of_cons in Hk as [Hk1 Hk2].
  rewrite decide_False by done. by apply IH.
Qed.

Lemma kfind_spec key l ps :
  length l = length ps →
  match kfind key l ps with
  | Some p => ∃ l1 e l2 ps1 ps2, l = l1 ++ e :: l2 ∧ ps = ps1 ++ p :: ps2 ∧
      length l1 = length ps1 ∧ x_key e = key ∧ kpos key l = Some (length l1)
  | None => kpos key l = None ∧ key ∉ x_key <$> l
  end.
Proof.
  revert ps. induction l as [|e l IH]; intros [|p ps] Hlen; simpl in *; try done.
  { split; [done|]. set_solver. }
  unfold kpos. simpl. case_decide as Hk.
  - rewrite bool_decide_true by done. by exists [], e, l, [], ps.
  - rewrite bool_decide_false by done. specialize (IH ps ltac:(lia)). unfold kpos in IH.
    destruct (kfind key l ps) as [q|].
    + destruct IH as (l1 & e' & l2 & ps1 & ps2 & -> & -> & ? & ? & ->).
      exists (e :: l1), e', l2, (p :: ps1), ps2. simpl. split_and!; first [done|lia].
    + destruct IH as [-> ?]. split; [done|]. set_solver.
Qed.

(** Dropping an entry from ring and map. *)
Lemma kfind_delete key l1 e l2 ps1 p ps2 :
  NoDup (x_key <$> l1 ++ e :: l2) → length l1 = length ps1 →
  kfind key (l1 ++ l2) (ps1 ++ ps2) =
    if decide (x_key e = key) then None else kfind key (l1 ++ e :: l2) (ps1 ++ p :: ps2).
Proof.
  intros Hnd Hlen. rewrite !kfind_app by done. simpl.
  rewrite fmap_app, fmap_cons in Hnd. apply NoDup_app in Hnd as (_ & Hd & Hnd).
  apply NoDup_cons in Hnd as [Hne _].
  case_decide as Hk; [|done]. subst key.
  rewrite !kfind_None; [done|done|]. intros Hin. by apply (Hd _ Hin); left.
Qed.

Lemma nodup_keys_delete l1 (e : xval K V) l2 :
  NoDup (x_key <$> l1 ++ e :: l2) → NoDup (x_key <$> l1 ++ l2).
Proof.
  rewrite !fmap_app, fmap_cons. intros Hnd. rewrite <- Permutation_middle in Hnd.
  by apply NoDup_cons in Hnd as [_ ?].
Qed.
End repr.

(** ** Refinement *)

Lemma wp_on_ring {K V A} `{Countable K} (m : M (dlist (xval K V)) A) Q d mp tmp mx dst liv :
  wp m (λ a d', Q a (XBuf d' mp tmp mx dst liv)) d →
  wp (on_ring (K:=K) m) Q (XBuf d mp tmp mx dst liv).
Proof. intros Hw. apply (wp_zoom ring_ upd_ring). exact Hw. Qed.
Lemma wp_map_upd {K V} `{Countable K} (f : gmap K ptr → gmap K ptr) Q
    (d : dlist (xval K V)) mp tmp mx dst liv :
  Q tt (XBuf d (f mp) tmp mx dst liv) →
  wp (modify (upd_map f)) Q (XBuf d mp tmp mx dst liv).
Proof. done. Qed.

Ltac dl_cbn ::= unfold upd_heap; cbn [heap m_pTag m_pHead m_pTail m_pCurrent m_count upd_heap nval nprev nnext fst snd
  ring_ m_map tmpValue m_count_max m_destroy_old m_living_time
  ents acur a_tmp a_max a_destroy a_living with_ents].
Ltac xrun :=
  dl_cbn;
  repeat (first [ progress wp_run
    | lazymatch goal with
      | |- wp (on_ring _) _ _ => apply wp_on_ring
      | |- wp (map_erase _) _ _ => apply wp_map_upd
      | |- wp (map_set _ _) _ _ => apply wp_map_upd
      | |- wp map_clear _ _ => apply wp_map_upd
      | |- wp (read_v _) _ _ => unfold read_v
      | |- wp (read_kv _) _ _ => unfold read_kv
      end ]; dl_cbn).

(** Opens [xrepr x s]: the members, the ring facts, the settings. *)
Ltac open_x :=
  let d := fresh "d" in let m := fresh "m" in let tmp := fresh "tmp" in let mx := fresh "mx" in
  let dst := fresh "dst" in let liv := fresh "liv" in
  let h := fresh "h" in let tag := fresh "tag" in let hd := fresh "hd" in
  let tl := fresh "tl" in let cur := fresh "cur" in let n := fresh "n" in
  let l := fresh "l" in let c := fresh "c" in let r := fresh "r" in let s := fresh "s" in
  let Hf := fresh "Hf" in let ps := fresh "ps" in let Hr := fresh "Hr" in let Hk := fresh "Hk" in
  let Hm := fresh "Hm" in let Hc := fresh "Hc" in let Hn := fresh "Hn" in let Hb := fresh "Hb" in
  let Hconf := fresh "Hconf" in let Hx := fresh "Hx" in let Hat := fresh "Hat" in
  intros [[h tag hd tl cur n] m tmp mx dst liv] [l c ? ? ? ?] r s Hx Hf;
  pose proof Hx as (ps & Hat); pose proof Hat as [Hr Hk Hm Hc Hn Hb Hconf];
  cbn [ents acur a_tmp a_max a_destroy a_living ring_ m_map tmpValue m_count_max m_destroy_old m_living_time
       m_count m_pTag m_pCurrent] in Hr, Hk, Hm, Hc, Hn, Hb, Hconf;
  injection Hconf as <- <- <- <-;
  let Hhd := fresh "Hhd" in let Htl := fresh "Htl" in let Hlen := fresh "Hlen" in
  pose proof (rg_head _ _ _ Hr) as Hhd; pose proof (rg_tail _ _ _ Hr) as Htl;
  pose proof (ring_length _ _ _ Hr) as Hlen;
  pose proof (ring_tag_facts _ _ _ Hr) as (? & ? & ? & ? & ? & ? & ?);
  cbn [heap m_pTag m_pHead m_pTail] in *.

Section refinement.
Context {K V : Type} `{Countable K}.
Implicit Types (key : K) (value : V) (l : list (xval K V)) (ps : list ptr).
Implicit Types (x : xbuf K V) (s : abuf K V).

Lemma xrefines_bind {A B} (m : M (xbuf K V) A) (f : aop A)
    (m' : A → M (xbuf K V) B) (f' : A → aop B) :
  xrefines m f → (∀ a, xrefines (m' a) (f' a)) →
  xrefines (m ≫= m') (λ s, '(a, s') ← f s; f' a s').
Proof.
  intros Hm Hm' x s r s' Hs Hf. apply wp_bind.
  destruct (f s) as [[a s'']|] eqn:Hfs; [|done]. simpl in Hf.
  eapply wp_mono; [by eapply Hm|]. intros ? x' [-> Hs']. by eapply Hm'.
Qed.

Lemma cursor_first_last ps l (d : dlist (xval K V)) :
  ring d ps l → cursor (m_pTag d) ps (at_first l) (m_pHead d) ∧
                cursor (m_pTag d) ps (at_last l) (m_pTail d).
Proof.
  intros Hr. rewrite (rg_head _ _ _ Hr), (rg_tail _ _ _ Hr). apply ring_length in Hr. split.
  - destruct l, ps; done.
  - unfold at_last. rewrite <- Hr. destruct ps as [|p ps _] using rev_ind; [done|].
    rewrite length_app, Nat.add_comm, pred_of_snoc. cbn.
    rewrite lookup_app_r, Nat.sub_diag by lia. done.
Qed.

Lemma xb_pop_front_refines : xrefines pop_front (a_pop_front (K:=K) (V:=V)).
Proof.
  open_x. unfold pop_front. destruct l as [|e l]; injection Hf as <- <-.
  { cbn in Hn. xrun. split; [done|]. by exists ps. }
  destruct ps as [|p ps]; [done|]. cbn [length] in *. cbn in Hhd; subst hd.
  pose proof (ring_facts _ [] _ _ _ Hr) as (? & ? & ? & ? & ? & ? & ? & ? & ? & ?).
  pose proof (rg_vals _ _ _ Hr) as Hv. apply Forall2_cons_1 in Hv as [Hv _].
  cbn [heap m_pTag] in *.
  xrun. rewrite u32_small by lia.
  assert (ring (DList (delete p (h_next tag (succ_of tag ps) (h_prev (succ_of tag ps) tag h)))
    tag (succ_of tag ps) (if decide (n - 1 = 0)%Z then tag else tl) (succ_of tag ps) (n - 1)) ps l) as Hr'.
  { eapply (ring_unlink _ _ [] _ ps []); [exact Hr|done|done|by left|done|].
    dl_cbn. cbn [app]. rewrite Htl.
    destruct ps, l; cbn [length] in *; try lia; [rewrite decide_True by lia|rewrite decide_False by lia]; done. }
  case_decide; xrun; (split; [done|]); exists ps.
  all: split; dl_cbn; [done|by apply NoDup_cons in Hk as [_ ?]| | |lia|lia|done].
  all: try (cbn; destruct (cursor_first_last _ _ _ Hr') as [? _]; done).
  all: intros key; pose proof (kfind_delete key [] e l [] p ps Hk eq_refl) as Hd; cbn [app] in Hd.
  all: rewrite Hd; case_decide; subst; by rewrite ?lookup_delete_eq, ?lookup_delete_ne, ?Hm.
Qed.

(** What a removal leaves. *)
Lemma xrepr_delete x x' s ps1 p ps2 l1 e l2 c ps' l' :
  xrepr_at (ps1 ++ p :: ps2) x s → ents s = l1 ++ e :: l2 → length l1 = length ps1 →
  ps' = ps1 ++ ps2 → l' = l1 ++ l2 → ring (ring_ x') ps' l' → m_map x' = delete (x_key e) (m_map x) →
  m_count (ring_ x') = u32 (m_count (ring_ x) - 1) →
  (tmpValue x', m_count_max x', m_destroy_old x', m_living_time x') =
  (tmpValue x, m_count_max x, m_destroy_old x, m_living_time x) →
  (∀ c', c = Some c' → cursor (m_pTag (ring_ x')) ps' c' (m_pCurrent (ring_ x'))) →
  xrepr x' (with_ents l' c s).
Proof.
  intros [Hr Hk Hm Hc Hn Hb Hconf] Hl Hlen -> -> Hr' Hmap Hcnt Hconf' Hc'.
  rewrite Hl, length_app in Hn, Hb. cbn [length] in Hn, Hb.
  exists (ps1 ++ ps2). split; cbn [ents acur a_tmp a_max a_destroy a_living with_ents].
  - done.
  - rewrite Hl in Hk. by eapply nodup_keys_delete.
  - intros key. rewrite Hl in Hk. rewrite (kfind_delete key l1 e l2 ps1 p ps2 Hk Hlen), Hmap.
    rewrite Hl in Hm. case_decide; subst; by rewrite ?lookup_delete_eq, ?lookup_delete_ne, ?Hm.
  - destruct c; [by apply Hc'|done].
  - rewrite Hcnt, Hn, length_app, u32_small; lia.
  - rewrite length_app. lia.
  - by rewrite Hconf'.
Qed.


Lemma xb_pop_back_refines : xrefines pop_back (a_pop_back (K:=K) (V:=V)).
Proof.
  open_x. unfold pop_back.
  destruct l as [|e l _] using rev_ind; [injection Hf as <- <-; cbn in Hn; xrun; done|].
  destruct ps as [|p ps _] using rev_ind; [rewrite length_app in Hlen; cbn in *; lia|].
  rewrite !length_app in *. cbn [length] in *.
  unfold a_pop_back in Hf. cbn [ents] in Hf. rewrite length_app, Nat.add_comm in Hf. cbn [length Nat.add] in Hf.
  rewrite take_app_length in Hf. injection Hf as <- <-.
  rewrite pred_of_snoc in Htl; subst tl.
  pose proof (ring_facts _ ps p [] _ Hr) as (? & ? & ? & ? & ? & ? & ? & ? & ? & ?).
  pose proof (rg_vals _ _ _ Hr) as Hv. apply Forall2_app_inv in Hv as [_ Hv]; [|lia].
  apply Forall2_cons_1 in Hv as [Hv _].
  cbn [heap m_pTag] in *. rewrite succ_of_nil in *.
  xrun. rewrite u32_small by lia.
  assert (ring (DList (delete p (h_prev tag (pred_of tag ps) (h_next (pred_of tag ps) tag h)))
    tag (if decide (n - 1 = 0)%Z then tag else hd) (pred_of tag ps) (pred_of tag ps) (n - 1)) ps l) as Hr'.
  { eapply (ring_unlink_last _ _ ps); [exact Hr|done|by left| |done].
    dl_cbn. rewrite Hhd.
    destruct ps, l; cbn [length] in *; try lia; [rewrite decide_True by lia|rewrite decide_False by lia]; done. }
  case_decide; xrun; (split; [done|]).
  all: eapply (xrepr_delete _ _ _ ps p [] l e [] _ ps l);
    [exact Hat|done|lia|by rewrite app_nil_r|by rewrite app_nil_r|done|done|dl_cbn; by rewrite u32_small by lia|done|].
  all: dl_cbn; intros c' [= <-]; destruct (cursor_first_last _ _ _ Hr') as [_ ?]; done.
Qed.

(** The entry of a key, by [kfind_spec]. *)
Lemma xrepr_entry ps x s key p :
  xrepr_at ps x s → m_map x !! key = Some p →
  ∃ l1 e l2 ps1 ps2, ents s = l1 ++ e :: l2 ∧ ps = ps1 ++ p :: ps2 ∧
    length l1 = length ps1 ∧ x_key e = key ∧ kpos key (ents s) = Some (length l1) ∧
    vl (heap (ring_ x)) p = Some e ∧ p ≠ NULL ∧ ents s !! length l1 = Some e.
Proof.
  intros Hx Hp. pose proof (kfind_spec key (ents s) ps) as Hk.
  rewrite (xr_map _ _ _ Hx) in Hp. rewrite Hp in Hk.
  destruct Hk as (l1 & e & l2 & ps1 & ps2 & Hl & -> & Hlen1 & Hke & Hpos).
  { symmetry. by eapply ring_length, xr_ring. }
  exists l1, e, l2, ps1, ps2. destruct Hx as [Hr _ _ _ _ _ _]. split_and!; try done.
  - pose proof (rg_vals _ _ _ Hr) as Hv. rewrite Hl in Hv.
    apply Forall2_app_inv in Hv as [_ Hv]; [|done]. by apply Forall2_cons_1 in Hv as [Hv _].
  - pose proof (hr_null _ _ _ (rg_ring _ _ _ Hr)). set_solver.
  - rewrite Hl, lookup_app_r, Nat.sub_diag by lia. done.
Qed.
Lemma xrepr_no_entry ps x s key :
  xrepr_at ps x s → m_map x !! key = None →
  kpos key (ents s) = None ∧ key ∉ x_key <$> ents s.
Proof.
  intros Hx Hp. pose proof (kfind_spec key (ents s) ps) as Hk.
  rewrite (xr_map _ _ _ Hx) in Hp. rewrite Hp in Hk. apply Hk.
  symmetry. by eapply ring_length, xr_ring.
Qed.

Lemma with_cur_xrepr ps h tag hd tl cur n m (tmp : V) mx dst liv l c cur' c' :
  xrepr_at ps (XBuf (DList h tag hd tl cur n) m tmp mx dst liv) (ABuf l c tmp mx dst liv) →
  match c' with Some c => cursor tag ps c cur' | None => True end →
  xrepr (K:=K) (XBuf (DList h tag hd tl cur' n) m tmp mx dst liv) (ABuf l c' tmp mx dst liv).
Proof.
  intros [Hr Hk Hm Hc Hn Hb _] Hc'. exists ps. split; try done.
  eapply ring_members; [exact Hr|done..].
Qed.

Lemma find_v_refines key : xrefines (find_v key) (a_find_v (V:=V) key).
Proof.
  open_x. unfold find_v.
  unfold a_find_v in Hf. cbn [ents] in Hf.
  destruct (m !! key) as [p|] eqn:Hmk.
  - destruct (xrepr_entry _ _ _ _ _ Hat Hmk) as (l1 & e & l2 & ps1 & ps2 & Hl & -> & Hlen1 & Hke & Hpos & Hv & Hnull & He).
    cbn [ents heap ring_] in *. rewrite Hpos, He in Hf. injection Hf as <- <-.
    assert (n ≠ 0%Z).
    { rewrite Hn, Hl, length_app. cbn [length]. lia. }
    xrun. rewrite Hmk. rewrite decide_False by done. xrun. split; [done|].
    eapply with_cur_xrepr; [exact Hat|]. cbn. rewrite lookup_app_r, Hlen1, Nat.sub_diag by lia. done.
  - destruct (xrepr_no_entry _ _ _ _ Hat Hmk) as [Hpos _]. cbn [ents] in Hpos. rewrite Hpos in Hf.
    injection Hf as <- <-. xrun. case_decide; xrun; [|rewrite Hmk; xrun]; (split; [done|by exists ps]).
Qed.

Lemma pop_v_refines key : xrefines (pop_v key) (a_pop_v (V:=V) key).
Proof.
  open_x. unfold pop_v.
  unfold a_pop_v in Hf. cbn [ents] in Hf.
  destruct (m !! key) as [p|] eqn:Hmk.
  2:{ destruct (xrepr_no_entry _ _ _ _ Hat Hmk) as [Hpos _]. cbn [ents] in Hpos. rewrite Hpos in Hf.
    injection Hf as <- <-. xrun. case_decide; xrun; [|rewrite Hmk; xrun]; (split; [done|by exists ps]). }
  destruct (xrepr_entry _ _ _ _ _ Hat Hmk) as (l1 & e & l2 & ps1 & ps2 & Hl & -> & Hlen1 & Hke & Hpos & Hv & Hnull & He).
  cbn [ents heap ring_] in *. rewrite Hpos, He in Hf. injection Hf as <- <-. subst l.
  rewrite !length_app in Hn, Hb, Hlen. cbn [length] in Hn, Hb, Hlen.
  pose proof (ring_facts _ ps1 p ps2 _ Hr) as (? & ? & ? & ? & ? & ? & ? & ? & ? & ?).
  cbn [heap m_pTag m_pHead m_pTail] in *.
  assert (n ≠ 0%Z) by lia.
  xrun. rewrite Hmk, decide_False by done. xrun.
  rewrite u32_small by lia.
  assert (∀ hd' tl' cur' c',
    hd' = succ_of tag (ps1 ++ ps2) → tl' = pred_of tag (ps1 ++ ps2) →
    (∀ c0, c' = Some c0 → cursor tag (ps1 ++ ps2) c0 cur') →
    xrepr (XBuf (DList (h_prev (succ_of tag ps2) (pred_of tag ps1)
        (h_next (pred_of tag ps1) (succ_of tag ps2) (delete p h))) tag hd' tl' cur' (n - 1))
      (delete key m) tmp mx dst liv) (with_ents (l1 ++ l2) c' (ABuf (l1 ++ e :: l2) c tmp mx dst liv))) as Hfin.
  { intros hd' tl' cur' c' Hhd' Htl' Hc'. eapply (xrepr_delete _ _ _ ps1 p ps2 l1 e l2 c' _ _ Hat eq_refl Hlen1 eq_refl eq_refl);
      dl_cbn; [|by subst key|by rewrite u32_small by lia|done|done].
    eapply (ring_unlink _ _ ps1 p ps2 l1 e l2); [exact Hr|done|done| |done|done]. right; right; by right. }
  assert (length l2 = length ps2) as Hlen2 by (rewrite length_app in Hlen; cbn [length] in Hlen; lia).
  assert (delete (length l1) (l1 ++ e :: l2) = l1 ++ l2) as Hdel by apply delete_middle.
  unfold a_delete. cbn [ents acur]. rewrite Hdel.
  assert (Hp2 : succ_of tag ps2 = tag ↔ ps2 = []) by (apply succ_of_tag; set_solver).
  assert (Hp1 : pred_of tag ps1 = tag ↔ ps1 = []) by (apply pred_of_tag; set_solver).
  assert (ps1 = [] ∨ ps1 ≠ []) as Hc1 by (destruct ps1; auto).
  assert (ps2 = [] ∨ ps2 ≠ []) as Hc2 by (destruct ps2; auto).
  destruct Hc1 as [Hn1|Hn1], Hc2 as [Hn2|Hn2].
  - (* the only entry *)
    subst ps1 ps2. destruct l1; [|done]. destruct l2; [|done]. rewrite succ_of_nil in *. change (pred_of tag []) with tag in *.
    cbn [length] in Hn. xrun. split; [done|]. rewrite unlink_idem2, unlink_idem1.
    by apply Hfin; [..|intros ? [= <-]].
  - (* the head *)
    subst ps1. destruct l1; [|done]. assert (succ_of tag ps2 ≠ tag) by tauto. change (pred_of tag []) with tag in *.
    assert (n - 1 ≠ 0)%Z by (destruct ps2; [done|cbn [length] in *; lia]).
    xrun. split; [done|]. rewrite unlink_idem2. apply Hfin; [done| |].
    + rewrite Htl. destruct ps2; done.
    + intros ? [= <-]. destruct ps2, l2; done.
  - (* the tail *)
    subst ps2. destruct l2; [|done]. assert (pred_of tag ps1 ≠ tag) by tauto. rewrite succ_of_nil in *.
    assert (n - 1 ≠ 0)%Z by (destruct ps1; [done|cbn [length] in *; lia]).
    xrun. split; [done|]. rewrite unlink_idem1. apply Hfin; [|by rewrite app_nil_r|].
    + rewrite Hhd. destruct ps1; done.
    + rewrite decide_False by (destruct l1, ps1; done).
      rewrite decide_True by (rewrite length_app; cbn; lia).
      intros ? [= <-]. rewrite app_nil_r. rewrite Hlen1.
      destruct ps1 as [|q ps1 _] using rev_ind; [done|]. rewrite pred_of_snoc, length_app. cbn.
      rewrite lookup_app_r by lia. by replace (_ + 1 - 1 - _) with 0 by lia.
  - (* in the middle *)
    assert (pred_of tag ps1 ≠ tag) by tauto. assert (succ_of tag ps2 ≠ tag) by tauto.
    xrun. split; [done|]. apply Hfin.
    + rewrite Hhd. destruct ps1; done.
    + rewrite Htl. destruct ps2 as [|q ps2 _] using rev_ind; [done|].
      by rewrite app_comm_cons, !app_assoc, !pred_of_snoc.
    + rewrite decide_False by (destruct l1, ps1; done).
      rewrite decide_False by (rewrite length_app; destruct ps2; cbn [length] in *; [done|lia]).
      intros c0 Hc0. destruct c as [[j|]|]; simplify_eq; [|done]. case_decide as Hj; [done|].
      injection Hc0 as <-. cbn in *. rewrite Hlen1 in *. case_decide.
      * rewrite lookup_app_r in Hc |- * by lia. destruct (j - length ps1) as [|k] eqn:Hk'; [lia|].
        cbn in Hc. by replace (j - 1 - length ps1) with k by lia.
      * rewrite lookup_app_l in Hc |- * by lia. done.
Qed.

Lemma push_refines now key value : xrefines (push now key value) (a_push now key value).
Proof.
  open_x. unfold push. unfold a_push in Hf.
  cbn [ents a_destroy a_max] in Hf.
  assert (is_Some (kpos key l) ↔ is_Some (m !! key)) as Hiff.
  { destruct (m !! key) as [p|] eqn:Hmk.
    - destruct (xrepr_entry _ _ _ _ _ Hat Hmk) as (? & ? & ? & ? & ? & _ & _ & _ & _ & Hpos & _).
      cbn [ents] in Hpos. rewrite Hpos. split; eauto.
    - destruct (xrepr_no_entry _ _ _ _ Hat Hmk) as [Hpos _]. cbn [ents] in Hpos. by rewrite Hpos. }
  apply wp_bind, wp_gets. dl_cbn.
  destruct (decide (is_Some (m !! key))) as [Hin|Hin].
  { rewrite decide_True in Hf by tauto. injection Hf as <- <-. xrun. done. }
  rewrite decide_False in Hf by tauto. xrun. rewrite <- Hn in Hf.
  destruct (decide (dst = false ∧ 0 < mx ∧ mx ≤ n)%Z) as [Hfull|Hroom].
  { injection Hf as <- <-. xrun. done. }
  destruct (decide (n + 1 < 2 ^ 32)%Z) as [Hlt|]; [|done].
  set (e := new_xval now key value 0) in *.
  assert (Hkey : key ∉ x_key <$> l).
  { destruct (m !! key) as [p|] eqn:Hmk; [exfalso; apply Hin; eauto|].
    by destruct (xrepr_no_entry _ _ _ _ Hat Hmk). }
  assert (Z.of_nat (length (l ++ [e])) = n + 1)%Z as Hlen' by (rewrite length_app; cbn [length]; lia).
  rewrite Hlen' in Hf.
  xrun.
  (* the state after linking, before the overflow check *)
  assert (xrepr (XBuf (DList (h_prev tag p (h_next tl p (<[p := Node (Some e) tl tag]> h)))
      tag (if decide (0 = n)%Z then p else hd) p p (n + 1)) (<[key := p]> m) tmp mx dst liv)
    (ABuf (l ++ [e]) (Some (Some (length l))) tmp mx dst liv)) as Hpushed.
  { exists (ps ++ [p]). split; cbn [ents acur ring_ m_map m_count m_pTag m_pCurrent]; try done.
    - subst tl. eapply (ring_link_last _ _ ps); [exact Hr|done|done|done|by right| |done].
      dl_cbn. rewrite Hhd. destruct ps; cbn [length] in Hlen.
      + by rewrite decide_True by lia.
      + by rewrite decide_False by lia.
    - rewrite fmap_app. apply NoDup_app. split_and!; [done| |apply NoDup_singleton].
      intros k Hk' ->%list_elem_of_singleton. done.
    - intros k. rewrite kfind_app by done. cbn. destruct (decide (key = k)) as [->|Hne].
      + by rewrite lookup_insert_eq, kfind_None by done.
      + rewrite lookup_insert_ne, Hm by done. by destruct (kfind k l ps).
    - cbn. by rewrite lookup_app_r, Hlen, Nat.sub_diag by lia.
    - by rewrite Hlen'. }
  assert (∀ h' hd', h' = h_prev tag p (h_next tl p (<[p := Node (Some e) tl tag]> h)) →
    hd' = (if decide (0 = n)%Z then p else hd) →
    wp (if decide (0 < mx ∧ mx < n + 1)%Z then pop_front ;; mret 2%Z else mret 1%Z)
      (λ r' x', r' = r ∧ xrepr x' s)
      (XBuf (DList h' tag hd' p p (n + 1)) (<[key := p]> m) tmp mx dst liv)) as Hend.
  { intros h' hd' -> ->. destruct (decide (0 < mx ∧ mx < n + 1)%Z) as [Hov|Hov]; cycle 1.
    { injection Hf as <- <-. by apply wp_ret. }
    injection Hf as <- <-. apply wp_bind.
    destruct (l ++ [e]) as [|e0 l0] eqn:Hle; [by destruct l|].
    eapply wp_mono; [eapply xb_pop_front_refines; [exact Hpushed|reflexivity]|].
    intros b x' [_ Hx']. by apply wp_ret. }
  clear Hpushed. case_decide as H0n; xrun; rewrite u32_small by lia; apply Hend; try done.
  destruct ps; [|cbn [length] in *; lia]. cbn in Htl. by subst tl.
Qed.

(** Refreshing an entry keeps the map: the key stays on the same pointer. *)
Lemma kfind_move key l1 e l2 (ps1 : list ptr) p ps2 e' :
  NoDup (x_key <$> l1 ++ e :: l2) → length l1 = length ps1 → length l2 = length ps2 →
  x_key e' = x_key e →
  kfind key ((l1 ++ l2) ++ [e']) ((ps1 ++ ps2) ++ [p]) = kfind key (l1 ++ e :: l2) (ps1 ++ p :: ps2).
Proof.
  intros Hnd H1 H2 He. rewrite kfind_app by (rewrite !length_app; lia).
  rewrite (kfind_delete key l1 e l2 ps1 p ps2) by done. cbn. rewrite He.
  destruct (decide (x_key e = key)) as [Hk|Hk].
  - rewrite kfind_app by done. cbn. rewrite decide_True by done.
    rewrite kfind_None; [done|]. rewrite fmap_app, fmap_cons in Hnd.
    apply NoDup_app in Hnd as (_ & Hd & _). intros Hin. apply (Hd _ Hin). rewrite Hk. by left.
  - by destruct (kfind key (l1 ++ e :: l2) (ps1 ++ p :: ps2)).
Qed.

Lemma nodup_keys_move l1 (e : xval K V) l2 e' :
  NoDup (x_key <$> l1 ++ e :: l2) → x_key e' = x_key e → NoDup (x_key <$> (l1 ++ l2) ++ [e']).
Proof.
  intros Hnd He. rewrite fmap_app. cbn. rewrite He, (fmap_app x_key l1 l2).
  rewrite fmap_app, fmap_cons in Hnd.
  by rewrite <- Permutation_cons_append, Permutation_middle.
Qed.

Lemma touch_spec h tag hd tl cur n m tmp mx dst liv l1 e l2 c ps1 p ps2 e' :
  xrepr_at (ps1 ++ p :: ps2) (XBuf (DList h tag hd tl cur n) m tmp mx dst liv)
    (ABuf (l1 ++ e :: l2) c tmp mx dst liv) →
  length l1 = length ps1 → x_key e' = x_key e →
  wp (if decide (p = tl) then mret tt else move_to_tail)
    (λ _ x', xrepr x' (a_touch (length l1) e' (ABuf (l1 ++ e :: l2) c tmp mx dst liv)))
    (XBuf (DList (h_val p e' h) tag hd tl p n) m tmp mx dst liv).
Proof.
  intros Hat Hlen1 He'. pose proof Hat as [Hr Hk Hm Hc Hn Hb Hconf].
  cbn [ents acur ring_ m_map m_count m_pTag m_pCurrent] in Hr, Hk, Hm, Hc, Hn, Hb.
  pose proof (ring_length _ _ _ Hr) as Hlen. rewrite !length_app in *. cbn [length] in *.
  assert (length l2 = length ps2) as Hlen2 by lia.
  pose proof (ring_facts _ ps1 p ps2 _ Hr) as (? & ? & ? & ? & ? & ? & ? & ? & ? & ?).
  pose proof (rg_head _ _ _ Hr) as Hhd. pose proof (rg_tail _ _ _ Hr) as Htl.
  pose proof (ring_tag_facts _ _ _ Hr) as (? & ? & ? & ? & ? & ? & ?).
  cbn [heap m_pTag m_pHead m_pTail] in *.
  assert (∀ d', ring d' ((ps1 ++ ps2) ++ [p]) ((l1 ++ l2) ++ [e']) → m_pCurrent d' = p → m_count d' = n →
    xrepr (XBuf d' m tmp mx dst liv)
      (a_touch (length l1) e' (ABuf (l1 ++ e :: l2) c tmp mx dst liv))) as Hfin.
  { intros d' Hr' Hcur' Hn'. unfold a_touch. cbn [ents]. rewrite delete_middle.
    exists ((ps1 ++ ps2) ++ [p]). split; cbn [ents acur ring_ m_map with_ents]; try done.
    - by eapply nodup_keys_move.
    - intros k. rewrite Hm. symmetry. by apply kfind_move.
    - cbn. rewrite Hcur', length_app, lookup_app_r by (rewrite length_app; cbn; lia).
      rewrite length_app. cbn. by replace (_ - 1 - _) with 0 by lia.
    - rewrite Hn', Hn, !length_app. cbn. f_equal. lia.
    - rewrite !length_app. cbn. lia. }
  destruct ps2 as [|q ps2 _] using rev_ind.
  - destruct l2; [|done]. rewrite pred_of_snoc in Htl. subst tl. rewrite decide_True by done.
    apply wp_ret. apply Hfin; [|done|done]. rewrite !app_nil_r.
    eapply (ring_set_value _ _ ps1 p [] l1 e []); [exact Hr|lia|done..].
  - rewrite app_comm_cons, app_assoc, pred_of_snoc in Htl. subst tl.
    assert (p ≠ q) by (intros ->; set_solver). rewrite decide_False by done.
    unfold move_to_tail. xrun.
    assert ((if decide (p = hd) then succ_of tag (ps2 ++ [q]) else hd) =
      succ_of tag ((ps1 ++ (ps2 ++ [q])) ++ [p])) as Hhd'.
    { rewrite Hhd. destruct ps1 as [|a ps1]; cbn.
      - rewrite decide_True by done. by destruct ps2.
      - rewrite decide_False; [done|]. intros ->. set_solver. }
    case_decide; xrun; apply Hfin; try done; rewrite <- !(app_assoc ps1), <- !(app_assoc l1).
    all: eapply (ring_move_last _ _ ps1 p (ps2 ++ [q]) l1 e l2); [exact Hr|done|by destruct ps2|done|done| |done].
    all: dl_cbn; by rewrite <- app_assoc in Hhd'.
Qed.

Lemma update_refines now key t : xrefines (K:=K) (V:=V) (update now key t) (a_update now key t).
Proof.
  open_x. unfold update, a_update in *. cbn [ents] in Hf.
  destruct (m !! key) as [p|] eqn:Hmk.
  - destruct (xrepr_entry _ _ _ _ _ Hat Hmk) as (l1 & e & l2 & ps1 & ps2 & Hl & -> & Hlen1 & Hke & Hpos & Hv & Hnull & He).
    cbn [ents heap ring_] in *. subst l. rewrite Hpos in Hf. cbn in Hf. rewrite He in Hf. cbn in Hf.
    injection Hf as <- <-.
    pose proof (ring_facts _ ps1 p ps2 _ Hr) as (? & ? & ? & ? & ? & ? & ? & ? & ? & ?). cbn [heap m_pTag] in *.
    xrun. rewrite Hmk. xrun.
    eapply wp_mono; [eapply touch_spec; [exact Hat|done|done]|].
    intros [] x' Hx'. by apply wp_ret.
  - destruct (xrepr_no_entry _ _ _ _ Hat Hmk) as [Hpos _]. cbn [ents] in Hpos. rewrite Hpos in Hf.
    injection Hf as <- <-. xrun. rewrite Hmk. xrun. done.
Qed.

Lemma update_v_refines now key value : xrefines (update_v now key value) (a_update_v now key value).
Proof.
  open_x. unfold update_v, a_update_v in *. cbn [ents] in Hf.
  destruct (m !! key) as [p|] eqn:Hmk.
  - destruct (xrepr_entry _ _ _ _ _ Hat Hmk) as (l1 & e & l2 & ps1 & ps2 & Hl & -> & Hlen1 & Hke & Hpos & Hv & Hnull & He).
    cbn [ents heap ring_] in *. subst l. rewrite Hpos in Hf. cbn in Hf. rewrite He in Hf. cbn in Hf.
    injection Hf as <- <-.
    pose proof (ring_facts _ ps1 p ps2 _ Hr) as (? & ? & ? & ? & ? & ? & ? & Hd & ? & ?). cbn [heap m_pTag] in *.
    assert (vl (h_val p (set_x_value value e) h) p = Some (set_x_value value e)) as Hv'.
    { autorewrite with heap. rewrite decide_True by done. apply elem_of_dom in Hd as [z Hz]. by rewrite Hz. }
    xrun. rewrite Hmk. xrun. eapply wp_value_of; [exact Hv'|]. xrun. rewrite h_val_idem.
    eapply wp_mono; [eapply touch_spec; [exact Hat|done|done]|].
    intros [] x' Hx'. by apply wp_ret.
  - destruct (xrepr_no_entry _ _ _ _ Hat Hmk) as [Hpos _]. cbn [ents] in Hpos. rewrite Hpos in Hf.
    injection Hf as <- <-. xrun. rewrite Hmk. xrun. done.
Qed.

Definition a_find key : aop (K:=K) (V:=V) bool := λ s,
  match kpos key (ents s) with
  | None => Some (false, s)
  | Some i => Some (true, with_ents (ents s) (Some (Some i)) s)
  end.
Definition a_subscript key : aop (K:=K) (V:=V) V := λ s,
  match kpos key (ents s) with
  | None => Some (a_tmp s, s)
  | Some i => e ← ents s !! i; Some (x_value e, with_ents (ents s) (Some (Some i)) s)
  end.
Definition a_count : aop (K:=K) (V:=V) Z := λ s, Some (i32 (Z.of_nat (length (ents s))), s).
Definition a_front_kv : aop (option (K * V)) := λ s,
  match ents s with
  | [] => Some (None, s)
  | e :: _ => Some (Some (x_key e, x_value e), with_ents (ents s) (Some (Some 0)) s)
  end.
Definition a_back_kv : aop (option (K * V)) := λ s,
  match last (ents s) with
  | None => Some (None, s)
  | Some e => Some (Some (x_key e, x_value e), with_ents (ents s) (Some (at_last (ents s))) s)
  end.
Definition a_front_old_kv (now t : Z) : aop (option (K * V)) := λ s,
  match ents s with
  | [] => Some (None, s)
  | e :: _ => if decide (expired (a_living s) now t e) then a_front_kv s else Some (None, s)
  end.
(** Reading the head before an operation on it. *)
Definition a_reading {A} (f : aop A) : aop (option (K * V) * A) := λ s,
  '(r, s') ← f s; Some (((λ e, (x_key e, x_value e)) <$> head (ents s), r), s').
(** The move and the key and value of the new current entry. *)
Definition a_moving (f : aop bool) : aop (option (K * V)) := λ s,
  '(b, s') ← f s;
  if (b : bool) then
    i ← mjoin (acur s'); e ← ents s' !! i; Some (Some (x_key e, x_value e), s')
  else Some (None, s').

(** Only the value of a key-value result; only whether there is a result. *)
Definition a_snd (f : aop (option (K * V))) : aop (option V) := λ s,
  match f s with Some (r, s') => Some (option_map snd r, s') | None => None end.
Definition a_any {A} (f : aop (K:=K) (V:=V) (option A)) : aop bool := λ s,
  match f s with Some (r, s') => Some (bool_decide (is_Some r), s') | None => None end.

Lemma xb_count_refines : xrefines count a_count.
Proof. open_x. injection Hf as <- <-. unfold count. xrun. split; [by rewrite Hn|done]. Qed.

Lemma find_refines key : xrefines (find key) (a_find key).
Proof.
  open_x. unfold find, a_find in *. cbn [ents] in Hf.
  destruct (m !! key) as [p|] eqn:Hmk.
  - destruct (xrepr_entry _ _ _ _ _ Hat Hmk) as (l1 & e & l2 & ps1 & ps2 & Hl & -> & Hlen1 & Hke & Hpos & Hv & Hnull & He).
    cbn [ents heap ring_] in *. rewrite Hpos in Hf. injection Hf as <- <-.
    assert (n ≠ 0%Z).
    { rewrite Hn, Hl, length_app. cbn [length]. lia. }
    xrun. rewrite Hmk. rewrite decide_False by done. xrun. split; [done|].
    eapply with_cur_xrepr; [exact Hat|]. cbn. rewrite lookup_app_r, Hlen1, Nat.sub_diag by lia. done.
  - destruct (xrepr_no_entry _ _ _ _ Hat Hmk) as [Hpos _]. cbn [ents] in Hpos. rewrite Hpos in Hf.
    injection Hf as <- <-. xrun. case_decide; xrun; [|rewrite Hmk; xrun]; (split; [done|by exists ps]).
Qed.

Lemma subscript_refines key : xrefines (subscript key) (a_subscript key).
Proof.
  open_x. unfold subscript, a_subscript in *. cbn [ents a_tmp] in Hf.
  destruct (m !! key) as [p|] eqn:Hmk.
  - destruct (xrepr_entry _ _ _ _ _ Hat Hmk) as (l1 & e & l2 & ps1 & ps2 & Hl & -> & Hlen1 & Hke & Hpos & Hv & Hnull & He).
    cbn [ents heap ring_] in *. rewrite Hpos in Hf. cbn in Hf. rewrite He in Hf. injection Hf as <- <-.
    assert (n ≠ 0%Z).
    { rewrite Hn, Hl, length_app. cbn [length]. lia. }
    xrun. rewrite Hmk. rewrite decide_False by done. xrun. split; [done|].
    eapply with_cur_xrepr; [exact Hat|]. cbn. rewrite lookup_app_r, Hlen1, Nat.sub_diag by lia. done.
  - destruct (xrepr_no_entry _ _ _ _ Hat Hmk) as [Hpos _]. cbn [ents] in Hpos. rewrite Hpos in Hf.
    injection Hf as <- <-. xrun. case_decide; xrun; [|rewrite Hmk; xrun]; (split; [done|by exists ps]).
Qed.

Lemma pop_refines key : xrefines (pop key) (a_any (a_pop_v key)).
Proof.
  unfold pop. apply (xrefines_bind _ (a_pop_v key) _ (λ r s, Some (bool_decide (is_Some r), s)));
    [apply pop_v_refines|].
  intros r x s r' s' Hx Hf. injection Hf as <- <-. by apply wp_ret.
Qed.

(** The head and the tail entry, when there is one. *)
Lemma head_value ps h tag hd tl cur n m tmp mx dst liv e l c :
  xrepr_at ps (XBuf (DList h tag hd tl cur n) m tmp mx dst liv) (ABuf (e :: l) c tmp mx dst liv) →
  vl h hd = Some e ∧ (0 < n)%Z ∧ ps !! 0 = Some hd.
Proof.
  intros [Hr _ _ _ Hn _ _]. cbn in Hr, Hn. pose proof (rg_head _ _ _ Hr) as Hhd.
  pose proof (rg_vals _ _ _ Hr) as Hv. destruct ps as [|p ps]; [by apply Forall2_cons_inv_r in Hv as (? & ? & _ & _ & [=])|].
  apply Forall2_cons_1 in Hv as [Hv _]. cbn in Hhd, Hv. subst hd. split_and!; [done|lia|done].
Qed.
Lemma tail_value ps h tag hd tl cur n m tmp mx dst liv e l c :
  xrepr_at ps (XBuf (DList h tag hd tl cur n) m tmp mx dst liv) (ABuf (l ++ [e]) c tmp mx dst liv) →
  vl h tl = Some e ∧ (0 < n)%Z ∧ cursor tag ps (at_last (l ++ [e])) tl.
Proof.
  intros [Hr _ _ _ Hn _ _]. cbn [ents ring_ m_count] in Hr, Hn. pose proof (rg_tail _ _ _ Hr) as Htl.
  pose proof (rg_vals _ _ _ Hr) as Hv. pose proof (ring_length _ _ _ Hr) as Hlen.
  rewrite length_app in *. cbn [length] in *.
  split_and!; [|lia|by destruct (cursor_first_last _ _ _ Hr)].
  destruct ps as [|p ps _] using rev_ind; [cbn in *; lia|]. cbn [m_pTail m_pTag heap] in *.
  rewrite pred_of_snoc in Htl. subst tl. rewrite length_app in Hlen. cbn in Hlen.
  apply Forall2_app_inv in Hv as [_ Hv]; [|lia]. by apply Forall2_cons_1 in Hv as [Hv _].
Qed.

Lemma front_kv_refines : xrefines front_kv a_front_kv.
Proof.
  open_x. unfold front_kv, a_front_kv in *. cbn [ents] in Hf.
  destruct l as [|e l]; injection Hf as <- <-.
  - cbn in Hn. xrun. done.
  - destruct (head_value _ _ _ _ _ _ _ _ _ _ _ _ _ _ _ Hat) as (Hv & Hpos & Hp). xrun.
    split; [done|]. by eapply with_cur_xrepr.
Qed.

Lemma back_kv_refines : xrefines back_kv a_back_kv.
Proof.
  open_x. unfold back_kv, a_back_kv in *. cbn [ents] in Hf.
  destruct l as [|e l _] using rev_ind; [injection Hf as <- <-; cbn in Hn; xrun; done|].
  rewrite last_snoc in Hf. injection Hf as <- <-.
  destruct (tail_value _ _ _ _ _ _ _ _ _ _ _ _ _ _ _ Hat) as (Hv & Hpos & Hp). xrun.
  split; [done|]. by eapply with_cur_xrepr.
Qed.
Lemma xb_back_v_refines : xrefines back_v (a_snd a_back_kv).
Proof.
  open_x. unfold back_v, a_snd, a_back_kv in *. cbn [ents] in Hf.
  destruct l as [|e l _] using rev_ind; [injection Hf as <- <-; cbn in Hn; xrun; done|].
  rewrite last_snoc in Hf. injection Hf as <- <-.
  destruct (tail_value _ _ _ _ _ _ _ _ _ _ _ _ _ _ _ Hat) as (Hv & Hpos & Hp). xrun.
  split; [done|]. by eapply with_cur_xrepr.
Qed.

Lemma head_expired_spec now t ps h tag hd tl cur n m tmp mx dst liv e l c :
  xrepr_at ps (XBuf (DList h tag hd tl cur n) m tmp mx dst liv) (ABuf (e :: l) c tmp mx dst liv) →
  wp (head_expired now t)
    (λ b x', b = bool_decide (expired liv now t e) ∧
      x' = XBuf (DList h tag hd tl cur n) m tmp mx dst liv)
    (XBuf (DList h tag hd tl cur n) m tmp mx dst liv).
Proof.
  intros Hat. destruct (head_value _ _ _ _ _ _ _ _ _ _ _ _ _ _ _ Hat) as (Hv & Hpos & Hp).
  unfold head_expired. xrun. done.
Qed.

Lemma pop_front_old_refines now t :
  xrefines (pop_front_old now t) (a_pop_front_old (K:=K) (V:=V) now t).
Proof.
  open_x. unfold pop_front_old, a_pop_front_old in *. cbn [ents a_living] in Hf.
  destruct l as [|e l]; [injection Hf as <- <-; cbn in Hn; xrun; done|].
  destruct (head_value _ _ _ _ _ _ _ _ _ _ _ _ _ _ _ Hat) as (Hv & Hpos & Hp). xrun.
  eapply wp_mono; [eapply head_expired_spec; exact Hat|]. intros b x' [-> ->].
  destruct (decide (expired liv now t e)).
  - rewrite bool_decide_true by done. by eapply xb_pop_front_refines.
  - rewrite bool_decide_false by done. injection Hf as <- <-. by apply wp_ret.
Qed.
Lemma front_old_kv_refines now t : xrefines (front_old_kv now t) (a_front_old_kv now t).
Proof.
  open_x. unfold front_old_kv, a_front_old_kv in *. cbn [ents a_living] in Hf.
  destruct l as [|e l]; [injection Hf as <- <-; cbn in Hn; xrun; done|].
  destruct (head_value _ _ _ _ _ _ _ _ _ _ _ _ _ _ _ Hat) as (Hv & Hpos & Hp). xrun.
  eapply wp_mono; [eapply head_expired_spec; exact Hat|]. intros b x' [-> ->].
  destruct (decide (expired liv now t e)).
  - rewrite bool_decide_true by done. injection Hf as <- <-. xrun. split; [done|]. by eapply with_cur_xrepr.
  - rewrite bool_decide_false by done. injection Hf as <- <-. by apply wp_ret.
Qed.
Lemma front_old_refines now t :
  xrefines (front_old now t) (a_any (a_front_old_kv now t)).
Proof.
  open_x. unfold front_old, a_any, a_front_old_kv in *. cbn [ents a_living] in Hf.
  destruct l as [|e l]; [injection Hf as <- <-; cbn in Hn; xrun; done|].
  destruct (head_value _ _ _ _ _ _ _ _ _ _ _ _ _ _ _ Hat) as (Hv & Hpos & Hp). xrun.
  eapply wp_mono; [eapply head_expired_spec; exact Hat|]. intros b x' [-> ->].
  destruct (decide (expired liv now t e)).
  - rewrite bool_decide_true by done. injection Hf as <- <-. xrun. split; [done|]. by eapply with_cur_xrepr.
  - rewrite bool_decide_false by done. injection Hf as <- <-. by apply wp_ret.
Qed.

Lemma xrepr_fuel x s : xrepr x s → size (heap (ring_ x)) = S (length (ents s)).
Proof.
  intros (ps & [Hr _ _ _ _ _ _]). rewrite <- size_dom, (rg_dom _ _ _ Hr), size_list_to_set by apply Hr.
  cbn. by rewrite (ring_length _ _ _ Hr).
Qed.

Lemma pop_old_loop_spec clock t fuel i k x s (r := drop_expired (a_living s) clock i t (ents s)) :
  xrepr x s → length (ents s) < fuel → (0 ≤ k)%Z → (k + Z.of_nat r.1 < 2 ^ 31)%Z →
  wp (pop_old_loop fuel clock i t k) (λ n x', n = (k + Z.of_nat r.1)%Z ∧
    xrepr x' (if decide (r.1 = 0) then s else with_ents r.2 (Some (at_first r.2)) s)) x.
Proof.
  subst r. revert i k x s. induction fuel as [|fuel IH]; intros i k x s Hx Hfuel Hk Hlt; [lia|].
  cbn [pop_old_loop]. apply wp_bind. destruct (ents s) as [|e l] eqn:Hl; cbn [drop_expired] in *.
  - eapply wp_mono; [eapply pop_front_old_refines; [exact Hx|unfold a_pop_front_old; rewrite Hl; reflexivity]|].
    intros b x' [-> Hx']. apply wp_ret. rewrite decide_True by done. split; [cbn; lia|done].
  - destruct (decide (expired (a_living s) (clock i) t e)) as [He|He].
    + destruct (drop_expired (a_living s) clock (S i) t l) as [n r] eqn:Hd. cbn [fst snd] in *.
      eapply wp_mono; [eapply pop_front_old_refines; [exact Hx|]|].
      { unfold a_pop_front_old, a_pop_front. rewrite Hl, decide_True by done. reflexivity. }
      intros b x' [-> Hx']. rewrite i32_small by lia. cbn [length] in Hfuel.
      eapply wp_mono; [apply (IH (S i) (k + 1)%Z x' _ Hx')|]; cbn [ents a_living with_ents]; rewrite ?Hd; cbn [fst snd]; try lia.
      intros a x'' [-> Hx'']. split; [lia|]. rewrite decide_False by done.
      case_decide as Hn; [|done]. subst n. destruct l as [|e' l']; cbn in Hd; [by simplify_eq|].
      case_decide; [by destruct (drop_expired _ _ _ _ l')|]. by simplify_eq.
    + eapply wp_mono; [eapply pop_front_old_refines; [exact Hx|]|].
      { unfold a_pop_front_old. rewrite Hl, decide_False by done. reflexivity. }
      intros b x' [-> Hx']. apply wp_ret. cbn. split; [lia|done].
Qed.

Lemma pop_old_refines clock t : xrefines (pop_old clock t) (a_pop_old (K:=K) (V:=V) clock t).
Proof.
  intros x s r s' Hx Hf. unfold pop_old. pose proof (xrepr_fuel _ _ Hx) as Hfu.
  pose proof Hx as (ps & [_ _ _ _ Hn Hb _]). destruct x as [[h tag hd tl cur n] m tmp mx dst liv].
  cbn [m_count ring_ heap] in *. xrun. unfold a_pop_old in Hf.
  destruct (decide (0 < n)%Z) as [Hpos|Hz].
  - xrun. rewrite Hfu. destruct (drop_expired (a_living s) clock 0 t (ents s)) as [k l] eqn:Hd.
    assert (Z.of_nat k < 2 ^ 31)%Z by (destruct k; [lia|by case_decide]).
    eapply wp_mono; [apply (pop_old_loop_spec clock t _ 0 0 _ s Hx)|]; rewrite ?Hd; cbn [fst snd]; try lia.
    intros a x' [-> Hx']. destruct k; [by simplify_eq|].
    rewrite decide_True in Hf by done. injection Hf as <- <-. done.
  - destruct (ents s); [|cbn in *; lia]. injection Hf as <- <-. by apply wp_ret.
Qed.

(** Reading an entry at one end, then an operation. *)
Definition a_reading_of {A B} (π : xval K V → A) (pick : list (xval K V) → option (xval K V))
    (f : aop B) : aop (option A * B) := λ s,
  match f s with Some (r, s') => Some ((π <$> pick (ents s), r), s') | None => None end.

Lemma reading_refines {A} (getp : dlist (xval K V) → ptr) (rd : ptr → M (xbuf K V) A)
    (π : xval K V → A) (pick : list (xval K V) → option (xval K V)) op f :
  (∀ ps d l, ring d ps l → l ≠ [] → ∃ e, pick l = Some e ∧ vl (heap d) (getp d) = Some e) →
  pick [] = None →
  (∀ p e x Q, vl (heap (ring_ x)) p = Some e → Q (π e) x → wp (rd p) Q x) →
  xrefines op f → (∀ s, ents s = [] → f s = Some (false, s)) →
  xrefines (n ← on_ring (gets m_count);
    if decide (0 < n)%Z then
      p ← on_ring (gets getp); v ← rd p; r ← op; mret (Some v, r)
    else mret (None, false)) (a_reading_of π pick f).
Proof.
  intros Hpick Hnil Hrd Hop Hf0 x s r s' Hx Hf. unfold a_reading_of in Hf.
  pose proof Hx as (ps & [Hr _ _ _ Hn _ _]). destruct x as [d m tmp mx dst liv]. cbn [ring_] in *.
  apply wp_bind, wp_on_ring, wp_gets. destruct (ents s) as [|e0 l0] eqn:Hl.
  - rewrite decide_False by (cbn in Hn; lia). apply wp_ret.
    rewrite Hf0, Hnil in Hf by done. injection Hf as <- <-. done.
  - rewrite decide_True by (cbn in Hn; lia).
    destruct (Hpick ps d (e0 :: l0) Hr ltac:(done)) as (e & Hpe & Hv). rewrite Hpe in Hf.
    destruct (f s) as [[b s'']|] eqn:Hfs; [|done]. injection Hf as <- <-.
    apply wp_bind, wp_on_ring, wp_gets, wp_bind. eapply Hrd; [exact Hv|].
    apply wp_bind. eapply wp_mono; [eapply Hop; [exact Hx|exact Hfs]|].
    intros r x' [-> Hx']. by apply wp_ret.
Qed.

Lemma pick_head ps (d : dlist (xval K V)) l :
  ring d ps l → l ≠ [] → ∃ e, head l = Some e ∧ vl (heap d) (m_pHead d) = Some e.
Proof.
  intros Hr Hl. pose proof (rg_vals _ _ _ Hr) as Hv. rewrite (rg_head _ _ _ Hr).
  destruct l as [|e l]; [done|]. exists e. split; [done|].
  destruct ps as [|p ps]; [by apply Forall2_cons_inv_r in Hv as (? & ? & _ & _ & [=])|].
  by apply Forall2_cons_1 in Hv as [Hv _].
Qed.
Lemma pick_last ps (d : dlist (xval K V)) l :
  ring d ps l → l ≠ [] → ∃ e, last l = Some e ∧ vl (heap d) (m_pTail d) = Some e.
Proof.
  intros Hr Hl. pose proof (rg_vals _ _ _ Hr) as Hv. pose proof (ring_length _ _ _ Hr) as Hlen.
  rewrite (rg_tail _ _ _ Hr).
  destruct l as [|e l _] using rev_ind; [done|]. exists e. split; [apply last_snoc|].
  rewrite length_app in Hlen. cbn in Hlen.
  destruct ps as [|p ps _] using rev_ind; [cbn in *; lia|]. rewrite pred_of_snoc.
  rewrite length_app in Hlen. cbn in Hlen.
  apply Forall2_app_inv in Hv as [_ Hv]; [|lia]. by apply Forall2_cons_1 in Hv as [Hv _].
Qed.

Definition kv_of (e : xval K V) : K * V := (x_key e, x_value e).
Lemma wp_read_kv p e x Q :
  vl (heap (ring_ x)) p = Some e → Q (kv_of e) x → wp (read_kv p) Q x.
Proof. destruct x. intros. xrun. eapply wp_value_of; [done|]. xrun. done. Qed.
Lemma wp_read_v p e x Q :
  vl (heap (ring_ x)) p = Some e → Q (x_value e) x → wp (read_v p) Q x.
Proof. destruct x. intros. xrun. eapply wp_value_of; [done|]. xrun. done. Qed.

Lemma a_pop_front_empty s : ents s = [] → a_pop_front s = Some (false, s).
Proof. unfold a_pop_front. by intros ->. Qed.
Lemma a_pop_back_empty s : ents s = [] → a_pop_back s = Some (false, s).
Proof. unfold a_pop_back. by intros ->. Qed.
Lemma a_pop_front_old_empty now t s : ents s = [] → a_pop_front_old now t s = Some (false, s).
Proof. unfold a_pop_front_old. by intros ->. Qed.

Lemma pop_front_kv_refines : xrefines pop_front_kv (a_reading_of kv_of head a_pop_front).
Proof.
  apply (reading_refines m_pHead); [apply pick_head|done|apply wp_read_kv|apply xb_pop_front_refines|apply a_pop_front_empty].
Qed.
Lemma xb_pop_front_v_refines : xrefines pop_front_v (a_reading_of x_value head a_pop_front).
Proof.
  apply (reading_refines m_pHead); [apply pick_head|done|apply wp_read_v|apply xb_pop_front_refines|apply a_pop_front_empty].
Qed.
Lemma pop_back_kv_refines : xrefines pop_back_kv (a_reading_of kv_of last a_pop_back).
Proof.
  apply (reading_refines m_pTail); [apply pick_last|done|apply wp_read_kv|apply xb_pop_back_refines|apply a_pop_back_empty].
Qed.
Lemma xb_pop_back_v_refines : xrefines pop_back_v (a_reading_of x_value last a_pop_back).
Proof.
  apply (reading_refines m_pTail); [apply pick_last|done|apply wp_read_v|apply xb_pop_back_refines|apply a_pop_back_empty].
Qed.
Lemma pop_front_old_kv_refines now t :
  xrefines (pop_front_old_kv now t) (a_reading_of kv_of head (a_pop_front_old now t)).
Proof.
  apply (reading_refines m_pHead); [apply pick_head|done|apply wp_read_kv|apply pop_front_old_refines|apply a_pop_front_old_empty].
Qed.
Lemma pop_front_old_v_refines now t :
  xrefines (pop_front_old_v now t) (a_reading_of x_value head (a_pop_front_old now t)).
Proof.
  apply (reading_refines m_pHead); [apply pick_head|done|apply wp_read_v|apply pop_front_old_refines|apply a_pop_front_old_empty].
Qed.

(** [push(key, value, oldValue)] reports the value of the entry it evicts. *)
Definition a_push_old (now : Z) key value : aop (Z * option V) := λ s,
  match a_push now key value s with
  | Some (r, s') =>
      Some ((r, if decide (r = 2%Z) then x_value <$> head (ents s) else None), s')
  | None => None
  end.

Lemma a_push_two now key value s s' :
  a_push now key value s = Some (2%Z, s') →
  (0 < a_max s)%Z ∧ (a_max s ≤ Z.of_nat (length (ents s)))%Z.
Proof.
  unfold a_push. rewrite length_app. cbn [length]. repeat case_decide; try done. intros _. lia.
Qed.

Lemma push_old_refines tmp now key value :
  xrefines (push_old tmp now key value) (a_push_old now key value).
Proof.
  intros x s r s' Hx Hf. unfold push_old, a_push_old in *.
  destruct (a_push now key value s) as [[k s'']|] eqn:Hp; [|done]. injection Hf as <- <-.
  pose proof (push_refines now key value _ _ _ _ Hx Hp) as Hpush.
  assert (∀ v, (k = 2%Z → Some v = x_value <$> head (ents s)) →
    wp (ret ← push now key value; if decide (ret = 2%Z) then mret (ret, Some v) else mret (ret, None))
      (λ r' x', r' = (k, if decide (k = 2%Z) then x_value <$> head (ents s) else None) ∧ xrepr x' s'') x)
    as Hrest.
  { intros v Hv. apply wp_bind. eapply wp_mono; [exact Hpush|]. intros a x' [-> Hx'].
    case_decide; apply wp_ret; [by rewrite Hv|done]. }
  pose proof Hx as (ps & [Hr _ _ _ Hn _ Hconf]). destruct x as [d m tmp' mx dst liv]. cbn in Hr, Hn, Hconf.
  injection Hconf as -> -> -> ->.
  apply wp_bind, wp_gets, wp_bind, wp_on_ring, wp_gets, wp_bind. cbn [m_count_max].
  destruct (decide (0 < a_max s ∧ a_max s ≤ m_count d)%Z) as [Hfull|Hnot].
  - assert (ents s ≠ []) as Hne by (intros He; rewrite He in Hn; cbn in Hn; lia).
    destruct (pick_head _ _ _ Hr Hne) as (e & He & Hv).
    apply wp_bind, wp_on_ring, wp_gets. eapply wp_read_v; [exact Hv|]. apply Hrest. by rewrite He.
  - apply wp_ret. apply Hrest. intros ->. apply a_push_two in Hp. rewrite <- Hn in Hp. lia.
Qed.

(** Moves. *)
Lemma xb_next_refines : xrefines next (a_next (K:=K) (V:=V)).
Proof.
  open_x. unfold next, a_next in *. cbn [ents acur] in Hf.
  destruct l as [|e l]; [injection Hf as <- <-; cbn in Hn; xrun; done|].
  assert (0 < n)%Z by (cbn [length] in Hn; lia). destruct c as [[i|]|]; [| |done].
  - cbn in Hc. destruct (ring_split _ _ _ _ _ Hr Hc) as (ps1 & ps2 & l1 & v & l2 & Hps & Hl & Hi1 & Hi2 & _).
    subst ps.
    pose proof (ring_facts _ ps1 cur ps2 _ Hr) as (? & ? & ? & ? & ? & ? & ? & ? & ? & ?). cbn [heap m_pTag] in *.
    assert (cur ≠ NULL) by (intros ->; pose proof (hr_null _ _ _ (rg_ring _ _ _ Hr)); set_solver).
    assert (succ_of tag ps2 = tag ↔ ps2 = []) as Hs2 by (apply succ_of_tag; set_solver).
    rewrite length_app in Hlen. cbn [length] in Hlen.
    xrun. cbn [length] in Hf. case_decide; injection Hf as <- <-.
    + destruct ps2; [|cbn [length] in *; lia]. split; [by apply bool_decide_eq_false; rewrite Hs2; auto|].
      by eapply with_cur_xrepr.
    + destruct ps2 as [|q ps2]; [cbn [length] in *; lia|]. split; [apply bool_decide_eq_true; by rewrite Hs2|].
      eapply with_cur_xrepr; [exact Hat|].
      cbn. rewrite lookup_app_r by lia. by replace (S i - length ps1) with 1 by lia.
  - cbn in Hc. subst cur. injection Hf as <- <-. destruct ps as [|p ps]; [done|]. cbn in Hhd. subst hd.
    assert (p ≠ tag) by (intros ->; set_solver).
    xrun. split; [by rewrite bool_decide_true|]. by eapply with_cur_xrepr.
Qed.

Lemma xb_prev_refines : xrefines prev (a_prev (K:=K) (V:=V)).
Proof.
  open_x. unfold prev, a_prev in *. cbn [ents acur] in Hf.
  destruct l as [|e l]; [injection Hf as <- <-; cbn in Hn; xrun; done|].
  assert (0 < n)%Z by (cbn [length] in Hn; lia). destruct c as [[i|]|]; [| |done].
  - cbn in Hc. destruct (ring_split _ _ _ _ _ Hr Hc) as (ps1 & ps2 & l1 & v & l2 & Hps & Hl & Hi1 & Hi2 & _).
    subst ps.
    pose proof (ring_facts _ ps1 cur ps2 _ Hr) as (? & ? & ? & ? & ? & ? & ? & ? & ? & ?). cbn [heap m_pTag] in *.
    assert (cur ≠ NULL) by (intros ->; pose proof (hr_null _ _ _ (rg_ring _ _ _ Hr)); set_solver).
    assert (pred_of tag ps1 = tag ↔ ps1 = []) as Hs1 by (apply pred_of_tag; set_solver).
    xrun. destruct i as [|i]; injection Hf as <- <-.
    + destruct ps1; [|done]. split; [by apply bool_decide_eq_false; rewrite Hs1; auto|].
      by eapply with_cur_xrepr.
    + destruct ps1 as [|q ps1 _] using rev_ind; [done|].
      split; [apply bool_decide_eq_true; rewrite Hs1; by destruct ps1|].
      eapply with_cur_xrepr; [exact Hat|]. rewrite pred_of_snoc.
      cbn. rewrite length_app in Hi1. cbn in Hi1.
      rewrite <- app_assoc, lookup_app_r by lia. by replace (i - length ps1) with 0 by lia.
  - cbn in Hc. subst cur. injection Hf as <- <-.
    assert (tl ≠ tag).
    { rewrite Htl, pred_of_tag by done. by destruct ps. }
    xrun. split; [by rewrite bool_decide_true|]. eapply with_cur_xrepr; [exact Hat|].
    by destruct (cursor_first_last _ _ _ Hr).
Qed.

(** The value at the current position. *)
Lemma cursor_value x s i e :
  xrepr x s → acur s = Some (Some i) → ents s !! i = Some e →
  vl (heap (ring_ x)) (m_pCurrent (ring_ x)) = Some e.
Proof.
  intros (ps & [Hr _ _ Hc _ _ _]) Hcur He. rewrite Hcur in Hc. cbn in Hc.
  pose proof (rg_vals _ _ _ Hr) as Hv. by eapply Forall2_lookup_lr in Hv.
Qed.

Lemma moving_refines (mv : M (xbuf K V) bool) (f : aop bool) :
  xrefines mv f →
  xrefines (b ← mv; if (b : bool) then cur ← on_ring (gets m_pCurrent); r ← read_kv cur; mret (Some r)
            else mret None) (a_moving f) ∧
  xrefines (b ← mv; if (b : bool) then cur ← on_ring (gets m_pCurrent); r ← read_v cur; mret (Some r)
            else mret None) (a_snd (a_moving f)).
Proof.
  intros Hmv. split; intros x s r s' Hx Hf; unfold a_snd, a_moving in Hf;
    (destruct (f s) as [[b s'']|] eqn:Hfs; [|done]); simpl in Hf;
    apply wp_bind; (eapply wp_mono; [eapply Hmv; [exact Hx|exact Hfs]|]); intros ? x' [-> Hx'];
    (destruct b; [|injection Hf as <- <-; by apply wp_ret]);
    (destruct (acur s'') as [[i|]|] eqn:Hc; simpl in Hf; [|done..]);
    (destruct (ents s'' !! i) as [e|] eqn:He; simpl in Hf; [|done]); injection Hf as <- <-;
    pose proof (cursor_value _ _ _ _ Hx' Hc He) as Hv; destruct x' as [d m tmp mx dst liv];
    apply wp_bind, wp_on_ring, wp_gets, wp_bind.
  - eapply wp_read_kv; [exact Hv|]. by apply wp_ret.
  - eapply wp_read_v; [exact Hv|]. by apply wp_ret.
Qed.

Lemma setMaxCount_refines n : xrefines (K:=K) (V:=V) (setMaxCount n) (λ s, Some (tt,
  ABuf (ents s) (acur s) (a_tmp s) n (a_destroy s) (a_living s))).
Proof.
  intros x s r s' (ps & [Hr Hk Hm Hc Hn Hb Hconf]) Hf. injection Hf as <- <-. apply wp_modify.
  split; [done|]. exists ps. injection Hconf as ????. split; try done. cbn. congruence.
Qed.
Lemma setLivingTime_refines n : xrefines (K:=K) (V:=V) (setLivingTime n) (λ s, Some (tt,
  ABuf (ents s) (acur s) (a_tmp s) (a_max s) (a_destroy s) n)).
Proof.
  intros x s r s' (ps & [Hr Hk Hm Hc Hn Hb Hconf]) Hf. injection Hf as <- <-. apply wp_modify.
  split; [done|]. exists ps. injection Hconf as ????. split; try done. cbn. congruence.
Qed.
Lemma setDestroyPolicy_refines b : xrefines (K:=K) (V:=V) (setDestroyPolicy b) (λ s, Some (tt,
  ABuf (ents s) (acur s) (a_tmp s) (a_max s) b (a_living s))).
Proof.
  intros x s r s' (ps & [Hr Hk Hm Hc Hn Hb Hconf]) Hf. injection Hf as <- <-. apply wp_modify.
  split; [done|]. exists ps. injection Hconf as ????. split; try done. cbn. congruence.
Qed.

(** The three readers of the settings. *)
Lemma read_conf_refines {A} (f : xbuf K V → A) (g : abuf K V → A) :
  (∀ x s, tmpValue x = a_tmp s → m_count_max x = a_max s → m_destroy_old x = a_destroy s →
     m_living_time x = a_living s → f x = g s) → xrefines (K:=K) (V:=V) (gets f) (λ s, Some (g s, s)).
Proof.
  intros Hfg x s r s' Hx Hf. injection Hf as <- <-. apply wp_gets. destruct Hx as (ps & Hat).
  pose proof (xr_conf _ _ _ Hat) as Hconf. injection Hconf as ????. split; [by apply Hfg|by exists ps].
Qed.

Lemma create_xrepr (tmp : V) mx dst liv :
  xrepr (K:=K) (create tmp mx dst liv) (ABuf [] (Some None) tmp mx dst liv).
Proof.
  exists []. split; try done; first [apply init_ring | constructor | intros; apply lookup_empty].
Qed.
End refinement.

(** ** Clients *)
Section client.
Context {K V : Type} `{Countable K}.

Inductive call : Type → Type :=
  | Count : call Z
  | Push (now : Z) (key : K) (value : V) : call Z
  | PushOld (tmp : V) (now : Z) (key : K) (value : V) : call (Z * option V)
  | Update (now : Z) (key : K) (t : Z) : call bool
  | UpdateV (now : Z) (key : K) (value : V) : call (option V)
  | Find (key : K) : call bool | FindV (key : K) : call (option V) | Subscript (key : K) : call V
  | Pop (key : K) : call bool | PopV (key : K) : call (option V)
  | FrontKV : call (option (K * V)) | BackKV : call (option (K * V)) | BackV : call (option V)
  | Next : call bool | NextKV : call (option (K * V)) | NextV : call (option V)
  | Prev : call bool | PrevKV : call (option (K * V)) | PrevV : call (option V)
  | PopFront : call bool | PopFrontKV : call (option (K * V) * bool) | PopFrontV : call (option V * bool)
  | PopBack : call bool | PopBackKV : call (option (K * V) * bool) | PopBackV : call (option V * bool)
  | FrontOld (now t : Z) : call bool | FrontOldKV (now t : Z) : call (option (K * V))
  | PopFrontOld (now t : Z) : call bool | PopFrontOldKV (now t : Z) : call (option (K * V) * bool)
  | PopFrontOldV (now t : Z) : call (option V * bool)
  | PopOld (clock : nat → Z) (t : Z) : call Z
  | SetMaxCount (n : Z) : call unit | SetLivingTime (n : Z) : call unit
  | SetDestroyPolicy (b : bool) : call unit
  | GetMaxSize : call Z | GetDestroyPolicy : call bool | GetLivingTime : call Z.

Definition exec {A} (c : call A) : M (xbuf K V) A :=
  match c with
  | Count => count
  | Push now key value => push now key value
  | PushOld tmp now key value => push_old tmp now key value
  | Update now key t => update now key t
  | UpdateV now key value => update_v now key value
  | Find key => find key | FindV key => find_v key | Subscript key => subscript key
  | Pop key => pop key | PopV key => pop_v key
  | FrontKV => front_kv | BackKV => back_kv | BackV => back_v
  | Next => next | NextKV => next_kv | NextV => next_v
  | Prev => prev | PrevKV => prev_kv | PrevV => prev_v
  | PopFront => pop_front | PopFrontKV => pop_front_kv | PopFrontV => pop_front_v
  | PopBack => pop_back | PopBackKV => pop_back_kv | PopBackV => pop_back_v
  | FrontOld now t => front_old now t | FrontOldKV now t => front_old_kv now t
  | PopFrontOld now t => pop_front_old now t | PopFrontOldKV now t => pop_front_old_kv now t
  | PopFrontOldV now t => pop_front_old_v now t
  | PopOld clock t => pop_old clock t
  | SetMaxCount n => setMaxCount (u32 n)
  | SetLivingTime n => setLivingTime (u32 n) | SetDestroyPolicy b => setDestroyPolicy b
  | GetMaxSize => getMaxSize | GetDestroyPolicy => getDestoryPolicy | GetLivingTime => getLivingTime
  end.

Definition meaning {A} (c : call A) : aop (K:=K) (V:=V) A :=
  match c with
  | Count => a_count
  | Push now key value => a_push now key value
  | PushOld tmp now key value => a_push_old now key value
  | Update now key t => a_update now key t
  | UpdateV now key value => a_update_v now key value
  | Find key => a_find key | FindV key => a_find_v key | Subscript key => a_subscript key
  | Pop key => a_any (a_pop_v key) | PopV key => a_pop_v key
  | FrontKV => a_front_kv | BackKV => a_back_kv | BackV => a_snd a_back_kv
  | Next => a_next | NextKV => a_moving a_next | NextV => a_snd (a_moving a_next)
  | Prev => a_prev | PrevKV => a_moving a_prev | PrevV => a_snd (a_moving a_prev)
  | PopFront => a_pop_front | PopFrontKV => a_reading_of kv_of head a_pop_front
  | PopFrontV => a_reading_of x_value head a_pop_front
  | PopBack => a_pop_back | PopBackKV => a_reading_of kv_of last a_pop_back
  | PopBackV => a_reading_of x_value last a_pop_back
  | FrontOld now t => a_any (a_front_old_kv now t) | FrontOldKV now t => a_front_old_kv now t
  | PopFrontOld now t => a_pop_front_old now t
  | PopFrontOldKV now t => a_reading_of kv_of head (a_pop_front_old now t)
  | PopFrontOldV now t => a_reading_of x_value head (a_pop_front_old now t)
  | PopOld clock t => a_pop_old clock t
  | SetMaxCount n => λ s, Some (tt, ABuf (ents s) (acur s) (a_tmp s) (u32 n) (a_destroy s) (a_living s))
  | SetLivingTime n => λ s, Some (tt, ABuf (ents s) (acur s) (a_tmp s) (a_max s) (a_destroy s) (u32 n))
  | SetDestroyPolicy b => λ s, Some (tt, ABuf (ents s) (acur s) (a_tmp s) (a_max s) b (a_living s))
  | GetMaxSize => λ s, Some (i32 (a_max s), s) | GetDestroyPolicy => λ s, Some (a_destroy s, s)
  | GetLivingTime => λ s, Some (i32 (a_living s), s)
  end.

Inductive prog (A : Type) : Type :=
  | Ret (a : A)
  | Call {B : Type} (c : call B) (k : B → prog A).
Arguments Ret {A} _.
Arguments Call {A B} _ _.

Fixpoint exec_prog {A} (p : prog A) : M (xbuf K V) A :=
  match p with
  | Ret a => mret a
  | Call c k => r ← exec c; exec_prog (k r)
  end.
Fixpoint meaning_prog {A} (p : prog A) : aop (K:=K) (V:=V) A :=
  match p with
  | Ret a => λ s, Some (a, s)
  | Call c k => λ s, '(r, s') ← meaning c s; meaning_prog (k r) s'
  end.

Lemma xb_exec_refines {A} (c : call A) : xrefines (exec c) (meaning c).
Proof.
  destruct c; simpl; eauto using xb_count_refines, push_refines, push_old_refines, update_refines,
    update_v_refines, find_refines, find_v_refines, subscript_refines, pop_refines, pop_v_refines,
    front_kv_refines, back_kv_refines, xb_back_v_refines, xb_next_refines, xb_prev_refines, xb_pop_front_refines,
    pop_front_kv_refines, xb_pop_front_v_refines, xb_pop_back_refines, pop_back_kv_refines,
    xb_pop_back_v_refines, front_old_refines, front_old_kv_refines, pop_front_old_refines,
    pop_front_old_kv_refines, pop_front_old_v_refines, pop_old_refines, setMaxCount_refines, setLivingTime_refines,
    setDestroyPolicy_refines, read_conf_refines.
  all: first [apply (moving_refines _ _ xb_next_refines) | apply (moving_refines _ _ xb_prev_refines)
             | apply read_conf_refines; congruence].
Qed.

Lemma xb_exec_prog_refines {A} (p : prog A) : xrefines (exec_prog p) (meaning_prog p).
Proof.
  induction p as [a|B c k IH]; simpl.
  - intros x s r s' Hs Hf. injection Hf as <- <-. by apply wp_ret.
  - apply xrefines_bind; [apply xb_exec_refines|done].
Qed.

(** The capacity is kept by every call but [setMaxCount], which does not
    remove entries. *)
Definition sets_max {A} (c : call A) : bool := match c with SetMaxCount _ => true | _ => false end.
Fixpoint fixed_max {A} (p : prog A) : Prop :=
  match p with Ret _ => True | Call c k => sets_max c = false ∧ ∀ r, fixed_max (k r) end.
Definition within (s : abuf K V) : Prop :=
  (0 < a_max s → Z.of_nat (length (ents s)) ≤ a_max s)%Z.

Lemma drop_expired_length living clock i t (l : list (xval K V)) :
  length (drop_expired living clock i t l).2 ≤ length l.
Proof.
  revert i. induction l as [|e l IH]; intros i; simpl; [done|]. case_decide; [|done].
  specialize (IH (S i)). destruct (drop_expired living clock (S i) t l). simpl in *. lia.
Qed.


(** [keeps f]: [f] preserves the capacity; [shrinks f]: it never adds entries. *)
Definition keeps {A} (f : aop (K:=K) (V:=V) A) : Prop := ∀ s r s',
  within s → f s = Some (r, s') → within s' ∧ a_max s' = a_max s.
Definition shrinks {A} (f : aop (K:=K) (V:=V) A) : Prop := ∀ s r s',
  f s = Some (r, s') → s' = s ∨ ∃ l c, length l ≤ length (ents s) ∧ s' = with_ents l c s.

Lemma shrinks_keeps {A} (f : aop A) : shrinks f → keeps f.
Proof.
  intros Hf s r s' Hw Hs. apply Hf in Hs as [->|(l & c & Hl & ->)]; [done|].
  split; [|done]. unfold within in *. cbn. lia.
Qed.
Lemma keeps_push now key value : keeps (a_push now key value).
Proof.
  intros s r s' Hw. unfold a_push.
  repeat case_decide; intros [= <- <-]; try done; unfold within in *; cbn in *; (split; [|done]);
    intros Hm; [|lia].
  destruct (ents s); cbn in *; rewrite ?length_app in *; cbn in *; lia.
Qed.
Lemma shrinks_pop_front : shrinks (a_pop_front (K:=K) (V:=V)).
Proof.
  intros s r s'. unfold a_pop_front. destruct (ents s) eqn:Hl; intros [= <- <-]; [by left|].
  right. eexists _, _. split; [|done]. cbn. lia.
Qed.
Lemma shrinks_pop_back : shrinks (a_pop_back (K:=K) (V:=V)).
Proof.
  intros s r s'. unfold a_pop_back. destruct (length (ents s)) eqn:Hl; intros [= <- <-]; [by left|].
  right. eexists _, _. split; [|done]. rewrite length_take. lia.
Qed.
Lemma shrinks_pop_front_old now t : shrinks (a_pop_front_old (K:=K) (V:=V) now t).
Proof.
  intros s r s'. unfold a_pop_front_old. destruct (ents s) eqn:Hl; [intros [= <- <-]; by left|].
  rewrite <- Hl. case_decide; [apply shrinks_pop_front|intros [= <- <-]; by left].
Qed.
Lemma shrinks_pop_old clock t : shrinks (a_pop_old (K:=K) (V:=V) clock t).
Proof.
  intros s r s'. unfold a_pop_old. pose proof (drop_expired_length (a_living s) clock 0 t (ents s)).
  destruct (drop_expired _ _ _ _ _) as [[|n] l]; [intros [= <- <-]; by left|].
  case_decide; [|done]. intros [= <- <-]. right. by eexists _, _.
Qed.
Lemma shrinks_pop_v key : shrinks (a_pop_v (V:=V) key).
Proof.
  intros s r s'. unfold a_pop_v. destruct (kpos key (ents s)) as [i|]; intros [= <- <-]; [|by left].
  right. eexists _, _. split; [|done]. rewrite delete_take_drop, length_app, length_take, length_drop. lia.
Qed.
Lemma touch_length i (e : xval K V) s :
  i < length (ents s) → length (delete i (ents s) ++ [e]) ≤ length (ents s).
Proof.
  intros Hi. rewrite length_app, length_delete by by apply lookup_lt_is_Some_2. cbn. lia.
Qed.
Lemma shrinks_update now key t : shrinks (a_update (V:=V) now key t).
Proof.
  intros s r s'. unfold a_update. destruct (kpos key (ents s)) as [i|]; simpl; [|intros [= <- <-]; by left].
  destruct (ents s !! i) as [e|] eqn:He; simpl; intros [= <- <-]; [|by left].
  right. eexists _, _. split; [|done]. apply touch_length. by eapply lookup_lt_Some.
Qed.
Lemma shrinks_update_v now key value : shrinks (a_update_v now key value).
Proof.
  intros s r s'. unfold a_update_v. destruct (kpos key (ents s)) as [i|]; simpl; [|intros [= <- <-]; by left].
  destruct (ents s !! i) as [e|] eqn:He; simpl; intros [= <- <-]; [|by left].
  right. eexists _, _. split; [|done]. apply touch_length. by eapply lookup_lt_Some.
Qed.
(** Everything that only moves the cursor. *)
Ltac same_entries := right; eexists _, _; split; [|done]; done.
Lemma shrinks_next : shrinks (a_next (K:=K) (V:=V)).
Proof.
  intros s r s'. unfold a_next. destruct (ents s) eqn:Hl; [intros [= <- <-]; by left|].
  destruct (acur s) as [[i|]|]; [case_decide| |done]; intros [= <- <-]; right; eexists _, _; by split.
Qed.
Lemma shrinks_prev : shrinks (a_prev (K:=K) (V:=V)).
Proof.
  intros s r s'. unfold a_prev. destruct (ents s) eqn:Hl; [intros [= <- <-]; by left|].
  destruct (acur s) as [[[|i]|]|]; [| | |done]; intros [= <- <-]; right; eexists _, _; by split.
Qed.
Lemma shrinks_moving f : shrinks f → shrinks (a_moving (K:=K) (V:=V) f).
Proof.
  intros Hf s r s'. unfold a_moving. destruct (f s) as [[[] s'']|] eqn:Hs; simpl; [| |done].
  - destruct (mjoin (acur s'')) as [i|]; simpl; [|done].
    destruct (ents s'' !! i); simpl; [|done]. intros [= <- <-]. by eapply Hf.
  - intros [= <- <-]. by eapply Hf.
Qed.
Lemma shrinks_snd f : shrinks f → shrinks (a_snd (K:=K) (V:=V) f).
Proof.
  intros Hf s r s'. unfold a_snd. destruct (f s) as [[]|] eqn:Hs; [|done]. intros [= <- <-]. by eapply Hf.
Qed.
Lemma shrinks_any {A} (f : aop (option A)) : shrinks f → shrinks (a_any (K:=K) (V:=V) f).
Proof.
  intros Hf s r s'. unfold a_any. destruct (f s) as [[]|] eqn:Hs; [|done]. intros [= <- <-]. by eapply Hf.
Qed.
Lemma shrinks_reading {A B} (π : _ → A) pick (f : aop B) :
  shrinks f → shrinks (a_reading_of (K:=K) (V:=V) π pick f).
Proof.
  intros Hf s r s'. unfold a_reading_of. destruct (f s) as [[]|] eqn:Hs; [|done]. intros [= <- <-]. by eapply Hf.
Qed.

Lemma shrinks_lookups key : shrinks (a_find (V:=V) key) ∧ shrinks (a_find_v (V:=V) key) ∧
  shrinks (a_subscript (V:=V) key).
Proof.
  split_and!; intros s r s'; unfold a_find, a_find_v, a_subscript; destruct (kpos key (ents s)) as [i|];
    simpl; try (intros [= <- <-]; first [by left|same_entries]).
  destruct (ents s !! i); simpl; [|done]. intros [= <- <-]. same_entries.
Qed.
Lemma shrinks_ends now t : shrinks (a_count (K:=K) (V:=V)) ∧ shrinks (a_front_kv (K:=K) (V:=V)) ∧
  shrinks (a_back_kv (K:=K) (V:=V)) ∧ shrinks (a_front_old_kv (K:=K) (V:=V) now t).
Proof.
  assert (shrinks (a_front_kv (K:=K) (V:=V))) as Hfr.
  { intros s r s'. unfold a_front_kv. destruct (ents s) eqn:Hl; intros [= <- <-]; [by left|].
    right. eexists _, _. by split. }
  split_and!; [|done| |]; intros s r s'; unfold a_count, a_back_kv, a_front_old_kv.
  - intros [= <- <-]. by left.
  - destruct (last (ents s)); intros [= <- <-]; [same_entries|by left].
  - destruct (ents s) eqn:Hl; [intros [= <- <-]; by left|]. rewrite <- Hl. case_decide; [apply Hfr|intros [= <- <-]; by left].
Qed.

Lemma meaning_keeps {A} (c : call A) : sets_max c = false → keeps (meaning c).
Proof.
  intros Hc.
  pose proof shrinks_lookups as Hlk. pose proof shrinks_ends as Hen.
  destruct c; simpl in *; first
    [ discriminate Hc | apply keeps_push
    | intros s r s' Hw [= <- <-]; done
    | solve [apply shrinks_keeps; eauto 6 using shrinks_pop_front, shrinks_pop_back, shrinks_pop_front_old,
        shrinks_pop_old, shrinks_pop_v, shrinks_update, shrinks_update_v, shrinks_next, shrinks_prev,
        shrinks_moving, shrinks_snd, shrinks_any, shrinks_reading]
    | solve [apply shrinks_keeps; try apply shrinks_snd; try apply shrinks_any;
        first [apply Hlk | apply (Hen 0%Z 0%Z) | apply Hen]]
    | idtac ].
  all: intros s r s' Hw; unfold a_push_old; destruct (a_push _ _ _ _) as [[]|] eqn:Hp; [|done];
    intros [= <- <-]; by eapply keeps_push.
Qed.
Lemma meaning_prog_keeps {A} (p : prog A) : fixed_max p → keeps (meaning_prog p).
Proof.
  induction p as [a|B c k IH]; simpl; intros Hfx s r s' Hw; [by intros [= <- <-]|]. destruct Hfx as [Hc Hk].
  destruct (meaning c s) as [[b s'']|] eqn:Hs; simpl; [|done].
  apply meaning_keeps in Hs as [Hw' Hm]; [|done|done]. intros Hp. apply IH in Hp as [? Hm']; [|done|done].
  split; [done|]. by rewrite Hm', Hm.
Qed.
End client.
Arguments Ret {K V A} _.
Arguments Call {K V A B} _ _.

(** ** Behaviour of the expiry and of two broken paths *)
Section behaviour.
Context {K V : Type} `{Countable K}.
Implicit Types (key : K) (value : V) (l : list (xval K V)) (x : xbuf K V) (s : abuf K V).

(** Oldest refresh first. *)
Definition by_age (a b : xval K V) : Prop := (x_refreshtime a ≤ x_refreshtime b)%Z.

Lemma drop_expired_split living now t i l :
  ∃ popped, l = popped ++ (drop_expired living (λ _, now) i t l).2 ∧
    length popped = (drop_expired living (λ _, now) i t l).1 ∧
    Forall (expired living now t) popped ∧
    match (drop_expired living (λ _, now) i t l).2 with
    | e :: _ => ¬ expired living now t e
    | [] => True
    end.
Proof.
  revert i. induction l as [|e l IH]; intros i; simpl; [by exists []|].
  case_decide as He; [|by exists []].
  destruct (IH (S i)) as (popped & Hl & Hn & Hf & Hr).
  destruct (drop_expired living (λ _, now) (S i) t l) as [n r]. cbn in *.
  exists (e :: popped). subst. split_and!; [done|done|by constructor|done].
Qed.

Lemma sorted_not_expired living now t l :
  StronglySorted by_age l → match l with e :: _ => ¬ expired living now t e | [] => True end →
  Forall (λ e, ¬ expired living now t e) l.
Proof.
  intros Hs He. inversion Hs as [|e l' _ Hall]; subst; constructor; [done|].
  eapply Forall_impl; [exact Hall|]. unfold by_age, expired in *. intros y. cbn. lia.
Qed.

Lemma strongly_sorted_suffix l1 l2 : StronglySorted by_age (l1 ++ l2) → StronglySorted by_age l2.
Proof. induction l1; [done|]. simpl. inversion 1; subst. auto. Qed.

(** [clear]'s loop, on a ring whose [m_pTail] is left behind. *)
Lemma clear_loop_spec (h : nheap (xval K V)) tag hd tl cur n ps l mp tmp mx dst liv fuel :
  ring (DList h tag hd (pred_of tag ps) cur n) ps l → n = Z.of_nat (length l) →
  (n < 2 ^ 32)%Z → length l < fuel →
  wp (while_loop fuel (n ← on_ring (gets m_count); mret (bool_decide (n ≠ 0)%Z)) clear_step)
    (λ _ x', m_map x' = mp ∧ (m_destroy_old x', m_count_max x') = (dst, mx) ∧
      ∃ cur', ring (DList (heap (ring_ x')) tag tag tag cur' 0) [] ([] : list (xval K V)) ∧
      ring_ x' = DList (heap (ring_ x')) tag tag tl cur' 0)
    (XBuf (DList h tag hd tl cur n) mp tmp mx dst liv).
Proof.
  revert h hd cur n ps l. induction fuel as [|fuel IH]; intros h hd cur n ps l Hr Hn Hb Hf; [lia|].
  cbn [while_loop]. xrun. destruct l as [|e l].
  - cbn in Hn. subst n. rewrite bool_decide_false by tauto. apply wp_ret. cbn.
    pose proof (ring_length _ _ _ Hr). destruct ps; [|done].
    pose proof (rg_head _ _ _ Hr) as Hhd. cbn in Hhd. subst hd. split_and!; [done..|].
    exists cur. split; [done|done].
  - destruct ps as [|p ps]; [by apply ring_length in Hr|].
    rewrite bool_decide_true by (cbn [length] in Hn; lia).
    pose proof (ring_facts _ [] _ _ _ Hr) as (? & ? & ? & ? & ? & ? & ? & ? & ? & ?).
    pose proof (ring_tag_facts _ _ _ Hr) as (? & ? & ? & ? & ? & ? & ?).
    pose proof (rg_head _ _ _ Hr) as Hhd. cbn [m_pHead m_pTag heap m_pTail] in *. cbn in Hhd. subst hd.
    unfold clear_step. xrun. cbn [length] in Hn, Hf. rewrite u32_small by lia.
    apply (IH _ _ _ _ ps l); [|lia|lia|lia].
    eapply (ring_unlink _ _ [] _ ps []); [exact Hr|done|done|by left|done|done].
Qed.
End behaviour.

(** ** Properties *)

(** C3: a client of [CExpireBuffer] whose calls all have a meaning on the list
    of entries with unique keys, started on a freshly constructed buffer, sees
    on the map-and-ring structure exactly what that list gives: no freed entry
    is read or written, every loop ends, results, order, map and count agree.
    The calls are all of the class but [clear] (see [expire_clear_breaks]) and
    those that cannot be compiled or linked ([front(TValue&)],
    [front_old(TValue&)], and [front()] and [back()], which have no body).
    A call has no meaning when it moves the cursor after the entry under it was
    freed ([pop] of an entry in the middle, see [expire_pop_leaves_dangling]),
    when it would grow the list to 2^32 entries, and [pop_old] of 2^31 entries. *)
Theorem expire_program_refinement {K V A} `{Countable K} (p : prog A) (tmp : V)
    (mx : Z) (dst : bool) (liv : Z) (r : A) (s : abuf K V) :
  meaning_prog p (ABuf [] (Some None) tmp mx dst liv) = Some (r, s) →
  ∃ x, exec_prog p (create tmp mx dst liv) = Some (r, x) ∧ xrepr x s.
Proof.
  intros Hp. eapply xb_exec_prog_refines in Hp; [|apply create_xrepr].
  apply wp_elim in Hp as (a & x & Hx & -> & Hs). by exists x.
Qed.

(** A buffer with a maximum never holds more entries than that, whatever a
    client does that leaves the maximum alone; and no two entries have the same
    key. *)
Theorem expire_capacity {K V A} `{Countable K} (p : prog A) (tmp : V)
    (mx : Z) (dst : bool) (liv : Z) (r : A) (s : abuf K V) :
  (0 < mx)%Z → fixed_max p → meaning_prog p (ABuf [] (Some None) tmp mx dst liv) = Some (r, s) →
  ∃ x, exec_prog p (create tmp mx dst liv) = Some (r, x) ∧
    (m_count (ring_ x) ≤ mx)%Z ∧ m_count (ring_ x) = Z.of_nat (length (ents s)) ∧
    NoDup (x_key <$> ents s).
Proof.
  intros Hmx Hfx Hp. pose proof Hp as Hw. eapply xb_exec_prog_refines in Hw; [|apply create_xrepr].
  apply wp_elim in Hw as (a & x & Hx & -> & (ps & [_ Hnd _ _ Hn _ _])).
  apply meaning_prog_keeps in Hp as [Hw Hm]; [|exact Hfx|unfold within; cbn; lia]. unfold within in Hw. cbn in Hm.
  exists x. split_and!; [done|lia|done|done].
Qed.

(** [pop_old] on a buffer in refresh order, with the clock at [now] during
    the call: it returns how many entries it removed, these are the oldest
    ones, all of them had expired, and no entry that is left has. *)
Theorem expire_pop_old_complete {K V} `{Countable K} (x : xbuf K V) (s : abuf K V) (now t : Z) :
  xrepr x s → StronglySorted by_age (ents s) → (Z.of_nat (length (ents s)) < 2 ^ 31)%Z →
  ∃ n x' popped s', pop_old (λ _, now) t x = Some (n, x') ∧ xrepr x' s' ∧
    ents s = popped ++ ents s' ∧ n = Z.of_nat (length popped) ∧
    Forall (expired (a_living s) now t) popped ∧
    Forall (λ e, ¬ expired (a_living s) now t e) (ents s').
Proof.
  intros Hx Hs Hb.
  destruct (drop_expired_split (a_living s) now t 0 (ents s)) as (popped & Hl & Hn & Hf & Hr).
  destruct (drop_expired (a_living s) (λ _, now) 0 t (ents s)) as [n l] eqn:Hd. cbn [fst snd] in *.
  pose proof (strongly_sorted_suffix popped l) as Hs'. rewrite <- Hl in Hs'.
  pose proof (sorted_not_expired _ _ _ _ (Hs' Hs) Hr) as Hleft.
  assert (∃ s', a_pop_old (λ _, now) t s = Some (Z.of_nat n, s') ∧ ents s' = l) as (s' & Hp & He).
  { unfold a_pop_old. rewrite Hd. destruct n.
    - destruct popped; [|done]. by exists s.
    - rewrite decide_True; [by eexists|]. rewrite Hl, length_app in Hb. lia. }
  pose proof (pop_old_refines _ _ _ _ _ _ Hx Hp) as Hw.
  apply wp_elim in Hw as (a & x' & Heq & -> & Hx').
  exists (Z.of_nat n), x', popped, s'. rewrite He. by split_and!; subst.
Qed.

(** [clear] does not reset [m_pTail].  On a buffer that was not empty, the
    next [push] links the new entry to the freed tail, and removing that entry
    by key writes through the freed pointer. *)
Theorem expire_clear_breaks {K V} `{Countable K} (x : xbuf K V) (s : abuf K V) now key value :
  xrepr x s → ents s ≠ [] →
  (clear ;; push now key value ;; pop_v key) x = None.
Proof.
  intros Hx Hne. destruct x as [[h tag hd tl cur n] mp tmp mx dst liv].
  pose proof (xrepr_fuel _ _ Hx) as Hfu. destruct Hx as (ps & [Hr _ _ _ Hn Hb _]).
  cbn [ring_ heap m_count] in *.
  pose proof (rg_tail _ _ _ Hr) as Htl. cbn [m_pTail m_pTag] in Htl.
  pose proof (ring_length _ _ _ Hr) as Hlen. pose proof (ring_tag_facts _ _ _ Hr) as (Htag & _).
  assert (tl ≠ tag) as Htlt by (rewrite Htl, pred_of_tag by done; destruct ps; [by destruct (ents s)|done]).
  assert (n ≠ 0)%Z by (destruct (ents s); [done|cbn [length] in *; lia]).
  assert (wp clear (λ _ x', ∃ h' cur', ring (DList h' tag tag tag cur' 0) [] ([] : list (xval K V)) ∧
    x' = XBuf (DList h' tag tag tl cur' 0) ∅ (tmpValue x') mx dst (m_living_time x'))
    (XBuf (DList h tag hd tl cur n) mp tmp mx dst liv)) as Hclear.
  { unfold clear. xrun. eapply wp_mono.
    - eapply clear_loop_spec; [|exact Hn|lia|lia]. subst tl. eapply ring_members; [exact Hr|done..].
    - intros [] [d' mp' tmp' mx' dst' liv'] (Hm & Hconf & cur' & Hr' & Hd'). cbn in *.
      destruct d'. cbn in *. simplify_eq. by exists heap, cur'. }
  apply wp_elim in Hclear as ([] & x1 & Hc & h1 & cur1 & Hr1 & Hx1). rewrite (bind_eq _ _ _ _ _ Hc).
  destruct x1 as [d1 mp1 tmp1 mx1 dst1 liv1]. cbn in Hx1. simplify_eq.
  pose proof (ring_tag_facts _ _ _ Hr1) as (_ & ? & ? & ? & ? & _ & _).
  pose proof (rg_dom _ _ _ Hr1) as Hdom. cbn [heap m_pTag m_pHead m_pTail] in *.
  set (e := new_xval now key value 0).
  assert (wp (push now key value) (λ _ x', ∃ p tmp' liv', p ≠ NULL ∧ p ≠ tag ∧
    x' = XBuf (DList (h_prev tag p (h_next tag p (<[p := Node (Some e) (pred_of tag ps) tag]> h1))) tag p p p 1)
      {[key := p]} tmp' mx dst liv')
    (XBuf (DList h1 tag tag (pred_of tag ps) cur1 0) ∅ tmp1 mx dst liv1)) as Hpush.
  { unfold push. xrun. rewrite decide_False by (rewrite lookup_empty; by intros [? ?]). xrun.
    change (u32 (0 + 1)) with 1%Z.
    assert (p ≠ tag) by (intros ->; done). fold e. xrun.
    exists p, tmp1, liv1. by rewrite insert_empty. }
  apply wp_elim in Hpush as (k & x2 & Hp & p & tmp' & liv' & Hpn & Hpt & ->). rewrite (bind_eq _ _ _ _ _ Hp).
  clear Hc Hp. unfold pop_v. set (h2 := h_prev tag p (h_next tag p _)) in *.
  assert (vl h2 p = Some e ∧ nx h2 p = Some tag ∧ pv h2 p = Some (pred_of tag ps) ∧ p ∈ dom h2 ∧
    dom h2 = {[p; tag]}) as (? & ? & ? & ? & Hdom2).
  { assert (dom h2 = {[p; tag]}) as Hdom2.
    { unfold h2. autorewrite with heap. rewrite dom_insert_L, Hdom. cbn. by rewrite (right_id_L ∅ (∪)). }
    unfold h2 at 1 2 3. autorewrite with heap.
    rewrite !(decide_True (P:=p = p)), !(decide_False (P:=tag = p)) by done.
    split_and!; try done. rewrite Hdom2. apply elem_of_union_l, elem_of_singleton_2. done. }
  assert (tag ∈ dom h2) by (rewrite Hdom2; by apply elem_of_union_r, elem_of_singleton_2).
  assert (pred_of tag ps ∉ dom h2 ∖ {[p]}) as Hfreed.
  { rewrite Hdom2, elem_of_difference, elem_of_union, !elem_of_singleton. naive_solver. }
  clearbody h2.
  apply ub_bind; xrun. rewrite decide_False by lia. apply ub_bind; xrun.
  rewrite lookup_singleton_eq, decide_False by done. do 6 (apply ub_bind; xrun).
  change (u32 (1 - 1)) with 0%Z. do 3 (apply ub_bind; xrun).
  apply ub_fail. unfold on_ring, zoom, set_next, on_alloc. cbn.
  rewrite decide_False; [done|]. autorewrite with heap. by rewrite dom_delete_L.
Qed.

(** [pop] of an entry in the middle leaves the current pointer on the
    freed entry when it was there; the next [next] reads the freed entry. *)
Theorem expire_pop_leaves_dangling {K V} `{Countable K} (x : xbuf K V) (s : abuf K V) i e :
  xrepr x s → acur s = Some (Some i) → ents s !! i = Some e →
  0 < i → S i < length (ents s) → (pop_v (x_key e) ;; next) x = None.
Proof.
  destruct x as [[h tag hd tl cur n] mp tmp mx dst liv]. destruct s as [l c tmp' mx' dst' liv'].
  cbn [acur ents]. intros Hx -> He Hi Hlast. pose proof Hx as (ps & Hat).
  pose proof Hat as [Hr Hk Hm Hc Hn Hb Hconf]. cbn in Hr, Hk, Hm, Hc, Hn, Hb, Hconf.
  assert (mp !! x_key e = Some cur) as Hmk.
  { rewrite Hm. pose proof (take_drop_middle _ _ _ He) as Hl. pose proof (take_drop_middle _ _ _ Hc) as Hps.
    pose proof (ring_length _ _ _ Hr). rewrite <- Hl, <- Hps, kfind_app by (rewrite !length_take; lia).
    rewrite <- Hl, fmap_app, fmap_cons in Hk. apply NoDup_app in Hk as (_ & Hd & _).
    rewrite kfind_None; [cbn; by rewrite decide_True|]. intros Hin. apply (Hd _ Hin). by left. }
  destruct (ring_split _ _ _ _ _ Hr Hc) as (ps1 & ps2 & l1 & v & l2 & -> & -> & Hi1 & Hi2 & Hv & _).
  pose proof (ring_facts _ ps1 cur ps2 _ Hr) as (? & ? & ? & ? & ? & ? & ? & ? & ? & ?).
  pose proof (hr_null _ _ _ (rg_ring _ _ _ Hr)) as Hnull.
  pose proof (ring_length _ _ _ Hr) as Hlen. rewrite !length_app in *. cbn [length heap m_pTag] in *.
  assert (succ_of tag ps2 ≠ tag) by (rewrite succ_of_tag by (intros Hin; apply (ring_tag_nelem _ _ _ Hr); cbn; set_solver); destruct ps2; [cbn in *; lia|done]).
  assert (pred_of tag ps1 ≠ tag) by (rewrite pred_of_tag by (intros Hin; apply (ring_tag_nelem _ _ _ Hr); cbn; set_solver); destruct ps1; [cbn in *; lia|done]).
  assert (cur ≠ NULL) by (intros ->; set_solver).
  apply ub_bind. unfold pop_v. xrun. rewrite Hmk, decide_False by done. xrun.
  unfold next. apply ub_bind; xrun. rewrite u32_small by lia.
  rewrite decide_True by lia. apply ub_bind; xrun. rewrite decide_False by done.
  apply ub_fail. unfold on_ring, zoom, next_of. cbn. autorewrite with heap.
  by rewrite !decide_False, decide_True by done.
Qed.

(** ** Witnesses *)

(** Three pushes at times 100, 101, 102, a refresh of the first, a find of the
    third; capacity 3. *)
Definition demo : prog (K:=Z) (V:=Z) (Z * option Z) :=
  Call (Push 100 1%Z 11%Z) (λ a, Call (Push 101 2%Z 22%Z) (λ _, Call (Push 102 3%Z 33%Z) (λ _,
  Call (Update 103 1%Z 0) (λ _, Call (FindV 3%Z) (λ v, Ret (a, v)))))).
Definition demo_end : abuf Z Z :=
  ABuf [XVal 22 2 101 101 0; XVal 33 3 102 102 0; XVal 11 1 100 103 0]%Z (Some (Some 1)) 0%Z 3%Z true 10%Z.

Lemma expire_program_refinement_witness :
  meaning_prog demo (ABuf [] (Some None) 0%Z 3%Z true 10%Z) = Some ((1%Z, Some 33%Z), demo_end) ∧
  ∃ x, exec_prog demo (create 0%Z 3%Z true 10%Z) = Some ((1%Z, Some 33%Z), x) ∧ xrepr x demo_end.
Proof.
  split; [vm_compute; reflexivity|]. apply (expire_program_refinement demo). vm_compute. reflexivity.
Defined.

Lemma expire_capacity_witness :
  ∃ x, exec_prog demo (create 0%Z 3%Z true 10%Z) = Some ((1%Z, Some 33%Z), x) ∧
    (m_count (ring_ x) ≤ 3)%Z ∧ m_count (ring_ x) = Z.of_nat (length (ents demo_end)) ∧ NoDup (x_key <$> ents demo_end).
Proof. apply (expire_capacity demo 0%Z 3%Z true 10%Z (1%Z, Some 33%Z) demo_end); [lia|by repeat constructor|vm_compute; reflexivity]. Defined.

Lemma demo_end_repr : ∃ x : xbuf Z Z, xrepr x demo_end.
Proof.
  pose proof (xb_exec_prog_refines demo (create 0%Z 3%Z true 10%Z) (ABuf [] (Some None) 0%Z 3%Z true 10%Z)
    (1%Z, Some 33%Z) demo_end (create_xrepr _ _ _ _)) as Hw.
  apply wp_elim in Hw as (a & x & _ & _ & Hx); [by exists x|]. by vm_compute.
Qed.

(** At 112, with a living time of 10, exactly the entry of 101 has expired. *)
Lemma expire_pop_old_complete_witness :
  ∃ (x : xbuf Z Z) n x' popped s', pop_old (λ _, 112%Z) 0 x = Some (n, x') ∧ xrepr x' s' ∧
    ents demo_end = popped ++ ents s' ∧ n = Z.of_nat (length popped) ∧
    Forall (expired 10 112 0) popped ∧ Forall (λ e, ¬ expired 10 112 0 e) (ents s').
Proof.
  destruct demo_end_repr as [x Hx]. exists x.
  apply (expire_pop_old_complete x demo_end 112 0 Hx); [|vm_compute; reflexivity].
  repeat constructor; by vm_compute.
Defined.

Lemma expire_clear_breaks_witness :
  ∃ x : xbuf Z Z, xrepr x demo_end ∧ (clear ;; push 200 7%Z 77%Z ;; pop_v 7%Z) x = None.
Proof.
  destruct demo_end_repr as [x Hx]. exists x. split; [exact Hx|].
  apply (expire_clear_breaks x demo_end 200 7%Z 77%Z Hx). discriminate.
Defined.

Lemma expire_pop_leaves_dangling_witness :
  ∃ x : xbuf Z Z, xrepr x demo_end ∧ (pop_v 3%Z ;; next) x = None.
Proof.
  destruct demo_end_repr as [x Hx]. exists x. split; [exact Hx|].
  apply (expire_pop_leaves_dangling x demo_end 1 (XVal 33 3 102 102 0)%Z Hx eq_refl eq_refl);
    vm_compute; repeat constructor.
Defined.
