(* ===== verification/Fifo.v ===== *)
(** * Message queues ([include/comserv/fifo*.h], [comserv/fifoabstract.C])

    The queues between threads: [AbstractFifo] and its classes [Fifo],
    [FiniteFifo], [TimeLimitFifo], and [SortedFifo].  A member function runs
    under the queue's lock, which only a wait on the condition releases; so a
    call of [getNext] either returns or ends in a wait ([Waits]), and a wake-up
    continues it ([resume]).  Between the two other threads add messages: a run
    ([qrun]) is a sequence of such steps.  A failing [assert] is undefined
    behaviour; a message is a value or a pointer, of any type. *)

From Stdlib Require Import Sorted.
From S2P Require Import Prelude.

(** ** [AbstractFifo] *)
Record fifo (A : Type) := AbstractFifo { mFifo : list A; mSize : Z; mMaxSize : Z }.
Arguments AbstractFifo {A} _ _ _.
Arguments mFifo {A} _.
Arguments mSize {A} _.
Arguments mMaxSize {A} _.

Definition NoSize : Z := 2 ^ 64 - 1.

(** What a consumer waits for: a message, without limit, or (with the argument
    of the wait on the condition) a message or the time [end_]. *)
Inductive waiting := WaitAny | WaitUntil (end_ timeout : Z).
(** A call of [getNext]: it returns a message or a NULL pointer, or waits. *)
Inductive call (A : Type) := Got (x : A) | Nothing | Waits (w : waiting).
Arguments Got {A} _.
Arguments Nothing {A}.
Arguments Waits {A} _.

Section fifo.
Context {A : Type}.
Implicit Types (q : fifo A) (x : A).
Local Abbreviation Q := (M (fifo A)).

(** [mFifo.front()], [pop_front()], and the size. *)
Definition take_first : Q A := λ q,
  match mFifo q with
  | [] => None
  | x :: l => if decide (mSize q = 0)%Z then None else Some (x, AbstractFifo l (u64 (mSize q - 1)) (mMaxSize q))
  end.
(** [getNext()]: the loop up to the next wait. *)
Definition getNext : Q (call A) :=
  l ← gets mFifo;
  match l with [] => mret (Waits WaitAny) | _ => x ← take_first; mret (Got x) end.
(** The loop of [getNext(int ms)]; [now] is [getTimeMs()] of this iteration. *)
Definition wait_loop (end_ now : Z) : Q (call A) :=
  l ← gets mFifo;
  match l with
  | [] => if decide (end_ ≤ now)%Z then mret Nothing else mret (Waits (WaitUntil end_ (u32 (end_ - now))))
  | _ => x ← take_first; mret (Got x)
  end.
Definition getNext_ms (ms begin now : Z) : Q (call A) :=
  if decide (ms = 0)%Z then getNext else wait_loop (u64 (begin + u32 ms)) now.
(** The wait on the condition returned [signaled]. *)
Definition resume (w : waiting) (signaled : bool) (now : Z) : Q (call A) :=
  match w with
  | WaitAny => getNext
  | WaitUntil end_ _ => if signaled then wait_loop end_ now else mret Nothing
  end.

Definition empty_fifo : Q bool := gets (λ q, bool_decide (mSize q = 0)%Z).
Definition size : Q Z := gets (λ q, u32 (mSize q)).
Definition messageAvailable : Q bool :=
  n ← gets mSize; if decide (n = NoSize) then ub else gets (λ q, negb (bool_decide (mFifo q = []))).
Definition getCountDepth : Q Z := gets mSize.

(** ** [Fifo] *)
Definition new_Fifo : fifo A := AbstractFifo [] 0 0.
Definition push (x : A) : Q unit := modify (λ q, AbstractFifo (mFifo q ++ [x]) (u64 (mSize q + 1)) (mMaxSize q)).
Definition add (x : A) : Q unit := push x.
(** [clear()] and the destructor: the messages that are deleted. *)
Definition clear : Q (list A) := l ← gets mFifo; modify (λ q, AbstractFifo [] NoSize (mMaxSize q)) ;; mret l.

(** ** [FiniteFifo] *)
Definition new_FiniteFifo (maxSize : Z) : fifo A := AbstractFifo [] 0 maxSize.
Definition finite_add (x : A) : Q bool := λ q,
  if decide (mMaxSize q ≠ NoSize ∧ mMaxSize q ≤ mSize q)%Z then Some (false, q) else '(_, q) ← push x q; Some (true, q).
Definition finite_destroy : Q (list A) := clear.

(** ** Runs: one consumer, and the other threads *)
Inductive qevent :=
  | QAdd (x : A)
  | QGet
  | QGetMs (ms begin now : Z)
  | QWake (signaled : bool) (now : Z).
Definition qstate : Type := fifo A * option waiting.

(** A call of the consumer leaves it waiting or not; the result is what the
    call returned, if it did. *)
Definition consume (m : Q (call A)) : M qstate (list (call A)) := λ '(q, _),
  '(c, q) ← m q;
  match c with Waits w => Some ([], (q, Some w)) | c => Some ([c], (q, None)) end.
(** A wait on a condition without a time limit does not time out. *)
Definition no_timeout (w : waiting) (signaled : bool) : bool :=
  negb signaled && match w with WaitAny => true | WaitUntil _ timeout => bool_decide (timeout = 0)%Z end.
(** A waiting consumer cannot call, one that does not wait is not woken up. *)
Definition qstep (ev : qevent) : M qstate (list (call A)) := λ s,
  match ev, s.2 with
  | QAdd x, w => '(_, q) ← add x s.1; Some ([], (q, w))
  | QGet, None => consume getNext s
  | QGetMs ms begin now, None => consume (getNext_ms ms begin now) s
  | QWake signaled now, Some w => if no_timeout w signaled then Some ([], s) else consume (resume w signaled now) s
  | _, _ => Some ([], s)
  end.
Fixpoint qrun (evs : list qevent) : M qstate (list (call A)) :=
  match evs with [] => mret [] | ev :: evs => r ← qstep ev; rs ← qrun evs; mret (r ++ rs) end.

Fixpoint added (evs : list qevent) : list A :=
  match evs with [] => [] | QAdd x :: evs => x :: added evs | _ :: evs => added evs end.
Definition got (rs : list (call A)) : list A := omap (λ c, match c with Got x => Some x | _ => None end) rs.

(** ** What the queue guarantees *)
Definition fifo_ok (q : fifo A) : Prop := mSize q = Z.of_nat (length (mFifo q)) ∧ (Z.of_nat (length (mFifo q)) < 2 ^ 64)%Z.

Lemma take_first_ok x l q : fifo_ok q → mFifo q = x :: l →
  take_first q = Some (x, AbstractFifo l (mSize q - 1) (mMaxSize q)) ∧ fifo_ok (AbstractFifo l (mSize q - 1) (mMaxSize q)).
Proof.
  intros [Hn Hb] Hl. unfold take_first, fifo_ok in *. rewrite Hl, Hn in *. cbn [length] in *.
  rewrite decide_False by lia. unfold u64. rewrite Z.mod_small by lia. split; [done|]. cbn. lia.
Qed.
Lemma fifo_getNext_ok q : fifo_ok q →
  match mFifo q with
  | [] => getNext q = Some (Waits WaitAny, q)
  | x :: l => ∃ q', getNext q = Some (Got x, q') ∧ mFifo q' = l ∧ fifo_ok q'
  end.
Proof.
  intros Hq. unfold getNext. destruct (mFifo q) as [|x l] eqn:Hl.
  - erewrite bind_eq by reflexivity. by rewrite Hl.
  - destruct (take_first_ok x l q Hq Hl) as [Ht Hq']. eexists. split; [|split; [|exact Hq']]; [|done].
    erewrite bind_eq by reflexivity. rewrite Hl. by erewrite bind_eq by exact Ht.
Qed.
Lemma wait_loop_ok end_ now q : fifo_ok q →
  match mFifo q with
  | [] => wait_loop end_ now q = Some (if decide (end_ ≤ now)%Z then Nothing else Waits (WaitUntil end_ (u32 (end_ - now))), q)
  | x :: l => ∃ q', wait_loop end_ now q = Some (Got x, q') ∧ mFifo q' = l ∧ fifo_ok q'
  end.
Proof.
  intros Hq. unfold wait_loop. destruct (mFifo q) as [|x l] eqn:Hl.
  - erewrite bind_eq by reflexivity. rewrite Hl. by case_decide.
  - destruct (take_first_ok x l q Hq Hl) as [Ht Hq']. eexists. split; [|split; [|exact Hq']]; [|done].
    erewrite bind_eq by reflexivity. rewrite Hl. by erewrite bind_eq by exact Ht.
Qed.
Lemma push_ok x q : fifo_ok q → (Z.of_nat (length (mFifo q)) < 2 ^ 64 - 1)%Z →
  ∃ q', push x q = Some (tt, q') ∧ mFifo q' = mFifo q ++ [x] ∧ fifo_ok q'.
Proof.
  intros [Hn Hb] Hlt. eexists. split; [reflexivity|]. split; [done|]. unfold fifo_ok. cbn.
  unfold u64. rewrite length_app, Hn, Z.mod_small by lia. cbn. lia.
Qed.
(** A call, or its continuation, takes the first message or leaves the queue. *)
Lemma call_ok (m : Q (call A)) q : fifo_ok q → m = getNext ∨ (∃ e n, m = wait_loop e n) ∨ m = mret Nothing →
  ∃ c q', m q = Some (c, q') ∧ fifo_ok q' ∧ match c with Got x => mFifo q = x :: mFifo q' | _ => q' = q end.
Proof.
  intros Hq [->|[(e & n & ->)| ->]].
  - pose proof (fifo_getNext_ok q Hq) as Hg. destruct (mFifo q) as [|x l] eqn:Hl; [by do 2 eexists|].
    destruct Hg as (q' & Hg & Hl' & Hq'). do 2 eexists. split; [exact Hg|]. by rewrite Hl'.
  - pose proof (wait_loop_ok e n q Hq) as Hg. destruct (mFifo q) as [|x l] eqn:Hl.
    + do 2 eexists. split; [exact Hg|]. split; [done|]. by case_decide.
    + destruct Hg as (q' & Hg & Hl' & Hq'). do 2 eexists. split; [exact Hg|]. by rewrite Hl'.
  - do 2 eexists. split; [reflexivity|]. done.
Qed.
Lemma consume_ok (m : Q (call A)) q w : fifo_ok q → m = getNext ∨ (∃ e n, m = wait_loop e n) ∨ m = mret Nothing →
  ∃ r q' w', consume m (q, w) = Some (r, (q', w')) ∧ fifo_ok q' ∧ mFifo q = got r ++ mFifo q'.
Proof.
  intros Hq Hm. destruct (call_ok m q Hq Hm) as (c & q' & Hc & Hq' & Hl). unfold consume. rewrite Hc. cbn [mbind option_bind].
  destruct c; do 3 eexists; (split; [reflexivity|]); by subst.
Qed.
Lemma resume_form w b now : ∃ m, resume w b now = m ∧ (m = getNext ∨ (∃ e n, m = wait_loop e n) ∨ m = mret Nothing).
Proof. destruct w as [|e t]; [eexists; split; [done|]; by left|]. destruct b; eexists; (split; [done|]); right; [left; by do 2 eexists|by right]. Qed.
Lemma getNext_ms_form ms b n : getNext_ms ms b n = getNext ∨ (∃ e n', getNext_ms ms b n = wait_loop e n') ∨ getNext_ms ms b n = mret Nothing.
Proof. unfold getNext_ms. case_decide; [by left|right; left; by do 2 eexists]. Qed.

Lemma qstep_ok ev q w : fifo_ok q → (Z.of_nat (length (mFifo q)) + Z.of_nat (length (added [ev])) < 2 ^ 64)%Z →
  ∃ r q' w', qstep ev (q, w) = Some (r, (q', w')) ∧ fifo_ok q' ∧ got r ++ mFifo q' = mFifo q ++ added [ev].
Proof.
  intros Hq Hb.
  assert (Hid : ∃ r q' w', Some ([] : list (call A), (q, w)) = Some (r, (q', w')) ∧ fifo_ok q' ∧ got r ++ mFifo q' = mFifo q ++ [])
    by (do 3 eexists; split; [reflexivity|]; by rewrite app_nil_r).
  assert (Hcons : ∀ m w0, m = getNext ∨ (∃ e n, m = wait_loop e n) ∨ m = mret Nothing →
    ∃ r q' w', consume m (q, w0) = Some (r, (q', w')) ∧ fifo_ok q' ∧ got r ++ mFifo q' = mFifo q ++ []).
  { intros m w0 Hm. destruct (consume_ok m q w0 Hq Hm) as (r & q' & w' & Hc & Hq' & Hl). do 3 eexists.
    split; [exact Hc|]. split; [done|]. by rewrite app_nil_r. }
  destruct ev as [x| |ms begin now|b now]; cbn [qstep snd fst added].
  - destruct (push_ok x q Hq) as (q' & Hp & Hl & Hq'); [cbn in Hb; lia|]. unfold add. rewrite Hp. cbn [mbind option_bind].
    do 3 eexists. split; [reflexivity|]. by split.
  - destruct w; [exact Hid|]. apply Hcons. by left.
  - destruct w; [exact Hid|]. apply Hcons, getNext_ms_form.
  - destruct w as [w|]; [|exact Hid]. destruct (resume_form w b now) as (m & Hm & Hf).
    destruct (no_timeout w b); [exact Hid|]. rewrite Hm. by apply Hcons.
Qed.
Lemma qrun_ok evs q w : fifo_ok q → (Z.of_nat (length (mFifo q)) + Z.of_nat (length (added evs)) < 2 ^ 64)%Z →
  ∃ rs q' w', qrun evs (q, w) = Some (rs, (q', w')) ∧ fifo_ok q' ∧ got rs ++ mFifo q' = mFifo q ++ added evs.
Proof.
  revert q w. induction evs as [|ev evs IH]; intros q w Hq Hb; cbn [qrun].
  { do 3 eexists. split; [reflexivity|]. split; [done|]. by rewrite app_nil_r. }
  assert (Ha : added (ev :: evs) = added [ev] ++ added evs) by by destruct ev. rewrite Ha, length_app in Hb.
  destruct (qstep_ok ev q w Hq) as (r & q1 & w1 & Hs & Hq1 & Hl1); [lia|].
  assert (Hlen : length (got r) + length (mFifo q1) = length (mFifo q) + length (added [ev])) by (rewrite <- !length_app; by f_equal).
  destruct (IH q1 w1 Hq1) as (rs & q2 & w2 & Hr & Hq2 & Hl2); [lia|].
  erewrite bind_eq by exact Hs. cbv beta. erewrite bind_eq by exact Hr. do 3 eexists. split; [reflexivity|]. split; [done|].
  rewrite Ha. unfold got in *. rewrite omap_app, <- app_assoc, Hl2, app_assoc, Hl1. by rewrite <- app_assoc.
Qed.
End fifo.

(** ** [TimeLimitFifo]: bounded in number, and in the age of the oldest *)
Inductive DepthUsage := EnforceTimeDepth | IgnoreTimeDepth | InternalElement.
(** The queue holds [Timestamped] messages: a message and the time it came. *)
Record tlfifo (A : Type) := TimeLimitFifo { tl_fifo : fifo (A * Z); mMaxDurationSecs : Z; mUnreservedMaxSize : Z }.
Arguments TimeLimitFifo {A} _ _ _.
Arguments tl_fifo {A} _.
Arguments mMaxDurationSecs {A} _.
Arguments mUnreservedMaxSize {A} _.

Section time_limit.
Context {A : Type}.
Implicit Types (t : tlfifo A) (x : A).

(** [unsigned int]s; the conversions through [int] keep the bits. *)
Definition new_TimeLimitFifo (maxDurationSecs maxSize : Z) : tlfifo A :=
  TimeLimitFifo (AbstractFifo [] 0 maxSize) maxDurationSecs (u32 (maxSize * 8) / 10).
Definition timeDepthInternal (now : Z) (t : tlfifo A) : option Z :=
  match mFifo (tl_fifo t) with [] => None | x :: _ => Some (now - x.2)%Z end.
(** Undefined only where [timeDepthInternal] asserts that the queue is not empty. *)
Definition wouldAcceptInteral (usage : DepthUsage) (now : Z) (t : tlfifo A) : option bool :=
  let n := mSize (tl_fifo t) in let max := mMaxSize (tl_fifo t) in
  if decide (max ≠ 0 ∧ max ≤ n)%Z then Some false else
  match usage with
  | InternalElement => Some true
  | _ =>
      if decide (mUnreservedMaxSize t ≠ 0 ∧ mUnreservedMaxSize t ≤ n)%Z then Some false else
      match usage with
      | IgnoreTimeDepth => Some true
      | _ =>
          if decide (n = 0 ∨ mMaxDurationSecs t = 0)%Z then Some true else
          d ← timeDepthInternal now t; Some (bool_decide (d < mMaxDurationSecs t)%Z)
      end
  end.
Definition wouldAccept (usage : DepthUsage) (now : Z) : M (tlfifo A) bool := λ t,
  b ← wouldAcceptInteral usage now t; Some (b, t).
Definition on_fifo {B} : M (fifo (A * Z)) B → M (tlfifo A) B :=
  zoom tl_fifo (λ q t, TimeLimitFifo q (mMaxDurationSecs t) (mUnreservedMaxSize t)).
(** [add]: [n] is the [time(0)] of the stamp, [now] that of the age. *)
Definition tl_add (x : A) (usage : DepthUsage) (now n : Z) : M (tlfifo A) bool :=
  b ← wouldAccept usage now; if (b : bool) then on_fifo (push (x, n)) ;; mret true else mret false.
Definition unstamp (c : call (A * Z)) : call A :=
  match c with Got x => Got x.1 | Nothing => Nothing | Waits w => Waits w end.
Definition tl_getNext : M (tlfifo A) (call A) := c ← on_fifo getNext; mret (unstamp c).
Definition tl_getNext_ms (ms begin now : Z) : M (tlfifo A) (call A) := c ← on_fifo (getNext_ms ms begin now); mret (unstamp c).
Definition timeDepth (now : Z) : M (tlfifo A) Z := gets (λ t, default 0%Z (timeDepthInternal now t)).
Definition tl_clear : M (tlfifo A) (list A) :=
  l ← gets (λ t, mFifo (tl_fifo t)); on_fifo (modify (λ q, AbstractFifo [] 0 (mMaxSize q))) ;; mret l.*1.

(** A client: messages come, are refused or taken, and the clock goes on. *)
Inductive tlop := TAdd (x : A) (usage : DepthUsage) (now n : Z) | TNext (ms begin now : Z) | TClear.
Definition tlexec (o : tlop) : M (tlfifo A) unit :=
  match o with
  | TAdd x u now n => tl_add x u now n ;; mret tt
  | TNext ms b now => tl_getNext_ms ms b now ;; mret tt
  | TClear => tl_clear ;; mret tt
  end.
Fixpoint tlrun (os : list tlop) : M (tlfifo A) unit :=
  match os with [] => mret tt | o :: os => tlexec o ;; tlrun os end.

(** The number of messages stays within the limit. *)
Definition tl_ok (d m : Z) t : Prop :=
  fifo_ok (tl_fifo t) ∧ mMaxSize (tl_fifo t) = m ∧ mMaxDurationSecs t = d ∧ mUnreservedMaxSize t = (u32 (m * 8) / 10)%Z ∧
  (m ≠ 0 → Z.of_nat (length (mFifo (tl_fifo t))) ≤ m)%Z.

(** Whether a message is taken, by what the queue holds. *)
Definition accepts (m d : Z) (l : list (A * Z)) (u : DepthUsage) (now : Z) : bool :=
  let n := Z.of_nat (length l) in let r := (u32 (m * 8) / 10)%Z in
  ((bool_decide (m = 0) || bool_decide (n < m)) &&
  match u with
  | InternalElement => true
  | IgnoreTimeDepth => bool_decide (r = 0) || bool_decide (n < r)
  | EnforceTimeDepth => (bool_decide (r = 0) || bool_decide (n < r)) &&
      match l with [] => true | x :: _ => bool_decide (d = 0) || bool_decide (now - x.2 < d) end
  end)%Z.
Lemma wouldAccept_ok d m t u now : tl_ok d m t → wouldAcceptInteral u now t = Some (accepts m d (mFifo (tl_fifo t)) u now).
Proof.
  intros ([Hn _] & Hm & Hd & Hr & _). unfold wouldAcceptInteral, accepts, timeDepthInternal. rewrite Hn, Hm, Hd, Hr.
  destruct (mFifo (tl_fifo t)) as [|x l]; destruct u; cbn [length mbind option_bind];
    repeat case_decide; repeat case_bool_decide; cbn [andb orb]; try done; try lia.
Qed.
Lemma tl_add_ok d m t x u now n : tl_ok d m t → (0 ≤ m < 2 ^ 32)%Z → (Z.of_nat (length (mFifo (tl_fifo t))) < 2 ^ 64 - 1)%Z →
  ∃ t', tl_add x u now n t = Some (accepts m d (mFifo (tl_fifo t)) u now, t') ∧ tl_ok d m t' ∧
    mFifo (tl_fifo t') = if accepts m d (mFifo (tl_fifo t)) u now then mFifo (tl_fifo t) ++ [(x, n)] else mFifo (tl_fifo t).
Proof.
  intros Ht Hm Hb. unfold tl_add, wouldAccept.
  erewrite bind_eq by (rewrite (wouldAccept_ok d m t u now Ht); reflexivity). cbv beta.
  destruct (accepts _ _ _ _ _) eqn:Hacc; [|by eexists].
  destruct (push_ok (x, n) _ (proj1 Ht) Hb) as (q' & Hp & Hl & Hq'). destruct Ht as (Hq & Hmax & Hd & Hr & Hcap).
  eexists. unfold on_fifo, zoom. erewrite bind_eq by (rewrite Hp; reflexivity). split; [reflexivity|]. cbn [tl_fifo].
  split; [|done]. split; [done|]. cbn [tl_fifo mMaxDurationSecs mUnreservedMaxSize].
  assert (Hmax' : mMaxSize q' = mMaxSize (tl_fifo t)) by (unfold push, modify in Hp; by injection Hp as <-).
  split_and!; [congruence|done|done|]. intros Hm0. rewrite Hl, length_app. cbn.
  unfold accepts in Hacc. apply andb_true_iff in Hacc as [Hacc _]. apply orb_true_iff in Hacc as [Hacc|Hacc]; apply bool_decide_eq_true in Hacc; lia.
Qed.
Lemma tl_next_ok d m t ms b now : tl_ok d m t →
  ∃ c t', tl_getNext_ms ms b now t = Some (c, t') ∧ tl_ok d m t' ∧ length (mFifo (tl_fifo t')) ≤ length (mFifo (tl_fifo t)).
Proof.
  intros (Hq & Hmax & Hd & Hr & Hcap).
  destruct (call_ok _ _ Hq (getNext_ms_form ms b now)) as (c & q' & Hc & Hq' & Hl).
  assert (Hmax' : mMaxSize q' = mMaxSize (tl_fifo t)).
  { unfold getNext_ms, getNext, wait_loop, gets, take_first, mbind, M_bind, mret, M_ret in Hc.
    repeat (case_decide || case_match); simplify_eq; done. }
  assert (Hlen : length (mFifo q') ≤ length (mFifo (tl_fifo t))) by (destruct c; subst; rewrite ?Hl; cbn; lia).
  do 2 eexists. unfold tl_getNext_ms, on_fifo, zoom. erewrite bind_eq by (rewrite Hc; reflexivity). split; [reflexivity|].
  split; [|exact Hlen]. split; [done|]. cbn [tl_fifo mMaxDurationSecs mUnreservedMaxSize]. split_and!; [congruence|done|done|]. lia.
Qed.
Lemma new_tl_ok d m : (0 ≤ m)%Z → tl_ok d m (new_TimeLimitFifo d m).
Proof. intros Hm. unfold tl_ok, fifo_ok. cbn [new_TimeLimitFifo tl_fifo mFifo mSize mMaxSize mMaxDurationSecs mUnreservedMaxSize length]. split_and!; (done || lia). Qed.
Lemma tlrun_ok d m os t : tl_ok d m t → (0 ≤ m < 2 ^ 32)%Z → (Z.of_nat (length (mFifo (tl_fifo t))) + Z.of_nat (length os) < 2 ^ 64)%Z →
  ∃ t', tlrun os t = Some (tt, t') ∧ tl_ok d m t' ∧ length (mFifo (tl_fifo t')) ≤ length (mFifo (tl_fifo t)) + length os.
Proof.
  intros Ht Hm. revert t Ht. induction os as [|o os IH]; intros t Ht Hb; cbn [tlrun].
  { eexists. split; [reflexivity|]. split; [done|]. cbn [length]. lia. }
  cbn [length] in Hb.
  assert (Ho : ∃ t', tlexec o t = Some (tt, t') ∧ tl_ok d m t' ∧ length (mFifo (tl_fifo t')) ≤ length (mFifo (tl_fifo t)) + 1).
  { destruct o as [x u now n|ms b now|]; cbn [tlexec].
    - destruct (tl_add_ok d m t x u now n Ht Hm) as (t' & He & Ht' & Hl); [lia|]. exists t'.
      erewrite bind_eq by exact He. split; [done|]. split; [done|]. rewrite Hl. case_match; rewrite ?length_app; cbn [length]; lia.
    - destruct (tl_next_ok d m t ms b now Ht) as (c & t' & He & Ht' & Hl). exists t'. erewrite bind_eq by exact He. split; [done|]. split; [done|lia].
    - destruct Ht as (Hq & Hmax & Hd & Hr & Hcap). eexists. split; [reflexivity|].
      split; [|cbn; lia]. unfold tl_ok, fifo_ok. cbn. split_and!; (done || lia). }
  destruct Ho as (t1 & He & Ht1 & Hl1). erewrite bind_eq by exact He. destruct (IH t1 Ht1) as (t2 & Hr & Ht2 & Hl2); [lia|].
  exists t2. split; [exact Hr|]. split; [done|]. cbn [length]. lia.
Qed.
End time_limit.

(** ** [SortedFifo]: a [std::map], whose front is the entry with the least value *)
Section sorted.
Context {V : Type} (lt : V → V → bool).
(** The entries in the order of their keys. *)
Abbreviation maplist := (list (Z * V)).
Fixpoint sorted_add (k : Z) (v : V) (l : maplist) : maplist :=
  match l with
  | [] => [(k, v)]
  | (k', v') :: l' => if decide (k < k')%Z then (k, v) :: l else if decide (k = k') then l else (k', v') :: sorted_add k v l'
  end.
Definition findByKey (k : Z) (l : maplist) : option V := snd <$> (snd <$> list_find (λ e, e.1 = k) l).
Definition deleteByKey (k : Z) (l : maplist) : maplist := filter (λ e, e.1 ≠ k) l.
(** The iteration keeps the first of the least values. *)
Definition getFront (l : maplist) : option V :=
  match l with [] => None | e :: _ => Some (snd (foldl (λ r e, if lt e.2 r.2 then e else r) e l)) end.

(** The front is an entry's value and no other is less. *)
Lemma sorted_front_min l : (∀ a b, lt a b = true → lt b a = false) → (∀ a b c, lt a b = false → lt b c = false → lt a c = false) →
  match getFront l with
  | None => l = []
  | Some v => v ∈ l.*2 ∧ ∀ w, w ∈ l.*2 → lt w v = false
  end.
Proof.
  intros Has Htr. destruct l as [|e l]; [done|]. cbn [getFront].
  assert (Hirr : ∀ a, lt a a = false) by (intros a; destruct (lt a a) eqn:Ha; [by rewrite (Has _ _ Ha) in Ha|done]).
  assert (Hf : ∀ (l : maplist) (r : Z * V), let m := foldl (λ r e, if lt e.2 r.2 then e else r) r l in
    (m.2 = r.2 ∨ m.2 ∈ l.*2) ∧ lt r.2 m.2 = false ∧ ∀ w, w ∈ l.*2 → lt w m.2 = false).
  { clear l e. induction l as [|e l IH]; intros r; cbn [foldl].
    - split_and!; [by left|apply Hirr|by intros w ?%elem_of_nil].
    - destruct (IH (if lt e.2 r.2 then e else r)) as (Hin & Hm & Hw). destruct (lt e.2 r.2) eqn:He.
      + split_and!; [set_solver|by eapply Htr; [apply Has|]|]. intros w [->|Hin']%elem_of_cons; [done|by apply Hw].
      + split_and!; [set_solver|done|]. intros w [->|Hin']%elem_of_cons; [by eapply Htr|by apply Hw]. }
  destruct (Hf (e :: l) e) as (Hin & _ & Hw). split; [|exact Hw]. destruct Hin as [->|Hin]; [by left|exact Hin].
Qed.
(** [add] keeps the entry that is there. *)
Lemma sorted_add_find k v l k' : StronglySorted Z.lt l.*1 →
  StronglySorted Z.lt (sorted_add k v l).*1 ∧
  findByKey k' (sorted_add k v l) = if decide (k' = k) then Some (default v (findByKey k l)) else findByKey k' l.
Proof.
  unfold findByKey. induction l as [|[k1 v1] l IH]; intros Hs; cbn [sorted_add].
  { split; [by repeat constructor|]. cbn. repeat case_decide; by subst. }
  rewrite fmap_cons in Hs. cbn [fst] in Hs. apply StronglySorted_inv in Hs as [Hs Hall].
  assert (Hno : (k < k1)%Z → list_find (λ e, e.1 = k) l = None).
  { intros Hlt. apply list_find_None, Forall_forall. intros e He Heq.
    rewrite Forall_fmap, Forall_forall in Hall. specialize (Hall e He). cbn in Hall. lia. }
  destruct (decide (k < k1)%Z) as [Hlt|Hlt]; [|destruct (decide (k = k1)) as [Heq|Heq]].
  - split; [rewrite !fmap_cons; cbn; repeat constructor; [done|done|lia|by eapply Forall_impl; [exact Hall|]; cbn; lia]|].
    specialize (Hno Hlt). cbn [list_find fst]. rewrite (decide_False (P := k1 = k)) by lia.
    destruct (decide (k' = k)) as [->|Hne].
    + rewrite decide_True by done. rewrite Hno. done.
    + rewrite (decide_False (P := k = k')) by done. case_decide; [done|]. by destruct (list_find _ l) as [[? ?]|].
  - subst. split; [by rewrite fmap_cons; constructor|]. cbn [list_find fst]. rewrite (decide_True (P := k1 = k1)) by done.
    destruct (decide (k' = k1)) as [->|Hne]; [by rewrite decide_True|]. done.
  - destruct (IH Hs) as [IHs IHf]. split.
    + rewrite fmap_cons. cbn [fst]. constructor; [done|]. clear IH IHs IHf Hs Hno.
      induction l as [|[k2 v2] l IH]; cbn [sorted_add].
      * cbn. repeat constructor. lia.
      * rewrite fmap_cons in Hall. cbn [fst] in Hall. apply Forall_cons in Hall as [H2 Hall].
        destruct (decide (k < k2)%Z); [|destruct (decide (k = k2))]; rewrite !fmap_cons; cbn [fst]; repeat apply Forall_cons_2;
          first [done|lia|by apply IH].
    + assert (Hsnd : ∀ o : option (nat * (Z * V)), snd <$> (snd <$> (prod_map S id <$> o)) = snd <$> (snd <$> o)) by (by intros [[? ?]|]).
      cbn [list_find fst]. rewrite (decide_False (P := k1 = k)) by lia. rewrite Hsnd.
      destruct (decide (k1 = k')) as [<-|Hk1]; [by rewrite decide_False by lia|]. rewrite !Hsnd. exact IHf.
Qed.
End sorted.

(** ** Properties *)

(** C27: one consumer and any number of producers.  Whatever the order of
    additions, calls with and without time limit, wake-ups and timeouts (fewer
    than 2^64 messages in all), no assertion fails, and the messages returned,
    followed by those still queued, are those that were added, in that order:
    none is lost, none comes twice. *)
Theorem fifo_in_order {A} (evs : list (qevent (A:=A))) : (Z.of_nat (length (added evs)) < 2 ^ 64)%Z →
  ∃ rs q w, qrun evs (new_Fifo, None) = Some (rs, (q, w)) ∧ got rs ++ mFifo q = added evs ∧
    mSize q = Z.of_nat (length (mFifo q)).
Proof.
  intros Hb. destruct (qrun_ok evs new_Fifo None) as (rs & q & w & Hr & [Hn _] & Hl); [by split|cbn; lia|].
  by exists rs, q, w.
Qed.

Lemma no_add_app {A} (e : qevent (A:=A)) evs : added (e :: evs) = [] → added [e] = [] ∧ added evs = [].
Proof. destruct e; cbn; try done; by intros. Qed.
(** [getNext(0)] does not poll: on an empty queue it waits without limit,
    and no passing of time and no spurious wake-up ends it, only a message
    does.  With any other limit the call ends at the first wake-up at or after
    its time, or when the wait times out. *)
Theorem fifo_zero_waits {A} (q : fifo A) (ms begin now : Z) : mFifo q = [] →
  (∀ evs, added evs = [] → qrun (QGetMs 0 begin now :: evs) (q, None) = Some ([], (q, Some WaitAny))) ∧
  (ms ≠ 0%Z → ∀ b now', (b = false ∨ u64 (begin + u32 ms) ≤ now')%Z →
     getNext_ms ms begin now q = Some (Nothing, q) ∨
     ∃ t, getNext_ms ms begin now q = Some (Waits (WaitUntil (u64 (begin + u32 ms)) t), q) ∧
       resume (WaitUntil (u64 (begin + u32 ms)) t) b now' q = Some (Nothing, q)).
Proof.
  intros Hq. split.
  - intros evs Ha.
    assert (Hw : ∀ evs, added evs = [] → qrun evs (q, Some WaitAny) = Some ([], (q, Some WaitAny))).
    { clear evs Ha. induction evs as [|ev evs IH]; intros Ha; [done|]. apply no_add_app in Ha as [Ha1 Ha2]. cbn [qrun].
      assert (Hs : qstep ev (q, Some WaitAny) = Some ([], (q, Some WaitAny))).
      { destruct ev as [x| |? ? ?|[] n]; [done|done|done| |done]. cbn [qstep snd fst resume no_timeout negb andb]. unfold consume, getNext, gets, mbind, M_bind.
        by rewrite Hq. }
      erewrite bind_eq by exact Hs. cbv beta. by erewrite bind_eq by (by apply IH). }
    cbn [qrun]. assert (Hs : qstep (QGetMs 0 begin now) (q, None) = Some ([], (q, Some WaitAny))).
    { cbn [qstep snd fst]. unfold consume, getNext_ms, getNext, gets, mbind, M_bind. rewrite decide_True by done. by rewrite Hq. }
    erewrite bind_eq by exact Hs. cbv beta. by erewrite bind_eq by (by apply Hw).
  - intros Hms b now' Hb. unfold getNext_ms. rewrite decide_False by done.
    assert (Hw : ∀ e n, wait_loop e n q = Some (if decide (e ≤ n)%Z then Nothing else Waits (WaitUntil e (u32 (e - n))), q)).
    { intros e n. unfold wait_loop. erewrite bind_eq by reflexivity. rewrite Hq. by case_decide. }
    rewrite Hw. case_decide; [by left|right]. eexists. split; [reflexivity|]. destruct b; [|done]. cbn [resume].
    rewrite Hw, decide_True; [done|]. by destruct Hb.
Qed.

(** A [TimeLimitFifo] never holds more than its limit, whatever is added,
    taken and cleared; and it takes a message exactly when the three rules say
    so - room, room outside the reserve, and the oldest young enough - leaving
    the queue alone when it refuses. *)
Theorem time_limit_capacity {A} (d m : Z) (os : list (tlop (A:=A))) : (0 ≤ m < 2 ^ 32)%Z → (Z.of_nat (length os) < 2 ^ 64 - 1)%Z →
  ∃ t, tlrun os (new_TimeLimitFifo d m) = Some (tt, t) ∧ (m ≠ 0 → Z.of_nat (length (mFifo (tl_fifo t))) ≤ m)%Z ∧
    ∀ x u now n, ∃ t', tl_add x u now n t = Some (accepts m d (mFifo (tl_fifo t)) u now, t') ∧
      mFifo (tl_fifo t') = if accepts m d (mFifo (tl_fifo t)) u now then mFifo (tl_fifo t) ++ [(x, n)] else mFifo (tl_fifo t).
Proof.
  intros Hm Hb. destruct (tlrun_ok d m os _ (new_tl_ok d m ltac:(lia)) Hm) as (t & Hr & Ht & Hl); [cbn in *; lia|].
  exists t. split; [done|]. split; [apply Ht|]. intros x u now n. destruct (tl_add_ok d m t x u now n Ht Hm) as (t' & Ha & _ & Hl'); [cbn in Hl; lia|].
  by exists t'.
Qed.
(** The reserve of four fifths is computed with 32 bits: a limit of one
    message, and a limit of 2^29, leave none for the reserve to guard. *)
Lemma time_limit_no_reserve {A} d : mUnreservedMaxSize (new_TimeLimitFifo (A:=A) d 1) = 0%Z ∧ mUnreservedMaxSize (new_TimeLimitFifo (A:=A) d (2 ^ 29)) = 0%Z.
Proof. by vm_compute. Qed.

(** ** Witnesses *)
Definition demo_events : list (qevent (A:=Z)) :=
  [QGetMs 1000 50 50; QAdd 7; QAdd 8; QWake true 60; QGet; QGet; QWake false 99; QAdd 9]%Z.
Lemma fifo_in_order_witness :
  ∃ rs q w, qrun demo_events (new_Fifo, None) = Some (rs, (q, w)) ∧ got rs ++ mFifo q = added demo_events ∧
    mSize q = Z.of_nat (length (mFifo q)).
Proof. apply (fifo_in_order demo_events). by vm_compute. Defined.
Lemma fifo_zero_waits_witness :
  qrun [QGetMs 0 50 50; QWake true 100; QWake false 2000]%Z (new_Fifo (A:=Z), None) = Some ([], (new_Fifo, Some WaitAny)).
Proof. apply (fifo_zero_waits (A:=Z) new_Fifo 1 50 50 eq_refl). reflexivity. Defined.
Definition demo_tl_ops : list (tlop (A:=Z)) :=
  [TAdd 1 EnforceTimeDepth 10 10; TAdd 2 EnforceTimeDepth 14 14; TAdd 3 EnforceTimeDepth 40 40; TAdd 4 InternalElement 40 40; TAdd 5 InternalElement 40 40]%Z.
Lemma time_limit_capacity_witness :
  ∃ t, tlrun demo_tl_ops (new_TimeLimitFifo 5 3) = Some (tt, t) ∧ (3%Z ≠ 0%Z → Z.of_nat (length (mFifo (tl_fifo t))) ≤ 3)%Z.
Proof. destruct (time_limit_capacity 5 3 demo_tl_ops) as (t & Hr & Hc & _); [lia|by vm_compute|by exists t]. Defined.
