(* ===== verification/Command.v ===== *)
(** * Words of a command ([CStr::split(CStr*, int)], [comserv/comtypedef_vchar.C])

    The management commands that an event carries ([eventInfo]) are taken apart
    by [split]: words between blanks and tabs, with quotes and backslashes.  The
    text is the string's content, behind it the terminating 0 and nothing else;
    the array is the caller's.  [None] is a read behind the terminator or a
    write behind the array.  The theorem is about the array: [split] does not
    look at its argument [maxArgc]. *)

From S2P Require Import Prelude.

Definition MaxArgC : nat := 20.
(** [buffer[i]] *)
Definition char_at (b : bytes) (i : nat) : option Z := if decide (i = length b) then Some 0%Z else b !! i.
Definition is_blank (c : Z) : bool := bool_decide (c = 32 ∨ c = 9)%Z.

Fixpoint skip_blanks (fuel : nat) (b : bytes) (i : nat) : option nat :=
  match fuel with
  | O => None
  | S fuel => c ← char_at b i; if is_blank c then skip_blanks fuel b (S i) else Some i
  end.
(** The loop over one word; [w] is the [CStr] of the array it is appended to. *)
Fixpoint take_word (fuel : nat) (b : bytes) (quoted : bool) (i : nat) (w : bytes) : option (nat * bool * bytes) :=
  match fuel with
  | O => None
  | S fuel =>
      c ← char_at b i;
      if (quoted || negb (is_blank c)) && negb (bool_decide (c = 0%Z)) then
        let '(quoted, i) := if decide (c = 39)%Z then (negb quoted, S i) else (quoted, i) in
        c ← char_at b i;
        let i := if decide (c = 92)%Z then S i else i in
        c ← char_at b i;
        take_word fuel b quoted (S i) (w ++ [c])
      else Some (i, quoted, w)
  end.
(** The outer loop: [argc] words are in the array. *)
Fixpoint split_from (fuel : nat) (b : bytes) (quoted : bool) (i argc : nat) (argv : list bytes) : option (nat * list bytes) :=
  match fuel with
  | O => None
  | S fuel =>
      c ← char_at b i;
      if decide (c = 0)%Z then Some (argc, argv) else
      i ← skip_blanks (S (length b)) b i;
      c ← char_at b i;
      if decide (c = 0)%Z then split_from fuel b quoted i argc argv else
      a ← argv !! argc;
      '(i, quoted, a) ← take_word (S (length b)) b quoted i a;
      let argv := <[argc := a]> argv in let argc := S argc in
      if decide (MaxArgC ≤ argc) then Some (argc, argv) else split_from fuel b quoted i argc argv
  end.
Definition cs_split (b : bytes) (argv : list bytes) : option (nat * list bytes) :=
  split_from (S (S (length b))) b false 0 0 argv.

(** ** The words of a plain text *)
(** Without quotes, backslashes and zeros. *)
Definition plain (b : bytes) : Prop := Forall (λ c, c ≠ 0 ∧ c ≠ 39 ∧ c ≠ 92)%Z b.
Fixpoint word_of (b : bytes) : bytes :=
  match b with [] => [] | c :: b => if is_blank c then [] else c :: word_of b end.
Fixpoint after_word (b : bytes) : bytes :=
  match b with [] => [] | c :: b' => if is_blank c then b else after_word b' end.
Fixpoint unblank (b : bytes) : bytes :=
  match b with [] => [] | c :: b' => if is_blank c then unblank b' else b end.
Fixpoint words_n (n : nat) (b : bytes) : list bytes :=
  match n with
  | O => []
  | S n => match unblank b with [] => [] | b' => word_of b' :: words_n n (after_word b') end
  end.
Definition words (b : bytes) : list bytes := words_n (length b) b.

Lemma word_after b : word_of b ++ after_word b = b.
Proof. induction b as [|c b IH]; cbn; [done|]. destruct (is_blank c); cbn; [done|]. by f_equal. Qed.
Lemma unblank_spec b : ∃ p, b = p ++ unblank b ∧ match unblank b with [] => True | c :: _ => is_blank c = false end.
Proof.
  induction b as [|c b (p & Hb & Hu)]; cbn; [by exists []|]. destruct (is_blank c) eqn:Hc; [|by exists []].
  exists (c :: p). split; [cbn; by f_equal|done].
Qed.
Lemma after_word_length c b : is_blank c = false → length (after_word (c :: b)) ≤ length b.
Proof.
  intros Hc. pose proof (word_after (c :: b)) as Hw. apply (f_equal length) in Hw. rewrite length_app in Hw. cbn in *. rewrite Hc in *. cbn in *. lia.
Qed.
Lemma words_n_enough n b : length b ≤ n → words_n n b = words b.
Proof.
  unfold words. remember (length b) as k eqn:Hk. assert (Hle : length b ≤ k) by lia. clear Hk. revert n b Hle.
  induction k as [|k IH]; intros n b Hb Hn.
  { destruct b; [|cbn in Hb; lia]. by destruct n. }
  destruct n as [|n]; [lia|]. cbn [words_n]. destruct (unblank_spec b) as (p & Hp & Hu).
  destruct (unblank b) as [|c u]; [done|]. f_equal. pose proof (after_word_length c u Hu) as Hl.
  assert (S (length u) ≤ length b) by (rewrite Hp, length_app; cbn; lia). apply IH; lia.
Qed.
Lemma words_eq b : words b = match unblank b with [] => [] | b' => word_of b' :: words (after_word b') end.
Proof.
  unfold words at 1. destruct (unblank_spec b) as (p & Hp & Hu). destruct (length b) as [|n] eqn:Hn.
  { by destruct b. }
  cbn [words_n]. destruct (unblank b) as [|c u]; [done|]. f_equal. apply words_n_enough.
  pose proof (after_word_length c u Hu). apply (f_equal length) in Hp. rewrite length_app in Hp. cbn in *. lia.
Qed.

Lemma char_at_pre x y : char_at (x ++ y) (length x) = Some (default 0%Z (head y)).
Proof.
  unfold char_at. destruct y as [|c y]; cbn.
  - by rewrite app_nil_r, decide_True.
  - rewrite length_app. cbn. rewrite decide_False by lia. by rewrite list_lookup_middle.
Qed.
Lemma skip_ok x y fuel : length y < fuel → skip_blanks fuel (x ++ y) (length x) = Some (length x + (length y - length (unblank y))).
Proof.
  revert x fuel. induction y as [|c y IH]; intros x fuel Hf; destruct fuel as [|fuel]; cbn in Hf; try lia; cbn [skip_blanks]; rewrite char_at_pre; cbn [head from_option id mbind option_bind].
  - unfold is_blank. rewrite bool_decide_false by lia. f_equal. cbn. lia.
  - cbn [unblank]. destruct (is_blank c) eqn:Hc; [|f_equal; cbn; lia].
    replace (x ++ c :: y) with ((x ++ [c]) ++ y) by by rewrite <- app_assoc.
    replace (S (length x)) with (length (x ++ [c])) by (rewrite length_app; cbn; lia).
    rewrite IH by (cbn in Hf; lia). f_equal. rewrite length_app. cbn [length]. destruct (unblank_spec y) as (p & Hp & _). apply (f_equal length) in Hp.
    rewrite length_app in Hp. lia.
Qed.
Lemma take_ok x y w fuel : plain y → length y < fuel →
  take_word fuel (x ++ y) false (length x) w = Some (length x + length (word_of y), false, w ++ word_of y).
Proof.
  revert x w fuel. induction y as [|c y IH]; intros x w fuel Hp Hf; destruct fuel as [|fuel]; cbn in Hf; try lia; cbn [take_word]; rewrite char_at_pre; cbn [head from_option id mbind option_bind orb].
  - rewrite (bool_decide_true (0 = 0)%Z) by done. rewrite andb_false_r. cbn. by rewrite app_nil_r, Nat.add_0_r.
  - apply Forall_cons in Hp as [(H0 & H39 & H92) Hp]. cbn [word_of].
    destruct (is_blank c) eqn:Hc; cbn [negb andb]; [cbn; by rewrite app_nil_r, Nat.add_0_r|].
    rewrite bool_decide_false by done. cbn [negb]. rewrite decide_False by done. rewrite char_at_pre. cbn [head from_option id mbind option_bind].
    rewrite decide_False by done. rewrite char_at_pre. cbn [head from_option id mbind option_bind].
    replace (x ++ c :: y) with ((x ++ [c]) ++ y) by by rewrite <- app_assoc.
    replace (S (length x)) with (length (x ++ [c])) by (rewrite length_app; cbn; lia).
    rewrite IH by (done || lia). rewrite length_app, <- app_assoc. cbn. by rewrite <- Nat.add_assoc.
Qed.

Lemma plain_app_r x y : plain (x ++ y) → plain y.
Proof. unfold plain. rewrite Forall_app. tauto. Qed.
Lemma split_from_S fuel b quoted i argc argv : split_from (S fuel) b quoted i argc argv =
  c ← char_at b i;
  if decide (c = 0)%Z then Some (argc, argv) else
  i ← skip_blanks (S (length b)) b i;
  c ← char_at b i;
  if decide (c = 0)%Z then split_from fuel b quoted i argc argv else
  a ← argv !! argc;
  '(i, quoted, a) ← take_word (S (length b)) b quoted i a;
  let argv := <[argc := a]> argv in let argc := S argc in
  if decide (MaxArgC ≤ argc) then Some (argc, argv) else split_from fuel b quoted i argc argv.
Proof. done. Qed.
(** The loop, with the words already taken in front of free places. *)
Lemma words_from_ok fuel x y done_ m : plain y → length y < fuel → length done_ + m < MaxArgC →
  split_from (S fuel) (x ++ y) false (length x) (length done_) (done_ ++ replicate m []) =
  if decide (length (words y) ≤ m) then Some (length done_ + length (words y), done_ ++ words y ++ replicate (m - length (words y)) []) else None.
Proof.
  revert x y done_ m. induction fuel as [|fuel IH]; intros x y dn m Hp Hf Hm; [lia|].
  rewrite split_from_S, char_at_pre. cbn [mbind option_bind]. rewrite (words_eq y).
  destruct y as [|c y]; cbn [head from_option id].
  { rewrite decide_True by done. cbn. by rewrite Nat.add_0_r, Nat.sub_0_r. }
  pose proof (Forall_inv Hp) as (H0 & _). rewrite decide_False by done.
  rewrite (skip_ok x (c :: y)) by (rewrite length_app; cbn; lia). cbn [mbind option_bind].
  destruct (unblank_spec (c :: y)) as (p & Hsp & Hu). set (u := unblank (c :: y)) in *. clearbody u. rewrite Hsp in *.
  apply plain_app_r in Hp. rewrite length_app in Hf. rewrite app_assoc.
  replace (length x + (length (p ++ u) - length u)) with (length (x ++ p)) by (rewrite !length_app; lia).
  rewrite char_at_pre. cbn [mbind option_bind]. destruct u as [|d u]; cbn [head from_option id].
  { rewrite decide_True by done. destruct fuel as [|fuel]; [cbn in Hsp; destruct p; cbn in Hf, Hsp; [done|lia]|].
    rewrite split_from_S, char_at_pre. cbn [head from_option id mbind option_bind length]. rewrite decide_True by done.
    rewrite decide_True by lia. by rewrite Nat.add_0_r, Nat.sub_0_r. }
  pose proof (Forall_inv Hp) as (Hd0 & _). rewrite decide_False by done.
  destruct m as [|m].
  { rewrite app_nil_r, lookup_ge_None_2 by lia. cbn [mbind option_bind]. rewrite decide_False by (cbn; lia). done. }
  cbn [replicate]. rewrite list_lookup_middle by done. cbn [mbind option_bind].
  rewrite (take_ok (x ++ p) (d :: u)) by (done || (rewrite !length_app; cbn; lia)). cbn [mbind option_bind].
  set (w := word_of (d :: u)). rewrite decide_False by lia.
  replace (<[length dn := [] ++ w]> (dn ++ [] :: replicate m [])) with ((dn ++ [w]) ++ replicate m [])
    by (rewrite <- (Nat.add_0_r (length dn)), insert_app_r, <- app_assoc; done).
  pose proof (word_after (d :: u)) as Hw. fold w in Hw. set (v := after_word (d :: u)) in *.
  assert (Hv : length v ≤ length u) by (by apply after_word_length). clearbody v w.
  rewrite <- Hw, app_assoc. replace (length (x ++ p) + length w) with (length ((x ++ p) ++ w)) by by rewrite length_app.
  replace (S (length dn)) with (length (dn ++ [w])) by (rewrite length_app; cbn; lia).
  cbn [length] in Hf.
  rewrite IH; [|rewrite <- Hw in Hp; by apply plain_app_r in Hp|lia|rewrite length_app; cbn; lia].
  rewrite length_app, <- app_assoc. cbn [length app].
  destruct (decide (length (words v) ≤ m)); [rewrite decide_True by lia|by rewrite decide_False by lia]. do 2 f_equal. lia.
Qed.

(** ** Property *)

(** C30: a plain text in an array of [n] places, fewer than [MaxArgC]: up to [n]
    words are put there in order; with one word more, whatever the caller said
    the array's size is, [split] writes behind the array. *)
Theorem split_overruns b n : plain b → n < MaxArgC →
  cs_split b (replicate n []) =
  if decide (length (words b) ≤ n) then Some (length (words b), words b ++ replicate (n - length (words b)) []) else None.
Proof.
  intros Hp Hn. unfold cs_split.
  pose proof (words_from_ok (S (length b)) [] b [] n Hp ltac:(lia) Hn) as Hs. exact Hs.
Qed.
(** A quote at the end of the text makes the loop read past its end. *)
Lemma split_quote_overreads : cs_split [97; 39]%Z (replicate 5 []) = None.
Proof. by vm_compute. Qed.

(** "set loglevel DEBUG" fits in five places, six words do not. *)
Definition six_words : bytes := [97; 32; 98; 32; 99; 32; 100; 32; 101; 32; 102]%Z.
Lemma split_overruns_witness : cs_split six_words (replicate 5 []) = None ∧ length (words six_words) = 6.
Proof.
  split; [|by vm_compute]. rewrite (split_overruns six_words 5); [by vm_compute| |unfold MaxArgC; lia].
  repeat constructor; lia.
Defined.
