(* ===== verification/UniMsg.v ===== *)
(** * [TUniNetMsg] ([include/msg/msgdef.h], [msg/msgdef_com.C], [msg/msghelper_com.C])

    The message every task exchanges: addresses, dialog and message types, an
    option set that says which of cseq, transaction id, control header and body
    are present, and the COM header and the helpers the transaction layer of
    [TransState.v] uses.  Messages are values: every [new TUniNetMsg(r)] of the
    code is a deep copy ([clone()] of header and body).  Reading through a NULL
    header or body, reading [argv] out of its five slots, and casting a header
    of another class to [TComMsgHdr] are undefined behaviour ([None]). *)

From S2P Require Import Prelude.

(** ** Data *)

(** [STuple] *)
Record STuple := Tuple { taskType : Z; taskID : Z; instID : Z }.
Record TMsgAddress := Addr { logAddr : Z; phyAddr : Z; taskInstID : Z }.
#[export] Instance TMsgAddress_eq_dec : EqDecision TMsgAddress.
Proof. solve_decision. Defined.

Definition MAX_MSG_ARGV_NUM : nat := 5.
Definition COM_MESSAGE_REQ : Z := 100.
Definition COM_MESSAGE_RSP : Z := 101.
Definition COM_MESSAGE_TMP : Z := 102.

(** The COM control header; [h_optionSet] and [orgAddr] are [TCtrlMsg]'s. *)
Record TComMsgHdr := ComHdr {
  h_optionSet : Z; orgAddr : TMsgAddress;
  status : Z; pri : Z; facility : Z; argc : Z; argv : list bytes }.

Definition new_TComMsgHdr : TComMsgHdr :=
  ComHdr 0 (Addr 0 0 0) 0 0 0 0 (replicate MAX_MSG_ARGV_NUM []).

(** A [PTCtrlMsg] that is not NULL: the COM header, or a header of another
    class of [msg/], which the code modelled here only carries and clones. *)
Inductive TCtrlMsg :=
  | CtrlCom (h : TComMsgHdr)
  | CtrlOther (class : N) (content : bytes).
Inductive TMsgBody :=
  | BodyCom (info : bytes)
  | BodyOther (class : N) (content : bytes).

(** [cseq] is not initialised by the default constructor. *)
Record TUniNetMsg := UniNetMsg {
  sender : STuple;
  optionSet : Z;
  oAddr : TMsgAddress; tAddr : TMsgAddress;
  dialogType : Z; msgName : Z; msgType : Z;
  transID : bytes;
  cseq : option Z;
  ctrlMsgHdr : option TCtrlMsg;
  msgBody : option TMsgBody;
}.

Definition ctrlMsgHdr_flag : Z := 1.
Definition msgBody_flag : Z := 2.
Definition cseq_flag : Z := 4.
Definition transid_flag : Z := 8.

(** [TMsg::TMsg()] and [TUniNetMsg::TUniNetMsg()]; [objtype_Invalid] is 0. *)
Definition new_TUniNetMsg : TUniNetMsg :=
  UniNetMsg (Tuple 0 0 0) 0 (Addr 0 0 0) (Addr 0 0 0) 1 0 1 [] None None None.

Definition flagged (flag : Z) (m : TUniNetMsg) : bool :=
  bool_decide (Z.land (optionSet m) flag ≠ 0)%Z.
Definition hasCSeq := flagged cseq_flag.
Definition hasTransId := flagged transid_flag.
Definition hasCtrlMsgHdr := flagged ctrlMsgHdr_flag.
Definition hasMsgBody := flagged msgBody_flag.

Definition with_flag (flag : Z) (m : TUniNetMsg) : TUniNetMsg :=
  UniNetMsg (sender m) (Z.lor (optionSet m) flag) (oAddr m) (tAddr m) (dialogType m)
    (msgName m) (msgType m) (transID m) (cseq m) (ctrlMsgHdr m) (msgBody m).

(** [getCSeq()]: undefined when the flag is set and the member never was. *)
Definition getCSeq (m : TUniNetMsg) : option Z := if hasCSeq m then cseq m else Some 0%Z.
Definition setCSeq (seq : Z) (m : TUniNetMsg) : TUniNetMsg :=
  with_flag cseq_flag
    (UniNetMsg (sender m) (optionSet m) (oAddr m) (tAddr m) (dialogType m)
       (msgName m) (msgType m) (transID m) (Some seq) (ctrlMsgHdr m) (msgBody m)).

(** [setTransId(CStr&)]: its guard [tid.size()] is the encoded size, four
    bytes of length and the content, so it never is zero. *)
Definition CStr_size (s : bytes) : Z := (4 + Z.of_nat (length s))%Z.
Definition setTransId (tid : bytes) (m : TUniNetMsg) : TUniNetMsg :=
  if decide (CStr_size tid ≠ 0)%Z then
    with_flag transid_flag
      (UniNetMsg (sender m) (optionSet m) (oAddr m) (tAddr m) (dialogType m)
         (msgName m) (msgType m) tid (cseq m) (ctrlMsgHdr m) (msgBody m))
  else m.

Definition put_hdr (c : option TCtrlMsg) (m : TUniNetMsg) : TUniNetMsg :=
  UniNetMsg (sender m) (optionSet m) (oAddr m) (tAddr m) (dialogType m)
    (msgName m) (msgType m) (transID m) (cseq m) c (msgBody m).
Definition put_body (b : option TMsgBody) (m : TUniNetMsg) : TUniNetMsg :=
  UniNetMsg (sender m) (optionSet m) (oAddr m) (tAddr m) (dialogType m)
    (msgName m) (msgType m) (transID m) (cseq m) (ctrlMsgHdr m) b.
Definition setCtrlMsgHdr (c : option TCtrlMsg) (m : TUniNetMsg) : TUniNetMsg :=
  match c with None => m | Some _ => with_flag ctrlMsgHdr_flag (put_hdr c m) end.
Definition setMsgBody (b : option TMsgBody) (m : TUniNetMsg) : TUniNetMsg :=
  match b with None => m | Some _ => with_flag msgBody_flag (put_body b m) end.
Definition getCtrlMsgHdr (m : TUniNetMsg) : option TCtrlMsg :=
  if hasCtrlMsgHdr m then ctrlMsgHdr m else None.
Definition getMsgBody (m : TUniNetMsg) : option TMsgBody :=
  if hasMsgBody m then msgBody m else None.

(** ** Copies *)

(** [for(int i=0;i<argc;i++) dst[i]=src[i]] over arrays of five. *)
Definition copy_argv (n : Z) (src dst : list bytes) : option (list bytes) :=
  if decide (n ≤ Z.of_nat MAX_MSG_ARGV_NUM)%Z
  then Some (take (Z.to_nat n) src ++ drop (Z.to_nat n) dst) else None.

Definition TComMsgHdr_clone (h : TComMsgHdr) : option TComMsgHdr :=
  v ← copy_argv (argc h) (argv h) (argv new_TComMsgHdr);
  Some (ComHdr (h_optionSet h) (orgAddr h) (status h) (pri h) (facility h) (argc h) v).

(** [TComMsgHdr::operator=]: the base class's members are not assigned. *)
Definition TComMsgHdr_assign (dst r : TComMsgHdr) : option TComMsgHdr :=
  v ← copy_argv (argc r) (argv r) (argv dst);
  Some (ComHdr (h_optionSet dst) (orgAddr dst) (status r) (pri r) (facility r) (argc r) v).

Definition clone_hdr (c : TCtrlMsg) : option TCtrlMsg :=
  match c with CtrlCom h => CtrlCom <$> TComMsgHdr_clone h | CtrlOther _ _ => Some c end.

(** [TUniNetMsg(const TUniNetMsg &r)] *)
Definition copy_msg (r : TUniNetMsg) : option TUniNetMsg :=
  h ← (if hasCtrlMsgHdr r then Some <$> (c ← ctrlMsgHdr r; clone_hdr c) else Some None);
  b ← (if hasMsgBody r then Some <$> msgBody r else Some None);
  Some (put_hdr h (put_body b r)).

(** [operator=]: unlike the constructor it tests the pointers of [r]; a flag
    whose pointer is NULL is copied as such. *)
Definition assign_msg (r : TUniNetMsg) : option TUniNetMsg :=
  h ← (if hasCtrlMsgHdr r then
         match ctrlMsgHdr r with Some c => Some <$> clone_hdr c | None => Some None end
       else Some None);
  Some (put_hdr h (put_body (if hasMsgBody r then msgBody r else None) r)).
(** [m = m]: header and body are deleted before they are read. *)
Definition assign_self (m : TUniNetMsg) : TUniNetMsg := put_hdr None (put_body None m).

(** ** COM helpers *)

Definition getComMsgCtrlHdr (m : TUniNetMsg) : option TComMsgHdr :=
  if hasCtrlMsgHdr m then
    match ctrlMsgHdr m with Some (CtrlCom h) => Some h | _ => None end
  else None.
Definition getComMsgBody (m : TUniNetMsg) : option bytes :=
  if hasMsgBody m then
    match msgBody m with Some (BodyCom i) => Some i | _ => None end
  else None.

(** [dynamic_cast<TComMsgHdr*>(unimsg->ctrlMsgHdr)], whatever the flag says. *)
Definition getComMsgPri (m : TUniNetMsg) : Z :=
  match ctrlMsgHdr m with Some (CtrlCom h) => pri h | _ => 0%Z end.

Definition addMsgBody (m : TUniNetMsg) (info : bytes) : TUniNetMsg :=
  with_flag msgBody_flag (put_body (Some (BodyCom info)) m).
Definition addCtrlMsgHdr (m : TUniNetMsg) (st pr fa : Z) : TUniNetMsg :=
  with_flag ctrlMsgHdr_flag (put_hdr (Some (CtrlCom
    (ComHdr 0 (Addr 0 0 0) st pr fa 0 (replicate MAX_MSG_ARGV_NUM [])))) m).

Definition set_status (code : Z) (h : TComMsgHdr) : TComMsgHdr :=
  ComHdr (h_optionSet h) (orgAddr h) code (pri h) (facility h) (argc h) (argv h).

(** [genComMsgResp]: the C-style cast of the header is undefined on NULL and on
    a header of another class. *)
Definition genComMsgResp (m : TUniNetMsg) (code : Z) : option TUniNetMsg :=
  let r := UniNetMsg (Tuple 0 0 0) 0 (tAddr m) (oAddr m) (dialogType m)
             (if decide (code = 100)%Z then COM_MESSAGE_TMP else COM_MESSAGE_RSP)
             (msgType m) [] None None None in
  r ← (if hasCSeq m then n ← getCSeq m; Some (setCSeq n r) else Some r);
  let r := if hasTransId m then setTransId (transID m) r else r in
  if hasCtrlMsgHdr m then
    match getCtrlMsgHdr m with
    | Some (CtrlCom h) =>
        h' ← TComMsgHdr_assign new_TComMsgHdr h;
        Some (setCtrlMsgHdr (Some (CtrlCom (set_status code h'))) r)
    | _ => None
    end
  else Some r.

(** ** Well-formed COM messages

    Every flag has its member, the header is a COM header and its argument
    count fits: what [COMMsgHelper] and the decoders build. *)
Definition hdr_ok (c : option TCtrlMsg) : bool :=
  match c with
  | Some (CtrlCom h) => bool_decide (argc h ≤ 5)%Z && bool_decide (length (argv h) = 5)
  | _ => false
  end.
Definition msg_ok (m : TUniNetMsg) : bool :=
  implb (hasCSeq m) (bool_decide (is_Some (cseq m))) &&
  implb (hasCtrlMsgHdr m) (hdr_ok (ctrlMsgHdr m)) &&
  implb (hasMsgBody m) (bool_decide (is_Some (msgBody m))).

(** What a reader of a message can see: absent parts and the arguments past
    [argc] are not part of it. *)
Definition live_args (h : TComMsgHdr) : list bytes := take (Z.to_nat (argc h)) (argv h).
Definition same_hdr (h h' : TComMsgHdr) : Prop :=
  h_optionSet h = h_optionSet h' ∧ orgAddr h = orgAddr h' ∧ status h = status h' ∧
  pri h = pri h' ∧ facility h = facility h' ∧ argc h = argc h' ∧ live_args h = live_args h'.
Definition same_ctrl (c c' : option TCtrlMsg) : Prop :=
  match c, c' with
  | Some (CtrlCom h), Some (CtrlCom h') => same_hdr h h'
  | c, c' => c = c'
  end.
Record same_msg (m m' : TUniNetMsg) : Prop := {
  sm_sender : sender m = sender m';
  sm_options : optionSet m = optionSet m';
  sm_addrs : oAddr m = oAddr m' ∧ tAddr m = tAddr m';
  sm_kind : dialogType m = dialogType m' ∧ msgName m = msgName m' ∧ msgType m = msgType m';
  sm_ids : transID m = transID m' ∧ cseq m = cseq m';
  sm_hdr : same_ctrl (getCtrlMsgHdr m) (getCtrlMsgHdr m');
  sm_body : getMsgBody m = getMsgBody m';
}.

#[export] Instance same_ctrl_equiv : Equivalence same_ctrl.
Proof.
  split.
  - intros [[]|]; simpl; done.
  - intros [[]|] [[]|]; simpl; unfold same_hdr; naive_solver.
  - intros [[]|] [[]|] [[]|]; simpl; unfold same_hdr; naive_solver congruence.
Qed.

#[export] Instance same_msg_equiv : Equivalence same_msg.
Proof.
  split.
  - intros m. split; split_and?; done.
  - intros m m' []; split; split_and?; naive_solver.
  - intros m1 m2 m3 [] []; split; split_and?; try (etrans; naive_solver); naive_solver congruence.
Qed.

(** ** Copies *)
Lemma copy_argv_ok n src dst : (n ≤ 5)%Z → length src = 5 → length dst = 5 →
  ∃ v, copy_argv n src dst = Some v ∧ length v = 5 ∧
       take (Z.to_nat n) v = take (Z.to_nat n) src.
Proof.
  intros Hn Hs Hd. unfold copy_argv, MAX_MSG_ARGV_NUM.
  rewrite decide_True by lia. eexists. split; [done|].
  assert (Z.to_nat n ≤ 5) by lia.
  rewrite length_app, length_take, length_drop. split; [lia|].
  rewrite take_app_le by (rewrite length_take; lia). by rewrite take_take, Nat.min_id.
Qed.

Lemma clone_hdr_ok c : hdr_ok (Some c) = true →
  ∃ c', clone_hdr c = Some c' ∧ hdr_ok (Some c') = true ∧ same_ctrl (Some c) (Some c').
Proof.
  destruct c as [h|]; [|done]. simpl.
  intros [Hn%bool_decide_eq_true Hl%bool_decide_eq_true]%andb_true_iff.
  unfold TComMsgHdr_clone.
  destruct (copy_argv_ok (argc h) (argv h) (argv new_TComMsgHdr)) as (v & -> & Hv & Ht); [done..|].
  simpl. eexists. split; [done|]. simpl. rewrite !bool_decide_true by done.
  split; [done|]. unfold same_hdr, live_args. simpl. naive_solver.
Qed.

(** A well-formed message can be copied, and the copy is well formed and shows
    its readers the same. *)
Lemma copy_msg_ok m : msg_ok m = true →
  ∃ m', copy_msg m = Some m' ∧ msg_ok m' = true ∧ same_msg m m'.
Proof.
  unfold msg_ok. rewrite !andb_true_iff. intros [[Hc Hh] Hb].
  assert (∃ b, (if hasMsgBody m then Some <$> msgBody m else Some None) = Some b ∧
     implb (hasMsgBody m) (bool_decide (is_Some b)) = true ∧
     (hasMsgBody m = true → b = msgBody m)) as (b & Eb & Hb' & Hbm).
  { destruct (hasMsgBody m); [|by exists None]. destruct (msgBody m); [|done].
    eexists. split; [done|]. by simpl. }
  assert (∃ c, (if hasCtrlMsgHdr m then Some <$> (c ← ctrlMsgHdr m; clone_hdr c) else Some None)
      = Some c ∧ implb (hasCtrlMsgHdr m) (hdr_ok c) = true ∧
     (hasCtrlMsgHdr m = true → same_ctrl (ctrlMsgHdr m) c)) as (c & Ec & Hc' & Hcm).
  { destruct (hasCtrlMsgHdr m); [|by exists None]. destruct (ctrlMsgHdr m) as [c|]; [|done].
    destruct (clone_hdr_ok c Hh) as (c' & Ec & ? & ?). simpl. rewrite Ec.
    exists (Some c'). simpl in *. by split_and!. }
  unfold copy_msg. rewrite Ec. simpl. rewrite Eb. simpl.
  eexists. split; [done|]. split; [by rewrite !andb_true_iff|].
  unfold getCtrlMsgHdr, getMsgBody.
  split; try (split_and?; done); unfold getCtrlMsgHdr, getMsgBody.
  - change (hasCtrlMsgHdr (put_hdr c (put_body b m))) with (hasCtrlMsgHdr m).
    destruct (hasCtrlMsgHdr m); [|done]. by apply Hcm.
  - change (hasMsgBody (put_hdr c (put_body b m))) with (hasMsgBody m).
    destruct (hasMsgBody m); [|done]. simpl. by rewrite Hbm.
Qed.

(** ** Responses *)

Record answers (m r : TUniNetMsg) (code : Z) : Prop := {
  an_addrs : oAddr r = tAddr m ∧ tAddr r = oAddr m;
  an_kind : dialogType r = dialogType m ∧ msgType r = msgType m;
  an_name : msgName r = if decide (code = 100)%Z then COM_MESSAGE_TMP else COM_MESSAGE_RSP;
  an_cseq : hasCSeq r = hasCSeq m ∧ (hasCSeq m = true → cseq r = cseq m);
  an_transid : hasTransId r = hasTransId m ∧ (hasTransId m = true → transID r = transID m);
  an_hdr : hasCtrlMsgHdr r = hasCtrlMsgHdr m ∧
    ∀ h, getCtrlMsgHdr m = Some (CtrlCom h) → ∃ h', getCtrlMsgHdr r = Some (CtrlCom h') ∧
      status h' = code ∧ pri h' = pri h ∧ facility h' = facility h ∧ argc h' = argc h ∧
      live_args h' = live_args h ∧ h_optionSet h' = 0%Z ∧ orgAddr h' = Addr 0 0 0;
  an_body : getMsgBody r = None;
}.

Lemma assign_new_ok h : hdr_ok (Some (CtrlCom h)) = true →
  ∃ h', TComMsgHdr_assign new_TComMsgHdr h = Some h' ∧
    (bool_decide (argc h' ≤ 5)%Z && bool_decide (length (argv h') = 5)) = true ∧
    pri h' = pri h ∧ facility h' = facility h ∧ argc h' = argc h ∧
    live_args h' = live_args h ∧ h_optionSet h' = 0%Z ∧ orgAddr h' = Addr 0 0 0.
Proof.
  simpl. intros [Hn%bool_decide_eq_true Hl%bool_decide_eq_true]%andb_true_iff.
  unfold TComMsgHdr_assign.
  destruct (copy_argv_ok (argc h) (argv h) (argv new_TComMsgHdr)) as (v & -> & Hv & Ht); [done..|].
  simpl. eexists. split; [done|]. simpl. rewrite !bool_decide_true by done. done.
Qed.

Lemma setTransId_eq tid m : setTransId tid m =
  with_flag transid_flag
    (UniNetMsg (sender m) (optionSet m) (oAddr m) (tAddr m) (dialogType m)
       (msgName m) (msgType m) tid (cseq m) (ctrlMsgHdr m) (msgBody m)).
Proof. unfold setTransId, CStr_size. rewrite decide_True by lia. done. Qed.

Lemma genComMsgResp_ok m code : msg_ok m = true →
  ∃ r, genComMsgResp m code = Some r ∧ msg_ok r = true ∧ answers m r code.
Proof.
  unfold msg_ok. rewrite !andb_true_iff. intros [[Hc Hh] _].
  unfold genComMsgResp, getCSeq.
  destruct (hasCSeq m) eqn:Ecs; [destruct (cseq m) as [n|] eqn:Ecn; [|done]|].
  all: destruct (hasTransId m) eqn:Etr, (hasCtrlMsgHdr m) eqn:Ech; simpl.
  all: assert (Hg : getCtrlMsgHdr m = if hasCtrlMsgHdr m then ctrlMsgHdr m else None) by done;
    rewrite Ech in Hg.
  all: try (destruct (ctrlMsgHdr m) as [[h|]|]; try done; rewrite Hg;
    destruct (assign_new_ok h Hh) as (h' & -> & Hok & H1 & H2 & H3 & H4 & H5 & H6); simpl).
  all: rewrite ?setTransId_eq; eexists; split; [done|]; split;
    [first [done | unfold msg_ok; cbn; rewrite Hok; done]|].
  all: split; split_and?; try done.
  all: try (intros h0 Hh0; rewrite Hg in Hh0; simplify_eq).
  all: try (eexists; split; [done|]; by split_and!).
  all: rewrite ?Ecs, ?Etr, ?Ech; try done.
  all: rewrite ?Ecn; try done.
Qed.

(** ** Properties *)

(** Copying a well-formed message gives a well-formed message its readers
    cannot tell from the original, and copying again does not change that. *)
Theorem msg_copy_faithful (m : TUniNetMsg) : msg_ok m = true →
  ∃ m' m'', copy_msg m = Some m' ∧ same_msg m m' ∧ copy_msg m' = Some m'' ∧ same_msg m m''.
Proof.
  intros Hm. destruct (copy_msg_ok m Hm) as (m' & Hc & Hm' & Hs).
  destruct (copy_msg_ok m' Hm') as (m'' & Hc' & _ & Hs'). exists m', m''. split_and!; try done.
  by rewrite <- Hs'.
Qed.

(** [genComMsgResp] of a well-formed message is defined; the answer goes
    back where the message came from, keeps its cseq, transaction id and header
    arguments, has the given status, and answering the answer addresses the
    original sender again. *)
Theorem com_response_answers (m : TUniNetMsg) (code : Z) : msg_ok m = true →
  ∃ r, genComMsgResp m code = Some r ∧ msg_ok r = true ∧ answers m r code ∧
    ∃ r2, genComMsgResp r code = Some r2 ∧ oAddr r2 = oAddr m ∧ tAddr r2 = tAddr m.
Proof.
  intros Hm. destruct (genComMsgResp_ok m code Hm) as (r & Hr & Hok & Ha).
  destruct (genComMsgResp_ok r code Hok) as (r2 & Hr2 & _ & Ha2).
  exists r. split_and!; try done. exists r2. destruct (an_addrs _ _ _ Ha), (an_addrs _ _ _ Ha2).
  split_and!; congruence.
Qed.

(** Assigning a message to itself deletes its header and body before they
    are read: whenever it had one of them, the copy is no longer well formed
    and the next copy of it reads through NULL. *)
Theorem msg_self_assign_loses (m : TUniNetMsg) :
  hasCtrlMsgHdr m = true ∨ hasMsgBody m = true →
  msg_ok (assign_self m) = false ∧ copy_msg (assign_self m) = None.
Proof.
  intros Hf. unfold msg_ok, copy_msg.
  change (hasCtrlMsgHdr (assign_self m)) with (hasCtrlMsgHdr m).
  change (hasMsgBody (assign_self m)) with (hasMsgBody m). cbn.
  destruct (hasCtrlMsgHdr m), (hasMsgBody m); cbn; rewrite ?andb_false_r, ?andb_true_r; try done.
  all: by destruct Hf.
Qed.

(** ** Witnesses *)
Definition sample_msg : TUniNetMsg :=
  addMsgBody (addCtrlMsgHdr (setTransId [65%Z] (setCSeq 7
    (UniNetMsg (Tuple 0 0 0) 0 (Addr 1 2 3) (Addr 4 5 6) 1 COM_MESSAGE_REQ 10 [] None None None))) 0 1 0) [104%Z].

Lemma msg_copy_faithful_witness : msg_ok sample_msg = true ∧ ∃ m', copy_msg sample_msg = Some m'.
Proof.
  split; [by vm_compute|].
  destruct (msg_copy_faithful sample_msg) as (m' & _ & Hc & _); [by vm_compute|by exists m'].
Defined.
Lemma com_response_answers_witness :
  ∃ r, genComMsgResp sample_msg 408 = Some r ∧ oAddr r = Addr 4 5 6 ∧ transID r = [65%Z].
Proof.
  destruct (com_response_answers sample_msg 408) as (r & Hr & _ & Ha & _); [by vm_compute|].
  exists r. destruct (an_addrs _ _ _ Ha) as [-> _], (an_transid _ _ _ Ha) as [_ ->]; by vm_compute.
Defined.
Lemma msg_self_assign_loses_witness : copy_msg (assign_self sample_msg) = None.
Proof. apply (msg_self_assign_loses sample_msg). by left. Defined.
