(* ===== verification/TransState.v ===== *)
(** * One transaction ([TTransState], [transport/transstate.C], [include/transport/transstate.h])

    The transaction layer keeps one automaton per transaction id: a client
    (sending) one re-sends its request until the peer answers, a server
    (receiving) one filters repeated requests and re-sends its response.  The
    automaton is modelled branch by branch over its object and a timer service;
    [TransMachine.v] puts the automata into the expiring buffer. *)

From S2P Require Import Prelude UniMsg.

(** ** Data *)
Inductive TS_TRANSSTATE := TS_INIT | TS_FORWARD | TS_TEMPORARY | TS_TERMINATED.
Inductive TS_CODE := TSC_NULL | TSC_FORWARD | TSC_REFUSE | TSC_TIMEOUT | TSC_RESEND.
#[export] Instance TS_TRANSSTATE_eq_dec : EqDecision TS_TRANSSTATE.
Proof. solve_decision. Defined.
#[export] Instance TS_CODE_eq_dec : EqDecision TS_CODE.
Proof. solve_decision. Defined.

(** The numeric value of a state, which [state()] comparisons use. *)
Definition ts_num (s : TS_TRANSSTATE) : Z :=
  match s with TS_INIT => 0 | TS_FORWARD => 1 | TS_TEMPORARY => 2 | TS_TERMINATED => 3 end.

(** [msg = None] is NULL; [needrsp] is not initialised by the constructor;
    [timer = 0] is "no timer". *)
Record TTransState := TransState {
  tssend : bool;
  msg : option TUniNetMsg;
  tsstate : TS_TRANSSTATE;
  tschange_from : TS_TRANSSTATE;
  tschange : bool;
  timer : Z;
  tcseq : Z;
  ttransID : bytes;
  needrsp : option Z;
}.

Definition new_TTransState (type : bool) (transid : bytes) : TTransState :=
  TransState type None TS_INIT TS_INIT false 0 0 transid None.

Definition set_msg x (s : TTransState) : TTransState := TransState (tssend s) x (tsstate s) (tschange_from s) (tschange s)
  (timer s) (tcseq s) (ttransID s) (needrsp s).
Definition set_tsstate x (s : TTransState) : TTransState := TransState (tssend s) (msg s) x (tschange_from s) (tschange s)
  (timer s) (tcseq s) (ttransID s) (needrsp s).
Definition set_tschange_from x (s : TTransState) : TTransState := TransState (tssend s) (msg s) (tsstate s) x (tschange s)
  (timer s) (tcseq s) (ttransID s) (needrsp s).
Definition set_tschange x (s : TTransState) : TTransState := TransState (tssend s) (msg s) (tsstate s) (tschange_from s) x
  (timer s) (tcseq s) (ttransID s) (needrsp s).
Definition set_timer_ x (s : TTransState) : TTransState := TransState (tssend s) (msg s) (tsstate s) (tschange_from s) (tschange s)
  x (tcseq s) (ttransID s) (needrsp s).
Definition set_tcseq x (s : TTransState) : TTransState := TransState (tssend s) (msg s) (tsstate s) (tschange_from s) (tschange s)
  (timer s) x (ttransID s) (needrsp s).
Definition set_needrsp x (s : TTransState) : TTransState := TransState (tssend s) (msg s) (tsstate s) (tschange_from s) (tschange s)
  (timer s) (tcseq s) (ttransID s) x.

(** [CStr::str()]: a fresh copy, NULL for the empty string. *)
Definition CStr_str (s : bytes) : option bytes := if decide (s = []) then None else Some s.

(** What [strlen] and the copies see of a buffer. *)
Fixpoint c_string (b : bytes) : bytes :=
  match b with [] => [] | c :: b => if decide (c = 0)%Z then [] else c :: c_string b end.

(** ** The timer service a transaction machine promises (its two pure virtual
    functions) *)
Class ResendTimer (T : Type) := {
  setResendTimer : option bytes → T → Z * T;
  delResendTimer : Z → T → T;
  (* a timer runs out: the service takes its key off and queues a timeout message *)
  runs_out : Z → T → T;
  (* the service's own view, for the laws: keys still running, last key given *)
  pending : T → gset Z;
  serial : T → Z;
}.

(** The promise of the service, as the kernel's timer queue keeps it: keys are
    positive and never reused (until the 32-bit key counter wraps), and
    deleting a key leaves the others alone. *)
Class ResendTimerLaws (T : Type) `{ResendTimer T} : Prop := {
  pending_range : ∀ (t : T) k, k ∈ pending t → (0 < k ≤ serial t)%Z;
  serial_nonneg : ∀ t : T, (0 ≤ serial t)%Z;
  set_fresh : ∀ (t : T) id, (serial t < 2 ^ 32 - 1)%Z →
    let '(k, t') := setResendTimer id t in
    k = (serial t + 1)%Z ∧ serial t' = k ∧ pending t' = {[k]} ∪ pending t;
  del_pending : ∀ (t : T) k,
    pending (delResendTimer k t) = pending t ∖ {[k]} ∧ serial (delResendTimer k t) = serial t;
  out_pending : ∀ (t : T) k,
    pending (runs_out k t) = pending t ∖ {[k]} ∧ serial (runs_out k t) = serial t;
}.

Section automaton.
Context {T : Type} `{ResendTimer T}.
Implicit Types (s : TTransState) (t : T).

Local Abbreviation A := (M (TTransState * T)).

Definition get {X} (f : TTransState → X) : A X := gets (λ w, f w.1).
Definition put (f : TTransState → TTransState) : A unit := modify (λ w, (f w.1, w.2)).
Definition timer_on : A unit := λ w,
  let '(k, t') := setResendTimer (CStr_str (ttransID w.1)) w.2 in Some (tt, (set_timer_ k w.1, t')).
Definition timer_del (k : Z) : A unit := modify (λ w, (w.1, delResendTimer k w.2)).

(** [if(timer) { mTask->delResendTimer(timer); timer=0; }] *)
Definition drop_timer : A unit :=
  k ← get timer;
  if decide (k ≠ 0)%Z then timer_del k ;; put (set_timer_ 0%Z) else mret tt.
(** [if(msg) { delete msg; msg=NULL; }] *)
Definition drop_msg : A unit :=
  m ← get msg; match m with Some _ => put (set_msg None) | None => mret tt end.
(** [tschange=TRUE; tschange_from=tsstate; tsstate=to;] *)
Definition go (to : TS_TRANSSTATE) : A unit :=
  put (set_tschange true) ;; from ← get tsstate; put (set_tschange_from from) ;;
  put (set_tsstate to).
(** [new TUniNetMsg] of a message: its copy constructor. *)
Definition dup (m : TUniNetMsg) : A TUniNetMsg := defined (copy_msg m).
(** [if(unimsg->hasCSeq()) cseq=unimsg->getCSeq();] *)
Definition take_cseq (m : TUniNetMsg) : A unit :=
  if hasCSeq m then n ← defined (getCSeq m); put (set_tcseq (i32 n)) else mret tt.
Definition read_needrsp : A bool :=
  r ← get needrsp; r ← defined r; mret (bool_decide (r ≠ 0)%Z).

(** The destructor. *)
Definition TTransState_destroy : A unit :=
  k ← get timer; (if decide (k ≠ 0)%Z then timer_del k else mret tt) ;;
  m ← get msg; match m with Some _ => put (set_msg None) | None => mret tt end.

(** The result and what is written to [resp], if anything. *)
Definition outcome : Type := TS_CODE * option TUniNetMsg.
Definition null : A outcome := mret (TSC_NULL, None).

Definition TSClient_CHANGE (unimsg : option TUniNetMsg) : A outcome :=
  match unimsg with
  | None => null
  | Some m =>
    st ← get tsstate;
    put (set_tschange false) ;;
    match st with
    | TS_INIT =>
        if decide (msgName m = COM_MESSAGE_REQ) then
          c ← dup m; put (set_msg (Some c)) ;;
          timer_on ;;
          put (set_needrsp (Some (u32 (getComMsgPri m)))) ;;
          go TS_FORWARD ;;
          take_cseq m ;;
          mret (TSC_FORWARD, None)
        else null
    | TS_FORWARD =>
        if decide (msgName m = COM_MESSAGE_RSP) then
          drop_timer ;; drop_msg ;; go TS_TERMINATED ;; mret (TSC_FORWARD, None)
        else if decide (msgName m = COM_MESSAGE_TMP) then
          drop_timer ;; drop_msg ;;
          put (set_tschange true) ;; from ← get tsstate; put (set_tschange_from from) ;;
          need ← read_needrsp;
          put (set_tsstate (if (need : bool) then TS_TEMPORARY else TS_TERMINATED)) ;;
          null
        else null
    | TS_TEMPORARY =>
        if decide (msgName m = COM_MESSAGE_RSP) then
          r ← defined (genComMsgResp m 100); go TS_TERMINATED ;; mret (TSC_FORWARD, Some r)
        else null
    | TS_TERMINATED =>
        if decide (msgName m = COM_MESSAGE_RSP) then
          r ← defined (genComMsgResp m 100); mret (TSC_REFUSE, Some r)
        else null
    end
  end.

Definition TSServer_CHANGE (unimsg : option TUniNetMsg) : A outcome :=
  match unimsg with
  | None => null
  | Some m =>
    st ← get tsstate;
    put (set_tschange false) ;;
    match st with
    | TS_INIT =>
        if decide (msgName m = COM_MESSAGE_REQ) then
          put (set_needrsp (Some (u32 (getComMsgPri m)))) ;;
          take_cseq m ;;
          put (set_tschange true) ;; from ← get tsstate; put (set_tschange_from from) ;;
          need ← read_needrsp;
          if (need : bool) then put (set_tsstate TS_FORWARD) ;; mret (TSC_FORWARD, None)
          else
            put (set_tsstate TS_TERMINATED) ;;
            r ← defined (genComMsgResp m 100); mret (TSC_FORWARD, Some r)
        else null
    | TS_FORWARD =>
        if decide (msgName m = COM_MESSAGE_REQ) then
          go TS_TEMPORARY ;;
          r ← defined (genComMsgResp m 100); mret (TSC_REFUSE, Some r)
        else if decide (msgName m = COM_MESSAGE_RSP) then
          drop_msg ;; c ← dup m; put (set_msg (Some c)) ;;
          go TS_TERMINATED ;; mret (TSC_FORWARD, None)
        else null
    | TS_TEMPORARY =>
        if decide (msgName m = COM_MESSAGE_RSP) then
          drop_msg ;; c ← dup m; put (set_msg (Some c)) ;;
          timer_on ;;
          go TS_TERMINATED ;; mret (TSC_FORWARD, None)
        else if decide (msgName m = COM_MESSAGE_REQ) then
          r ← defined (genComMsgResp m 100); mret (TSC_REFUSE, Some r)
        else null
    | TS_TERMINATED =>
        if decide (msgName m = COM_MESSAGE_REQ) then
          held ← get msg;
          match held with
          | Some h => c ← dup h; mret (TSC_REFUSE, Some c)
          | None =>
              need ← read_needrsp;
              if (need : bool) then null
              else r ← defined (genComMsgResp m 100); mret (TSC_REFUSE, Some r)
          end
        else if decide (msgName m = COM_MESSAGE_TMP) then
          k ← get timer;
          (if decide (k ≠ 0)%Z then timer_del k else mret tt) ;;
          put (set_timer_ 0%Z) ;; null
        else null
    end
  end.

(** [TS_CHANGE(TUniNetMsg*, TUniNetMsg*&)] *)
Definition TS_CHANGE (unimsg : option TUniNetMsg) : A outcome :=
  send ← get tssend;
  if (send : bool) then TSClient_CHANGE unimsg else TSServer_CHANGE unimsg.

(** [TS_CHANGE(TTimerKey, TUniNetMsg*&)]; [TTimerKey] is unsigned.  The
    [TS_TERMINATED] case of a client falls through to [TSC_NULL]. *)
Definition TS_CHANGE_timer (key : Z) : A outcome :=
  k ← get timer;
  if decide (0 < key ∧ k = key)%Z then
    st ← get tsstate; send ← get tssend;
    match st, (send : bool) with
    | TS_FORWARD, true | TS_TERMINATED, false =>
        held ← get msg;
        r ← match held with Some h => c ← dup h; mret (Some c) | None => mret None end;
        timer_on ;; mret (TSC_RESEND, r)
    | _, _ => null
    end
  else null.
End automaton.

(** ** Running the automaton *)

(** Symbolic execution: the object is a constructor application, every branch
    condition is analysed, and what was written is read back. *)
Ltac ts_unfold :=
  unfold TS_CHANGE, TS_CHANGE_timer, TSClient_CHANGE, TSServer_CHANGE, null, dup, take_cseq,
    read_needrsp, go, drop_msg, drop_timer, timer_on, timer_del, get, put, defined, gets, modify,
    mbind, M_bind, mret, M_ret, ub in *.
Ltac ts_step1 :=
  match goal with
  | H : context [match setResendTimer ?i ?t with _ => _ end] |- _ =>
      let E := fresh "Eset" in destruct (setResendTimer i t) as [??] eqn:E
  | H : context [match ?x with _ => _ end] |- _ =>
      lazymatch x with context [match _ with _ => _ end] => fail | _ => idtac end;
      let E := fresh "E" in destruct x eqn:E
  end.
Ltac ts_cases :=
  ts_unfold;
  repeat (cbn [fst snd tssend msg tsstate tschange_from tschange timer tcseq ttransID needrsp
               set_msg set_tsstate set_tschange_from set_tschange set_timer_ set_tcseq
               set_needrsp] in *;
          first [discriminate | ts_step1]);
  simplify_eq.

Section trace.
Context {T : Type} `{ResendTimer T}.
Implicit Types (s : TTransState) (t : T).

(** What one input may do to the automaton: the role and the id never change,
    the state only moves on, requests are forwarded on leaving [TS_INIT] and
    responses on entering [TS_TERMINATED]. *)
Lemma TS_CHANGE_moves m s t c r s' t' :
  TS_CHANGE m (s, t) = Some ((c, r), (s', t')) →
  tssend s' = tssend s ∧ ttransID s' = ttransID s ∧
  (ts_num (tsstate s) ≤ ts_num (tsstate s'))%Z ∧
  (c = TSC_FORWARD → ∃ m', m = Some m' ∧
     (msgName m' = COM_MESSAGE_REQ ∧ tsstate s = TS_INIT ∧ tsstate s' ≠ TS_INIT ∨
      msgName m' = COM_MESSAGE_RSP ∧ (0 < ts_num (tsstate s) < 3)%Z ∧ tsstate s' = TS_TERMINATED)) ∧
  (tsstate s = TS_INIT → tsstate s' ≠ TS_INIT →
     c = TSC_FORWARD ∧ ∃ m', m = Some m' ∧ msgName m' = COM_MESSAGE_REQ) ∧
  c ≠ TSC_RESEND ∧ c ≠ TSC_TIMEOUT.
Proof.
  destruct s as [snd' mg st frm ch tm cq tid need].
  intros Hrun. ts_cases; simpl in *.
  all: split_and!; try done.
  all: try (intros _ _; split; [done|]; by eexists).
  all: intros _; eexists; split; [done|]; first [left; by split_and!|right; split_and!; try done].
Qed.
End trace.

(** ** The invariant of the automaton *)

(** A client keeps a copy of its request exactly while it waits for the first
    answer; a server keeps its response once it has one; the timer only runs
    next to a kept message. *)
Definition held (s : TTransState) : Prop := ∃ m, msg s = Some m ∧ msg_ok m = true.
Definition idle (s : TTransState) : Prop := msg s = None ∧ timer s = 0%Z.
Definition ts_inv (s : TTransState) : Prop :=
  match tssend s, tsstate s with
  | _, TS_INIT => idle s
  | true, TS_FORWARD => held s ∧ is_Some (needrsp s)
  | true, _ => idle s
  | false, TS_TERMINATED => held s ∧ is_Some (needrsp s) ∨ idle s ∧ needrsp s = Some 0%Z
  | false, _ => idle s ∧ ∃ n, needrsp s = Some n ∧ n ≠ 0%Z
  end.

Section invariant.
Context {T : Type} `{ResendTimer T}.
Implicit Types (s : TTransState) (t : T).

Lemma new_inv type tid : ts_inv (new_TTransState type tid).
Proof. by destruct type. Qed.

(** How one input may move the timer. *)
Definition timer_step s t s' t' : Prop :=
  (timer s', t') = (timer s, t) ∨
  (timer s', t') = (0%Z, delResendTimer (timer s) t) ∨
  timer s = 0%Z ∧ (timer s', t') = setResendTimer (CStr_str (ttransID s)) t.

Lemma getCSeq_ok m : msg_ok m = true → ∃ n, getCSeq m = Some n.
Proof.
  unfold msg_ok, getCSeq. rewrite !andb_true_iff. intros [[Hc _] _].
  destruct (hasCSeq m); [|by eexists]. by destruct (cseq m) as [n|]; [eexists|].
Qed.
End invariant.

(** Symbolic execution of a goal [wp (TS_CHANGE ..) Q (s, t)]. *)
Ltac ts_goal_step Hm :=
  match goal with
  | |- context [copy_msg ?m] =>
      let c := fresh "c" in let Hc := fresh "Hcopy" in
      destruct (copy_msg_ok m) as (c & -> & Hc & ?); [assumption|]
  | |- context [genComMsgResp ?m 100] =>
      let r := fresh "r" in destruct (genComMsgResp_ok m 100 Hm) as (r & -> & ? & ?)
  | |- context [getCSeq ?m] =>
      let n := fresh "n" in destruct (getCSeq_ok m Hm) as (n & ->)
  | |- context [match setResendTimer ?i ?t with _ => _ end] =>
      let E := fresh "Eset" in destruct (setResendTimer i t) as [??] eqn:E
  | |- context [match ?x with _ => _ end] =>
      lazymatch x with context [match _ with _ => _ end] => fail | _ => idtac end;
      let E := fresh "E" in destruct x eqn:E
  end.
Ltac ts_cbn := cbn [fst snd tssend msg tsstate tschange_from tschange timer tcseq ttransID needrsp
               set_msg set_tsstate set_tschange_from set_tschange set_timer_ set_tcseq
               set_needrsp].
Ltac ts_open_inv := repeat match goal with
  | H : ∃ _, _ |- _ => destruct H as (? & ?); destruct_and?
  | H : is_Some _ |- _ => destruct H as [? ?]
  end.

Ltac ts_guards := repeat match goal with
  | H : decide _ = _ |- _ => clear H
  | H : ¬ (_ ≠ _) |- _ => apply dec_stable in H
  | H : bool_decide _ = true |- _ => apply bool_decide_eq_true in H
  | H : bool_decide _ = false |- _ => apply bool_decide_eq_false in H
  end; subst.

Section total.
Context {T : Type} `{ResendTimer T}.
Implicit Types (s : TTransState) (t : T).

(** On a well-formed message the automaton is total, keeps its invariant, and
    what it hands back answers the message or is its kept message. *)
Lemma TS_CHANGE_ok m s t :
  ts_inv s → msg_ok m = true →
  wp (TS_CHANGE (Some m)) (λ out w', ts_inv w'.1 ∧ timer_step s t w'.1 w'.2 ∧
    match out.2 with
    | Some r => msg_ok r = true ∧ (answers m r 100 ∨ ∃ h, msg s = Some h ∧ same_msg h r)
    | None => True
    end) (s, t).
Proof.
  intros Hinv Hm. destruct s as [snd' mg st frm ch tm cq tid need].
  unfold ts_inv, idle, held in Hinv; cbn [tssend tsstate msg timer needrsp] in Hinv.
  unfold wp. ts_unfold.
  destruct snd', st; destruct_or?; destruct_and?; ts_open_inv; simplify_eq.
  all: repeat (ts_cbn; ts_goal_step Hm).
  all: unfold ts_inv, idle, held, timer_step; ts_cbn.
  all: ts_guards; try congruence; try by naive_solver congruence.
  all: by naive_solver.

Qed.

(** The expiry of the timer: the kept message is handed back, whole, and the
    timer is set again; a key that is not the running timer does nothing. *)
Lemma TS_CHANGE_timer_ok key s t :
  ts_inv s →
  wp (TS_CHANGE_timer key) (λ out w', ts_inv w'.1 ∧ tssend w'.1 = tssend s ∧
    ttransID w'.1 = ttransID s ∧ tsstate w'.1 = tsstate s ∧
    (out = (TSC_NULL, None) ∧ w' = (s, t) ∧
       (timer s ≠ 0 → key = timer s → 0 < key → tssend s = false ∧ tsstate s ≠ TS_TERMINATED)%Z ∨
     key = timer s ∧ (0 < key)%Z ∧ (timer w'.1, w'.2) = setResendTimer (CStr_str (ttransID s)) t ∧
       ∃ h r, msg s = Some h ∧ out = (TSC_RESEND, Some r) ∧ msg_ok r = true ∧ same_msg h r))
    (s, t).
Proof.
  intros Hinv. destruct s as [snd' mg st frm ch tm cq tid need].
  unfold ts_inv, idle, held in Hinv; cbn [tssend tsstate msg timer needrsp] in Hinv.
  unfold wp. ts_unfold.
  destruct snd', st; destruct_or?; destruct_and?; ts_open_inv; simplify_eq.
  all: assert (Hm : True) by done; repeat (ts_cbn; ts_goal_step Hm).
  all: unfold ts_inv, idle, held; ts_cbn.
  all: ts_guards; simplify_eq; try lia.
  all: split_and!; try by naive_solver.
  all: first [right; split_and!; [lia|lia|done|by naive_solver]
             |left; split_and!; [done|done|intros; try lia; by naive_solver lia]].

Qed.
End total.
