(* ===== verification/TimerQueue.v ===== *)
(** * The kernel's timers ([TimerQueue], [TaskTimerQueue]: [include/kernel/timerqueue.h],
    [kernel/timerqueue.C], [kernel/timer.C]; [task/taskcontainer.C])

    A container's timers: a priority queue by expiry time, a table of the keys
    that are still wanted, the queue of timeout messages, and the parameter
    buffers ([void* mPara]) whose ownership travels from the timer to the
    message.  [std::priority_queue] does not say which of several earliest
    elements is on top: [MinTop] is what it does say. *)

From Stdlib Require Import Sorted.
From S2P Require Import Prelude TransState.

(** ** Timers *)
Record TTimer := Timer {
  mWhen : Z; tmMark : Z; tmKey : Z; tmDelay : Z; mTimerTID : Z; mTimerIID : Z; mPara : ptr }.
#[export] Instance TTimer_eq_dec : EqDecision TTimer.
Proof. solve_decision. Defined.

Record TTimeOutMsg := TimeOutMsg {
  timerMark : Z; timerKey : Z; timerDelay : Z; timerTID : Z; timerIID : Z; timerPara : ptr }.

(** [TTimer(...)]; [now] is [getTimeMs()]. *)
Definition new_TTimer (now mark key delay tid iid : Z) (para : ptr) : TTimer :=
  Timer (u64 (delay + now)) mark key delay tid iid para.

(** [std::priority_queue<T, vector<T>, greater<T>>::top] *)
Class MinTop := min_top : list TTimer → option TTimer.
Class MinTopLaws `{MinTop} : Prop := {
  min_top_nil q : min_top q = None ↔ q = [];
  min_top_some q t : min_top q = Some t → t ∈ q ∧ ∀ t', t' ∈ q → (mWhen t ≤ mWhen t')%Z;
}.

Fixpoint remove_one (t : TTimer) (q : list TTimer) : list TTimer :=
  match q with
  | [] => []
  | x :: q => if decide (x = t) then q else x :: remove_one t q
  end.

(** [mTimers], [mTimerKey], [mFifo], [mTimerStoped]; [bufs] are the allocated
    parameter buffers with their content. *)
Record kern := Kern {
  mTimers : list TTimer; mTimerKey : N; mFifo : list TTimeOutMsg;
  mTimerStoped : gmap Z bool; bufs : gmap ptr bytes }.

Definition new_kern : kern := Kern [] 0 [] ∅ ∅.

Definition set_timers (q : list TTimer) (s : kern) : kern :=
  Kern q (mTimerKey s) (mFifo s) (mTimerStoped s) (bufs s).
Definition set_stoped (f : gmap Z bool → gmap Z bool) (s : kern) : kern :=
  Kern (mTimers s) (mTimerKey s) (mFifo s) (f (mTimerStoped s)) (bufs s).
Definition post (m : TTimeOutMsg) (s : kern) : kern :=
  Kern (mTimers s) (mTimerKey s) (mFifo s ++ [m]) (mTimerStoped s) (bufs s).

(** [if(p!=NULL) delete p]; deleting a buffer twice is undefined behaviour. *)
Definition delete_para (p : ptr) : M kern unit := λ s,
  if decide (p = NULL) then Some (tt, s) else
  match bufs s !! p with
  | Some _ => Some (tt, Kern (mTimers s) (mTimerKey s) (mFifo s) (mTimerStoped s) (delete p (bufs s)))
  | None => None
  end.

(** [TaskTimerQueue::add] *)
Definition next_key (k : N) : N :=
  let k' := ((k + 1) mod 2 ^ 32)%N in if decide (k' = 0)%N then 1%N else k'.
Definition add (now mark delay tid iid : Z) (para : ptr) : M kern Z := λ s,
  let k := next_key (mTimerKey s) in
  Some (Z.of_N k,
    Kern (mTimers s ++ [new_TTimer now mark (Z.of_N k) delay tid iid para]) k (mFifo s)
      (<[Z.of_N k := true]> (mTimerStoped s)) (bufs s)).

Definition stop (key : Z) : M kern unit := modify (λ s,
  match mTimerStoped s !! key with
  | Some true => set_stoped <[key := false]> s
  | _ => s
  end).
Definition remove (key : Z) : M kern unit := modify (set_stoped (delete key)).

Definition msg_of (t : TTimer) : TTimeOutMsg :=
  TimeOutMsg (tmMark t) (tmKey t) (tmDelay t) (mTimerTID t) (mTimerIID t) (mPara t).

(** [TaskTimerQueue::processTimer] *)
Definition processTimer (t : TTimer) : M kern unit :=
  s ← gets mTimerStoped;
  match s !! tmKey t with
  | Some wanted =>
      (if (wanted : bool) then modify (post (msg_of t)) else mret tt) ;;
      modify (set_stoped (delete (tmKey t)))
  | None => delete_para (mPara t)
  end.

Section queue.
Context `{MinTop}.

Definition XFRAME_TIMER_STEP_MAX : Z := 1000.
Definition INT_MAX : Z := 2 ^ 31 - 1.

Definition msTillNextTimer (now : Z) : M kern Z := gets (λ s,
  match min_top (mTimers s) with
  | Some t =>
      if decide (mWhen t < now)%Z then 0%Z
      else if decide (INT_MAX < u64 (mWhen t - now))%Z then XFRAME_TIMER_STEP_MAX
      else u64 (mWhen t - now)
  | None => XFRAME_TIMER_STEP_MAX
  end).

Fixpoint process_loop (fuel : nat) (now : Z) : M kern unit :=
  match fuel with
  | O => ub
  | S fuel =>
      q ← gets mTimers;
      match min_top q with
      | Some t =>
          if decide (now < mWhen t)%Z then mret tt else
          processTimer t ;;
          modify (λ s, set_timers (remove_one t (mTimers s)) s) ;;
          process_loop fuel now
      | None => mret tt
      end
  end.
(** [process()]: [now] and [now'] are the two readings of the clock. *)
Definition process (now now' : Z) : M kern Z :=
  fuel ← gets (λ s, S (length (mTimers s)));
  process_loop fuel now ;; msTillNextTimer now'.

(** [~TimerQueue()] *)
Fixpoint destroy_loop (fuel : nat) : M kern unit :=
  match fuel with
  | O => ub
  | S fuel =>
      q ← gets mTimers;
      match min_top q with
      | Some t => delete_para (mPara t) ;;
                  modify (λ s, set_timers (remove_one t (mTimers s)) s) ;; destroy_loop fuel
      | None => mret tt
      end
  end.
Definition queue_destroy : M kern unit :=
  fuel ← gets (λ s, S (length (mTimers s))); destroy_loop fuel.
End queue.

(** [TTaskContainer::setTimer], [delTimer] *)
Definition setTimer (now mark delay tid iid : Z) (para : ptr) : M kern Z :=
  if decide (0 < delay)%Z then add now mark delay tid iid para else mret 0%Z.
Definition delTimer (key : Z) : M kern bool := remove key ;; mret true.

(** The timeout branch of [TTaskContainer::process]: the message is held by an
    [auto_ptr], so after the handler its destructor deletes [timerPara];
    [handler] is the task's [processTimeout]. *)
Definition deliver_timeout (handler : Z → Z → ptr → M kern unit) : M kern bool :=
  f ← gets mFifo;
  match f with
  | [] => mret false
  | m :: rest =>
      modify (λ s, Kern (mTimers s) (mTimerKey s) rest (mTimerStoped s) (bufs s)) ;;
      handler (timerKey m) (timerIID m) (timerPara m) ;;
      delete_para (timerPara m) ;; mret true
  end.

(** What [TTransMachine::processTM(TTimerKey, void*, ...)] does to its parameter
    before and after the lookup: [transid.nTransfer((char* )para)] adopts the
    buffer unless it is empty, and the local [CStr]'s destructor deletes it. *)
Definition adopt_para (p : ptr) : M kern unit := λ s,
  if decide (p = NULL) then None else
  match bufs s !! p with
  | Some b => if decide (c_string b = []) then Some (tt, s) else delete_para p s
  | None => None
  end.

(** ** Invariant *)
Ltac kcbn := cbn [mTimers mTimerKey mFifo mTimerStoped bufs set_timers set_stoped post].
Ltac kcbn_in H := cbn [mTimers mTimerKey mFifo mTimerStoped bufs set_timers set_stoped post] in H.

Definition owned (s : kern) : list ptr :=
  filter (λ p, p ≠ NULL) ((mPara <$> mTimers s) ++ (timerPara <$> mFifo s)).

(** Keys are unique, and every parameter buffer of a timer or of a queued
    message is allocated and has one owner. *)
Record kinv (s : kern) : Prop := {
  ki_keys : NoDup (tmKey <$> mTimers s);
  ki_range : ∀ t, t ∈ mTimers s → (0 < tmKey t ≤ Z.of_N (mTimerKey s))%Z;
  ki_owned : NoDup (owned s);
  ki_live : ∀ p, p ∈ owned s → is_Some (bufs s !! p);
}.

Lemma remove_one_perm t q : t ∈ q → t :: remove_one t q ≡ₚ q.
Proof.
  induction q as [|x q IH]; simpl; [by intros ?%elem_of_nil|].
  intros Hin. case_decide as Hx; [by subst|].
  apply elem_of_cons in Hin as [->|Hin]; [done|]. rewrite Permutation_swap. by rewrite IH.
Qed.

Lemma filter_ext_in {A} (P Q : A → Prop) `{∀ x, Decision (P x), ∀ x, Decision (Q x)} (l : list A) :
  (∀ x, x ∈ l → P x ↔ Q x) → filter P l = filter Q l.
Proof.
  induction l as [|x l IH]; intros Hl; [done|]. rewrite !filter_cons.
  rewrite IH by (intros; apply Hl; by right).
  destruct (Hl x) as [H1 H2]; [by left|]. repeat case_decide; tauto || done.
Qed.

Lemma kinv_perm q s : kinv s → q ≡ₚ mTimers s → kinv (set_timers q s).
Proof.
  intros [Hk Hr Ho Hl] Hp.
  assert (owned (set_timers q s) ≡ₚ owned s) as Hop by (unfold owned; cbn; by rewrite Hp).
  split; cbn.
  - by rewrite Hp.
  - intros t. rewrite Hp. apply Hr.
  - by rewrite Hop.
  - intros p. rewrite Hop. apply Hl.
Qed.

Section timers.
Context `{MinTopLaws}.

(** The buffers of the timers of [l] that nobody wants any more. *)
Definition dropped (st : gmap Z bool) (l : list TTimer) : list ptr :=
  mPara <$> filter (λ t, st !! tmKey t = None) l.
Definition wanted (st : gmap Z bool) (l : list TTimer) : list TTimer :=
  filter (λ t, st !! tmKey t = Some true) l.

(** One timer taken off the queue: posted, dropped with its buffer, or (when it
    was stopped) just dropped. *)
Lemma processTimer_spec t q s :
  kinv (set_timers (t :: q) s) →
  wp (processTimer t) (λ _ s', mTimers s' = mTimers s ∧ mTimerKey s' = mTimerKey s ∧
    mFifo s' = mFifo s ++ (msg_of <$> wanted (mTimerStoped s) [t]) ∧
    mTimerStoped s' = delete (tmKey t) (mTimerStoped s) ∧
    (∀ p, p ≠ NULL → bufs s' !! p =
       if decide (p ∈ dropped (mTimerStoped s) [t]) then None else bufs s !! p) ∧
    kinv (set_timers q s')) s.
Proof.
  intros [Hk Hr Ho Hl]. unfold owned in Ho, Hl. kcbn_in Hk. kcbn_in Hr. kcbn_in Ho. kcbn_in Hl.
  rewrite fmap_cons in Hk. apply NoDup_cons in Hk as [Hkt Hk].
  assert (Hr' : ∀ x, x ∈ q → (0 < tmKey x ≤ Z.of_N (mTimerKey s))%Z) by (intros; apply Hr; by right).
  rewrite fmap_cons in Ho, Hl. cbn [app] in Ho, Hl.
  unfold processTimer. apply wp_bind, wp_gets.
  destruct (mTimerStoped s !! tmKey t) as [[]|] eqn:Hst.
  - apply wp_bind, wp_modify, wp_modify. kcbn. unfold wanted, dropped.
    rewrite !filter_cons, !filter_nil, Hst, decide_True, decide_False by done.
    split_and!; try done.
    assert (Hp : owned (set_timers q (set_stoped (delete (tmKey t)) (post (msg_of t) s))) ≡ₚ
      filter (λ p, p ≠ NULL) (mPara t :: (mPara <$> q) ++ (timerPara <$> mFifo s))).
    { unfold owned. kcbn. rewrite fmap_app. apply filter_Permutation.
      cbn [fmap list_fmap msg_of timerPara]. by rewrite app_assoc, <- Permutation_cons_append. }
    split; [done|done|by rewrite Hp|]. intros p. rewrite Hp. apply Hl.
  - apply wp_bind, wp_ret, wp_modify. kcbn. unfold wanted, dropped.
    rewrite !filter_cons, !filter_nil, Hst, !decide_False by done. rewrite app_nil_r.
    split_and!; try done.
    rewrite filter_cons in Ho, Hl. split; [done|done| |].
    + unfold owned. kcbn. case_decide; [by apply NoDup_cons in Ho as [_ ?]|done].
    + intros p Hp. apply Hl. case_decide; [by right|done].
  - unfold wp, delete_para. unfold wanted, dropped.
    rewrite !filter_cons, !filter_nil, Hst, (decide_False (P:=None = Some true)),
      (decide_True (P:=None = None)) by done. rewrite app_nil_r.
    rewrite filter_cons in Ho, Hl. destruct (decide (mPara t = NULL)) as [Hn|Hn].
    + rewrite decide_False in Ho, Hl by tauto. split_and!; try done.
      * by rewrite delete_id.
      * intros p Hp. rewrite decide_False; [done|]. intros Hin. cbn in Hin. apply list_elem_of_singleton in Hin as ->. done.
    + rewrite decide_True in Ho, Hl by done.
      destruct (Hl (mPara t)) as [b Hb]; [by left|]. rewrite Hb. kcbn.
      apply NoDup_cons in Ho as [Hpo Ho]. split_and!; try done.
      * by rewrite delete_id.
      * intros p Hp. case_decide as Hin; cbn in Hin.
        -- apply list_elem_of_singleton in Hin as ->. apply lookup_delete_eq.
        -- rewrite lookup_delete_ne; [done|]. intros <-. apply Hin. by apply list_elem_of_singleton.
      * split; [done|done|done|]. unfold owned. kcbn. intros p Hp. rewrite lookup_delete_ne.
        -- apply Hl. by right.
        -- intros <-. done.
Qed.
End timers.

Lemma find_pos_spec {A} (P : A → bool) l i : find_pos P l = Some i → ∃ x, l !! i = Some x ∧ P x = true.
Proof.
  revert i. induction l as [|x l IH]; intros i; simpl; [done|].
  destruct (P x) eqn:Hx; [intros [= <-]; by exists x|]. intros (j & Hj & ->)%fmap_Some. by apply IH.
Qed.
Lemma find_pos_none {A} (P : A → bool) l : find_pos P l = None → ∀ x, x ∈ l → ¬ P x = true.
Proof.
  induction l as [|x l IH]; simpl; [by intros _ ? ?%elem_of_nil|].
  destruct (P x) eqn:Hx; [done|]. intros Hn%fmap_None y [->|Hy]%elem_of_cons; [by rewrite Hx|].
  by apply IH.
Qed.

Section process.
Context `{MinTopLaws}.

Definition by_when (a b : TTimer) : Prop := (mWhen a ≤ mWhen b)%Z.

(** What [process] does with the timers whose time has come. *)
Record processed (now : Z) (s s' : kern) (fired : list TTimer) : Prop := {
  pr_split : fired ++ mTimers s' ≡ₚ mTimers s;
  pr_order : StronglySorted by_when fired;
  pr_due : Forall (λ t, mWhen t ≤ now)%Z fired;
  pr_rest : Forall (λ t, now < mWhen t)%Z (mTimers s');
  pr_posted : mFifo s' = mFifo s ++ (msg_of <$> wanted (mTimerStoped s) fired);
  pr_keys : mTimerStoped s' = foldr delete (mTimerStoped s) (tmKey <$> fired);
  pr_bufs : ∀ p, p ≠ NULL → bufs s' !! p =
    if decide (p ∈ dropped (mTimerStoped s) fired) then None else bufs s !! p;
  pr_next : mTimerKey s' = mTimerKey s;
}.

Lemma foldr_delete_lookup k (l : list Z) (m : gmap Z bool) :
  foldr delete m l !! k = if decide (k ∈ l) then None else m !! k.
Proof.
  induction l as [|x l IH]; simpl; [done|]. destruct (decide (k = x)) as [->|Hne].
  - rewrite lookup_delete_eq, decide_True by by left. done.
  - rewrite lookup_delete_ne, IH by done. repeat case_decide; set_solver.
Qed.
Lemma foldr_delete_comm k (l : list Z) (m : gmap Z bool) :
  foldr delete (delete k m) l = delete k (foldr delete m l).
Proof. induction l as [|x l IH]; simpl; [done|]. by rewrite IH, delete_delete. Qed.

Lemma process_loop_spec fuel now s : kinv s → length (mTimers s) < fuel →
  wp (process_loop fuel now) (λ _ s', kinv s' ∧ ∃ fired, processed now s s' fired) s.
Proof.
  revert s. induction fuel as [|fuel IH]; intros s Hs Hlen; [lia|].
  cbn [process_loop]. apply wp_bind, wp_gets.
  destruct (min_top (mTimers s)) as [t|] eqn:Ht; cycle 1.
  { apply min_top_nil in Ht. apply wp_ret. split; [done|]. exists [].
    split; cbn; rewrite ?Ht, ?app_nil_r; try done; constructor. }
  destruct (min_top_some _ _ Ht) as [Hin Hmin]. case_decide as Hdue.
  { apply wp_ret. split; [done|]. exists [].
    split; cbn; rewrite ?app_nil_r; try done; try by constructor.
    apply Forall_forall. intros x Hx. specialize (Hmin x Hx). lia. }
  pose proof (remove_one_perm t (mTimers s) Hin) as Hperm.
  apply wp_bind. eapply wp_mono; [apply (processTimer_spec t (remove_one t (mTimers s)))|].
  { by apply kinv_perm. }
  intros [] s1 (Hq & Hkey & Hf & Hst & Hb & Hinv). apply wp_bind, wp_modify. rewrite Hq.
  eapply wp_mono; [apply (IH (set_timers (remove_one t (mTimers s)) s1)); [done|]|].
  { kcbn. apply Permutation_length in Hperm. cbn in Hperm. lia. }
  intros [] s2 (Hs2 & fired & [Hsplit Hord Hdu Hrest Hpost Hkeys Hbufs Hnext]). split; [done|].
  kcbn_in Hsplit. kcbn_in Hpost. kcbn_in Hkeys. kcbn_in Hbufs. kcbn_in Hnext.
  assert (Hsub : ∀ x, x ∈ fired → x ∈ remove_one t (mTimers s)).
  { intros x Hx. rewrite <- Hsplit. apply elem_of_app. by left. }
  assert (Hsub' : ∀ x, x ∈ fired → x ∈ mTimers s).
  { intros x Hx. rewrite <- Hperm. right. by apply Hsub. }
  assert (Hne : ∀ x, x ∈ fired → tmKey x ≠ tmKey t).
  { intros x Hx%Hsub Heq. pose proof (ki_keys _ Hs) as Hnd. rewrite <- Hperm, fmap_cons in Hnd.
    apply NoDup_cons in Hnd as [Hnd _]. apply Hnd. rewrite <- Heq. apply list_elem_of_fmap. by exists x. }
  assert (Hlk : ∀ x, x ∈ fired → mTimerStoped s1 !! tmKey x = mTimerStoped s !! tmKey x).
  { intros x Hx. rewrite Hst, lookup_delete_ne; [done|]. intros ?. by apply (Hne x). }
  assert (Hw : wanted (mTimerStoped s1) fired = wanted (mTimerStoped s) fired).
  { apply filter_ext_in. intros x Hx. by rewrite Hlk. }
  assert (Hd : dropped (mTimerStoped s1) fired = dropped (mTimerStoped s) fired).
  { unfold dropped. f_equal. apply filter_ext_in. intros x Hx. by rewrite Hlk. }
  exists (t :: fired). split.
  - cbn. rewrite Hsplit. exact Hperm.
  - constructor; [done|]. apply Forall_forall. intros x Hx. by apply Hmin, Hsub'.
  - constructor; [lia|done].
  - done.
  - rewrite Hpost, Hf, Hw, <- app_assoc. f_equal. change (t :: fired) with ([t] ++ fired).
    unfold wanted. by rewrite filter_app, fmap_app.
  - rewrite Hkeys, Hst, fmap_cons. cbn. apply foldr_delete_comm.
  - intros p Hp. rewrite Hbufs, Hb, Hd by done. change (t :: fired) with ([t] ++ fired).
    assert (p ∈ dropped (mTimerStoped s) ([t] ++ fired) ↔
      p ∈ dropped (mTimerStoped s) [t] ∨ p ∈ dropped (mTimerStoped s) fired) as Hiff.
    { unfold dropped. by rewrite filter_app, fmap_app, elem_of_app. }
    repeat case_decide; tauto.
  - by rewrite Hnext, Hkey.
Qed.
End process.

(** ** The service the transactions use

    [setResendTimer] allocates the parameter ([CStr::str]) and sets a timer of
    the kernel; [runs_out] is the turn of that key in [process]. *)
Definition key_turn (k : Z) (s : kern) : kern :=
  match find_pos (λ t, bool_decide (tmKey t = k)) (mTimers s) with
  | Some i =>
      match mTimers s !! i with
      | Some t =>
          let s' := match mTimerStoped s !! k with
                    | Some true => post (msg_of t) s
                    | _ => s
                    end in
          set_timers (delete i (mTimers s)) (set_stoped (delete k) s')
      | None => s
      end
  | None => s
  end.

Definition running (s : kern) (t : TTimer) : Prop :=
  mTimerStoped s !! tmKey t = Some true ∧ (0 < tmKey t ≤ Z.of_N (mTimerKey s))%Z.
#[export] Instance running_dec s t : Decision (running s t).
Proof. unfold running. apply _. Defined.

Section service.
(** The resend delay of the task, its id, and the clock. *)
Context (now delay tid : Z).

Definition alloc_para (para : option bytes) (s : kern) : ptr * kern :=
  match para with
  | Some b => let p := fresh ({[NULL]} ∪ dom (bufs s) : gset ptr) in
      (p, Kern (mTimers s) (mTimerKey s) (mFifo s) (mTimerStoped s) (<[p := b]> (bufs s)))
  | None => (NULL, s)
  end.
Definition kern_set (para : option bytes) (s : kern) : Z * kern :=
  let '(p, s') := alloc_para para s in
  match add now 1 delay tid 1 p s' with Some r => r | None => (0%Z, s') end.

Definition kern_timer : ResendTimer kern := {|
  setResendTimer := kern_set;
  delResendTimer k s := set_stoped (delete k) s;
  runs_out := key_turn;
  pending s := list_to_set (tmKey <$> filter (running s) (mTimers s));
  serial s := Z.of_N (mTimerKey s);
|}.
Local Existing Instance kern_timer.

Lemma elem_of_pending (s : kern) k :
  k ∈ pending s ↔ ∃ t, t ∈ mTimers s ∧ running s t ∧ tmKey t = k.
Proof.
  cbn. rewrite elem_of_list_to_set, list_elem_of_fmap. setoid_rewrite list_elem_of_filter. naive_solver.
Qed.

Lemma kern_timer_laws : ResendTimerLaws kern.
Proof.
  split.
  - intros s k (t & _ & [_ ?] & <-)%elem_of_pending. done.
  - intros s. cbn. lia.
  - intros s id Hb. cbn in Hb. cbn [setResendTimer kern_timer]. unfold kern_set.
    assert (Hal : ∃ b, alloc_para id s = ((alloc_para id s).1,
      Kern (mTimers s) (mTimerKey s) (mFifo s) (mTimerStoped s) b)).
    { destruct id; cbn; [by eexists|]. exists (bufs s). by destruct s. }
    destruct Hal as [b ->]. set (p := (alloc_para id s).1). cbn [add].
    assert (Hk : next_key (mTimerKey s) = (mTimerKey s + 1)%N).
    { unfold next_key. rewrite N.mod_small by lia. by rewrite decide_False by lia. }
    unfold add. kcbn. rewrite Hk. cbn [serial kern_timer mTimerKey]. split_and!; [lia|lia|].
    apply set_eq. intros k. rewrite elem_of_union, elem_of_singleton, !elem_of_pending. kcbn.
    unfold running. kcbn. setoid_rewrite elem_of_app. setoid_rewrite list_elem_of_singleton. split.
    + intros (t & [Ht| ->] & [Hst Hr] & <-); [|by left].
      destruct (decide (tmKey t = Z.of_N (mTimerKey s + 1))%Z) as [Heq|Hne]; [by left|right].
      rewrite lookup_insert_ne in Hst by done. exists t. split_and!; [done|done|lia|lia|done].
    + intros [->|(t & Ht & [Hst Hr] & <-)].
      * eexists. split; [by right|]. cbn. split_and!; [by rewrite lookup_insert_eq|lia|lia|done].
      * exists t. split; [by left|]. rewrite lookup_insert_ne by lia. split_and!; [done|lia|lia|done].
  - intros s k. split; [|done]. apply set_eq. intros k'.
    rewrite elem_of_difference, elem_of_singleton, !elem_of_pending. unfold running. kcbn.
    cbn [delResendTimer kern_timer]. kcbn. split.
    + intros (t & Ht & [Hst Hr] & <-). apply lookup_delete_Some in Hst as [? Hst].
      split; [by exists t|done].
    + intros [(t & Ht & [Hst Hr] & <-) Hne]. exists t. rewrite lookup_delete_ne by done. done.
  - intros s k. cbn [runs_out kern_timer]. unfold key_turn.
    destruct (find_pos _ (mTimers s)) as [i|] eqn:Hi; cycle 1.
    { split; [|done]. apply set_eq. intros k'.
      rewrite elem_of_difference, elem_of_singleton, elem_of_pending. split; [|by intros [? _]].
      intros (t & Ht & Hr & <-). split; [by exists t|]. intros Hk.
      apply (find_pos_none _ _ Hi t Ht). by rewrite bool_decide_true. }
    destruct (find_pos_spec _ _ _ Hi) as (t & Ht & Hk%bool_decide_eq_true). rewrite Ht.
    set (s' := match mTimerStoped s !! k with Some true => _ | _ => _ end).
    assert (Hs' : mTimers s' = mTimers s ∧ mTimerKey s' = mTimerKey s ∧ mTimerStoped s' = mTimerStoped s).
    { subst s'. by destruct (mTimerStoped s !! k) as [[]|]. }
    destruct Hs' as (Hq & Hkey & Hst). split; [|by cbn; rewrite Hkey].
    apply set_eq. intros k'. rewrite elem_of_difference, elem_of_singleton, !elem_of_pending.
    unfold running. kcbn. rewrite Hkey, Hst.
    assert (Hp : mTimers s ≡ₚ t :: delete i (mTimers s)) by (by apply delete_Permutation).
    split.
    + intros (x & Hx & [Hsx Hr] & <-). apply lookup_delete_Some in Hsx as [Hne Hsx].
      split; [|done]. exists x. split_and!; [rewrite Hp; by right|done|lia|lia|done].
    + intros [(x & Hx & [Hsx Hr] & <-) Hne]. exists x. rewrite Hp in Hx.
      apply elem_of_cons in Hx as [->|Hx]; [done|]. rewrite lookup_delete_ne by done. done.
Qed.
End service.

(** ** Clients of the timer queue *)
Inductive kop :=
  | KSet (now mark delay tid iid : Z) (para : option bytes)
  | KStop (key : Z)
  | KDel (key : Z)
  | KProcess (now now' : Z).

Section clients.
Context `{MinTopLaws}.

Definition kexec (o : kop) : M kern unit :=
  match o with
  | KSet now mark delay tid iid para =>
      p ← (λ s, Some (alloc_para para s)); setTimer now mark delay tid iid p ;; mret tt
  | KStop key => stop key
  | KDel key => delTimer key ;; mret tt
  | KProcess now now' => process now now' ;; mret tt
  end.
Fixpoint krun (os : list kop) : M kern unit :=
  match os with [] => mret tt | o :: os => kexec o ;; krun os end.
Fixpoint sets (os : list kop) : N :=
  match os with
  | [] => 0
  | KSet _ _ _ _ _ _ :: os => 1 + sets os
  | _ :: os => sets os
  end.

Lemma kinv_stoped s f : kinv s → kinv (set_stoped f s).
Proof. intros [? ? ? ?]. by split. Qed.

Lemma alloc_para_spec para s : kinv s →
  let '(p, s') := alloc_para para s in
  mTimers s' = mTimers s ∧ mTimerKey s' = mTimerKey s ∧ mFifo s' = mFifo s ∧
  mTimerStoped s' = mTimerStoped s ∧ (p ≠ NULL → is_Some (bufs s' !! p)) ∧ p ∉ owned s ∧
  ∀ q, is_Some (bufs s !! q) → is_Some (bufs s' !! q).
Proof.
  intros Hs. destruct para as [b|]; cbn -[filter]; cycle 1.
  { split_and!; try done. intros [? _]%list_elem_of_filter. done. }
  set (p := fresh _). assert (Hp : p ∉ ({[NULL]} ∪ dom (bufs s) : gset ptr)) by apply is_fresh.
  split_and!; try done.
  - intros _. by rewrite lookup_insert_eq.
  - intros Hin%(ki_live _ Hs). apply Hp, elem_of_union_r. by apply elem_of_dom.
  - intros q Hq. rewrite lookup_insert_ne; [done|]. intros <-. apply Hp, elem_of_union_r. by apply elem_of_dom.
Qed.

Lemma kexec_inv o s : kinv s → (mTimerKey s < 2 ^ 32 - 1)%N →
  wp (kexec o) (λ _ s', kinv s' ∧ (mTimerKey s ≤ mTimerKey s' ≤ mTimerKey s + sets [o])%N ∧
    ∀ k, mTimerStoped s !! k = None → (k ≤ Z.of_N (mTimerKey s))%Z → mTimerStoped s' !! k = None ∧
      ∃ l, mFifo s' = mFifo s ++ l ∧ Forall (λ m, timerKey m ≠ k) l) s.
Proof.
  intros Hs Hb. destruct o as [now mark delay tid iid para|key|key|now now']; cbn [kexec].
  - apply wp_bind. unfold wp at 1. pose proof (alloc_para_spec para s Hs) as Hal.
    destruct (alloc_para para s) as [p s1]. destruct Hal as (Hq & Hk & Hf & Hst & Hlive & Hnew & Hmono).
    assert (Hs1 : kinv s1).
    { destruct Hs as [? ? Ho Hl]. unfold owned in *.
      split; rewrite ?Hq, ?Hk; unfold owned; rewrite ?Hq, ?Hf; auto. }
    apply wp_bind. unfold setTimer, sets. case_decide as Hd; cycle 1.
    { apply wp_ret, wp_ret. rewrite Hk, Hst, Hf. split_and!; [done|lia|lia|]. intros k Hkn _.
      split; [done|]. exists []. by rewrite app_nil_r. }
    unfold wp, add. cbn -[filter owned]. rewrite Hq, Hk, Hf, Hst.
    assert (Hnk : next_key (mTimerKey s) = (mTimerKey s + 1)%N).
    { unfold next_key. rewrite N.mod_small by lia. by rewrite decide_False by lia. }
    rewrite Hnk. split_and!.
    + assert (Hown : owned (Kern (mTimers s ++ [new_TTimer now mark (Z.of_N (mTimerKey s + 1)) delay tid iid p])
        (mTimerKey s + 1) (mFifo s) (<[Z.of_N (mTimerKey s + 1):=true]> (mTimerStoped s)) (bufs s1))
        ≡ₚ if decide (p ≠ NULL) then p :: owned s else owned s).
      { unfold owned. kcbn. rewrite fmap_app, <- app_assoc. cbn [fmap list_fmap app new_TTimer mPara].
        rewrite <- Permutation_middle, filter_cons. done. }
      destruct Hs as [Hkeys Hr Ho Hl]. split; kcbn.
      * rewrite fmap_app. cbn. apply NoDup_app. split_and!; [done| |apply NoDup_singleton].
        intros k (t & -> & Ht)%list_elem_of_fmap Heq%list_elem_of_singleton. specialize (Hr t Ht). lia.
      * intros t [Ht|Ht]%elem_of_app; [specialize (Hr t Ht); lia|].
        apply list_elem_of_singleton in Ht as ->. cbn. lia.
      * rewrite Hown. case_decide; [by constructor|done].
      * intros q. rewrite Hown. case_decide; [|intros Hin; by apply Hmono, Hl].
        intros [->|Hin]%elem_of_cons; [by apply Hlive|by apply Hmono, Hl].
    + lia.
    + lia.
    + intros k Hkn Hkr. rewrite lookup_insert_ne by lia. split; [done|]. exists []. by rewrite app_nil_r.
  - unfold stop. apply wp_modify. cbn [sets].
    destruct (mTimerStoped s !! key) as [[]|] eqn:Hst; kcbn;
      (split_and!; [try by apply kinv_stoped|lia|lia|]); try done; intros k Hkn _;
      (split; [|exists []; by rewrite app_nil_r]); try done.
    rewrite lookup_insert_ne; [done|]. by intros ->; congruence.
  - unfold delTimer, remove. apply wp_bind, wp_bind, wp_modify, wp_ret, wp_ret. kcbn.
    split_and!; [by apply kinv_stoped|lia|cbn; lia|]. intros k Hkn _.
    split; [|exists []; by rewrite app_nil_r]. rewrite lookup_delete. by case_decide.
  - unfold process. apply wp_bind, wp_bind, wp_gets, wp_bind.
    eapply wp_mono; [apply process_loop_spec; [done|lia]|]. intros [] s' (Hs' & fired & [_ _ _ _ Hp Hst _ Hn]).
    unfold msTillNextTimer. apply wp_gets, wp_ret. split_and!; [done|rewrite Hn; lia|cbn; rewrite Hn; lia|].
    intros k Hk _. split.
    + rewrite Hst, foldr_delete_lookup, Hk. by case_decide.
    + eexists. split; [exact Hp|]. apply Forall_fmap, Forall_forall.
      intros t [Ht _]%list_elem_of_filter. cbn. intros Heq. rewrite Heq in Ht. congruence.
Qed.

Lemma krun_inv os s : kinv s → (mTimerKey s + sets os < 2 ^ 32 - 1)%N →
  wp (krun os) (λ _ s', kinv s' ∧ (mTimerKey s ≤ mTimerKey s' ≤ mTimerKey s + sets os)%N ∧
    ∀ k, mTimerStoped s !! k = None → (k ≤ Z.of_N (mTimerKey s))%Z →
      ∃ l, mFifo s' = mFifo s ++ l ∧ Forall (λ m, timerKey m ≠ k) l) s.
Proof.
  revert s. induction os as [|o os IH]; intros s Hs Hb; cbn [krun].
  { apply wp_ret. cbn [sets]. split_and!; [done|lia|lia|]. intros. exists []. by rewrite app_nil_r. }
  assert (Hadd : sets (o :: os) = (sets [o] + sets os)%N).
  { destruct o; cbn [sets]; lia. }
  apply wp_bind. eapply wp_mono; [apply kexec_inv; [done|lia]|]. intros [] s1 (Hs1 & Hk1 & Hst1).
  eapply wp_mono; [apply IH; [done|lia]|]. intros [] s2 (Hs2 & Hk2 & Hst2).
  split_and!; [done|lia|lia|].
  intros k Hk Hr. destruct (Hst1 k Hk Hr) as [Hk' (l1 & Hl1 & Hf1)].
  destruct (Hst2 k Hk') as (l2 & Hl2 & Hf2); [lia|]. exists (l1 ++ l2).
  rewrite Hl2, Hl1, <- app_assoc. split; [done|]. by apply Forall_app.
Qed.

Lemma new_kern_inv : kinv new_kern.
Proof.
  split; cbn -[owned]; [constructor|by intros ? ?%elem_of_nil|constructor|by intros ? ?%elem_of_nil].
Qed.

(** The time to sleep never passes an expiry. *)
Lemma msTillNextTimer_spec now s : (0 ≤ now)%Z → (∀ t, t ∈ mTimers s → (0 ≤ mWhen t < 2 ^ 64)%Z) →
  ∃ n, msTillNextTimer now s = Some (n, s) ∧ (0 ≤ n ≤ INT_MAX)%Z ∧
    ∀ t, t ∈ mTimers s → (n ≤ Z.max 0 (mWhen t - now))%Z.
Proof.
  intros Hnow Hr. unfold msTillNextTimer, gets. eexists. split; [done|].
  unfold INT_MAX, XFRAME_TIMER_STEP_MAX, u64.
  destruct (min_top (mTimers s)) as [t|] eqn:Ht.
  - destruct (min_top_some _ _ Ht) as [Hin Hmin]. specialize (Hr t Hin).
    repeat case_decide; (split; [|intros t' Ht'; specialize (Hmin t' Ht')]); try lia.
    all: rewrite Z.mod_small in * by lia; lia.
  - apply min_top_nil in Ht. rewrite Ht. split; [lia|]. by intros ? ?%elem_of_nil.
Qed.
End clients.

(** ** Properties *)

(** C4: one call of [process] on a queue whose invariant holds takes off
    exactly the timers that are due, in order of expiry, posts a timeout
    message for those still wanted and frees the buffers of those deleted, and
    then tells the container to sleep no longer than the next expiry. *)
Theorem timer_process_fires_due `{MinTopLaws} (s : kern) (now now' : Z) :
  kinv s → (0 ≤ now')%Z → (∀ t, t ∈ mTimers s → (0 ≤ mWhen t < 2 ^ 64)%Z) →
  ∃ n s' fired, process now now' s = Some (n, s') ∧ kinv s' ∧ processed now s s' fired ∧
    (0 ≤ n ≤ INT_MAX)%Z ∧ ∀ t, t ∈ mTimers s' → (n ≤ Z.max 0 (mWhen t - now'))%Z.
Proof.
  intros Hs Hnow Hr.
  destruct (wp_elim _ _ _ (process_loop_spec _ now s Hs (Nat.lt_succ_diag_r _))) as ([] & s' & Hp & Hs' & fired & Hpr).
  destruct (msTillNextTimer_spec now' s' Hnow) as (n & Hn & Hb & Hmin).
  { intros t Ht. apply Hr. rewrite <- (pr_split _ _ _ _ Hpr). apply elem_of_app. by right. }
  exists n, s', fired. split_and!; try done; [|apply Hb|apply Hb].
  unfold process, gets, mbind, M_bind. by rewrite Hp.
Qed.

(** C37: from an empty queue, whatever is set, stopped, deleted and processed
    (fewer than 2^32 timers in all), the queue's invariant holds: keys are
    unique and no parameter buffer is freed twice or lost to two owners; and
    once a key has been deleted no timeout message for it is ever posted. *)
Theorem timer_deleted_never_fires `{MinTopLaws} (os1 os2 : list kop) (key : Z) :
  (sets os1 + sets os2 < 2 ^ 32 - 1)%N →
  ∃ s1, krun os1 new_kern = Some (tt, s1) ∧ kinv s1 ∧
    ((key ≤ Z.of_N (mTimerKey s1))%Z →
     ∃ s2 l, krun (KDel key :: os2) s1 = Some (tt, s2) ∧ kinv s2 ∧
       mFifo s2 = mFifo s1 ++ l ∧ Forall (λ m, timerKey m ≠ key) l).
Proof.
  intros Hb.
  destruct (wp_elim _ _ _ (krun_inv os1 new_kern new_kern_inv ltac:(cbn; lia))) as ([] & s1 & H1 & Hs1 & Hk1 & _).
  exists s1. split_and!; [done|done|]. intros Hkey. cbn in Hk1.
  destruct (wp_elim _ _ _ (kexec_inv (KDel key) s1 Hs1 ltac:(lia))) as ([] & s2 & H2 & Hs2 & Hk2 & _).
  cbn in Hk2. injection H2 as <-.
  destruct (wp_elim _ _ _ (krun_inv os2 _ Hs2 ltac:(cbn; lia))) as ([] & s3 & H3 & Hs3 & _ & Hst3).
  destruct (Hst3 key) as (l & Hl & Hf); [by cbn; rewrite lookup_delete_eq|done|].
  exists s3, l. by split_and!.
Qed.

Lemma find_pos_snoc {A} (P : A → bool) l x :
  (∀ y, y ∈ l → P y = false) → P x = true → find_pos P (l ++ [x]) = Some (length l).
Proof.
  intros Hl Hx. induction l as [|y l IH]; simpl; [by rewrite Hx|].
  rewrite Hl by by left. rewrite IH; [done|]. intros z Hz. apply Hl. by right.
Qed.

Lemma kern_set_turn now delay tid para s :
  kinv s → mFifo s = [] → (mTimerKey s < 2 ^ 32 - 1)%N →
  ∃ k s1 p s2, kern_set now delay tid para s = (k, s1) ∧ key_turn k s1 = s2 ∧
    mFifo s2 = [msg_of (new_TTimer now 1 k delay tid 1 p)] ∧
    match para with Some b => p ≠ NULL ∧ bufs s2 !! p = Some b | None => p = NULL end ∧ kinv s.
Proof.
  intros Hs Hf Hb. unfold kern_set.
  assert (Hal : ∃ p b, alloc_para para s = (p, Kern (mTimers s) (mTimerKey s) [] (mTimerStoped s) b) ∧
    match para with Some c => p ≠ NULL ∧ b !! p = Some c | None => p = NULL end).
  { destruct para as [c|]; cbn.
    - set (p := fresh _). assert (Hp : p ∉ ({[NULL]} ∪ dom (bufs s) : gset ptr)) by apply is_fresh.
      rewrite Hf. do 2 eexists. split; [done|]. split; [set_solver|by rewrite lookup_insert_eq].
    - exists NULL, (bufs s). split; [|done]. destruct s. cbn in *. by subst. }
  destruct Hal as (p & b & -> & Hp). unfold add. kcbn.
  assert (Hnk : next_key (mTimerKey s) = (mTimerKey s + 1)%N).
  { unfold next_key. rewrite N.mod_small by lia. by rewrite decide_False by lia. }
  rewrite Hnk. do 4 eexists. split; [done|]. split; [done|]. unfold key_turn. kcbn.
  rewrite find_pos_snoc.
  - rewrite lookup_app_r, Nat.sub_diag by lia. cbn [lookup list_lookup]. rewrite lookup_insert_eq. kcbn. done.
  - intros t Ht. apply bool_decide_eq_false. pose proof (ki_range _ Hs t Ht). lia.
  - cbn. by apply bool_decide_eq_true.
Qed.

(** The handler of a resend timeout, as far as its parameter goes. *)
Definition resend_handler (_ _ : Z) (p : ptr) : M kern unit := adopt_para p.

(** Every resend timeout ends in undefined behaviour: the timer's
    parameter is a copy of the transaction id, the handler's local string
    adopts and deletes it, and the destructor of the timeout message deletes it
    again (for an empty id the parameter is NULL and its length is taken). *)
Theorem resend_timeout_double_free (now delay tid : Z) (id : bytes) (s : kern) :
  kinv s → mFifo s = [] → (mTimerKey s < 2 ^ 32 - 1)%N →
  (id = [] ∨ ∃ c id', id = c :: id' ∧ c ≠ 0%Z) →
  let '(k, s1) := kern_set now delay tid (CStr_str id) s in
  deliver_timeout resend_handler (key_turn k s1) = None.
Proof.
  intros Hs Hf Hb Hid.
  destruct (kern_set_turn now delay tid (CStr_str id) s Hs Hf Hb) as (k & s1 & p & s2 & -> & -> & H2 & Hp).
  unfold deliver_timeout, gets, modify, mbind, M_bind. rewrite H2. cbn -[adopt_para delete_para].
  unfold resend_handler, adopt_para. kcbn.
  destruct Hid as [->|(c & id' & -> & Hc)].
  - change (CStr_str []) with (@None bytes) in Hp. destruct Hp as [-> _]. by rewrite decide_True.
  - change (CStr_str (c :: id')) with (Some (c :: id')) in Hp. destruct Hp as [[Hn Hl] _]. rewrite decide_False, Hl by done.
    cbn [c_string]. rewrite (decide_False (P:=c = 0%Z)) by done. rewrite decide_False by done.
    unfold delete_para. kcbn. rewrite decide_False, Hl by done. kcbn.
    rewrite decide_False by done. by rewrite lookup_delete_eq.
Qed.

(** ** Witnesses *)
(** A priority queue that keeps the first of the earliest. *)
Fixpoint first_min (q : list TTimer) : option TTimer :=
  match q with
  | [] => None
  | x :: q => match first_min q with
              | Some y => if decide (mWhen y < mWhen x)%Z then Some y else Some x
              | None => Some x
              end
  end.
Lemma first_min_cons x q : first_min (x :: q) ≠ None.
Proof. cbn. destruct (first_min q) as [y|]; [destruct (decide (mWhen y < mWhen x)%Z)|]; done. Qed.
Lemma first_min_laws : MinTopLaws (H:=first_min).
Proof.
  unfold min_top. split.
  - intros [|x q]; [done|]. split; [intros Hn; by apply first_min_cons in Hn|done].
  - intros q. unfold min_top. induction q as [|x q IH]; intros t; cbn [first_min]; [done|].
    destruct (first_min q) as [y|] eqn:Hy.
    + destruct (IH y eq_refl) as [Hin Hmin]. case_decide; intros [= <-].
      * split; [by right|]. intros t' [->|Ht']%elem_of_cons; [lia|by apply Hmin].
      * split; [by left|]. intros t' [->|Ht']%elem_of_cons; [lia|]. specialize (Hmin t' Ht'). lia.
    + intros [= <-]. destruct q as [|z q]; [|by apply first_min_cons in Hy].
      split; [by left|]. intros t' ->%list_elem_of_singleton. lia.
Qed.

Definition demo_ops : list kop :=
  [KSet 100 1 50 7 1 (Some [65]); KSet 100 1 20 7 1 (Some [66]); KSet 100 1 20 7 1 None; KDel 1]%Z.
Definition demo_kern : kern :=
  match krun (H:=first_min) demo_ops new_kern with Some (_, s) => s | None => new_kern end.

Lemma demo_kern_inv : kinv demo_kern.
Proof.
  destruct (wp_elim _ _ _ (krun_inv (H:=first_min) (H0:=first_min_laws) demo_ops new_kern new_kern_inv ltac:(done)))
    as ([] & s & Hr & Hs & _).
  unfold demo_kern. by rewrite Hr.
Qed.

Lemma timer_process_fires_due_witness :
  (∃ n s' fired, process (H:=first_min) 130 131 demo_kern = Some (n, s') ∧ processed 130 demo_kern s' fired) ∧
  (timerKey <$> match process (H:=first_min) 130 131 demo_kern with Some (_, s) => mFifo s | _ => [] end) = [2; 3]%Z.
Proof.
  split; [|by vm_compute].
  destruct (timer_process_fires_due (H:=first_min) (H0:=first_min_laws) demo_kern 130 131 demo_kern_inv)
    as (n & s' & fired & Hp & _ & Hpr & _); [lia| |by exists n, s', fired].
  assert (Hf : Forall (λ t, (0 ≤ mWhen t)%Z ∧ (mWhen t < 2 ^ 64)%Z) (mTimers demo_kern))
    by (apply (bool_decide_unpack _); by vm_compute).
  intros t Ht. by apply (proj1 (Forall_forall _ _) Hf).
Defined.

Lemma timer_deleted_never_fires_witness :
  (sets demo_ops + sets [KProcess 500 500] < 2 ^ 32 - 1)%N ∧
  ∃ s1, krun (H:=first_min) demo_ops new_kern = Some (tt, s1) ∧ kinv s1.
Proof.
  split; [by vm_compute|].
  destruct (timer_deleted_never_fires (H:=first_min) (H0:=first_min_laws) demo_ops [KProcess 500 500] 2)
    as (s1 & Hr & Hs & _); [by vm_compute|by exists s1].
Defined.

Lemma resend_timeout_double_free_witness :
  let '(k, s1) := kern_set 0 500 7 (CStr_str [65; 66]%Z) new_kern in
  deliver_timeout resend_handler (key_turn k s1) = None.
Proof.
  apply (resend_timeout_double_free 0 500 7 [65; 66]%Z new_kern new_kern_inv); [done|done|].
  right. by exists 65%Z, [66%Z].
Defined.
