(* ===== verification/TransMachine.v ===== *)
(** * The transaction machine ([TTransMachine], [transport/transstate.C])

    The transactions of a transport task: an expiring buffer from transaction
    id to a heap-allocated [TTransState].  A message is routed to its
    transaction by id (a request opens a new one), a timer by the id in its
    parameter, and the maintenance call expires transactions and synthesises
    the 408 answer of requests nobody answered.  The buffer is used through the
    refinement lemmas of [ExpireBuffer.v], the automaton through those of
    [TransState.v].

    The buffer is a [std::map] over [CStr], whose [operator<] is [strcmp]
    ([comserv/comtypedef_vchar.C]): two ids are the same key when they agree up
    to their first zero byte.  A key of the model is therefore the [c_string]
    of an id, on which equality of byte lists is equality of keys; the
    [TTransState] itself keeps the whole id. *)

From S2P Require Import Prelude Dll ExpireBuffer UniMsg TransState TimerQueue.

(** ** The machine *)
Section machine.
Context {T : Type} `{ResendTimer T}.

(** [mTSState], the [TTransState] objects by address, the timer service. *)
Record machine := Machine {
  mTSState : xbuf bytes ptr; states : gmap ptr TTransState; tmr : T }.

(** The constructors of [TTransMachine] and of its buffer (no maximum, not
    [destroy_old], 172800 seconds). *)
Definition new_machine (t : T) : machine := Machine (create NULL 0 false 172800) ∅ t.

Definition on_buf {A} (m : M (xbuf bytes ptr) A) : M machine A :=
  zoom mTSState (λ b w, Machine b (states w) (tmr w)) m.
(** Calling a member function of the object at [p]. *)
Definition on_state {A} (p : ptr) (m : M (TTransState * T) A) : M machine A := λ w,
  match states w !! p with
  | Some s => match m (s, tmr w) with
              | Some (a, (s', t')) => Some (a, Machine (mTSState w) (<[p:=s']> (states w)) t')
              | None => None
              end
  | None => None
  end.
Definition new_state (s : TTransState) : M machine ptr := λ w,
  let p := fresh ({[NULL]} ∪ dom (states w) : gset ptr) in
  Some (p, Machine (mTSState w) (<[p:=s]> (states w)) (tmr w)).
(** [delete state] *)
Definition delete_state (p : ptr) : M machine unit :=
  on_state p TTransState_destroy ;;
  modify (λ w, Machine (mTSState w) (delete p (states w)) (tmr w)).

(** [tminit(sendTimeOutSec)] *)
Definition tminit (sec : Z) : M machine unit :=
  if decide (sec ≠ 0)%Z then on_buf (setLivingTime (u32 sec)) else mret tt.

(** [processTM(BOOL, TUniNetMsg*, TUniNetMsg*&)]; [now] is what [time(0)]
    returns during the call. *)
Definition processTM (fromwire : bool) (now : Z) (m : option TUniNetMsg) : M machine outcome :=
  match m with
  | None => mret (TSC_NULL, None)
  | Some m =>
      if hasTransId m then
        found ← on_buf (find_v (c_string (transID m)));
        state ← match found with
                | Some p => mret p
                | None =>
                    if decide (msgName m = COM_MESSAGE_REQ) then
                      p ← new_state (new_TTransState (negb fromwire) (transID m));
                      on_buf (push now (c_string (transID m)) p) ;; mret p
                    else mret NULL
                end;
        if decide (state ≠ NULL) then on_state state (TS_CHANGE (Some m))
        else mret (TSC_NULL, None)
      else mret (TSC_NULL, None)
  end.

(** [processTM(TTimerKey, void*, TUniNetMsg*&)]; [para] is the text of the
    parameter the timer was set with ([None] is NULL, on which [strlen] is
    undefined).  [transid.nTransfer] makes the parameter's buffer the local
    [CStr]'s own, which deletes it on return, on every path.  That buffer is
    memory of the timer service, not of the machine: what the adoption does to
    it is [TimerQueue.adopt_para], and [TimerQueue.resend_timeout_double_free]
    shows what comes of it (the timeout message deletes it again).  Here it is
    given to the call and nothing of the machine refers to it afterwards. *)
Definition processTM_timer (tk : Z) (para : option bytes) : M machine outcome :=
  match para with
  | None => ub
  | Some b =>
      let transid := c_string b in
      if decide (0 < tk)%Z then
        if decide (CStr_size transid ≠ 0)%Z then
          found ← on_buf (find_v transid);
          match found with
          | Some p => if decide (p ≠ NULL) then on_state p (TS_CHANGE_timer tk)
                      else mret (TSC_NULL, None)
          | None => mret (TSC_NULL, None)
          end
        else mret (TSC_NULL, None)
      else mret (TSC_NULL, None)
  end.

(** [processTM(TUniNetMsg*&, time_t)]: the loop; [clock i] is the [i]-th
    reading of [time(0)], which only a zero [currenttime] makes. *)
Fixpoint expire_loop (fuel : nat) (clock : nat → Z) (i : nat) (currenttime : Z) : M machine outcome :=
  match fuel with
  | O => ub
  | S fuel =>
      r ← on_buf (pop_front_old_v (clock i) currenttime);
      match r with
      | (Some p, true) =>
          s ← (λ w, match states w !! p with Some s => Some (s, w) | None => None end);
          if decide (0 < ts_num (tsstate s) < 3)%Z then
            if tssend s then
              match msg s with
              | Some m =>
                  resp ← defined (genComMsgResp m 408);
                  delete_state p ;; mret (TSC_TIMEOUT, Some resp)
              | None => delete_state p ;; expire_loop fuel clock (S i) currenttime
              end
            else delete_state p ;; expire_loop fuel clock (S i) currenttime
          else delete_state p ;; expire_loop fuel clock (S i) currenttime
      | _ => mret (TSC_NULL, None)
      end
  end.
Definition processTM_expire (clock : nat → Z) (currenttime : Z) : M machine outcome :=
  fuel ← gets (λ w, S (size (states w))); expire_loop fuel clock 0 currenttime.

(** [~TTransMachine] empties the buffer, it does not delete the objects. *)
Definition TTransMachine_destroy : M machine unit := on_buf clear ;; on_buf destroy.
End machine.
Arguments machine T : clear implicits.

(** ** Specification: the transactions in the order they were opened *)
Record txn := Txn { x_id : bytes; x_since : Z; x_st : TTransState }.
Record amach (T : Type) := AMach { txns : list txn; living : Z; a_tmr : T }.
Arguments AMach {T} _ _ _.
Arguments txns {T} _.
Arguments living {T} _.
Arguments a_tmr {T} _.

Section spec.
Context {T : Type} `{ResendTimer T}.
Implicit Types (a : amach T).

Definition tpos (id : bytes) (l : list txn) : option nat :=
  find_pos (λ x, bool_decide (x_id x = id)) l.

(** One call on the transaction at [i]. *)
Definition at_txn {A} (i : nat) (m : M (TTransState * T) A) a : option (A * amach T) :=
  x ← txns a !! i;
  match m (x_st x, a_tmr a) with
  | Some (r, (s', t')) =>
      Some (r, AMach (<[i := Txn (x_id x) (x_since x) s']> (txns a)) (living a) t')
  | None => None
  end.

Definition a_msg (fromwire : bool) (now : Z) (m : option TUniNetMsg) a : option (outcome * amach T) :=
  match m with
  | Some m =>
      if hasTransId m then
        match tpos (c_string (transID m)) (txns a) with
        | Some i => at_txn i (TS_CHANGE (Some m)) a
        | None =>
            if decide (msgName m = COM_MESSAGE_REQ) then
              if decide (Z.of_nat (length (txns a)) + 1 < 2 ^ 32)%Z then
                at_txn (length (txns a)) (TS_CHANGE (Some m))
                  (AMach (txns a ++ [Txn (c_string (transID m)) now (new_TTransState (negb fromwire) (transID m))])
                     (living a) (a_tmr a))
              else None
            else Some ((TSC_NULL, None), a)
        end
      else Some ((TSC_NULL, None), a)
  | None => Some ((TSC_NULL, None), a)
  end.

Definition a_timer (tk : Z) (para : option bytes) a : option (outcome * amach T) :=
  match para with
  | None => None
  | Some b =>
      if decide (0 < tk)%Z then
        match tpos (c_string b) (txns a) with
        | Some i => at_txn i (TS_CHANGE_timer tk) a
        | None => Some ((TSC_NULL, None), a)
        end
      else Some ((TSC_NULL, None), a)
  end.

(** A transaction whose expiry is reported: a client still waiting for its
    first answer. *)
Definition unanswered (s : TTransState) : option TUniNetMsg :=
  if tssend s && bool_decide (0 < ts_num (tsstate s) < 3)%Z then msg s else None.
Definition txn_expired (liv now currenttime : Z) (x : txn) : Prop :=
  (liv < old_time now currenttime - x_since x)%Z.
#[global] Instance txn_expired_dec liv now t x : Decision (txn_expired liv now t x).
Proof. unfold txn_expired. apply _. Defined.

Definition stop_timer (s : TTransState) (t : T) : T :=
  if decide (timer s ≠ 0)%Z then delResendTimer (timer s) t else t.

Fixpoint a_expire_loop (clock : nat → Z) (i : nat) (currenttime : Z) (liv : Z)
    (l : list txn) (t : T) : option (outcome * amach T) :=
  match l with
  | [] => Some ((TSC_NULL, None), AMach [] liv t)
  | x :: l' =>
      if decide (txn_expired liv (clock i) currenttime x) then
        match unanswered (x_st x) with
        | Some m => resp ← genComMsgResp m 408;
                    Some ((TSC_TIMEOUT, Some resp), AMach l' liv (stop_timer (x_st x) t))
        | None => a_expire_loop clock (S i) currenttime liv l' (stop_timer (x_st x) t)
        end
      else Some ((TSC_NULL, None), AMach l liv t)
  end.
Definition a_expire (clock : nat → Z) (currenttime : Z) a : option (outcome * amach T) :=
  a_expire_loop clock 0 currenttime (living a) (txns a) (a_tmr a).
End spec.

(** ** Refinement *)
Definition entry_of (h : gmap ptr TTransState) (e : xval bytes ptr) (x : txn) : Prop :=
  x_key e = x_id x ∧ x_refreshtime e = x_since x ∧ h !! x_value e = Some (x_st x).

Record heap_repr (h : gmap ptr TTransState) (es : list (xval bytes ptr)) (l : list txn) : Prop := {
  hp_entries : Forall2 (entry_of h) es l;
  hp_distinct : NoDup (x_value <$> es);
  hp_null : NULL ∉ x_value <$> es;
  hp_dom : ∀ p, is_Some (h !! p) → p ∈ x_value <$> es;
}.

Section refinement.
Context {T : Type} `{ResendTimer T}.
Implicit Types (w : machine T) (a : amach T) (h : gmap ptr TTransState)
  (es : list (xval bytes ptr)) (l : list txn).

Record mrepr_at (s : abuf bytes ptr) w a : Prop := {
  mr_buf : xrepr (mTSState w) s;
  mr_heap : heap_repr (states w) (ents s) (txns a);
  mr_conf : a_max s = 0%Z ∧ a_destroy s = false ∧ a_living s = living a ∧ tmr w = a_tmr a;
}.
Definition mrepr w a : Prop := ∃ s, mrepr_at s w a.

Definition mrefines {A} (m : M (machine T) A) (f : amach T → option (A * amach T)) : Prop :=
  ∀ w a r a', mrepr w a → f a = Some (r, a') → wp m (λ r' w', r' = r ∧ mrepr w' a') w.

Lemma wp_on_buf {A} (m : M (xbuf bytes ptr) A) f Q w s r s' :
  xrefines m f → xrepr (mTSState w) s → f s = Some (r, s') →
  (∀ b', xrepr b' s' → Q r (Machine b' (states w) (tmr w))) → wp (on_buf m) Q w.
Proof.
  intros Hm Hs Hf HQ. unfold on_buf. apply wp_zoom.
  eapply wp_mono; [by eapply Hm|]. intros r' b' [-> Hb']. by apply HQ.
Qed.

Lemma kpos_tpos h es l key : Forall2 (entry_of h) es l → kpos key es = tpos key l.
Proof.
  unfold kpos, tpos. induction 1 as [|e x es l (Hk & _ & _) _ IH]; simpl; [done|].
  rewrite Hk. case_bool_decide; [done|]. by rewrite IH.
Qed.

(** Changing one object of the heap. *)
Lemma heap_repr_update h es l i e x s' :
  heap_repr h es l → es !! i = Some e → l !! i = Some x →
  heap_repr (<[x_value e := s']> h) es (<[i := Txn (x_id x) (x_since x) s']> l).
Proof.
  intros [He Hd Hn Hdom] Hi Hx.
  assert (Hil : i < length l) by (by apply lookup_lt_Some in Hx).
  split; [|done|done|].
  - apply Forall2_same_length_lookup. split.
    { rewrite length_insert. by eapply Forall2_length. }
    intros j e' x' Hj Hj'. destruct (decide (i = j)) as [<-|Hij].
    + rewrite list_lookup_insert_eq in Hj' by done. simplify_eq.
      destruct (Forall2_lookup_lr _ _ _ _ _ _ He Hi Hx) as (Hk & Ht & _).
      unfold entry_of. cbn. by rewrite lookup_insert_eq.
    + rewrite list_lookup_insert_ne in Hj' by done.
      destruct (Forall2_lookup_lr _ _ _ _ _ _ He Hj Hj') as (Hk & Ht & Hl).
      split_and!; [done|done|]. rewrite lookup_insert_ne; [done|]. intros Heq. apply Hij.
      eapply (NoDup_lookup _ _ _ (x_value e)); [exact Hd| |];
        rewrite list_lookup_fmap; [by rewrite Hi|by rewrite Hj, Heq].
  - intros p [y Hp]. destruct (decide (x_value e = p)) as [<-|Hne].
    + apply list_elem_of_fmap. exists e. split; [done|]. by eapply list_elem_of_lookup_2.
    + rewrite lookup_insert_ne in Hp by done. by apply Hdom.
Qed.
End refinement.

Section refinement.
Context {T : Type} `{ResendTimer T}.
Implicit Types (w : machine T) (a : amach T) (h : gmap ptr TTransState)
  (es : list (xval bytes ptr)) (l : list txn).

(** A fresh object behind a new last entry. *)
Lemma heap_repr_push h es l s now key :
  heap_repr h es l →
  let p := fresh ({[NULL]} ∪ dom h : gset ptr) in
  p ≠ NULL ∧
  heap_repr (<[p := s]> h) (es ++ [new_xval now key p 0]) (l ++ [Txn key now s]).
Proof.
  intros [He Hd Hn Hdom] p.
  assert (Hp : p ∉ ({[NULL]} ∪ dom h : gset ptr)) by apply is_fresh.
  apply not_elem_of_union in Hp as [Hpn%not_elem_of_singleton Hpd].
  assert (Hpes : p ∉ x_value <$> es).
  { intros (e & -> & Hin)%list_elem_of_fmap. apply list_elem_of_lookup in Hin as [i Hi].
    destruct (Forall2_lookup_l _ _ _ _ _ He Hi) as (x & _ & _ & _ & Hl).
    apply Hpd. by eapply elem_of_dom_2. }
  split; [done|]. split.
  - apply Forall2_app; [|constructor; [|done]].
    + eapply Forall2_impl; [exact He|]. intros e x (? & ? & Hl). split_and!; [done|done|].
      rewrite lookup_insert_ne; [done|]. intros ->. apply Hpd. by eapply elem_of_dom_2.
    + unfold entry_of, new_xval. cbn. rewrite lookup_insert_eq. by case_decide.
  - rewrite fmap_app. cbn. apply NoDup_app. split_and!; [done| |apply NoDup_singleton].
    intros q Hq ->%list_elem_of_singleton. done.
  - rewrite fmap_app. cbn. rewrite elem_of_app, list_elem_of_singleton. intros [?|?]; [done|].
    by apply Hpn.
  - intros q [y Hq]. rewrite fmap_app. cbn. rewrite elem_of_app, list_elem_of_singleton.
    destruct (decide (q = p)) as [->|]; [by right|]. rewrite lookup_insert_ne in Hq by done.
    left. by apply Hdom.
Qed.

(** Deleting the object of the first entry. *)
Lemma heap_repr_pop h e es x l s :
  heap_repr h (e :: es) (x :: l) →
  h !! x_value e = Some (x_st x) ∧ heap_repr (delete (x_value e) (<[x_value e := s]> h)) es l.
Proof.
  intros [He Hd Hn Hdom]. apply Forall2_cons in He as [(Hk & Ht & Hl) He].
  rewrite fmap_cons in Hd, Hn. apply NoDup_cons in Hd as [Hne Hd]. split; [done|].
  rewrite delete_insert_eq. split.
  - apply Forall2_same_length_lookup. split; [by eapply Forall2_length|].
    intros i e' x' Hi Hi'. destruct (Forall2_lookup_lr _ _ _ _ _ _ He Hi Hi') as (? & ? & ?).
    split_and!; [done|done|]. rewrite lookup_delete_ne; [done|]. intros Heq. apply Hne. rewrite Heq.
    apply list_elem_of_fmap. exists e'. split; [done|]. by eapply list_elem_of_lookup_2.
  - done.
  - intros Hin. apply Hn. by right.
  - intros p [y Hp]. apply lookup_delete_Some in Hp as [Hpe Hp].
    assert (Hin : p ∈ x_value <$> e :: es) by (apply Hdom; by eexists).
    rewrite fmap_cons in Hin. by apply elem_of_cons in Hin as [|].
Qed.

(** A member function called on the object of entry [i]. *)
Lemma on_state_refines {A} (m : M (TTransState * T) A) s w a i e r a' :
  mrepr_at s w a → ents s !! i = Some e → at_txn i m a = Some (r, a') →
  wp (on_state (x_value e) m) (λ r' w', r' = r ∧ mrepr w' a') w.
Proof.
  intros [Hb Hh (Hmx & Hds & Hlv & Ht)] Hi Hat. destruct w as [b h t], a as [l liv t2].
  cbn [mTSState states tmr txns living a_tmr] in *. subst t2.
  destruct (Forall2_lookup_l _ _ _ _ _ (hp_entries _ _ _ Hh) Hi) as (x & Hx & Hk & Htm & Hl).
  unfold at_txn in Hat. cbn in Hat. rewrite Hx in Hat. cbn in Hat.
  unfold wp, on_state. cbn. rewrite Hl.
  destruct (m (x_st x, t)) as [[a1 [s' t']]|]; [|done]. simplify_eq. split; [done|].
  exists s. split; [done| |done]. by apply (heap_repr_update h).
Qed.

Lemma entry_at s w a key i :
  mrepr_at s w a → tpos key (txns a) = Some i →
  ∃ e, ents s !! i = Some e ∧ kpos key (ents s) = Some i ∧ x_value e ≠ NULL.
Proof.
  intros [Hb [He _ Hn _] _] Hp. rewrite <- (kpos_tpos _ _ _ key He) in Hp.
  assert (Hi : i < length (ents s)) by (by apply find_pos_lt in Hp).
  apply lookup_lt_is_Some in Hi as [e Hi]. exists e. split_and!; [done|done|].
  intros Hnull. apply Hn. rewrite <- Hnull. apply list_elem_of_fmap. exists e. split; [done|].
  by eapply list_elem_of_lookup_2.
Qed.

Lemma with_cur_mrepr s w a b c :
  mrepr_at s w a → xrepr b (with_ents (ents s) c s) →
  mrepr_at (with_ents (ents s) c s) (Machine b (states w) (tmr w)) a.
Proof. intros [Hb Hh Hc] Hb'. by split. Qed.

Lemma processTM_refines fromwire now m :
  mrefines (processTM fromwire now m) (a_msg fromwire now m).
Proof.
  intros w a r a' (s & Hat) Hf. unfold processTM, a_msg in *.
  destruct m as [m|]; [|injection Hf as <- <-; apply wp_ret; split; [done|by exists s]].
  destruct (hasTransId m); [|injection Hf as <- <-; apply wp_ret; split; [done|by exists s]].
  pose proof (kpos_tpos _ _ _ (c_string (transID m)) (hp_entries _ _ _ (mr_heap _ _ _ Hat))) as Hpos.
  apply wp_bind. destruct (tpos (c_string (transID m)) (txns a)) as [i|] eqn:Hi.
  - destruct (entry_at _ _ _ _ _ Hat Hi) as (e & He & Hk & Hnn).
    eapply (wp_on_buf _ _ _ _ s); [apply find_v_refines|apply Hat|unfold a_find_v; by rewrite Hk, He|].
    intros b' Hb'. cbn [fmap option_fmap option_map].
    apply wp_bind, wp_ret. rewrite decide_True by done.
    eapply on_state_refines; [by eapply with_cur_mrepr|exact He|exact Hf].
  - eapply (wp_on_buf _ _ _ _ s); [apply find_v_refines|apply Hat|unfold a_find_v; by rewrite Hpos|].
    intros b' Hb'. apply wp_bind.
    destruct (decide (msgName m = COM_MESSAGE_REQ)) as [Hreq|]; cycle 1.
    { apply wp_ret. rewrite decide_False by tauto. injection Hf as <- <-. apply wp_ret.
      split; [done|]. exists s. destruct Hat. by split. }
    destruct (decide _) as [Hlen|] in Hf; [|done].
    destruct Hat as [Hb Hh (Hmx & Hds & Hlv & Ht)].
    destruct w as [b h t], a as [l liv t2]. cbn [mTSState states tmr txns living a_tmr] in *. subst t2.
    pose proof (Forall2_length _ _ _ (hp_entries _ _ _ Hh)) as Hlens.
    set (s0 := new_TTransState (negb fromwire) (transID m)) in *.
    destruct (heap_repr_push h (ents s) l s0 now (c_string (transID m)) Hh) as [Hpn Hh'].
    set (p := fresh ({[NULL]} ∪ dom h : gset ptr)) in *.
    apply wp_bind. unfold new_state. unfold wp at 1. cbn [states]. fold p. cbn [mTSState tmr].
    apply wp_bind.
    eapply (wp_on_buf _ _ _ _ s); [apply push_refines|exact Hb'| |].
    { unfold a_push. rewrite Hpos, decide_False by (intros [? ?]; done).
      rewrite decide_False by (rewrite Hmx; lia). rewrite decide_True by lia.
      rewrite decide_False by (rewrite Hmx; lia). done. }
    intros b2 Hb2. cbn [states tmr].
    apply wp_ret. rewrite decide_True by done.
    eapply (on_state_refines _ _ _ _ (length l) (new_xval now (c_string (transID m)) p 0));
      cycle 2; [exact Hf|split; [exact Hb2|exact Hh'|done]|].
    cbn [ents with_ents]. rewrite lookup_app_r, Hlens, Nat.sub_diag by lia. done.
Qed.

Lemma processTM_timer_refines tk para : mrefines (processTM_timer tk para) (a_timer tk para).
Proof.
  intros w a r a' (s & Hat) Hf. unfold processTM_timer, a_timer in *.
  destruct para as [b|]; [|done]. cbv zeta.
  destruct (decide (0 < tk)%Z); cycle 1.
  { injection Hf as <- <-. apply wp_ret. split; [done|by exists s]. }
  rewrite decide_True by (unfold CStr_size; lia).
  pose proof (kpos_tpos _ _ _ (c_string b) (hp_entries _ _ _ (mr_heap _ _ _ Hat))) as Hpos.
  apply wp_bind. destruct (tpos (c_string b) (txns a)) as [i|] eqn:Hi.
  - destruct (entry_at _ _ _ _ _ Hat Hi) as (e & He & Hk & Hnn).
    eapply (wp_on_buf _ _ _ _ s); [apply find_v_refines|apply Hat|unfold a_find_v; by rewrite Hk, He|].
    intros b' Hb'. cbn [fmap option_fmap option_map]. rewrite decide_True by done.
    eapply on_state_refines; [by eapply with_cur_mrepr|exact He|exact Hf].
  - eapply (wp_on_buf _ _ _ _ s); [apply find_v_refines|apply Hat|unfold a_find_v; by rewrite Hpos|].
    intros b' Hb'. injection Hf as <- <-. apply wp_ret.
    split; [done|]. exists s. destruct Hat. by split.
Qed.

(** [delete state] of the entry just popped. *)
Lemma delete_state_repr s w e x l liv es c :
  xrepr (mTSState w) (with_ents es c s) → heap_repr (states w) (e :: es) (x :: l) →
  a_max s = 0%Z ∧ a_destroy s = false ∧ a_living s = liv →
  states w !! x_value e = Some (x_st x) ∧
  wp (delete_state (x_value e)) (λ _ w', mrepr w' (AMach l liv (stop_timer (x_st x) (tmr w)))) w.
Proof.
  intros Hb Hh (Hmx & Hds & Hlv). destruct w as [b h t]. cbn [mTSState states tmr] in *.
  assert (Hl : h !! x_value e = Some (x_st x)).
  { destruct Hh as [He _ _ _]. apply Forall2_cons in He as [(_ & _ & ?) _]. done. }
  split; [done|]. unfold delete_state. apply wp_bind. unfold wp at 1, on_state.
  cbn [states mTSState tmr]. rewrite Hl.
  assert (∃ s', TTransState_destroy (x_st x, t) = Some (tt, (s', stop_timer (x_st x) t))) as (s' & ->).
  { unfold TTransState_destroy, stop_timer, timer_del, put, get, gets, modify, mbind, M_bind, mret, M_ret.
    cbn. destruct (decide (timer (x_st x) ≠ 0)%Z); cbn; destruct (msg (x_st x)); cbn; by eexists. }
  apply wp_modify. cbn [states mTSState tmr].
  exists (with_ents es c s). split; [exact Hb| |done].
  by eapply heap_repr_pop.
Qed.

Lemma expire_loop_refines clock t fuel i s w a r a' :
  mrepr_at s w a → length (txns a) < fuel →
  a_expire_loop clock i t (living a) (txns a) (a_tmr a) = Some (r, a') →
  wp (expire_loop fuel clock i t) (λ r' w', r' = r ∧ mrepr w' a') w.
Proof.
  revert i s w a. induction fuel as [|fuel IH]; intros i s w [l liv t2] Hat Hf Hrun; [lia|].
  cbn [txns living a_tmr] in *. cbn [expire_loop]. apply wp_bind.
  pose proof Hat as [Hb Hh (Hmx & Hds & Hlv & Ht)]. cbn [txns living a_tmr] in *. subst t2.
  destruct l as [|x l].
  { destruct Hh as [He ? ? ?]. apply Forall2_nil_inv_r in He.
    eapply (wp_on_buf _ _ _ _ s); [apply pop_front_old_v_refines|exact Hb| |].
    { unfold a_reading_of, a_pop_front_old. by rewrite He. }
    intros b' Hb'. apply wp_ret. injection Hrun as <- <-. split; [done|]. exists s.
    destruct Hat. by split. }
  pose proof (hp_entries _ _ _ Hh) as He. destruct (ents s) as [|e es] eqn:Hes; [by inversion He|].
  apply Forall2_cons in He as [(Hk & Htm & Hl) _].
  cbn [a_expire_loop] in Hrun.
  assert (Hiff : expired (a_living s) (clock i) t e ↔ txn_expired liv (clock i) t x).
  { unfold expired, txn_expired. by rewrite Hlv, Htm. }
  destruct (decide (txn_expired liv (clock i) t x)) as [Hexp|Hexp]; cycle 1.
  { eapply (wp_on_buf _ _ _ _ s); [apply pop_front_old_v_refines|exact Hb| |].
    { unfold a_reading_of, a_pop_front_old. rewrite Hes, decide_False by (by rewrite Hiff). done. }
    intros b' Hb'. apply wp_ret. injection Hrun as <- <-. split; [done|].
    exists s. split; [done|by rewrite Hes|done]. }
  eapply (wp_on_buf _ _ _ _ s); [apply pop_front_old_v_refines|exact Hb| |].
  { unfold a_reading_of, a_pop_front_old. rewrite Hes, decide_True by (by rewrite Hiff).
    unfold a_pop_front. rewrite Hes. done. }
  intros b' Hb'. cbn [fst snd head fmap option_fmap option_map].
  destruct (delete_state_repr s (Machine b' (states w) (tmr w)) e x l liv es (Some (at_first es))
    Hb' Hh ltac:(done)) as [Hst Hdel]. cbn [states tmr] in Hst, Hdel.
  apply wp_bind. unfold wp at 1. cbn [states]. rewrite Hst.
  assert (Hnext : a_expire_loop clock (S i) t liv l (stop_timer (x_st x) (tmr w)) = Some (r, a') →
    wp (delete_state (x_value e) ;; expire_loop fuel clock (S i) t)
      (λ r' w', r' = r ∧ mrepr w' a') (Machine b' (states w) (tmr w))).
  { intros Hr. apply wp_bind. eapply wp_mono; [exact Hdel|]. intros [] w' (s' & Hat').
    eapply IH; [exact Hat'|cbn in *; lia|exact Hr]. }
  unfold unanswered in Hrun.
  destruct (decide (0 < ts_num (tsstate (x_st x)) < 3)%Z) as [Hrng|Hrng];
    [rewrite (bool_decide_true _ Hrng) in Hrun|rewrite (bool_decide_false _ Hrng) in Hrun].
  - destruct (tssend (x_st x)); [|by apply Hnext].
    destruct (msg (x_st x)) as [m|]; [|by apply Hnext]. cbn in Hrun.
    destruct (genComMsgResp m 408) as [resp|]; [|done]. cbn in Hrun. simplify_eq.
    apply wp_bind. cbn. apply wp_ret, wp_bind. eapply wp_mono; [exact Hdel|].
    intros [] w' Hw'. by apply wp_ret.
  - rewrite andb_false_r in Hrun. by apply Hnext.
Qed.

Lemma processTM_expire_refines clock t : mrefines (processTM_expire clock t) (a_expire clock t).
Proof.
  intros w a r a' (s & Hat) Hf. unfold processTM_expire. apply wp_bind, wp_gets.
  eapply expire_loop_refines; [exact Hat| |exact Hf].
  pose proof (mr_heap _ _ _ Hat) as [He Hd Hn Hdom].
  pose proof (Forall2_length _ _ _ He) as Hlen.
  assert (length (x_value <$> ents s) ≤ size (states w)) as Hsz; [|rewrite length_fmap in Hsz; lia].
  rewrite <- size_dom, <- (size_list_to_set (C:=gset ptr) _ Hd).
  apply subseteq_size. intros p Hp%elem_of_list_to_set.
  apply list_elem_of_fmap in Hp as (e & -> & Hin). apply list_elem_of_lookup in Hin as [i Hi].
  destruct (Forall2_lookup_l _ _ _ _ _ He Hi) as (x & _ & _ & _ & Hl). by eapply elem_of_dom_2.
Qed.
End refinement.

(** ** Runs *)

(** What happens to a machine: a message from the wire or from the
    application, a timer of the service running out, its timeout message being
    handled, the maintenance call. *)
Inductive event :=
  | EMsg (fromwire : bool) (now : Z) (m : option TUniNetMsg)
  | ERunsOut (tk : Z)
  | ETimer (tk : Z) (para : option bytes)
  | EExpire (clock : nat → Z) (currenttime : Z).

Section runs.
Context {T : Type} `{ResendTimer T}.
Implicit Types (w : machine T) (a : amach T) (l : list txn) (id : bytes).

Definition step (e : event) : M (machine T) outcome :=
  match e with
  | EMsg fromwire now m => processTM fromwire now m
  | ERunsOut tk => modify (λ w, Machine (mTSState w) (states w) (runs_out tk (tmr w))) ;;
                   mret (TSC_NULL, None)
  | ETimer tk para => processTM_timer tk para
  | EExpire clock t => processTM_expire clock t
  end.
Fixpoint run (es : list event) : M (machine T) (list outcome) :=
  match es with
  | [] => mret []
  | e :: es => o ← step e; os ← run es; mret (o :: os)
  end.

Definition a_step (e : event) a : option (outcome * amach T) :=
  match e with
  | EMsg fromwire now m => a_msg fromwire now m a
  | ERunsOut tk => Some ((TSC_NULL, None), AMach (txns a) (living a) (runs_out tk (a_tmr a)))
  | ETimer tk para => a_timer tk para a
  | EExpire clock t => a_expire clock t a
  end.
Fixpoint a_run (es : list event) a : option (list outcome * amach T) :=
  match es with
  | [] => Some ([], a)
  | e :: es => '(o, a') ← a_step e a; '(os, a'') ← a_run es a'; Some (o :: os, a'')
  end.

Lemma step_refines e : mrefines (step e) (a_step e).
Proof.
  destruct e as [fw now m|tk|tk para|clock t]; simpl.
  - apply processTM_refines.
  - intros w a r a' (s & [Hb Hh (? & ? & ? & Ht)]) [= <- <-]. cbn. split; [done|].
    exists s. split; [done|done|]. cbn. by rewrite Ht.
  - apply processTM_timer_refines.
  - apply processTM_expire_refines.
Qed.
Lemma run_refines es : mrefines (run es) (a_run es).
Proof.
  induction es as [|e es IH]; intros w a r a' Hw Hf; cbn [run a_run] in *.
  { injection Hf as <- <-. apply wp_ret. done. }
  destruct (a_step e a) as [[o a1]|] eqn:He; [|done]. cbn in Hf.
  destruct (a_run es a1) as [[os a2]|] eqn:Hes; [|done]. cbn in Hf. injection Hf as <- <-.
  apply wp_bind. eapply wp_mono; [by eapply step_refines|]. intros ? w1 [-> Hw1].
  apply wp_bind. eapply wp_mono; [by eapply IH|]. intros ? w2 [-> Hw2]. by apply wp_ret.
Qed.

Lemma new_machine_repr (t : T) : mrepr (new_machine t) (AMach [] 172800 t).
Proof.
  exists (ABuf [] (Some None) NULL 0%Z false 172800%Z).
  split; [apply create_xrepr| |done].
  split; [constructor|constructor|by apply not_elem_of_nil|]. intros p [? Hp]. done.
Qed.

(** *** Looking up a transaction *)
Definition txn_of id a : option TTransState := i ← tpos id (txns a); x_st <$> txns a !! i.

Lemma tpos_insert id l i x s :
  l !! i = Some x → tpos id (<[i := Txn (x_id x) (x_since x) s]> l) = tpos id l.
Proof.
  unfold tpos. revert i. induction l as [|y l IH]; intros [|i] Hi; simpl in *; try done.
  - by simplify_eq.
  - by rewrite IH.
Qed.
Lemma tpos_lookup id l i : tpos id l = Some i → ∃ x, l !! i = Some x ∧ x_id x = id.
Proof.
  unfold tpos. revert i. induction l as [|y l IH]; intros i; simpl; [done|].
  case_bool_decide as Hy; [intros [= <-]; by exists y|].
  intros (j & Hj & ->)%fmap_Some. by apply IH.
Qed.
Lemma tpos_None id l : tpos id l = None → id ∉ x_id <$> l.
Proof.
  unfold tpos. induction l as [|y l IH]; simpl; [set_solver|].
  case_bool_decide as Hy; [done|]. intros Hn%fmap_None. rewrite elem_of_cons. naive_solver.
Qed.
Lemma tpos_app id l x : tpos id (l ++ [x]) =
  match tpos id l with Some i => Some i
  | None => if decide (x_id x = id) then Some (length l) else None end.
Proof.
  unfold tpos. induction l as [|y l IH]; simpl.
  - rewrite bool_decide_decide. by case_decide.
  - case_bool_decide; [done|]. rewrite IH. destruct (find_pos _ l); [done|]. by case_decide.
Qed.

(** One call on a transaction: the others are as they were. *)
Lemma at_txn_effect {A} i (m : M (TTransState * T) A) a r a' id :
  tpos id (txns a) = Some i → at_txn i m a = Some (r, a') →
  ∃ s s', txn_of id a = Some s ∧ m (s, a_tmr a) = Some (r, (s', a_tmr a')) ∧
    txn_of id a' = Some s' ∧ living a' = living a ∧
    (∀ id', id' ≠ id → txn_of id' a' = txn_of id' a) ∧
    ∃ x, txns a !! i = Some x ∧ x_id x = id ∧ s = x_st x ∧
         txns a' = <[i := Txn id (x_since x) s']> (txns a).
Proof.
  intros Hp Hat. destruct (tpos_lookup _ _ _ Hp) as (x & Hx & <-). unfold at_txn in Hat.
  rewrite Hx in Hat. cbn in Hat.
  destruct (m (x_st x, a_tmr a)) as [[r0 [s' t']]|] eqn:Hm; [|done]. injection Hat as -> <-.
  assert (i < length (txns a)) by (by eapply lookup_lt_Some).
  exists (x_st x), s'. unfold txn_of. cbn [txns a_tmr living]. split_and!; [by rewrite Hp; cbn; rewrite Hx|done| |done| |].
  - rewrite tpos_insert, Hp by done. cbn. by rewrite list_lookup_insert_eq.
  - intros id' Hid. rewrite tpos_insert by done. destruct (tpos id' (txns a)) as [j|] eqn:Hj; [|done].
    cbn. destruct (tpos_lookup _ _ _ Hj) as (y & Hy & Hyid).
    rewrite list_lookup_insert_ne; [done|]. intros ->. by simplify_eq.
  - by exists x.
Qed.
End runs.

(** ** Invariants of runs *)
Definition ev_ok (e : event) : Prop :=
  match e with
  | EMsg _ _ (Some m) => msg_ok m = true
  | ETimer _ para => is_Some para
  | _ => True
  end.
Definition txn_ok (x : txn) : Prop := ts_inv (x_st x) ∧ c_string (ttransID (x_st x)) = x_id x.
Definition ainv {T} (a : amach T) : Prop := Forall txn_ok (txns a).

Section invariants.
Context {T : Type} `{ResendTimer T}.
Implicit Types (w : machine T) (a : amach T) (l : list txn) (id : bytes).

Lemma at_txn_ok {A} id i (m : M (TTransState * T) A) a :
  ainv a → tpos id (txns a) = Some i →
  (∀ s t, ts_inv s → ∃ r s' t', m (s, t) = Some (r, (s', t')) ∧ ts_inv s' ∧ ttransID s' = ttransID s) →
  ∃ r a', at_txn i m a = Some (r, a') ∧ ainv a' ∧ length (txns a') = length (txns a).
Proof.
  intros Ha Hp Hm. destruct (tpos_lookup _ _ _ Hp) as (x & Hx & Hid).
  destruct (Forall_lookup_1 _ _ _ _ Ha Hx) as [Hinv Htid].
  destruct (Hm (x_st x) (a_tmr a) Hinv) as (r & s' & t' & Hr & Hinv' & Htid').
  unfold at_txn. rewrite Hx. cbn. rewrite Hr. do 2 eexists. split; [done|]. split.
  - apply Forall_insert; [done|]. split; [done|]. cbn. congruence.
  - cbn. apply length_insert.
Qed.

Lemma TS_CHANGE_total m s t : ts_inv s → msg_ok m = true →
  ∃ o s' t', TS_CHANGE (Some m) (s, t) = Some (o, (s', t')) ∧ ts_inv s' ∧ ttransID s' = ttransID s.
Proof.
  intros Hs Hm. destruct (wp_elim _ _ _ (TS_CHANGE_ok m s t Hs Hm)) as ([c r] & [s' t'] & Hr & Hi & _).
  exists (c, r), s', t'. split_and!; [done|done|]. by apply TS_CHANGE_moves in Hr as (_ & ? & _).
Qed.
Lemma TS_CHANGE_timer_total k s t : ts_inv s →
  ∃ o s' t', TS_CHANGE_timer k (s, t) = Some (o, (s', t')) ∧ ts_inv s' ∧ ttransID s' = ttransID s.
Proof.
  intros Hs. destruct (wp_elim _ _ _ (TS_CHANGE_timer_ok k s t Hs)) as (o & [s' t'] & Hr & Hi & _ & ? & _).
  by exists o, s', t'.
Qed.

Lemma unanswered_ok s m : ts_inv s → unanswered s = Some m → msg_ok m = true.
Proof.
  unfold unanswered, ts_inv, idle, held.
  destruct (tssend s), (tsstate s); cbn; naive_solver.
Qed.

Lemma a_expire_ok clock i t liv l t0 : Forall txn_ok l →
  ∃ o a', a_expire_loop clock i t liv l t0 = Some (o, a') ∧ ainv a' ∧
    length (txns a') ≤ length l.
Proof.
  revert i t0. induction l as [|x l IH]; intros i t0 Hl; cbn [a_expire_loop].
  { do 2 eexists. split; [done|]. by split. }
  apply Forall_cons in Hl as [[Hx Hid] Hl]. case_decide.
  - destruct (unanswered (x_st x)) as [m|] eqn:Hu.
    + destruct (genComMsgResp_ok m 408) as (r & -> & _); [by eapply unanswered_ok|]. cbn.
      do 2 eexists. split; [done|]. split; [done|]. cbn. lia.
    + destruct (IH (S i) (stop_timer (x_st x) t0) Hl) as (o & a' & Hr & ? & ?).
      exists o, a'. split_and!; [done|done|cbn; lia].
  - do 2 eexists. split; [done|]. split; [by constructor|done].
Qed.

Lemma a_step_ok e a : ainv a → ev_ok e → (Z.of_nat (length (txns a)) + 1 < 2 ^ 32)%Z →
  ∃ o a', a_step e a = Some (o, a') ∧ ainv a' ∧ length (txns a') ≤ S (length (txns a)).
Proof.
  intros Ha He Hlen.
  assert (Hskip : ∃ o a', (Some ((TSC_NULL, None), a) : option (outcome * amach T)) = Some (o, a') ∧ ainv a' ∧
    length (txns a') ≤ S (length (txns a))) by (do 2 eexists; split; [done|]; split; [done|lia]).
  destruct e as [fw now [m|]|tk|tk para|clock t]; cbn [a_step a_msg a_timer] in *; try done.
  - destruct (hasTransId m); [|done].
    destruct (tpos (c_string (transID m)) (txns a)) as [i|] eqn:Hi.
    { destruct (at_txn_ok _ _ (TS_CHANGE (Some m)) a Ha Hi) as (r & a' & -> & ? & ?).
      { intros. by apply TS_CHANGE_total. }
      do 2 eexists. split; [done|]. split; [done|lia]. }
    case_decide as Hreq; [|done]. rewrite decide_True by done.
    set (a1 := AMach _ _ _).
    destruct (at_txn_ok (c_string (transID m)) (length (txns a)) (TS_CHANGE (Some m)) a1) as (r & a' & -> & ? & Hl).
    + apply Forall_app. split; [done|]. constructor; [|done]. split; [apply new_inv|done].
    + subst a1. cbn [txns]. rewrite tpos_app, Hi. cbn. by rewrite decide_True.
    + intros. by apply TS_CHANGE_total.
    + do 2 eexists. split; [done|]. split; [done|]. rewrite Hl. subst a1. cbn.
      rewrite length_app. cbn. lia.
  - do 2 eexists. split; [done|]. split; [done|]. cbn. lia.
  - destruct He as [b ->]. unfold a_timer. destruct (decide (0 < tk)%Z); [|exact Hskip].
    destruct (tpos (c_string b) (txns a)) as [i|] eqn:Hi; [|exact Hskip].
    destruct (at_txn_ok _ _ (TS_CHANGE_timer tk) a Ha Hi) as (r & a' & -> & ? & ?).
    { intros. by apply TS_CHANGE_timer_total. }
    do 2 eexists. split; [done|]. split; [done|lia].
  - destruct (a_expire_ok clock 0 t (living a) _ (a_tmr a) Ha) as (o & a' & Hr & ? & ?).
    exists o, a'. split_and!; [done|done|lia].
Qed.

Lemma a_run_ok es a : ainv a → Forall ev_ok es →
  (Z.of_nat (length (txns a) + length es) < 2 ^ 32)%Z →
  ∃ os a', a_run es a = Some (os, a') ∧ ainv a' ∧ length os = length es.
Proof.
  revert a. induction es as [|e es IH]; intros a Ha Hes Hlen; cbn [a_run].
  { by do 2 eexists. }
  apply Forall_cons in Hes as [He Hes]. cbn [length] in Hlen.
  destruct (a_step_ok e a Ha He) as (o & a1 & -> & Ha1 & Hl1); [lia|]. cbn.
  destruct (IH a1 Ha1 Hes) as (os & a2 & -> & Ha2 & Hl2); [lia|]. cbn.
  do 2 eexists. split; [done|]. split; [done|]. cbn. lia.
Qed.

(** *** How often a request or a response is forwarded
    [id] is a C string: it stands for all the ids that begin with it and a zero. *)
Definition forwards (name : Z) id (e : event) (o : outcome) : nat :=
  match e with
  | EMsg _ _ (Some m) =>
      if decide (hasTransId m = true ∧ c_string (transID m) = id ∧ msgName m = name ∧ o.1 = TSC_FORWARD)
      then 1 else 0
  | _ => 0
  end.
Fixpoint count_forwards (name : Z) id (es : list event) (os : list outcome) : nat :=
  match es, os with
  | e :: es, o :: os => forwards name id e o + count_forwards name id es os
  | _, _ => 0
  end.
Definition no_expiry (e : event) : Prop := match e with EExpire _ _ => False | _ => True end.

Definition started id a : nat :=
  match txn_of id a with Some s => if decide (tsstate s = TS_INIT) then 0 else 1 | None => 0 end.
Definition finished id a : nat :=
  match txn_of id a with Some s => if decide (tsstate s = TS_TERMINATED) then 1 else 0 | None => 0 end.

Lemma started_finished id a : finished id a ≤ started id a ≤ 1.
Proof. unfold started, finished. destruct (txn_of id a) as [s|]; [|lia]. repeat case_decide; try lia; congruence. Qed.

(** One message through one automaton. *)
Lemma TS_CHANGE_counts m s t o s' t' :
  TS_CHANGE (Some m) (s, t) = Some (o, (s', t')) →
  let st s := if decide (tsstate s = TS_INIT) then 0 else 1 in
  let fi s := if decide (tsstate s = TS_TERMINATED) then 1 else 0 in
  st s + (if decide (msgName m = COM_MESSAGE_REQ ∧ o.1 = TSC_FORWARD) then 1 else 0) = st s' ∧
  fi s + (if decide (msgName m = COM_MESSAGE_RSP ∧ o.1 = TSC_FORWARD) then 1 else 0) ≤ fi s'.
Proof.
  destruct o as [c r]. intros (_ & _ & Hmono & Hfw & Hinit & _)%TS_CHANGE_moves. cbn [fst] in *. cbv zeta.
  assert (Hname : c = TSC_FORWARD →
    msgName m = COM_MESSAGE_REQ ∧ tsstate s = TS_INIT ∧ tsstate s' ≠ TS_INIT ∨
    msgName m = COM_MESSAGE_RSP ∧ (0 < ts_num (tsstate s) < 3)%Z ∧ tsstate s' = TS_TERMINATED).
  { intros Hc. destruct (Hfw Hc) as (? & [= <-] & ?). done. }
  assert (Hi : tsstate s = TS_INIT → tsstate s' ≠ TS_INIT → c = TSC_FORWARD ∧ msgName m = COM_MESSAGE_REQ).
  { intros Hs Hs'. destruct (Hinit Hs Hs') as (? & ? & [= <-] & ?). done. }
  clear Hfw Hinit. unfold COM_MESSAGE_REQ, COM_MESSAGE_RSP in *.
  destruct (decide (c = TSC_FORWARD)) as [->|Hc].
  - destruct (Hname eq_refl) as [(-> & Hs & Hs')|(-> & Hs & Hs')].
    + rewrite Hs. destruct (tsstate s'); cbn; repeat case_decide; try done; naive_solver lia.
    + rewrite Hs'. destruct (tsstate s); cbn in Hs; try lia; cbn; repeat case_decide; try done; naive_solver lia.
  - rewrite (decide_False (P:=_ ∧ c = _)), (decide_False (P:=_ ∧ c = _)) by tauto.
    destruct (tsstate s), (tsstate s'); cbn in *; repeat case_decide; first [done|lia|naive_solver lia].
Qed.
End invariants.

Section counting.
Context {T : Type} `{ResendTimer T}.
Implicit Types (w : machine T) (a : amach T) (l : list txn) (id : bytes).

(** A message only concerns the transaction it names. *)
Lemma a_msg_effect fw now m a o a' :
  a_msg fw now (Some m) a = Some (o, a') →
  o = (TSC_NULL, None) ∧ a' = a ∨
  hasTransId m = true ∧ ∃ s s' t0 t', TS_CHANGE (Some m) (s, t0) = Some (o, (s', t')) ∧
    txn_of (c_string (transID m)) a' = Some s' ∧
    (txn_of (c_string (transID m)) a = Some s ∨
     txn_of (c_string (transID m)) a = None ∧ tsstate s = TS_INIT) ∧
    ∀ id, id ≠ c_string (transID m) → txn_of id a' = txn_of id a.
Proof.
  intros Hf. unfold a_msg in Hf. destruct (hasTransId m); [|left; by simplify_eq].
  destruct (tpos (c_string (transID m)) (txns a)) as [i|] eqn:Hi.
  - right. split; [done|].
    destruct (at_txn_effect _ _ _ _ _ _ Hi Hf) as (s & s' & Hs & Hr & Hs' & _ & Ho & _).
    exists s, s'. do 2 eexists. split_and!; [exact Hr|done|by left|done].
  - case_decide; [|left; by simplify_eq]. case_decide; [|done]. right. split; [done|].
    eapply at_txn_effect in Hf as (s & s' & Hs & Hr & Hs' & _ & Ho & _).
    2: { cbn [txns]. rewrite tpos_app, Hi. cbn. by rewrite decide_True. }
    exists s, s'. do 2 eexists. split_and!; [exact Hr|done| |].
    + right. split; [unfold txn_of; by rewrite Hi|]. unfold txn_of in Hs. cbn [txns] in Hs.
      rewrite tpos_app, Hi in Hs. cbn in Hs. rewrite decide_True in Hs by done. cbn in Hs.
      rewrite lookup_app_r, Nat.sub_diag in Hs by lia. cbn in Hs. by simplify_eq.
    + intros id Hid. rewrite (Ho id Hid). unfold txn_of. cbn [txns]. rewrite tpos_app.
      destruct (tpos id (txns a)) as [j|] eqn:Hj.
      * cbn. rewrite lookup_app_l; [done|]. destruct (tpos_lookup _ _ _ Hj) as (? & ? & _).
        by eapply lookup_lt_Some.
      * cbn. rewrite decide_False; [done|]. by intros <-.
Qed.

Lemma timer_keeps id k para a o a' : ainv a →
  a_timer k para a = Some (o, a') → started id a' = started id a ∧ finished id a' = finished id a.
Proof.
  intros Ha Hf. unfold a_timer in Hf. destruct para as [b|]; [|done].
  case_decide; [|by simplify_eq].
  destruct (tpos (c_string b) (txns a)) as [i|] eqn:Hi; [|by simplify_eq].
  destruct (at_txn_effect _ _ _ _ _ _ Hi Hf) as (s & s' & Hs & Hr & Hs' & _ & Ho & x & Hx & _ & -> & _).
  destruct (Forall_lookup_1 _ _ _ _ Ha Hx) as [Hinv _].
  destruct (wp_elim _ _ _ (TS_CHANGE_timer_ok k _ (a_tmr a) Hinv)) as (o2 & w2 & Hr2 & _ & _ & _ & Hst & _).
  rewrite Hr in Hr2. simplify_eq. cbn in Hst.
  unfold started, finished. destruct (decide (id = c_string b)) as [->|Hid]; [|by rewrite Ho].
  rewrite Hs, Hs', Hst. done.
Qed.

Lemma a_step_counts id e a o a' : ainv a → no_expiry e →
  a_step e a = Some (o, a') →
  started id a + forwards COM_MESSAGE_REQ id e o = started id a' ∧
  finished id a + forwards COM_MESSAGE_RSP id e o ≤ finished id a'.
Proof.
  intros Ha He Hf. destruct e as [fw now [m|]|tk|tk para|]; cbn [a_step] in Hf; [| | | |done].
  - apply a_msg_effect in Hf as [[-> ->]|(Htr & s & s' & t0 & t' & Hr & Hs' & Hs & Ho)].
    { unfold forwards. rewrite !decide_False by naive_solver. lia. }
    unfold forwards. destruct (decide (id = c_string (transID m))) as [->|Hid].
    + pose proof (TS_CHANGE_counts _ _ _ _ _ _ Hr) as [Hq Hp].
      assert (∀ name, (if decide (hasTransId m = true ∧ c_string (transID m) = c_string (transID m) ∧ msgName m = name ∧ o.1 = TSC_FORWARD)
         then 1 else 0) = (if decide (msgName m = name ∧ o.1 = TSC_FORWARD) then 1 else 0)) as Hn.
      { intros name. repeat case_decide; naive_solver. }
      rewrite !Hn. unfold started, finished. rewrite Hs'.
      destruct Hs as [->|[-> Hin]]; [done|]. rewrite Hin in Hq, Hp. done.
    + rewrite !decide_False by naive_solver. unfold started, finished. rewrite Ho by done. lia.
  - unfold a_msg in Hf. injection Hf as <- <-. cbn [forwards]. lia.
  - injection Hf as <- <-. cbn [forwards]. unfold started, finished, txn_of. cbn [txns]. lia.
  - cbn [forwards]. destruct (timer_keeps id _ _ _ _ _ Ha Hf) as [-> ->]. lia.
Qed.

Lemma a_run_counts id es a os a' : ainv a → Forall ev_ok es → Forall no_expiry es →
  (Z.of_nat (length (txns a) + length es) < 2 ^ 32)%Z →
  a_run es a = Some (os, a') →
  started id a + count_forwards COM_MESSAGE_REQ id es os = started id a' ∧
  finished id a + count_forwards COM_MESSAGE_RSP id es os ≤ finished id a'.
Proof.
  revert a os. induction es as [|e es IH]; intros a os Ha Hes Hne Hlen Hf; cbn [a_run] in Hf.
  { simplify_eq. cbn. lia. }
  apply Forall_cons in Hes as [He Hes]. apply Forall_cons in Hne as [Hn Hne]. cbn [length] in Hlen.
  destruct (a_step_ok e a Ha He) as (o & a1 & Hst & Ha1 & Hl1); [lia|].
  rewrite Hst in Hf. cbn in Hf.
  destruct (a_run es a1) as [[os' a2]|] eqn:Hrun; [|done]. cbn in Hf. simplify_eq.
  destruct (a_step_counts id _ _ _ _ Ha Hn Hst) as [H1 H2].
  destruct (IH a1 os' Ha1 Hes Hne ltac:(lia) Hrun) as [H3 H4]. cbn [count_forwards]. lia.
Qed.
End counting.

(** *** The maintenance loop of a transport task
    ([TPsaRscTask::onTimeOut], [facility/psarsc/psarsctask.C]) *)
Section maintenance.
Context {T : Type} `{ResendTimer T}.
Implicit Types (w : machine T) (a : amach T) (l : list txn) (id : bytes).

(** [do { rt=processTM(resp, currentTime); ... } while(rt!=TSC_NULL)]: the 408
    answers, and those of them the loop passes on to the application (it needs
    a COM header and a COM body). *)
Fixpoint maintain (fuel : nat) (clock : nat → Z) (currentTime : Z) : M (machine T) (list TUniNetMsg * list TUniNetMsg) :=
  match fuel with
  | O => ub
  | S fuel =>
      r ← processTM_expire clock currentTime;
      match r with
      | (TSC_TIMEOUT, Some resp) =>
          rest ← maintain fuel clock currentTime;
          match getComMsgCtrlHdr resp, getComMsgBody resp with
          | Some _, Some _ => mret (resp :: rest.1, resp :: rest.2)
          | _, _ => mret (resp :: rest.1, rest.2)
          end
      | (TSC_NULL, _) => mret ([], [])
      | _ => maintain fuel clock currentTime
      end
  end.

(** The transactions at the front whose time is up, and the rest. *)
Fixpoint expired_prefix (liv now : Z) l : list txn * list txn :=
  match l with
  | x :: l' => if decide (txn_expired liv now now x)
               then let '(p, r) := expired_prefix liv now l' in (x :: p, r) else ([], l)
  | [] => ([], [])
  end.

Lemma a_expire_spec clock i now liv l t0 : now ≠ 0%Z → Forall txn_ok l →
  let '(p, r) := expired_prefix liv now l in
  match omap (λ x, unanswered (x_st x)) p with
  | [] => ∃ t', a_expire_loop clock i now liv l t0 = Some ((TSC_NULL, None), AMach r liv t')
  | m :: ms => ∃ resp l' t', a_expire_loop clock i now liv l t0 = Some ((TSC_TIMEOUT, Some resp), AMach l' liv t') ∧
      answers m resp 408 ∧ Forall txn_ok l' ∧ length l' < length l ∧
      ∃ p', expired_prefix liv now l' = (p', r) ∧ omap (λ x, unanswered (x_st x)) p' = ms
  end.
Proof.
  intros Hnow. revert i t0. induction l as [|x l IH]; intros i t0 Hl; cbn [expired_prefix a_expire_loop].
  { cbn. by eexists. }
  apply Forall_cons in Hl as [[Hx Hid] Hl].
  assert (Hiff : txn_expired liv (clock i) now x ↔ txn_expired liv now now x).
  { unfold txn_expired, old_time. by rewrite !decide_False. }
  destruct (decide (txn_expired liv now now x)) as [He|He].
  - rewrite decide_True by tauto. specialize (IH (S i) (stop_timer (x_st x) t0) Hl).
    destruct (expired_prefix liv now l) as [p r] eqn:Hp. cbn [omap list_omap].
    destruct (unanswered (x_st x)) as [m|] eqn:Hu.
    + destruct (genComMsgResp_ok m 408) as (resp & -> & _ & Han); [by eapply unanswered_ok|]. cbn.
      do 3 eexists. split; [done|]. split_and!; [done|done|lia|]. by exists p.
    + destruct (omap _ p) as [|m ms]; [done|].
      destruct IH as (resp & l' & t' & Hr & ? & ? & ? & ?). exists resp, l', t'.
      split_and!; [done|done|done|cbn; lia|done].
  - rewrite decide_False by tauto. cbn. by eexists.
Qed.

Lemma maintain_spec fuel clock now w a : now ≠ 0%Z → mrepr w a → ainv a → length (txns a) < fuel →
  let '(p, r) := expired_prefix (living a) now (txns a) in
  wp (maintain fuel clock now) (λ out w', out.2 = [] ∧
      Forall2 (λ m resp, answers m resp 408) (omap (λ x, unanswered (x_st x)) p) out.1 ∧
      ∃ t', mrepr w' (AMach r (living a) t')) w.
Proof.
  intros Hnow. revert w a. induction fuel as [|fuel IH]; intros w [l liv t] Hw Ha Hf; [lia|].
  cbn [txns living] in *. pose proof (a_expire_spec clock 0 now liv l t Hnow Ha) as Hsp.
  destruct (expired_prefix liv now l) as [p r] eqn:Hp. cbn [maintain]. apply wp_bind.
  destruct (omap (λ x, unanswered (x_st x)) p) as [|m ms].
  - destruct Hsp as (t' & Hrun). eapply wp_mono; [eapply processTM_expire_refines; [exact Hw|exact Hrun]|].
    intros o w' [-> Hw']. apply wp_ret. cbn. split_and!; [done|constructor|by eexists].
  - destruct Hsp as (resp & l' & t' & Hrun & Han & Hl' & Hlen & p' & Hp' & Hms).
    eapply wp_mono; [eapply processTM_expire_refines; [exact Hw|exact Hrun]|].
    intros o w' [-> Hw']. apply wp_bind.
    specialize (IH w' (AMach l' liv t') Hw' Hl'). cbn [txns living] in IH. rewrite Hp', Hms in IH.
    eapply wp_mono; [apply IH; lia|]. intros [o1 o2] w2 (Ho2 & Ho1 & Hw2). cbn in Ho1, Ho2. subst o2.
    assert (Hb : getComMsgBody resp = None).
    { pose proof (an_body _ _ _ Han) as Hb. unfold getMsgBody, getComMsgBody in *.
      destruct (hasMsgBody resp); [by rewrite Hb|done]. }
    rewrite Hb. destruct (getComMsgCtrlHdr resp); apply wp_ret; cbn; (split_and!; [done|by constructor|done]).
Qed.
End maintenance.

(** *** Who owns the running timers *)
Record tinv {T} `{ResendTimer T} (a : amach T) : Prop := {
  ti_cover : ∀ k, k ∈ pending (a_tmr a) → ∃ i x, txns a !! i = Some x ∧ timer (x_st x) = k;
  ti_range : ∀ i x, txns a !! i = Some x → (0 ≤ timer (x_st x) ≤ serial (a_tmr a))%Z;
  ti_distinct : ∀ i j x y, i ≠ j → txns a !! i = Some x → txns a !! j = Some y →
    timer (x_st x) ≠ 0%Z → timer (x_st x) ≠ timer (x_st y);
}.

Section timers.
Context {T : Type} `{ResendTimerLaws T}.
Implicit Types (a : amach T) (l : list txn) (t : T) (s : TTransState).

(** How a call may move the timer of its transaction. *)
Definition timer_move s t s' t' : Prop :=
  (timer s', t') = (timer s, t) ∨ (timer s', t') = (0%Z, delResendTimer (timer s) t) ∨
  timer s ∉ pending t ∧ (timer s', t') = setResendTimer (CStr_str (ttransID s)) t.

Lemma zero_not_pending t : 0%Z ∉ pending t.
Proof. intros Hp%pending_range. lia. Qed.

Lemma timer_step_move s t s' t' : timer_step s t s' t' → timer_move s t s' t'.
Proof.
  intros [?|[?|[Hz ?]]]; [by left|by right; left|]. right. right. split; [|done].
  rewrite Hz. apply zero_not_pending.
Qed.

Lemma timer_move_serial s t s' t' : timer_move s t s' t' → (serial t < 2 ^ 32 - 1)%Z →
  (serial t ≤ serial t' ≤ serial t + 1)%Z.
Proof.
  intros [[= _ ->]|[[= _ ->]|[_ Hs]]] Hb; [lia| |].
  - destruct (del_pending t (timer s)) as [_ ->]. lia.
  - pose proof (set_fresh t (CStr_str (ttransID s)) Hb) as Hf. rewrite <- Hs in Hf. lia.
Qed.

Lemma tinv_update a i x s' t' :
  tinv a → txns a !! i = Some x → (serial (a_tmr a) < 2 ^ 32 - 1)%Z →
  timer_move (x_st x) (a_tmr a) s' t' →
  tinv (AMach (<[i := Txn (x_id x) (x_since x) s']> (txns a)) (living a) t').
Proof.
  intros [Hc Hr Hd] Hx Hb Hm.
  assert (Hi : i < length (txns a)) by (by eapply lookup_lt_Some).
  pose proof (timer_move_serial _ _ _ _ Hm Hb) as Hser.
  assert (Hlk : ∀ j y, <[i := Txn (x_id x) (x_since x) s']> (txns a) !! j = Some y →
     i = j ∧ y = Txn (x_id x) (x_since x) s' ∨ i ≠ j ∧ txns a !! j = Some y).
  { intros j y. destruct (decide (i = j)) as [<-|Hne].
    - rewrite list_lookup_insert_eq by done. left. by simplify_eq.
    - rewrite list_lookup_insert_ne by done. by right. }
  assert (Hold : ∀ k, k ∈ pending (a_tmr a) → k ≠ timer (x_st x) →
    ∃ j y, <[i := Txn (x_id x) (x_since x) s']> (txns a) !! j = Some y ∧ timer (x_st y) = k).
  { intros k Hk Hne. destruct (Hc k Hk) as (j & y & Hj & Hy). exists j, y. split; [|done].
    rewrite list_lookup_insert_ne; [done|]. intros ->. by simplify_eq. }
  assert (Hself : <[i := Txn (x_id x) (x_since x) s']> (txns a) !! i = Some (Txn (x_id x) (x_since x) s')).
  { by apply list_lookup_insert_eq. }
  (* the new key of [i] is 0, its old one, or one nobody has *)
  assert (Hnew : (0 ≤ timer s' ≤ serial t')%Z ∧
    (timer s' = 0%Z ∨ timer s' = timer (x_st x) ∨ (serial (a_tmr a) < timer s')%Z) ∧
    ∀ k, k ∈ pending t' → k = timer s' ∨ k ∈ pending (a_tmr a) ∧ k ≠ timer (x_st x)).
  { pose proof (Hr _ _ Hx). destruct Hm as [[= Hts Htt]|[[= Hts Htt]|[Hnp Hs]]]; [rewrite Hts, Htt|rewrite Hts, Htt|].
    - split_and!; [lia|lia|by right; left|]. intros k Hk. destruct (decide (k = timer (x_st x))); tauto.
    - destruct (del_pending (a_tmr a) (timer (x_st x))) as [Hp Hse]. rewrite Hp, Hse.
      split_and!; [lia|lia|by left|]. intros k Hk. right. set_solver.
    - pose proof (set_fresh (a_tmr a) (CStr_str (ttransID (x_st x))) Hb) as Hf.
      rewrite <- Hs in Hf. destruct Hf as (Hk & Hse & Hp). rewrite Hp, Hse.
      pose proof (serial_nonneg (a_tmr a)).
      split_and!; [lia|lia|right; right; lia|]. intros k [->%elem_of_singleton|Hkp]%elem_of_union; [by left|].
      right. split; [done|]. by intros ->. }
  destruct Hnew as (Hrg & Hval & Hpend). split; cbn [txns a_tmr living].
  - intros k Hk. destruct (Hpend k Hk) as [->|[Hk' Hne]]; [|by apply Hold]. by do 2 eexists.
  - intros j y Hj. destruct (Hlk _ _ Hj) as [[-> ->]|[_ Hj']]; [done|]. specialize (Hr _ _ Hj'). lia.
  - intros j1 j2 y1 y2 Hne Hj1 Hj2.
    destruct (Hlk _ _ Hj1) as [[-> ->]|[Hn1 Hj1']], (Hlk _ _ Hj2) as [[-> ->]|[Hn2 Hj2']]; cbn [x_st].
    + done.
    + intros Hnz. specialize (Hr _ _ Hj2'). destruct Hval as [?|[Heq|?]]; [done| |lia].
      rewrite Heq in Hnz |- *. by apply (Hd j1 j2).
    + intros Hnz. pose proof (Hr _ _ Hj1'). destruct Hval as [->|[->|?]]; [done| |lia].
      by apply (Hd j1 j2).
    + by apply (Hd j1 j2).
Qed.

Lemma at_txn_tinv id i (m : M (TTransState * T) outcome) a o a' :
  tinv a → tpos id (txns a) = Some i → (serial (a_tmr a) < 2 ^ 32 - 1)%Z →
  (∀ s s' t', txn_of id a = Some s → m (s, a_tmr a) = Some (o, (s', t')) →
     timer_move s (a_tmr a) s' t') →
  at_txn i m a = Some (o, a') → tinv a' ∧ (serial (a_tmr a') ≤ serial (a_tmr a) + 1)%Z.
Proof.
  intros Ht Hp Hb Hm Hat.
  destruct (at_txn_effect _ _ _ _ _ _ Hp Hat) as (s & s' & Hs & Hr & _ & Hlv & _ & x & Hx & Hid & -> & Hl).
  pose proof (Hm _ _ _ Hs Hr) as Hmv. destruct a' as [l' liv' t']. cbn in Hl, Hlv, Hmv |- *. subst.
  split; [by apply tinv_update|]. by eapply timer_move_serial.
Qed.

Lemma tinv_push a x : tinv a → timer (x_st x) = 0%Z →
  tinv (AMach (txns a ++ [x]) (living a) (a_tmr a)).
Proof.
  intros [Hc Hr Hd] Hz.
  assert (Hlk : ∀ j y, (txns a ++ [x]) !! j = Some y → txns a !! j = Some y ∨ y = x).
  { intros j y [?|[_ Hj]]%lookup_app_Some; [by left|]. apply list_lookup_singleton_Some in Hj as [_ ?]. by right. }
  split; cbn [txns a_tmr].
  - intros k Hk. destruct (Hc k Hk) as (i & y & Hi & Hy). exists i, y. split; [|done]. by apply lookup_app_l_Some.
  - intros i y [Hi| ->]%Hlk; [by eapply Hr|]. rewrite Hz. pose proof (serial_nonneg (a_tmr a)). lia.
  - intros i j y y' Hij Hi Hj Hnz. destruct (Hlk _ _ Hi) as [Hi'| ->]; [|done].
    destruct (Hlk _ _ Hj) as [Hj'| ->]; [by apply (Hd i j)|congruence].
Qed.

Lemma tinv_pop x l liv t : tinv (AMach (x :: l) liv t) →
  tinv (AMach l liv (stop_timer (x_st x) t)) ∧ serial (stop_timer (x_st x) t) = serial t.
Proof.
  intros [Hc Hr Hd]. cbn [txns a_tmr] in *. unfold stop_timer.
  assert (Hne : ∀ k, k ∈ pending t → k ≠ timer (x_st x) → ∃ i y, l !! i = Some y ∧ timer (x_st y) = k).
  { intros k Hk Hne. destruct (Hc k Hk) as ([|i] & y & Hi & Hy); cbn in Hi; [by simplify_eq|by exists i, y]. }
  case_decide as Hz.
  - destruct (del_pending t (timer (x_st x))) as [Hp Hs]. split; [|done]. split; cbn [txns a_tmr].
    + intros k. rewrite Hp. intros [Hk Hx]%elem_of_difference. apply Hne; [done|set_solver].
    + intros i y Hi. rewrite Hs. by apply (Hr (S i)).
    + intros i j y y' Hij. apply (Hd (S i) (S j)). congruence.
  - split; [|done]. split; cbn [txns a_tmr].
    + intros k Hk. apply Hne; [done|]. intros ->. rewrite Hz in Hk. by apply (zero_not_pending t).
    + intros i y Hi. by apply (Hr (S i)).
    + intros i j y y' Hij. apply (Hd (S i) (S j)). congruence.
Qed.

Lemma expire_tinv clock i now liv l t o a' :
  tinv (AMach l liv t) → a_expire_loop clock i now liv l t = Some (o, a') →
  tinv a' ∧ serial (a_tmr a') = serial t.
Proof.
  revert i t. induction l as [|x l IH]; intros i t Ht Hf; cbn [a_expire_loop] in Hf.
  { by simplify_eq. }
  destruct (tinv_pop _ _ _ _ Ht) as [Hp Hs].
  case_decide; [|by simplify_eq]. destruct (unanswered (x_st x)) as [m|].
  - destruct (genComMsgResp m 408); cbn in Hf; [|done]. by simplify_eq.
  - rewrite <- Hs. by eapply IH.
Qed.

Definition legal_event (e : event) (t : T) : Prop :=
  match e with ETimer tk _ => tk ∉ pending t | _ => True end.

Lemma a_step_tinv e a o a' :
  ainv a → tinv a → ev_ok e → legal_event e (a_tmr a) → (serial (a_tmr a) < 2 ^ 32 - 1)%Z →
  a_step e a = Some (o, a') → tinv a' ∧ (serial (a_tmr a') ≤ serial (a_tmr a) + 1)%Z.
Proof.
  intros Ha Ht He Hl Hb Hf.
  assert (Hskip : tinv a ∧ (serial (a_tmr a) ≤ serial (a_tmr a) + 1)%Z) by (split; [done|lia]).
  assert (Hch : ∀ m s t s' t' o', ts_inv s → msg_ok m = true →
    TS_CHANGE (Some m) (s, t) = Some (o', (s', t')) → timer_move s t s' t').
  { intros m s t s' t' o' Hs Hm Hr. apply timer_step_move.
    destruct (wp_elim _ _ _ (TS_CHANGE_ok m s t Hs Hm)) as (o2 & w2 & Hr2 & _ & Hts & _).
    rewrite Hr in Hr2. by simplify_eq. }
  assert (Hin : ∀ id s, txn_of id a = Some s → ts_inv s).
  { intros id s. unfold txn_of. intros (i & Hi & Hs)%bind_Some.
    apply fmap_Some in Hs as (x & Hx & ->). by destruct (Forall_lookup_1 _ _ _ _ Ha Hx). }
  destruct e as [fw now [m|]|tk|tk para|clock now]; cbn [a_step a_msg] in Hf.
  - unfold a_msg in Hf. destruct (hasTransId m); [|by simplify_eq].
    destruct (tpos (c_string (transID m)) (txns a)) as [i|] eqn:Hi.
    { eapply at_txn_tinv; [done|exact Hi|done| |exact Hf].
      intros s s' t' Hs. by apply Hch; [eapply Hin|]. }
    case_decide; [|by simplify_eq]. case_decide; [|done].
    pose proof (tinv_push a (Txn (c_string (transID m)) now (new_TTransState (negb fw) (transID m))) Ht eq_refl) as Ht1.
    refine (at_txn_tinv (c_string (transID m)) _ _ _ _ _ Ht1 _ Hb _ Hf).
    { cbn [txns]. rewrite tpos_app, Hi. cbn. by rewrite decide_True. }
    intros s s' t' Hs. apply Hch; [|done]. unfold txn_of in Hs. cbn [txns] in Hs.
    rewrite tpos_app, Hi in Hs. cbn in Hs. rewrite decide_True in Hs by done. cbn in Hs.
    rewrite lookup_app_r, Nat.sub_diag in Hs by lia. cbn in Hs. simplify_eq. apply new_inv.
  - by simplify_eq.
  - simplify_eq. cbn [a_tmr]. destruct (out_pending (a_tmr a) tk) as [Hp Hs]. rewrite Hs. split; [|lia].
    destruct Ht as [Hc Hr Hd]. split; cbn [txns a_tmr]; [|by rewrite Hs|done].
    intros k. rewrite Hp. intros [Hk _]%elem_of_difference. by apply Hc.
  - unfold a_timer in Hf. destruct para as [b|]; [|done]. case_decide; [|by simplify_eq].
    destruct (tpos (c_string b) (txns a)) as [i|] eqn:Hi; [|by simplify_eq].
    eapply at_txn_tinv; [done|exact Hi|done| |exact Hf].
    intros s s' t' Hs Hr.
    destruct (wp_elim _ _ _ (TS_CHANGE_timer_ok tk s (a_tmr a) (Hin _ _ Hs)))
      as (o2 & w2 & Hr2 & _ & _ & _ & _ & Hcase).
    rewrite Hr in Hr2. injection Hr2 as <- <-.
    destruct Hcase as [(_ & [= -> ->] & _)|(Hk & _ & Hset & _)]; [by left|].
    right; right. split; [|done]. rewrite <- Hk. exact Hl.
  - destruct a as [l liv t]. eapply expire_tinv in Hf as [? Hs]; [|exact Ht]. split; [done|].
    cbn in *. lia.
Qed.
End timers.

(** *** The reachable machines *)

(** Runs in which a timeout message is only handled after its timer ran out. *)
Inductive reaches {T} `{ResendTimer T} : machine T → list event → machine T → Prop :=
  | reaches_nil w : reaches w [] w
  | reaches_step w e o w1 es w2 :
      legal_event e (tmr w) → step e w = Some (o, w1) → reaches w1 es w2 → reaches w (e :: es) w2.

Section reach.
Context {T : Type} `{ResendTimerLaws T}.

Lemma reaches_inv es w w2 a :
  reaches w es w2 → mrepr w a → ainv a → tinv a → Forall ev_ok es →
  (Z.of_nat (length (txns a) + length es) < 2 ^ 32)%Z →
  (serial (a_tmr a) + Z.of_nat (length es) < 2 ^ 32)%Z →
  ∃ a2, mrepr w2 a2 ∧ ainv a2 ∧ tinv a2.
Proof.
  intros Hr. revert a. induction Hr as [w|w e o w1 es w2 Hleg Hst Hr IH]; intros a Hw Ha Ht Hes Hl Hs.
  { by exists a. }
  apply Forall_cons in Hes as [He Hes]. cbn [length] in Hl, Hs.
  assert (Htm : tmr w = a_tmr a) by (destruct Hw as (s & [_ _ (_ & _ & _ & ?)]); done).
  destruct (a_step_ok e a Ha He) as (o1 & a1 & Hf & Ha1 & Hl1); [lia|].
  rewrite Htm in Hleg.
  destruct (a_step_tinv _ _ _ _ Ha Ht He Hleg ltac:(lia) Hf) as [Ht1 Hs1].
  pose proof (step_refines e w a o1 a1 Hw Hf) as Hwp. unfold wp in Hwp. rewrite Hst in Hwp.
  destruct Hwp as [_ Hw1]. apply (IH a1); [done..|lia|lia].
Qed.

Lemma new_tinv (t : T) : pending t = ∅ → tinv (AMach [] 172800 t).
Proof.
  intros Hp. split; cbn [txns a_tmr]; [|by intros ? ?..]. intros k. rewrite Hp. set_solver.
Qed.
End reach.


(** ** Properties *)

(** C5: any run of the machine from its constructor (messages from wire and
    application, timers, maintenance, in any order) computes, on the expiring
    buffer and the heap of automata, exactly what the list of transactions
    gives: same outcomes, same timers set and deleted, no lost or dangling
    [TTransState].  Ids are looked up as C strings, up to their first zero
    byte, by the code and in the list. *)
Theorem trans_machine_refinement {T} `{ResendTimer T} (es : list event) (t : T)
    (os : list outcome) (a : amach T) :
  a_run es (AMach [] 172800 t) = Some (os, a) →
  ∃ w, run es (new_machine t) = Some (os, w) ∧ mrepr w a.
Proof.
  intros Hr.
  destruct (wp_elim _ _ _ (run_refines es _ _ _ _ (new_machine_repr t) Hr)) as (os' & w & Hw & -> & Hrep).
  by exists w.
Qed.

(** C1: on well-formed messages no run of the machine has undefined behaviour
    or fails to return, and, until a transaction expires, it forwards the
    request and the response of each transaction id at most once, the response
    only after the request; ids that agree as C strings (up to their first zero
    byte) are one id, whatever bytes follow. *)
Theorem trans_at_most_once {T} `{ResendTimer T} (es : list event) (t : T) :
  Forall ev_ok es → (Z.of_nat (length es) < 2 ^ 32)%Z →
  ∃ os w, run es (new_machine t) = Some (os, w) ∧ length os = length es ∧
    (Forall no_expiry es → ∀ id,
      count_forwards COM_MESSAGE_RSP id es os ≤ count_forwards COM_MESSAGE_REQ id es os ≤ 1).
Proof.
  intros Hes Hlen.
  destruct (a_run_ok es (AMach [] 172800 t)) as (os & a & Hr & Ha & Hl); [by constructor|done|done|].
  destruct (wp_elim _ _ _ (run_refines es _ _ _ _ (new_machine_repr t) Hr)) as (os' & w & Hw & -> & _).
  exists os, w. split_and!; [done|done|]. intros Hne id.
  assert (H0 : ainv (AMach [] 172800 t)) by constructor.
  destruct (a_run_counts id es _ _ _ H0 Hes Hne Hlen Hr) as [Hq Hp].
  pose proof (started_finished id a). assert (Hs0 : started id (AMach [] 172800 t) = 0) by done.
  assert (Hf0 : finished id (AMach [] 172800 t) = 0) by done. lia.
Qed.

(** C19: in every machine reached by a run in which timeouts are handled after
    their timer ran out, each running timer of the service belongs to exactly
    one live transaction: no timer leaks, none is shared. *)
Theorem trans_timers_owned {T} `{ResendTimerLaws T} (es : list event) (t : T) (w : machine T) (k : Z) :
  reaches (new_machine t) es w → Forall ev_ok es → pending t = ∅ →
  (serial t + Z.of_nat (length es) < 2 ^ 32)%Z → k ∈ pending (tmr w) →
  ∃ p s, states w !! p = Some s ∧ timer s = k ∧
    ∀ p' s', states w !! p' = Some s' → timer s' = k → p' = p.
Proof.
  intros Hr Hes Hp Hs Hk. pose proof (serial_nonneg t).
  destruct (reaches_inv es _ w (AMach [] 172800 t) Hr (new_machine_repr t)) as (a & Hw & Ha & Ht);
    [by constructor|by apply new_tinv|done|cbn; lia|cbn; lia|].
  destruct Hw as (s & [_ [He Hd _ Hdom] (_ & _ & _ & Htm)]). rewrite Htm in Hk.
  destruct (ti_cover _ Ht k Hk) as (i & x & Hx & Hxk).
  destruct (Forall2_lookup_r _ _ _ _ _ He Hx) as (e & Hi & _ & _ & Hl).
  exists (x_value e), (x_st x). split_and!; [done|done|]. intros p' s' Hp' Hk'.
  assert (Hpe : p' ∈ x_value <$> ents s) by (apply Hdom; by eexists).
  apply list_elem_of_fmap in Hpe as (e' & -> & Hin).
  apply list_elem_of_lookup in Hin as [j Hj].
  destruct (Forall2_lookup_l _ _ _ _ _ He Hj) as (y & Hy & _ & _ & Hl').
  assert (s' = x_st y) as -> by congruence.
  destruct (decide (i = j)) as [<-|Hne]; [congruence|].
  assert (Hk0 : timer (x_st x) ≠ 0%Z).
  { rewrite Hxk. intros ->. by apply (zero_not_pending (a_tmr a)). }
  exfalso. apply (ti_distinct _ Ht i j x y Hne Hx Hy); congruence.
Qed.

(** C36: the maintenance loop takes every transaction whose time is up (from
    the oldest on), deletes it, and synthesises one 408 answer for each client
    that was still waiting for its first answer, in order; but none of these
    answers has a body, so the loop never passes one on to the application. *)
Theorem trans_expiry_unreported {T} `{ResendTimer T} (w : machine T) (a : amach T)
    (clock : nat → Z) (now : Z) (fuel : nat) :
  mrepr w a → ainv a → now ≠ 0%Z → length (txns a) < fuel →
  ∃ answers408 w' t', maintain fuel clock now w = Some ((answers408, []), w') ∧
    Forall2 (λ m r, answers m r 408)
      (omap (λ x, unanswered (x_st x)) (expired_prefix (living a) now (txns a)).1) answers408 ∧
    mrepr w' (AMach (expired_prefix (living a) now (txns a)).2 (living a) t').
Proof.
  intros Hw Ha Hn Hf. pose proof (maintain_spec fuel clock now w a Hn Hw Ha Hf) as Hsp.
  destruct (expired_prefix (living a) now (txns a)) as [p r].
  destruct (wp_elim _ _ _ Hsp) as ([o1 o2] & w' & Hr & Ho2 & Ho1 & t' & Hw'). cbn in Ho1, Ho2. subst o2.
  by exists o1, w', t'.
Qed.

(** The timeout of a running resend timer hands back a whole copy of the
    kept message and sets the timer again; any other key changes nothing; and
    neither the state nor the role of the transaction moves. *)
Theorem trans_timer_resends {T} `{ResendTimer T} (key : Z) (s : TTransState) (t : T) :
  ts_inv s →
  ∃ out s' t', TS_CHANGE_timer key (s, t) = Some (out, (s', t')) ∧ ts_inv s' ∧
    tssend s' = tssend s ∧ tsstate s' = tsstate s ∧
    (key ≠ timer s → out = (TSC_NULL, None) ∧ s' = s ∧ t' = t) ∧
    (key = timer s → (0 < key)%Z → tssend s = true ∨ tsstate s = TS_TERMINATED →
      (timer s', t') = setResendTimer (CStr_str (ttransID s)) t ∧
      ∃ h r, msg s = Some h ∧ out = (TSC_RESEND, Some r) ∧ msg_ok r = true ∧ same_msg h r).
Proof.
  intros Hs. destruct (wp_elim _ _ _ (TS_CHANGE_timer_ok key s t Hs))
    as (out & [s' t'] & Hr & Hi & Hsnd & _ & Hst & Hcase). cbn [fst snd] in *.
  exists out, s', t'. split_and!; [done|done|done|done| |].
  - intros Hne. destruct Hcase as [(-> & [= -> ->] & _)|(Hk & _)]; [done|congruence].
  - intros Hk Hpos Hrole. destruct Hcase as [(_ & _ & Hno)|(_ & _ & Hset & Hh)]; [|done].
    exfalso. destruct Hno as [H1 H2]; [lia|done|done|]. destruct Hrole; congruence.
Qed.

(** ** Witnesses *)
Definition demo_req (id : bytes) : TUniNetMsg :=
  addMsgBody (addCtrlMsgHdr (setTransId id (setCSeq 7
    (UniNetMsg (Tuple 0 0 0) 0 (Addr 1 2 3) (Addr 4 5 6) 1 COM_MESSAGE_REQ 10 [] None None None))) 0 1 0) [104; 105]%Z.
Definition demo_rsp (id : bytes) : TUniNetMsg :=
  addCtrlMsgHdr (setTransId id
    (UniNetMsg (Tuple 0 0 0) 0 (Addr 4 5 6) (Addr 1 2 3) 1 COM_MESSAGE_RSP 10 [] None None None)) 200 1 0.

(** A request is sent twice, answered twice, and re-sent by its timer in between. *)
Definition demo_events : list event :=
  [EMsg false 1000 (Some (demo_req [65%Z])); EMsg false 1000 (Some (demo_req [65%Z]));
   ERunsOut 1; ETimer 1 (Some [65%Z]);
   EMsg true 1001 (Some (demo_rsp [65%Z])); EMsg true 1001 (Some (demo_rsp [65%Z]))].
Definition demo_T : ResendTimer kern := kern_timer 0 500 7.
Definition demo_amach : amach kern :=
  match a_run (H:=demo_T) demo_events (AMach [] 172800 new_kern) with
  | Some (_, a) => a | None => AMach [] 0 new_kern end.

Lemma trans_machine_refinement_witness :
  ∃ os w, run (H:=demo_T) demo_events (new_machine new_kern) = Some (os, w) ∧
    fst <$> os = [TSC_FORWARD; TSC_NULL; TSC_NULL; TSC_RESEND; TSC_FORWARD; TSC_REFUSE].
Proof.
  destruct (a_run (H:=demo_T) demo_events (AMach [] 172800 new_kern)) as [[os a]|] eqn:Hr;
    [|by vm_compute in Hr].
  destruct (trans_machine_refinement (H:=demo_T) demo_events new_kern os a Hr) as (w & Hw & _).
  exists os, w. split; [done|]. vm_compute in Hr. by injection Hr as <- _.
Defined.

Lemma demo_events_ok : Forall ev_ok demo_events.
Proof. repeat constructor; try done; by eexists. Qed.

Lemma trans_at_most_once_witness :
  ∃ os w, run (H:=demo_T) demo_events (new_machine new_kern) = Some (os, w) ∧
    count_forwards COM_MESSAGE_RSP [65%Z] demo_events os ≤ count_forwards COM_MESSAGE_REQ [65%Z] demo_events os ≤ 1.
Proof.
  destruct (trans_at_most_once (H:=demo_T) demo_events new_kern demo_events_ok) as (os & w & Hr & _ & Hc);
    [by vm_compute|].
  exists os, w. split; [done|]. apply Hc. repeat constructor.
Defined.

(** One request of a client, its timer running. *)
Definition demo_one : option (outcome * machine kern) :=
  processTM (H:=demo_T) false 1000 (Some (demo_req [65%Z])) (new_machine new_kern).

Lemma trans_timers_owned_witness :
  ∃ w p s, step (H:=demo_T) (EMsg false 1000 (Some (demo_req [65%Z]))) (new_machine new_kern)
      = Some ((TSC_FORWARD, None), w) ∧ states w !! p = Some s ∧ timer s = 1%Z.
Proof.
  destruct (step (H:=demo_T) (EMsg false 1000 (Some (demo_req [65%Z]))) (new_machine new_kern))
    as [[o w]|] eqn:Hr; [|by vm_compute in Hr].
  assert (Ho : o = (TSC_FORWARD, None)) by (vm_compute in Hr; by injection Hr as <- _).
  assert (Hk : 1%Z ∈ pending (ResendTimer:=demo_T) (tmr w)).
  { cbn. assert (Hb : bool_decide (1%Z ∈ (list_to_set (tmKey <$> filter (running (tmr w)) (mTimers (tmr w))) : gset Z)) = true).
    - vm_compute in Hr. injection Hr as _ <-. by vm_compute.
    - by apply bool_decide_eq_true in Hb. }
  destruct (trans_timers_owned (H:=demo_T) (H0:=kern_timer_laws 0 500 7)
    [EMsg false 1000 (Some (demo_req [65%Z]))] new_kern w 1) as (p & s & Hp & Hs & _).
  - eapply (reaches_step (H:=demo_T)); [exact I|exact Hr|apply reaches_nil].
  - by repeat constructor.
  - by vm_compute.
  - by vm_compute.
  - exact Hk.
  - exists w, p, s. by subst o.
Defined.

Definition demo_client : amach kern :=
  match a_run (H:=demo_T) [EMsg false 1000 (Some (demo_req [65%Z]))] (AMach [] 172800 new_kern) with
  | Some (_, a) => a | None => AMach [] 0 new_kern end.

(** 172801 seconds later the request has expired: one 408, not passed on. *)
Lemma trans_expiry_unreported_witness :
  ∃ w r w', run (H:=demo_T) [EMsg false 1000 (Some (demo_req [65%Z]))] (new_machine new_kern)
      = Some ([(TSC_FORWARD, None)], w) ∧
    maintain (H:=demo_T) 2 (λ _, 0%Z) 173801 w = Some (([r], []), w') ∧ msgName r = COM_MESSAGE_RSP.
Proof.
  set (es := [EMsg false 1000 (Some (demo_req [65%Z]))]).
  assert (Ha : a_run (H:=demo_T) es (AMach [] 172800 new_kern) = Some ([(TSC_FORWARD, None)], demo_client))
    by by vm_compute.
  destruct (wp_elim _ _ _ (run_refines (H:=demo_T) es _ _ _ _ (new_machine_repr new_kern) Ha))
    as (os & w & Hw & -> & Hrep).
  destruct (a_run_ok (H:=demo_T) es (AMach [] 172800 new_kern)) as (os & a & Ha' & Hinv & _);
    [by constructor|by repeat constructor|by vm_compute|].
  rewrite Ha in Ha'. injection Ha' as <- <-.
  destruct (trans_expiry_unreported (H:=demo_T) w demo_client (λ _, 0%Z) 173801 2 Hrep Hinv)
    as (rs & w' & t' & Hm & Hf & _); [done|by vm_compute; lia|].
  vm_compute in Hf. apply Forall2_cons_inv_l in Hf as (r & rs' & Hr & Hnil & ->).
  apply Forall2_nil_inv_l in Hnil as ->. exists w, r, w'. split_and!; [exact Hw|exact Hm|].
  by rewrite (an_name _ _ _ Hr).
Defined.

Lemma trans_timer_resends_witness :
  ∃ s t out s' t', held s ∧ timer s = 1%Z ∧
    TS_CHANGE_timer (H:=demo_T) 1 (s, t) = Some (out, (s', t')) ∧ fst out = TSC_RESEND ∧ timer s' = 2%Z.
Proof.
  destruct (TS_CHANGE (H:=demo_T) (Some (demo_req [65%Z])) (new_TTransState true [65%Z], new_kern))
    as [[o [s t]]|] eqn:Hr; [|by vm_compute in Hr].
  destruct (TS_CHANGE_total (H:=demo_T) (demo_req [65%Z]) (new_TTransState true [65%Z]) new_kern)
    as (o' & s1 & t1 & Hr' & Hinv & _); [done|by vm_compute|].
  rewrite Hr in Hr'. injection Hr' as <- <- <-.
  destruct (trans_timer_resends (H:=demo_T) 1 s t Hinv) as (out & s' & t' & Hrun & _ & _ & _ & _ & Hgo).
  assert (Hs : timer s = 1%Z ∧ tssend s = true ∧ tsstate s = TS_FORWARD)
    by (vm_compute in Hr; by injection Hr as _ <- _).
  destruct Hs as (Htm & Hsnd & Hst).
  destruct Hgo as (Hset & h & r & Hh & -> & _); [done|done|by left|].
  exists s, t, (TSC_RESEND, Some r), s', t'. split_and!; [|done|done|done|].
  - unfold ts_inv in Hinv. rewrite Hsnd, Hst in Hinv. by destruct Hinv.
  - assert (Ht : fst (setResendTimer (ResendTimer:=demo_T) (CStr_str (ttransID s)) t) = 2%Z)
      by (vm_compute in Hr; injection Hr as _ <- <-; by vm_compute).
    by rewrite <- Hset in Ht.
Defined.
