(* ===== verification/VarChar.v ===== *)
(** * Character buffers ([comserv/comtypedef_vchar.C], [include/comserv/comtypedef_vchar.h],
    [include/comserv/comtypedef_fchar.h])

    [CFixedChar], the bounded [CVarChar8] .. [CVarChar256] and the unbounded
    [CVarChar]: the strings of the message classes.  The six bounded classes
    have the same members over different capacities; the members are written
    once over the class and named per class below.

    A buffer is a list of cells, [None] for a character nobody wrote yet; a
    pointer argument is the list of cells that can be read from it.  Reading a
    cell that is not there or not written, and running past a buffer, are
    undefined behaviour ([None]).  Characters are bytes [0 .. 255].  Allocation
    does not fail, so the content pointer is never NULL. *)

From S2P Require Import Prelude.

Abbreviation cells := (list (option Z)).

(** ** Reading and writing memory *)
Definition uninit (n : nat) : cells := replicate n None.
(** [memcpy(dst, src, n)] into the front of [dst]. *)
Definition memcpy (dst src : cells) (n : nat) : option cells :=
  if decide (n ≤ length src ∧ n ≤ length dst) then Some (take n src ++ drop n dst) else None.
(** [dst[i] = c] *)
Definition poke (dst : cells) (i : Z) (c : Z) : option cells :=
  if decide (0 ≤ i < Z.of_nat (length dst))%Z then Some (<[Z.to_nat i := Some c]> dst) else None.
(** The value of [src[i]]. *)
Definition peek (src : cells) (i : Z) : option Z :=
  if decide (0 ≤ i)%Z then src !! Z.to_nat i ≫= id else None.
Fixpoint strlen (b : cells) : option nat :=
  match b with
  | Some c :: b => if decide (c = 0)%Z then Some 0 else S <$> strlen b
  | _ => None
  end.
(** A pointer argument; [None] is NULL. *)
Abbreviation cptr := (option cells).
(** The loop of every [operator ==]: [i] from 0 while [i < n], stopping at the
    first difference. *)
Fixpoint same_from (n : nat) (a b : cells) (i : Z) : option bool :=
  match n with
  | O => Some true
  | S n => x ← peek a i; y ← peek b i; if decide (x = y) then same_from n a b (i + 1)%Z else Some false
  end.

(** [memset(dst, 0, n)] over the whole of a buffer of [n] cells. *)
Definition zeros (n : nat) : cells := replicate n (Some 0%Z).

(** ** The bounded classes *)
Inductive vclass := V8 | V16 | V32 | V64 | V128 | V256.
#[export] Instance vclass_eq_dec : EqDecision vclass.
Proof. solve_decision. Defined.
(** The [N] of [CVarCharN]: the buffer has [N + 1] cells. *)
Definition vN (c : vclass) : nat :=
  match c with V8 => 8 | V16 => 16 | V32 => 32 | V64 => 64 | V128 => 128 | V256 => 256 end.
(** The longest content: [N], but 255 for [CVarChar256] (the length is a BYTE). *)
Definition vcap (c : vclass) : Z := match c with V256 => 255 | _ => Z.of_nat (vN c) end.

(** [m_ucVarCharLen], [m_cVarCharContent] *)
Record vchar := VChar { vlen : Z; vbuf : cells }.

Section bounded.
Context (c : vclass).

(** [new CHAR[N+1]] with the first and the last cell set. *)
Definition v_new : option vchar :=
  b ← poke (uninit (S (vN c))) 0 0; b ← poke b (Z.of_nat (vN c)) 0; Some (VChar 0 b).
Definition v_copy (r : vchar) : option vchar :=
  b ← memcpy (uninit (S (vN c))) (vbuf r) (S (vN c)); Some (VChar (vlen r) b).
Definition v_assign (v r : vchar) : option vchar :=
  b ← memcpy (vbuf v) (vbuf r) (S (vN c)); Some (VChar (vlen r) b).

Definition v_GetVarCharLen (v : vchar) : Z := vlen v.
Definition v_SetVarCharLen (v : vchar) (len : Z) : vchar :=
  let len := match c with V256 => if decide (255 < len)%Z then 255%Z else len | _ => len end in
  VChar (u8 len) (vbuf v).
Definition v_GetVarCharContent (v : vchar) (num : Z) : option Z :=
  if decide (vlen v < num ∨ num < 0)%Z then Some 0%Z else peek (vbuf v) num.
Definition v_SetVarCharContent_at (v : vchar) (num character : Z) : option vchar :=
  if decide (num ≤ vlen v ∧ 0 ≤ num)%Z then b ← poke (vbuf v) num character; Some (VChar (vlen v) b)
  else Some v.

Definition v_set (v : vchar) (buf : cptr) (len : Z) : option vchar :=
  match buf with
  | Some src =>
      if decide (0 < len)%Z then
        let len := if decide (vcap c < len)%Z then vcap c else len in
        b ← memcpy (vbuf v) src (Z.to_nat len);
        b ← poke b len 0;
        Some (VChar (u8 len) b)
      else Some v
  | None => Some v
  end.
Definition v_set_str (v : vchar) (buf : cptr) : option vchar :=
  match buf with
  | Some src => n ← strlen src; v_set v buf (Z.of_nat n)
  | None => Some v
  end.
(** [operator=(const CHAR* )] *)
Definition v_assign_str (v : vchar) (r : cptr) : option vchar :=
  match r with Some _ => v_set_str v r | None => Some v end.
(** [set(r.c_str(), r.length())], the assignments from the other classes. *)
Definition v_assign_from (v : vchar) (rbuf : cells) (rlen : Z) : option vchar := v_set v (Some rbuf) rlen.

Definition v_size (v : vchar) : Z := (1 + vlen v)%Z.
Definition v_c_str (v : vchar) : cptr := Some (vbuf v).
Definition v_eq (v v2 : vchar) : option bool :=
  if decide (vlen v = vlen v2) then same_from (Z.to_nat (vlen v)) (vbuf v) (vbuf v2) 0 else Some false.

(** [decode(CHAR* &buf)]: the result, the object and the rest of the buffer. *)
Definition v_decode (v : vchar) (buf : cells) : option (Z * vchar * cells) :=
  n ← peek buf 0;
  let rest := drop 1 buf in
  if decide (c ≠ V256 ∧ vcap c < n)%Z then Some (0%Z, VChar 0 (vbuf v), rest)
  else
    b ← memcpy (vbuf v) rest (Z.to_nat n);
    b ← poke b n 0;
    Some (v_size (VChar n b), VChar n b, drop (Z.to_nat n) rest).
(** [encode(CHAR* &buf)]: the result and the bytes written. *)
Definition v_encode (v : vchar) : option (Z * cells) :=
  if decide (Z.to_nat (vlen v) ≤ length (vbuf v))
  then Some (v_size v, Some (vlen v) :: take (Z.to_nat (vlen v)) (vbuf v)) else None.
End bounded.

(** ** [CVarChar]: the length is an [INT], the buffer is allocated to it *)
Definition MAX_VCHAR_LENGTH : Z := 8192.

Definition w_new : vchar := VChar 0 [Some 0%Z].
Definition w_alloc (n : Z) : option cells :=
  if decide (0 ≤ n)%Z then Some (uninit (Z.to_nat n)) else None.
Definition w_copy (r : vchar) : option vchar :=
  b ← w_alloc (vlen r + 1); b ← memcpy b (vbuf r) (Z.to_nat (vlen r + 1)); Some (VChar (vlen r) b).
(** [operator=] from another object. *)
Definition w_assign (v r : vchar) : option vchar := w_copy r.
(** [v = v]: the buffer is deleted, and what is then copied onto itself is the
    fresh one. *)
Definition w_assign_self (v : vchar) : option vchar :=
  b ← w_alloc (vlen v + 1); b ← memcpy b b (Z.to_nat (vlen v + 1)); Some (VChar (vlen v) b).

Definition w_GetVarCharLen (v : vchar) : Z := vlen v.
Definition w_SetVarCharLen (v : vchar) (len : Z) : option vchar :=
  if decide (len = 0)%Z then Some (VChar 0 [Some 0%Z])
  else if decide (0 < len ≤ vlen v)%Z then b ← poke (vbuf v) len 0; Some (VChar len b)
  else if decide (vlen v < len ≤ MAX_VCHAR_LENGTH)%Z then
    b ← w_alloc (len + 1); b ← poke b 0 0; Some (VChar len b)
  else Some v.
Definition w_GetVarCharContent (v : vchar) (num : Z) : option Z :=
  if decide (vlen v < num ∨ num < 0)%Z then Some 0%Z else peek (vbuf v) num.
Definition w_SetVarCharContent_at (v : vchar) (num character : Z) : option vchar :=
  if decide (num ≤ vlen v ∧ 0 ≤ num)%Z then b ← poke (vbuf v) num character; Some (VChar (vlen v) b)
  else Some v.

(** The source does not point into the object's own buffer. *)
Definition w_set (v : vchar) (buf : cptr) (len : Z) : option vchar :=
  match buf with
  | None => Some v
  | Some src =>
      if decide (0 < len ≤ MAX_VCHAR_LENGTH)%Z then
        b ← w_alloc (len + 1); b ← memcpy b src (Z.to_nat len); b ← poke b len 0; Some (VChar len b)
      else if decide (MAX_VCHAR_LENGTH < len)%Z then
        b ← w_alloc (MAX_VCHAR_LENGTH + 1); b ← memcpy b src (Z.to_nat MAX_VCHAR_LENGTH);
        b ← poke b MAX_VCHAR_LENGTH 0; Some (VChar MAX_VCHAR_LENGTH b)
      else b ← poke (vbuf v) 0 0; Some (VChar (vlen v) b)
  end.
Definition w_set_str (v : vchar) (buf : cptr) : option vchar :=
  match buf with
  | Some src => n ← strlen src; w_set v buf (Z.of_nat n)
  | None => Some v
  end.
Definition w_assign_str (v : vchar) (r : cptr) : option vchar :=
  match r with Some _ => w_set_str v r | None => Some v end.
Definition w_assign_from (v : vchar) (rbuf : cells) (rlen : Z) : option vchar := w_set v (Some rbuf) rlen.
Definition w_size (v : vchar) : Z := (4 + vlen v)%Z.
Definition w_c_str (v : vchar) : cptr := Some (vbuf v).
Definition w_eq (v v2 : vchar) : option bool :=
  if decide (vlen v = vlen v2) then same_from (Z.to_nat (vlen v)) (vbuf v) (vbuf v2) 0 else Some false.

(** [DECODE_INT] / [ENCODE_INT]: four bytes, network order. *)
Definition decode_int (buf : cells) : option (Z * cells) :=
  a ← peek buf 0; b ← peek buf 1; c ← peek buf 2; d ← peek buf 3;
  Some (i32 (a * 2 ^ 24 + b * 2 ^ 16 + c * 2 ^ 8 + d), drop 4 buf)%Z.
Definition encode_int (n : Z) : cells :=
  let n := u32 n in
  [Some (n / 2 ^ 24); Some (n / 2 ^ 16 mod 256); Some (n / 2 ^ 8 mod 256); Some (n mod 256)]%Z.

Definition w_decode (v : vchar) (buf : cells) : option (Z * vchar * cells) :=
  '(n, rest) ← decode_int buf;
  if decide (0 < n ≤ MAX_VCHAR_LENGTH)%Z then
    b ← w_alloc (n + 1); b ← memcpy b rest (Z.to_nat n); b ← poke b n 0;
    Some (w_size (VChar n b), VChar n b, drop (Z.to_nat n) rest)
  else
    b ← poke (vbuf v) 0 0; Some (w_size (VChar 0 b), VChar 0 b, rest).
Definition w_encode (v : vchar) : option (Z * cells) :=
  if decide (0 < vlen v)%Z then
    if decide (Z.to_nat (vlen v) ≤ length (vbuf v))
    then Some (w_size v, encode_int (vlen v) ++ take (Z.to_nat (vlen v)) (vbuf v)) else None
  else Some (w_size v, encode_int (vlen v)).

(** ** [CFixedChar]: a fixed size, the rest of the buffer zero *)
Record fchar := FChar { fsize : Z; flen : Z; fbuf : cells }.
Definition MAX_FCHAR_LENGTH : Z := 256.

Definition f_new : fchar := FChar 1 0 (zeros 2).
Definition f_new_size (size : Z) : fchar :=
  let tmp := if decide (size ≤ 0)%Z then 1%Z else size in
  let tmp := if decide (MAX_FCHAR_LENGTH < tmp)%Z then MAX_FCHAR_LENGTH else tmp in
  FChar tmp 0 (zeros (Z.to_nat (tmp + 1))).
Definition f_copy (r : fchar) : option fchar :=
  b ← memcpy (uninit (Z.to_nat (fsize r + 1))) (fbuf r) (Z.to_nat (fsize r + 1));
  Some (FChar (fsize r) (flen r) b).
Definition f_assign (v r : fchar) : option fchar :=
  let len := if decide (fsize v < flen r)%Z then fsize v else flen r in
  b ← memcpy (zeros (Z.to_nat (fsize v + 1))) (fbuf r) (Z.to_nat len);
  Some (FChar (fsize v) len b).
(** [v = v]: the buffer is cleared before it is read. *)
Definition f_assign_self (v : fchar) : option fchar :=
  let len := if decide (fsize v < flen v)%Z then fsize v else flen v in
  let z := zeros (Z.to_nat (fsize v + 1)) in
  b ← memcpy z z (Z.to_nat len); Some (FChar (fsize v) len b).
Definition f_set (v : fchar) (buf : cptr) (len : Z) : option fchar :=
  match buf with
  | Some src =>
      if decide (0 < len)%Z then
        let tmp := if decide (fsize v < len)%Z then fsize v else len in
        b ← memcpy (zeros (Z.to_nat (fsize v + 1))) src (Z.to_nat tmp);
        Some (FChar (fsize v) tmp b)
      else Some v
  | None => Some v
  end.
Definition f_set_str (v : fchar) (buf : cptr) : option fchar :=
  match buf with Some src => n ← strlen src; f_set v buf (Z.of_nat n) | None => Some v end.
Definition f_assign_str (v : fchar) (r : cptr) : option fchar := f_set_str v r.
Definition f_assign_from (v : fchar) (rbuf : cells) (rlen : Z) : option fchar := f_set v (Some rbuf) rlen.
Definition f_setSize (v : fchar) (size : Z) : bool * fchar :=
  if decide (size ≤ 0)%Z then (false, v) else
  let size := if decide (MAX_FCHAR_LENGTH < size)%Z then MAX_FCHAR_LENGTH else size in
  (true, FChar size 0 (zeros (Z.to_nat (size + 1)))).
Definition f_decode (v : fchar) (buf : cells) : option (Z * fchar * cells) :=
  b ← memcpy (fbuf v) buf (Z.to_nat (fsize v));
  b ← poke b (fsize v) 0;
  n ← strlen b;
  Some (fsize v, FChar (fsize v) (Z.of_nat n) b, drop (Z.to_nat (fsize v)) buf).
Definition f_encode (v : fchar) : option (Z * cells) :=
  b ← memcpy (uninit (Z.to_nat (fsize v))) (fbuf v) (Z.to_nat (fsize v)); Some (fsize v, b).
Definition f_eq (v v2 : fchar) : option bool :=
  if decide (flen v = flen v2) then same_from (Z.to_nat (flen v)) (fbuf v) (fbuf v2) 0 else Some false.
Definition f_length (v : fchar) : Z := flen v.
Definition f_size (v : fchar) : Z := fsize v.
Definition f_c_str (v : fchar) : cptr := Some (fbuf v).

(** ** The classes by name *)
(** A right-hand side of an assignment between classes. *)
Inductive strobj :=
  | OFixed (r : fchar)
  | OBound (c : vclass) (r : vchar)
  | OVar (r : vchar).

(** The members a client calls. *)
Record strops := StrOps {
  op_new : option vchar;
  op_copy : vchar → option vchar;
  op_assign : vchar → vchar → option vchar;
  op_assign_str : vchar → cptr → option vchar;
  op_from : vchar → strobj → option vchar;
  op_get : vchar → Z → option Z;
  op_set_at : vchar → Z → Z → option vchar;
  op_set : vchar → cptr → Z → option vchar;
  op_set_str : vchar → cptr → option vchar;
  op_set_content_str : vchar → cptr → option vchar;
  op_length : vchar → Z;
  op_size : vchar → Z;
  op_c_str : vchar → cptr;
  op_eq : vchar → vchar → option bool;
  op_decode : vchar → cells → option (Z * vchar * cells);
  op_encode : vchar → option (Z * cells);
}.


(** *** [CVarChar8] *)
Definition CVarChar8_new := v_new V8.
Definition CVarChar8_copy (r : vchar) := v_copy V8 r.
Definition CVarChar8_assign (v r : vchar) := v_assign V8 v r.
Definition CVarChar8_assign_str (v : vchar) (r : cptr) := v_assign_str V8 v r.
Definition CVarChar8_assign_CFixedChar (v : vchar) (r : fchar) := v_assign_from V8 v (fbuf r) (flen r).
Definition CVarChar8_assign_CVarChar (v r : vchar) := v_assign_from V8 v (vbuf r) (vlen r).
Definition CVarChar8_GetVarCharLen (v : vchar) := v_GetVarCharLen v.
Definition CVarChar8_SetVarCharLen (v : vchar) (len : Z) := v_SetVarCharLen V8 v len.
Definition CVarChar8_GetVarCharContent (v : vchar) (num : Z) := v_GetVarCharContent v num.
Definition CVarChar8_SetVarCharContent_at (v : vchar) (num character : Z) := v_SetVarCharContent_at v num character.
Definition CVarChar8_GetVarCharContentPoint (v : vchar) := v_c_str v.
Definition CVarChar8_SetVarCharContent (v : vchar) (buf : cptr) (len : Z) := v_set V8 v buf len.
Definition CVarChar8_SetVarCharContent_str (v : vchar) (buf : cptr) := v_set_str V8 v buf.
Definition CVarChar8_size (v : vchar) := v_size v.
Definition CVarChar8_c_str (v : vchar) := v_c_str v.
Definition CVarChar8_length (v : vchar) := v_GetVarCharLen v.
Definition CVarChar8_set (v : vchar) (buf : cptr) (len : Z) := CVarChar8_SetVarCharContent v buf len.
Definition CVarChar8_set_str (v : vchar) (buf : cptr) := v_set_str V8 v buf.
Definition CVarChar8_eq (v varchar2 : vchar) := v_eq v varchar2.
Definition CVarChar8_decode (v : vchar) (buf : cells) := v_decode V8 v buf.
Definition CVarChar8_encode (v : vchar) := v_encode v.
Definition CVarChar8_from (v : vchar) (o : strobj) : option vchar :=
  match o with
  | OFixed r => CVarChar8_assign_CFixedChar v r
  | OBound _ _ => None
  | OVar r => CVarChar8_assign_CVarChar v r
  end.
Definition CVarChar8_ops : strops :=
  StrOps CVarChar8_new CVarChar8_copy CVarChar8_assign CVarChar8_assign_str CVarChar8_from CVarChar8_GetVarCharContent CVarChar8_SetVarCharContent_at CVarChar8_set CVarChar8_set_str CVarChar8_SetVarCharContent_str CVarChar8_length CVarChar8_size CVarChar8_c_str CVarChar8_eq CVarChar8_decode CVarChar8_encode.

(** *** [CVarChar16] *)
Definition CVarChar16_new := v_new V16.
Definition CVarChar16_copy (r : vchar) := v_copy V16 r.
Definition CVarChar16_assign (v r : vchar) := v_assign V16 v r.
Definition CVarChar16_assign_str (v : vchar) (r : cptr) := v_assign_str V16 v r.
Definition CVarChar16_assign_CFixedChar (v : vchar) (r : fchar) := v_assign_from V16 v (fbuf r) (flen r).
Definition CVarChar16_assign_CVarChar8 (v r : vchar) := v_assign_from V16 v (vbuf r) (vlen r).
Definition CVarChar16_assign_CVarChar (v r : vchar) := v_assign_from V16 v (vbuf r) (vlen r).
Definition CVarChar16_GetVarCharLen (v : vchar) := v_GetVarCharLen v.
Definition CVarChar16_SetVarCharLen (v : vchar) (len : Z) := v_SetVarCharLen V16 v len.
Definition CVarChar16_GetVarCharContent (v : vchar) (num : Z) := v_GetVarCharContent v num.
Definition CVarChar16_SetVarCharContent_at (v : vchar) (num character : Z) := v_SetVarCharContent_at v num character.
Definition CVarChar16_GetVarCharContentPoint (v : vchar) := v_c_str v.
Definition CVarChar16_SetVarCharContent (v : vchar) (buf : cptr) (len : Z) := v_set V16 v buf len.
Definition CVarChar16_SetVarCharContent_str (v : vchar) (buf : cptr) := v_set_str V16 v buf.
Definition CVarChar16_size (v : vchar) := v_size v.
Definition CVarChar16_c_str (v : vchar) := v_c_str v.
Definition CVarChar16_length (v : vchar) := v_GetVarCharLen v.
Definition CVarChar16_set (v : vchar) (buf : cptr) (len : Z) := CVarChar16_SetVarCharContent v buf len.
Definition CVarChar16_set_str (v : vchar) (buf : cptr) := v_set_str V16 v buf.
Definition CVarChar16_eq (v varchar2 : vchar) := v_eq v varchar2.
Definition CVarChar16_decode (v : vchar) (buf : cells) := v_decode V16 v buf.
Definition CVarChar16_encode (v : vchar) := v_encode v.
Definition CVarChar16_from (v : vchar) (o : strobj) : option vchar :=
  match o with
  | OFixed r => CVarChar16_assign_CFixedChar v r
  | OBound V8 r => CVarChar16_assign_CVarChar8 v r
  | OBound _ _ => None
  | OVar r => CVarChar16_assign_CVarChar v r
  end.
Definition CVarChar16_ops : strops :=
  StrOps CVarChar16_new CVarChar16_copy CVarChar16_assign CVarChar16_assign_str CVarChar16_from CVarChar16_GetVarCharContent CVarChar16_SetVarCharContent_at CVarChar16_set CVarChar16_set_str CVarChar16_SetVarCharContent_str CVarChar16_length CVarChar16_size CVarChar16_c_str CVarChar16_eq CVarChar16_decode CVarChar16_encode.

(** *** [CVarChar32] *)
Definition CVarChar32_new := v_new V32.
Definition CVarChar32_copy (r : vchar) := v_copy V32 r.
Definition CVarChar32_assign (v r : vchar) := v_assign V32 v r.
Definition CVarChar32_assign_str (v : vchar) (r : cptr) := v_assign_str V32 v r.
Definition CVarChar32_assign_CFixedChar (v : vchar) (r : fchar) := v_assign_from V32 v (fbuf r) (flen r).
Definition CVarChar32_assign_CVarChar8 (v r : vchar) := v_assign_from V32 v (vbuf r) (vlen r).
Definition CVarChar32_assign_CVarChar16 (v r : vchar) := v_assign_from V32 v (vbuf r) (vlen r).
Definition CVarChar32_assign_CVarChar (v r : vchar) := v_assign_from V32 v (vbuf r) (vlen r).
Definition CVarChar32_GetVarCharLen (v : vchar) := v_GetVarCharLen v.
Definition CVarChar32_SetVarCharLen (v : vchar) (len : Z) := v_SetVarCharLen V32 v len.
Definition CVarChar32_GetVarCharContent (v : vchar) (num : Z) := v_GetVarCharContent v num.
Definition CVarChar32_SetVarCharContent_at (v : vchar) (num character : Z) := v_SetVarCharContent_at v num character.
Definition CVarChar32_GetVarCharContentPoint (v : vchar) := v_c_str v.
Definition CVarChar32_SetVarCharContent (v : vchar) (buf : cptr) (len : Z) := v_set V32 v buf len.
Definition CVarChar32_SetVarCharContent_str (v : vchar) (buf : cptr) := v_set_str V32 v buf.
Definition CVarChar32_size (v : vchar) := v_size v.
Definition CVarChar32_c_str (v : vchar) := v_c_str v.
Definition CVarChar32_length (v : vchar) := v_GetVarCharLen v.
Definition CVarChar32_set (v : vchar) (buf : cptr) (len : Z) := CVarChar32_SetVarCharContent v buf len.
Definition CVarChar32_set_str (v : vchar) (buf : cptr) := v_set_str V32 v buf.
Definition CVarChar32_eq (v varchar2 : vchar) := v_eq v varchar2.
Definition CVarChar32_decode (v : vchar) (buf : cells) := v_decode V32 v buf.
Definition CVarChar32_encode (v : vchar) := v_encode v.
Definition CVarChar32_from (v : vchar) (o : strobj) : option vchar :=
  match o with
  | OFixed r => CVarChar32_assign_CFixedChar v r
  | OBound V8 r => CVarChar32_assign_CVarChar8 v r
  | OBound V16 r => CVarChar32_assign_CVarChar16 v r
  | OBound _ _ => None
  | OVar r => CVarChar32_assign_CVarChar v r
  end.
Definition CVarChar32_ops : strops :=
  StrOps CVarChar32_new CVarChar32_copy CVarChar32_assign CVarChar32_assign_str CVarChar32_from CVarChar32_GetVarCharContent CVarChar32_SetVarCharContent_at CVarChar32_set CVarChar32_set_str CVarChar32_SetVarCharContent_str CVarChar32_length CVarChar32_size CVarChar32_c_str CVarChar32_eq CVarChar32_decode CVarChar32_encode.

(** *** [CVarChar64] *)
Definition CVarChar64_new := v_new V64.
Definition CVarChar64_copy (r : vchar) := v_copy V64 r.
Definition CVarChar64_assign (v r : vchar) := v_assign V64 v r.
Definition CVarChar64_assign_str (v : vchar) (r : cptr) := v_assign_str V64 v r.
Definition CVarChar64_assign_CFixedChar (v : vchar) (r : fchar) := v_assign_from V64 v (fbuf r) (flen r).
Definition CVarChar64_assign_CVarChar8 (v r : vchar) := v_assign_from V64 v (vbuf r) (vlen r).
Definition CVarChar64_assign_CVarChar16 (v r : vchar) := v_assign_from V64 v (vbuf r) (vlen r).
Definition CVarChar64_assign_CVarChar32 (v r : vchar) := v_assign_from V64 v (vbuf r) (vlen r).
Definition CVarChar64_assign_CVarChar (v r : vchar) := v_assign_from V64 v (vbuf r) (vlen r).
Definition CVarChar64_GetVarCharLen (v : vchar) := v_GetVarCharLen v.
Definition CVarChar64_SetVarCharLen (v : vchar) (len : Z) := v_SetVarCharLen V64 v len.
Definition CVarChar64_GetVarCharContent (v : vchar) (num : Z) := v_GetVarCharContent v num.
Definition CVarChar64_SetVarCharContent_at (v : vchar) (num character : Z) := v_SetVarCharContent_at v num character.
Definition CVarChar64_GetVarCharContentPoint (v : vchar) := v_c_str v.
Definition CVarChar64_SetVarCharContent (v : vchar) (buf : cptr) (len : Z) := v_set V64 v buf len.
Definition CVarChar64_SetVarCharContent_str (v : vchar) (buf : cptr) := v_set_str V64 v buf.
Definition CVarChar64_size (v : vchar) := v_size v.
Definition CVarChar64_c_str (v : vchar) := v_c_str v.
Definition CVarChar64_length (v : vchar) := v_GetVarCharLen v.
Definition CVarChar64_set (v : vchar) (buf : cptr) (len : Z) := CVarChar64_SetVarCharContent v buf len.
Definition CVarChar64_set_str (v : vchar) (buf : cptr) := v_set_str V64 v buf.
Definition CVarChar64_eq (v varchar2 : vchar) := v_eq v varchar2.
Definition CVarChar64_decode (v : vchar) (buf : cells) := v_decode V64 v buf.
Definition CVarChar64_encode (v : vchar) := v_encode v.
Definition CVarChar64_from (v : vchar) (o : strobj) : option vchar :=
  match o with
  | OFixed r => CVarChar64_assign_CFixedChar v r
  | OBound V8 r => CVarChar64_assign_CVarChar8 v r
  | OBound V16 r => CVarChar64_assign_CVarChar16 v r
  | OBound V32 r => CVarChar64_assign_CVarChar32 v r
  | OBound _ _ => None
  | OVar r => CVarChar64_assign_CVarChar v r
  end.
Definition CVarChar64_ops : strops :=
  StrOps CVarChar64_new CVarChar64_copy CVarChar64_assign CVarChar64_assign_str CVarChar64_from CVarChar64_GetVarCharContent CVarChar64_SetVarCharContent_at CVarChar64_set CVarChar64_set_str CVarChar64_SetVarCharContent_str CVarChar64_length CVarChar64_size CVarChar64_c_str CVarChar64_eq CVarChar64_decode CVarChar64_encode.

(** *** [CVarChar128] *)
Definition CVarChar128_new := v_new V128.
Definition CVarChar128_copy (r : vchar) := v_copy V128 r.
Definition CVarChar128_assign (v r : vchar) := v_assign V128 v r.
Definition CVarChar128_assign_str (v : vchar) (r : cptr) := v_assign_str V128 v r.
Definition CVarChar128_assign_CFixedChar (v : vchar) (r : fchar) := v_assign_from V128 v (fbuf r) (flen r).
Definition CVarChar128_assign_CVarChar8 (v r : vchar) := v_assign_from V128 v (vbuf r) (vlen r).
Definition CVarChar128_assign_CVarChar16 (v r : vchar) := v_assign_from V128 v (vbuf r) (vlen r).
Definition CVarChar128_assign_CVarChar32 (v r : vchar) := v_assign_from V128 v (vbuf r) (vlen r).
Definition CVarChar128_assign_CVarChar64 (v r : vchar) := v_assign_from V128 v (vbuf r) (vlen r).
Definition CVarChar128_assign_CVarChar (v r : vchar) := v_assign_from V128 v (vbuf r) (vlen r).
Definition CVarChar128_GetVarCharLen (v : vchar) := v_GetVarCharLen v.
Definition CVarChar128_SetVarCharLen (v : vchar) (len : Z) := v_SetVarCharLen V128 v len.
Definition CVarChar128_GetVarCharContent (v : vchar) (num : Z) := v_GetVarCharContent v num.
Definition CVarChar128_SetVarCharContent_at (v : vchar) (num character : Z) := v_SetVarCharContent_at v num character.
Definition CVarChar128_GetVarCharContentPoint (v : vchar) := v_c_str v.
Definition CVarChar128_SetVarCharContent (v : vchar) (buf : cptr) (len : Z) := v_set V128 v buf len.
Definition CVarChar128_SetVarCharContent_str (v : vchar) (buf : cptr) := v_set_str V128 v buf.
Definition CVarChar128_size (v : vchar) := v_size v.
Definition CVarChar128_c_str (v : vchar) := v_c_str v.
Definition CVarChar128_length (v : vchar) := v_GetVarCharLen v.
Definition CVarChar128_set (v : vchar) (buf : cptr) (len : Z) := CVarChar128_SetVarCharContent v buf len.
Definition CVarChar128_set_str (v : vchar) (buf : cptr) := v_set_str V128 v buf.
Definition CVarChar128_eq (v varchar2 : vchar) := v_eq v varchar2.
Definition CVarChar128_decode (v : vchar) (buf : cells) := v_decode V128 v buf.
Definition CVarChar128_encode (v : vchar) := v_encode v.
Definition CVarChar128_from (v : vchar) (o : strobj) : option vchar :=
  match o with
  | OFixed r => CVarChar128_assign_CFixedChar v r
  | OBound V8 r => CVarChar128_assign_CVarChar8 v r
  | OBound V16 r => CVarChar128_assign_CVarChar16 v r
  | OBound V32 r => CVarChar128_assign_CVarChar32 v r
  | OBound V64 r => CVarChar128_assign_CVarChar64 v r
  | OBound _ _ => None
  | OVar r => CVarChar128_assign_CVarChar v r
  end.
Definition CVarChar128_ops : strops :=
  StrOps CVarChar128_new CVarChar128_copy CVarChar128_assign CVarChar128_assign_str CVarChar128_from CVarChar128_GetVarCharContent CVarChar128_SetVarCharContent_at CVarChar128_set CVarChar128_set_str CVarChar128_SetVarCharContent_str CVarChar128_length CVarChar128_size CVarChar128_c_str CVarChar128_eq CVarChar128_decode CVarChar128_encode.

(** *** [CVarChar256] *)
Definition CVarChar256_new := v_new V256.
Definition CVarChar256_copy (r : vchar) := v_copy V256 r.
Definition CVarChar256_assign (v r : vchar) := v_assign V256 v r.
Definition CVarChar256_assign_str (v : vchar) (r : cptr) := v_assign_str V256 v r.
Definition CVarChar256_assign_CFixedChar (v : vchar) (r : fchar) := v_assign_from V256 v (fbuf r) (flen r).
Definition CVarChar256_assign_CVarChar8 (v r : vchar) := v_assign_from V256 v (vbuf r) (vlen r).
Definition CVarChar256_assign_CVarChar16 (v r : vchar) := v_assign_from V256 v (vbuf r) (vlen r).
Definition CVarChar256_assign_CVarChar32 (v r : vchar) := v_assign_from V256 v (vbuf r) (vlen r).
Definition CVarChar256_assign_CVarChar64 (v r : vchar) := v_assign_from V256 v (vbuf r) (vlen r).
Definition CVarChar256_assign_CVarChar128 (v r : vchar) := v_assign_from V256 v (vbuf r) (vlen r).
Definition CVarChar256_assign_CVarChar (v r : vchar) := v_assign_from V256 v (vbuf r) (vlen r).
Definition CVarChar256_GetVarCharLen (v : vchar) := v_GetVarCharLen v.
Definition CVarChar256_SetVarCharLen (v : vchar) (len : Z) := v_SetVarCharLen V256 v len.
Definition CVarChar256_GetVarCharContent (v : vchar) (num : Z) := v_GetVarCharContent v num.
Definition CVarChar256_SetVarCharContent_at (v : vchar) (num character : Z) := v_SetVarCharContent_at v num character.
Definition CVarChar256_GetVarCharContentPoint (v : vchar) := v_c_str v.
Definition CVarChar256_SetVarCharContent (v : vchar) (buf : cptr) (len : Z) := v_set V256 v buf len.
Definition CVarChar256_SetVarCharContent_str (v : vchar) (buf : cptr) := v_set_str V256 v buf.
Definition CVarChar256_size (v : vchar) := v_size v.
Definition CVarChar256_c_str (v : vchar) := v_c_str v.
Definition CVarChar256_length (v : vchar) := v_GetVarCharLen v.
Definition CVarChar256_set (v : vchar) (buf : cptr) (len : Z) := CVarChar256_SetVarCharContent v buf len.
Definition CVarChar256_set_str (v : vchar) (buf : cptr) := v_set_str V256 v buf.
Definition CVarChar256_eq (v varchar2 : vchar) := v_eq v varchar2.
Definition CVarChar256_decode (v : vchar) (buf : cells) := v_decode V256 v buf.
Definition CVarChar256_encode (v : vchar) := v_encode v.
Definition CVarChar256_from (v : vchar) (o : strobj) : option vchar :=
  match o with
  | OFixed r => CVarChar256_assign_CFixedChar v r
  | OBound V8 r => CVarChar256_assign_CVarChar8 v r
  | OBound V16 r => CVarChar256_assign_CVarChar16 v r
  | OBound V32 r => CVarChar256_assign_CVarChar32 v r
  | OBound V64 r => CVarChar256_assign_CVarChar64 v r
  | OBound V128 r => CVarChar256_assign_CVarChar128 v r
  | OBound _ _ => None
  | OVar r => CVarChar256_assign_CVarChar v r
  end.
Definition CVarChar256_ops : strops :=
  StrOps CVarChar256_new CVarChar256_copy CVarChar256_assign CVarChar256_assign_str CVarChar256_from CVarChar256_GetVarCharContent CVarChar256_SetVarCharContent_at CVarChar256_set CVarChar256_set_str CVarChar256_SetVarCharContent_str CVarChar256_length CVarChar256_size CVarChar256_c_str CVarChar256_eq CVarChar256_decode CVarChar256_encode.

(** *** [CVarChar] *)
Definition CVarChar_new := Some w_new.
Definition CVarChar_copy (r : vchar) := w_copy r.
Definition CVarChar_assign (v r : vchar) := w_assign v r.
Definition CVarChar_assign_self (v : vchar) := w_assign_self v.
Definition CVarChar_assign_str (v : vchar) (r : cptr) := w_assign_str v r.
Definition CVarChar_assign_CFixedChar (v : vchar) (r : fchar) := w_assign_from v (fbuf r) (flen r).
Definition CVarChar_assign_CVarChar8 (v r : vchar) := w_assign_from v (vbuf r) (vlen r).
Definition CVarChar_assign_CVarChar16 (v r : vchar) := w_assign_from v (vbuf r) (vlen r).
Definition CVarChar_assign_CVarChar32 (v r : vchar) := w_assign_from v (vbuf r) (vlen r).
Definition CVarChar_assign_CVarChar64 (v r : vchar) := w_assign_from v (vbuf r) (vlen r).
Definition CVarChar_assign_CVarChar128 (v r : vchar) := w_assign_from v (vbuf r) (vlen r).
Definition CVarChar_assign_CVarChar256 (v r : vchar) := w_assign_from v (vbuf r) (vlen r).
Definition CVarChar_GetVarCharLen (v : vchar) := w_GetVarCharLen v.
Definition CVarChar_SetVarCharLen (v : vchar) (len : Z) := w_SetVarCharLen v len.
Definition CVarChar_GetVarCharContent (v : vchar) (num : Z) := w_GetVarCharContent v num.
Definition CVarChar_SetVarCharContent_at (v : vchar) (num character : Z) := w_SetVarCharContent_at v num character.
Definition CVarChar_GetVarCharContentPoint (v : vchar) := w_c_str v.
Definition CVarChar_SetVarCharContent (v : vchar) (buf : cptr) (len : Z) := w_set v buf len.
Definition CVarChar_SetVarCharContent_str (v : vchar) (buf : cptr) := w_set_str v buf.
Definition CVarChar_size (v : vchar) := w_size v.
Definition CVarChar_c_str (v : vchar) := w_c_str v.
Definition CVarChar_length (v : vchar) := w_GetVarCharLen v.
Definition CVarChar_set (v : vchar) (buf : cptr) (len : Z) := CVarChar_SetVarCharContent v buf len.
Definition CVarChar_set_str (v : vchar) (buf : cptr) := w_set_str v buf.
Definition CVarChar_eq (v varchar2 : vchar) := w_eq v varchar2.
Definition CVarChar_decode (v : vchar) (buf : cells) := w_decode v buf.
Definition CVarChar_encode (v : vchar) := w_encode v.
Definition CVarChar_from (v : vchar) (o : strobj) : option vchar :=
  match o with
  | OFixed r => CVarChar_assign_CFixedChar v r
  | OBound V8 r => CVarChar_assign_CVarChar8 v r
  | OBound V16 r => CVarChar_assign_CVarChar16 v r
  | OBound V32 r => CVarChar_assign_CVarChar32 v r
  | OBound V64 r => CVarChar_assign_CVarChar64 v r
  | OBound V128 r => CVarChar_assign_CVarChar128 v r
  | OBound V256 r => CVarChar_assign_CVarChar256 v r
  | OVar r => CVarChar_assign v r
  end.
Definition CVarChar_ops : strops :=
  StrOps CVarChar_new CVarChar_copy CVarChar_assign CVarChar_assign_str CVarChar_from CVarChar_GetVarCharContent CVarChar_SetVarCharContent_at CVarChar_set CVarChar_set_str CVarChar_SetVarCharContent_str CVarChar_length CVarChar_size CVarChar_c_str CVarChar_eq CVarChar_decode CVarChar_encode.

(** *** [CFixedChar] *)
Definition CFixedChar_assign_CVarChar8 (v : fchar) (r : vchar) := f_assign_from v (vbuf r) (vlen r).
Definition CFixedChar_assign_CVarChar16 (v : fchar) (r : vchar) := f_assign_from v (vbuf r) (vlen r).
Definition CFixedChar_assign_CVarChar32 (v : fchar) (r : vchar) := f_assign_from v (vbuf r) (vlen r).
Definition CFixedChar_assign_CVarChar64 (v : fchar) (r : vchar) := f_assign_from v (vbuf r) (vlen r).
Definition CFixedChar_assign_CVarChar128 (v : fchar) (r : vchar) := f_assign_from v (vbuf r) (vlen r).
Definition CFixedChar_assign_CVarChar256 (v : fchar) (r : vchar) := f_assign_from v (vbuf r) (vlen r).
Definition CFixedChar_assign_CVarChar (v : fchar) (r : vchar) := f_assign_from v (vbuf r) (vlen r).
Definition CFixedChar_from (v : fchar) (o : strobj) : option fchar :=
  match o with
  | OFixed r => f_assign v r
  | OBound V8 r => CFixedChar_assign_CVarChar8 v r
  | OBound V16 r => CFixedChar_assign_CVarChar16 v r
  | OBound V32 r => CFixedChar_assign_CVarChar32 v r
  | OBound V64 r => CFixedChar_assign_CVarChar64 v r
  | OBound V128 r => CFixedChar_assign_CVarChar128 v r
  | OBound V256 r => CFixedChar_assign_CVarChar256 v r
  | OVar r => CFixedChar_assign_CVarChar v r
  end.

(** The length-prefixed classes. *)
Inductive vkind := KBound (c : vclass) | KVar.
Definition ops (k : vkind) : strops :=
  match k with
  | KBound V8 => CVarChar8_ops | KBound V16 => CVarChar16_ops | KBound V32 => CVarChar32_ops
  | KBound V64 => CVarChar64_ops | KBound V128 => CVarChar128_ops | KBound V256 => CVarChar256_ops
  | KVar => CVarChar_ops
  end.

(** ** Client programs over two objects of one class *)
Inductive vop :=
  | VSet (b : bytes) (t : cells) (len : Z)
  | VSetNull (len : Z)
  | VSetStr (b : bytes) (t : cells)
  | VSetContentStr (b : bytes) (t : cells)
  | VAssignStr (b : bytes) (t : cells)
  | VFrom (o : strobj) (b : bytes)
  | VSetAt (i ch : Z)
  | VGet (i : Z)
  | VLength
  | VDecode (b : bytes) (rest : cells)
  | VEncode
  | VEq
  | VAssign
  | VCopy
  | VSwap.
Inductive vobs := ONothing | ONum (n : Z) | OBool (b : bool) | OWire (n : Z) (b : cells).

Abbreviation det s := (Some <$> (s : bytes) : cells).
(** The length in front of the characters on the wire. *)
Definition head (k : vkind) (n : Z) : cells := match k with KBound _ => [Some n] | KVar => encode_int n end.

Definition vstep (k : vkind) (op : vop) (st : vchar * vchar) : option (vobs * (vchar * vchar)) :=
  let o := ops k in let '(v, w) := st in
  match op with
  | VSet b t len => v ← op_set o v (Some (det b ++ t)) len; Some (ONothing, (v, w))
  | VSetNull len => v ← op_set o v None len; Some (ONothing, (v, w))
  | VSetStr b t => v ← op_set_str o v (Some (det b ++ Some 0%Z :: t)); Some (ONothing, (v, w))
  | VSetContentStr b t => v ← op_set_content_str o v (Some (det b ++ Some 0%Z :: t)); Some (ONothing, (v, w))
  | VAssignStr b t => v ← op_assign_str o v (Some (det b ++ Some 0%Z :: t)); Some (ONothing, (v, w))
  | VFrom r _ => v ← op_from o v r; Some (ONothing, (v, w))
  | VSetAt i ch => v ← op_set_at o v i ch; Some (ONothing, (v, w))
  | VGet i => x ← op_get o v i; Some (ONum x, (v, w))
  | VLength => Some (ONum (op_length o v), (v, w))
  | VDecode b rest =>
      '(n, v, rest) ← op_decode o v (head k (Z.of_nat (length b)) ++ det b ++ rest);
      Some (OWire n rest, (v, w))
  | VEncode => '(n, b) ← op_encode o v; Some (OWire n b, (v, w))
  | VEq => b ← op_eq o v w; Some (OBool b, (v, w))
  | VAssign => v ← op_assign o v w; Some (ONothing, (v, w))
  | VCopy => w ← op_copy o v; Some (ONothing, (v, w))
  | VSwap => Some (ONothing, (w, v))
  end.
Fixpoint vrun (k : vkind) (p : list vop) (st : vchar * vchar) : option (list vobs * (vchar * vchar)) :=
  match p with
  | [] => Some ([], st)
  | op :: p => '(x, st) ← vstep k op st; '(xs, st) ← vrun k p st; Some (x :: xs, st)
  end.
(** Two new objects, the program, and what both encode to at the end. *)
Definition vprogram (k : vkind) (p : list vop) : option (list vobs * cells * cells) :=
  v ← op_new (ops k); w ← op_new (ops k);
  '(xs, (v, w)) ← vrun k p (v, w);
  '(_, b) ← op_encode (ops k) v; '(_, b') ← op_encode (ops k) w; Some (xs, b, b').

(** *** The same programs over strings *)
Definition smax (k : vkind) : Z := match k with KBound c => vcap c | KVar => MAX_VCHAR_LENGTH end.
Definition hsize (k : vkind) : Z := match k with KBound _ => 1 | KVar => 4 end.
(** What setting nothing leaves: the old string, but [CVarChar] zeroes its
    first character. *)
Definition zero_first (s : bytes) : bytes := match s with [] => [] | _ :: s => 0%Z :: s end.
Definition set_empty (k : vkind) (s : bytes) : bytes := match k with KBound _ => s | KVar => zero_first s end.
Definition set_str (k : vkind) (s b : bytes) : bytes :=
  match b with [] => set_empty k s | _ => take (Z.to_nat (smax k)) b end.
Definition wire (k : vkind) (s : bytes) : cells := head k (Z.of_nat (length s)) ++ det s.

Definition sstep (k : vkind) (op : vop) (st : bytes * bytes) : vobs * (bytes * bytes) :=
  let '(s, t) := st in
  match op with
  | VSet b _ len => (ONothing, (set_str k s (take (Z.to_nat len) b), t))
  | VSetNull _ => (ONothing, (s, t))
  | VSetStr b _ | VSetContentStr b _ | VAssignStr b _ | VFrom _ b => (ONothing, (set_str k s b, t))
  | VSetAt i ch => (ONothing, (if decide (0 ≤ i)%Z then <[Z.to_nat i := ch]> s else s, t))
  | VGet i => (ONum (if decide (0 ≤ i)%Z then default 0%Z (s !! Z.to_nat i) else 0), (s, t))
  | VLength => (ONum (Z.of_nat (length s)), (s, t))
  | VDecode b rest => (OWire (hsize k + Z.of_nat (length b)) rest, (b, t))
  | VEncode => (OWire (hsize k + Z.of_nat (length s)) (wire k s), (s, t))
  | VEq => (OBool (bool_decide (s = t)), (s, t))
  | VAssign => (ONothing, (t, t))
  | VCopy => (ONothing, (s, s))
  | VSwap => (ONothing, (t, s))
  end.
Fixpoint srun (k : vkind) (p : list vop) (st : bytes * bytes) : list vobs * (bytes * bytes) :=
  match p with
  | [] => ([], st)
  | op :: p => let '(x, st) := sstep k op st in let '(xs, st) := srun k p st in (x :: xs, st)
  end.
Definition sprogram (k : vkind) (p : list vop) : list vobs * cells * cells :=
  let '(xs, (s, t)) := srun k p ([], []) in (xs, wire k s, wire k t).


(** ** Contents *)

(** A bounded object that holds the string [s]: a terminating zero follows it. *)
Record v_holds (c : vclass) (v : vchar) (s : bytes) : Prop := {
  vh_len : vlen v = Z.of_nat (length s);
  vh_cap : (Z.of_nat (length s) ≤ vcap c)%Z;
  vh_buf : ∃ t, vbuf v = det s ++ Some 0%Z :: t;
  vh_size : length (vbuf v) = S (vN c);
}.
Record w_holds (v : vchar) (s : bytes) : Prop := {
  wh_len : vlen v = Z.of_nat (length s);
  wh_cap : (Z.of_nat (length s) ≤ MAX_VCHAR_LENGTH)%Z;
  wh_buf : ∃ t, vbuf v = det s ++ Some 0%Z :: t;
}.
Record f_holds (v : fchar) (s : bytes) : Prop := {
  fh_len : flen v = Z.of_nat (length s);
  fh_cap : (Z.of_nat (length s) ≤ fsize v)%Z;
  fh_buf : ∃ k, fbuf v = det s ++ zeros (S k);
  fh_size : length (fbuf v) = S (Z.to_nat (fsize v));
  fh_pos : (0 < fsize v)%Z;
}.

Definition strobj_holds (o : strobj) (s : bytes) : Prop :=
  match o with OFixed r => f_holds r s | OBound c r => v_holds c r s | OVar r => w_holds r s end.
Definition kholds (k : vkind) : vchar → bytes → Prop :=
  match k with KBound c => v_holds c | KVar => w_holds end.
(** The assignments that are declared: from the fixed class, from the shorter
    bounded ones and (for the bounded ones) from [CVarChar]. *)
Definition has_from (k : vkind) (o : strobj) : bool :=
  match k, o with
  | KBound c, OBound c' _ => bool_decide (vN c' < vN c)
  | KVar, OVar _ => false
  | _, _ => true
  end.
(** What a program may do: buffers as long as announced, strings without
    zeroes where the length is not given, no write on the terminator, and only
    messages that fit into the class. *)
Definition vop_ok (k : vkind) (s : bytes) (op : vop) : Prop :=
  match op with
  | VSet b _ len => (len ≤ Z.of_nat (length b))%Z
  | VSetStr b _ | VSetContentStr b _ | VAssignStr b _ => Forall (λ x, x ≠ 0%Z) b
  | VFrom o b => has_from k o ∧ strobj_holds o b
  | VSetAt i _ => i ≠ Z.of_nat (length s)
  | VDecode b _ => (Z.of_nat (length b) ≤ smax k)%Z
  | _ => True
  end.
Fixpoint vprog_ok (k : vkind) (p : list vop) (st : bytes * bytes) : Prop :=
  match p with
  | [] => True
  | op :: p => vop_ok k st.1 op ∧ vprog_ok k p (sstep k op st).2
  end.

Lemma vcap_bounds c : (0 < vcap c ≤ 255)%Z ∧ (vcap c ≤ Z.of_nat (vN c))%Z.
Proof. destruct c; cbn; lia. Qed.

(** *** Memory *)
Lemma memcpy_eq dst src n : n ≤ length src → n ≤ length dst → memcpy dst src n = Some (take n src ++ drop n dst).
Proof. intros. unfold memcpy. by rewrite decide_True. Qed.
Lemma memcpy_det dst s t n : n ≤ length s → n ≤ length dst →
  memcpy dst (det s ++ t) n = Some (det (take n s) ++ drop n dst).
Proof.
  intros Hs Hd. rewrite memcpy_eq by (rewrite ?length_app, ?length_fmap; lia).
  by rewrite take_app_le, fmap_take by (rewrite length_fmap; lia).
Qed.
Lemma poke_app a x t c n : n = Z.of_nat (length a) → poke (a ++ x :: t) n c = Some (a ++ Some c :: t).
Proof.
  intros ->. unfold poke. rewrite decide_True by (rewrite length_app; cbn; lia).
  rewrite Nat2Z.id, insert_app_r_alt, Nat.sub_diag by lia. done.
Qed.
Lemma peek_det s t i : (0 ≤ i < Z.of_nat (length s))%Z → ∃ x, s !! Z.to_nat i = Some x ∧ peek (det s ++ t) i = Some x.
Proof.
  intros Hi. destruct (lookup_lt_is_Some_2 s (Z.to_nat i)) as [x Hx]; [lia|]. exists x. split; [done|].
  unfold peek. rewrite decide_True by lia. rewrite lookup_app_l by (rewrite length_fmap; lia).
  rewrite list_lookup_fmap, Hx. done.
Qed.
Lemma strlen_det s t : Forall (λ x, x ≠ 0%Z) s → strlen (det s ++ Some 0%Z :: t) = Some (length s).
Proof. induction 1 as [|x s Hx _ IH]; cbn; [done|]. rewrite decide_False by done. cbn in IH. by rewrite IH. Qed.
Lemma same_from_det p s1 s2 t1 t2 n i : length p = Z.to_nat i → (0 ≤ i)%Z → length s1 = n → length s2 = n →
  same_from n (det (p ++ s1) ++ t1) (det (p ++ s2) ++ t2) i = Some (bool_decide (s1 = s2)).
Proof.
  revert p s1 s2 i. induction n as [|n IH]; intros p s1 s2 i Hp Hi H1 H2.
  { destruct s1, s2; done. }
  destruct s1 as [|x s1], s2 as [|y s2]; try done. cbn [same_from].
  assert (Hpk : ∀ z s t, peek (det (p ++ z :: s) ++ t) i = Some z).
  { intros z s t. unfold peek. rewrite decide_True, fmap_app, <- Hp by done.
    rewrite fmap_cons, <- app_assoc, lookup_app_r by (rewrite length_fmap; lia).
    rewrite length_fmap, Nat.sub_diag. done. }
  rewrite !Hpk. cbn. case_decide as Hxy.
  - subst y. rewrite !(cons_middle x p), !app_assoc.
    rewrite (IH (p ++ [x])); [|rewrite length_app; cbn; lia|lia|cbn in *; lia|cbn in *; lia].
    f_equal. apply bool_decide_ext. split; [by intros ->|by intros [=]].
  - f_equal. symmetry. apply bool_decide_eq_false. by intros [=].
Qed.

(** Writing [s] and a zero into a buffer with room for it. *)
Lemma fill_buffer dst s t n : length s = n → n < length dst →
  ∃ b t', (b ← memcpy dst (det s ++ t) n; poke b (Z.of_nat n) 0) = Some b ∧
     b = det s ++ Some 0%Z :: t' ∧ length b = length dst.
Proof.
  intros Hs Hn. rewrite memcpy_det by lia. cbn. rewrite take_ge by lia.
  destruct (drop n dst) as [|x t'] eqn:Hd; [apply (f_equal length) in Hd; rewrite length_drop in Hd; cbn in Hd; lia|].
  rewrite poke_app by (rewrite length_fmap; lia). do 2 eexists. split_and!; [done|done|].
  apply (f_equal length) in Hd. rewrite length_drop in Hd. cbn in Hd.
  rewrite length_app, length_fmap. cbn. lia.
Qed.

(** *** The bounded classes *)
Section bounded.
Context (c : vclass).
Implicit Types (v : vchar) (s : bytes).

Lemma v_new_holds : ∃ v, v_new c = Some v ∧ v_holds c v [].
Proof.
  destruct c; (eexists; split; [vm_compute; reflexivity|]; split; cbn; [done|lia|by eexists|done]).
Qed.

(** What is left of a string copied into the class. *)
Definition clip s : bytes := take (Z.to_nat (vcap c)) s.

Lemma v_fill v s t n : v_holds c v s → ∀ s', length s' = n → (Z.of_nat n ≤ vcap c)%Z →
  ∃ b, memcpy (vbuf v) (det s' ++ t) n ≫= (λ b, poke b (Z.of_nat n) 0) = Some b ∧
    v_holds c (VChar (Z.of_nat n) b) s'.
Proof.
  intros Hv s' Hl Hn. pose proof (vcap_bounds c). pose proof (vh_size _ _ _ Hv) as Hsz.
  destruct (fill_buffer (vbuf v) s' t n) as (b & t' & Hb & -> & Hlen); [done|lia|].
  exists (det s' ++ Some 0%Z :: t'). split; [exact Hb|].
  split; cbn; [by rewrite Hl|lia|by eexists|by rewrite Hlen].
Qed.

Lemma v_set_holds v s b t len : v_holds c v s → (0 < len ≤ Z.of_nat (length b))%Z →
  ∃ v', v_set c v (Some (det b ++ t)) len = Some v' ∧ v_holds c v' (clip (take (Z.to_nat len) b)).
Proof.
  intros Hv Hlen. unfold v_set. rewrite decide_True by lia. pose proof (vcap_bounds c).
  set (n := if decide (vcap c < len)%Z then vcap c else len).
  assert (Hn : (0 < n ≤ vcap c)%Z ∧ (n ≤ len)%Z) by (subst n; case_decide; lia).
  assert (Hs : clip (take (Z.to_nat len) b) = take (Z.to_nat n) b).
  { unfold clip. rewrite take_take. f_equal. subst n. case_decide; lia. }
  destruct (v_fill v s (det (drop (Z.to_nat n) b) ++ t) (Z.to_nat n) Hv (take (Z.to_nat n) b))
    as (b' & Hb & Hh); [rewrite length_take; lia|lia|].
  rewrite app_assoc, <- fmap_app, take_drop, Z2Nat.id in Hb by lia.
  rewrite Z2Nat.id in Hh by lia. rewrite Hs.
  exists (VChar n b'). split; [|done].
  destruct (memcpy _ _ _) as [b1|]; [|done]. cbn in Hb |- *. rewrite Hb. cbn.
  unfold u8. rewrite Z.mod_small by lia. done.
Qed.
Lemma v_set_nothing v buf len : (len ≤ 0)%Z → v_set c v buf len = Some v.
Proof. intros. unfold v_set. destruct buf; [|done]. by rewrite decide_False by lia. Qed.

(** A NUL-terminated argument. *)
Lemma v_set_str_holds v s b t : v_holds c v s → Forall (λ x, x ≠ 0%Z) b → b ≠ [] →
  ∃ v', v_set_str c v (Some (det b ++ Some 0%Z :: t)) = Some v' ∧ v_holds c v' (clip b).
Proof.
  intros Hv Hnz Hb. unfold v_set_str. rewrite strlen_det by done. cbn [mbind option_bind].
  destruct (v_set_holds v s b (Some 0%Z :: t) (Z.of_nat (length b)) Hv) as (v' & Hs & Hh).
  { destruct b; [done|cbn; lia]. }
  exists v'. split; [done|]. rewrite Nat2Z.id, take_ge in Hh by lia. done.
Qed.

Lemma v_get_holds v s i : v_holds c v s → (0 ≤ i)%Z →
  v_GetVarCharContent v i = Some (default 0%Z (s !! Z.to_nat i)).
Proof.
  intros [Hl _ [t Hb] _] Hi. unfold v_GetVarCharContent. rewrite Hl.
  case_decide as Hd.
  - rewrite lookup_ge_None_2 by lia. done.
  - rewrite Hb. destruct (decide (i = Z.of_nat (length s))) as [->|Hne].
    + unfold peek. rewrite decide_True by lia. rewrite Nat2Z.id, lookup_app_r by (rewrite length_fmap; lia).
      rewrite length_fmap, Nat.sub_diag, (lookup_ge_None_2 s) by lia. done.
    + destruct (peek_det s (Some 0%Z :: t) i) as (x & Hx & ->); [lia|]. by rewrite Hx.
Qed.

Lemma v_poke_holds v s i ch : v_holds c v s → (0 ≤ i < Z.of_nat (length s))%Z →
  ∃ v', v_SetVarCharContent_at v i ch = Some v' ∧ v_holds c v' (<[Z.to_nat i := ch]> s).
Proof.
  intros [Hl Hc [t Hb] Hs] Hi. unfold v_SetVarCharContent_at. rewrite decide_True by lia.
  unfold poke. rewrite decide_True by (rewrite Hb, length_app, length_fmap; lia). cbn.
  eexists. split; [done|]. split; cbn; rewrite ?length_insert; [done|done| |done].
  exists t. rewrite Hb, insert_app_l by (rewrite length_fmap; lia). by rewrite list_fmap_insert.
Qed.

Lemma v_eq_holds v1 v2 s1 s2 : v_holds c v1 s1 → v_holds c v2 s2 →
  v_eq v1 v2 = Some (bool_decide (s1 = s2)).
Proof.
  intros [Hl1 _ [t1 Hb1] _] [Hl2 _ [t2 Hb2] _]. unfold v_eq. rewrite Hl1, Hl2, Hb1, Hb2.
  case_decide as He.
  - rewrite Nat2Z.id. apply (same_from_det [] s1 s2); [done|lia|done|lia].
  - f_equal. symmetry. apply bool_decide_eq_false. congruence.
Qed.

Lemma v_copy_holds v r s sv : v_holds c r s →
  (∃ v', v_copy c r = Some v' ∧ v_holds c v' s) ∧
  (v_holds c v sv → ∃ v', v_assign c v r = Some v' ∧ v_holds c v' s).
Proof.
  intros Hr. pose proof Hr as [Hl Hc Hb Hs]. split.
  - unfold v_copy. rewrite memcpy_eq by (unfold uninit; rewrite ?length_replicate; lia). cbn.
    eexists. split; [done|]. rewrite take_ge by lia. unfold uninit.
    rewrite drop_ge, app_nil_r by (rewrite length_replicate; lia). done.
  - intros [_ _ _ Hs']. unfold v_assign. rewrite memcpy_eq by lia. cbn.
    eexists. split; [done|]. rewrite take_ge, drop_ge, app_nil_r by lia. done.
Qed.

Lemma v_encode_holds v s : v_holds c v s →
  v_encode v = Some (v_size v, Some (Z.of_nat (length s)) :: det s) ∧ v_size v = Z.of_nat (S (length s)).
Proof.
  intros [Hl Hc [t Hb] Hs]. unfold v_encode, v_size. rewrite Hl, Nat2Z.id.
  rewrite decide_True by (rewrite Hb, length_app, length_fmap; lia). split; [|lia].
  rewrite Hb. rewrite take_app_le, take_ge by (rewrite length_fmap; lia). done.
Qed.

Lemma v_decode_holds v s0 s rest : v_holds c v s0 → (Z.of_nat (length s) ≤ vcap c)%Z →
  ∃ v', v_decode c v (Some (Z.of_nat (length s)) :: det s ++ rest) = Some (v_size v', v', rest) ∧
    v_holds c v' s.
Proof.
  intros Hv Hs. unfold v_decode. change (peek _ 0) with (Some (Z.of_nat (length s))). cbn [mbind option_bind].
  cbv zeta. rewrite decide_False by lia. cbn [drop].
  destruct (v_fill v s0 rest (length s) Hv s eq_refl Hs) as (b & Hb & Hh). rewrite Nat2Z.id.
  destruct (memcpy _ _ _) as [b1|]; [|done]. cbn [mbind option_bind] in Hb |- *. rewrite Hb.
  cbn [mbind option_bind]. rewrite drop_0, drop_app_length' by (by rewrite length_fmap).
  eexists. split; [done|done].
Qed.
End bounded.

(** *** [CVarChar] *)
Section unbounded.
Implicit Types (v : vchar) (s : bytes).

Definition wclip s : bytes := take (Z.to_nat MAX_VCHAR_LENGTH) s.

Lemma w_new_holds : w_holds w_new [].
Proof. split; cbn; [done|unfold MAX_VCHAR_LENGTH; lia|by exists []]. Qed.

Lemma w_fill s t n : length s = n → (Z.of_nat n ≤ MAX_VCHAR_LENGTH)%Z →
  ∃ b, (b ← w_alloc (Z.of_nat n + 1); b ← memcpy b (det s ++ t) n; poke b (Z.of_nat n) 0) = Some b ∧
    w_holds (VChar (Z.of_nat n) b) s.
Proof.
  intros Hs Hn. unfold w_alloc. rewrite decide_True by lia. cbn [mbind option_bind].
  destruct (fill_buffer (uninit (Z.to_nat (Z.of_nat n + 1))) s t n) as (b & t' & Hb & -> & _);
    [done|unfold uninit; rewrite length_replicate; lia|].
  eexists. split; [exact Hb|]. split; cbn; [by rewrite Hs|lia|by eexists].
Qed.

Lemma w_set_holds v s b t len : w_holds v s → (0 < len ≤ Z.of_nat (length b))%Z →
  ∃ v', w_set v (Some (det b ++ t)) len = Some v' ∧ w_holds v' (wclip (take (Z.to_nat len) b)).
Proof.
  intros Hv Hlen. unfold w_set, wclip. rewrite take_take.
  assert (Hgo : ∀ n, (0 < n ≤ MAX_VCHAR_LENGTH)%Z → (n ≤ len)%Z → ∃ v',
    (b0 ← w_alloc (n + 1); b0 ← memcpy b0 (det b ++ t) (Z.to_nat n); b0 ← poke b0 n 0; Some (VChar n b0))
      = Some v' ∧ w_holds v' (take (Z.to_nat n) b)).
  { intros n Hn Hnl.
    destruct (w_fill (take (Z.to_nat n) b) (det (drop (Z.to_nat n) b) ++ t) (Z.to_nat n))
      as (b' & Hb & Hh); [rewrite length_take; lia|lia|].
    rewrite app_assoc, <- fmap_app, take_drop, Z2Nat.id in Hb by lia. rewrite Z2Nat.id in Hh by lia.
    exists (VChar n b'). split; [|done].
    destruct (w_alloc (n + 1)) as [b1|]; [|done]. cbn [mbind option_bind] in Hb |- *.
    destruct (memcpy b1 _ _) as [b2|]; [|done]. cbn [mbind option_bind] in Hb |- *. by rewrite Hb. }
  case_decide as H1.
  - replace (Z.to_nat MAX_VCHAR_LENGTH `min` Z.to_nat len) with (Z.to_nat len) by lia. by apply Hgo; lia.
  - rewrite decide_True by lia.
    replace (Z.to_nat MAX_VCHAR_LENGTH `min` Z.to_nat len) with (Z.to_nat MAX_VCHAR_LENGTH) by lia.
    apply Hgo; unfold MAX_VCHAR_LENGTH in *; lia.
Qed.

(** Setting an empty string only zeroes the first character. *)
Lemma zero_first_holds v s : w_holds v s →
  ∃ b, poke (vbuf v) 0 0 = Some b ∧ w_holds (VChar (vlen v) b) (zero_first s).
Proof.
  intros [Hl Hc [t Hb]]. unfold poke. rewrite decide_True by (rewrite Hb, length_app; cbn; lia).
  rewrite Hb. destruct s as [|x s]; cbn.
  - eexists. split; [done|]. split; cbn; [done|lia|by eexists].
  - eexists. split; [done|]. split; cbn in *; [done|lia|by eexists].
Qed.
Lemma w_set_nothing v s b len : w_holds v s → (len ≤ 0)%Z →
  ∃ v', w_set v (Some b) len = Some v' ∧ w_holds v' (zero_first s).
Proof.
  intros Hv Hl. unfold w_set. rewrite decide_False, decide_False by (unfold MAX_VCHAR_LENGTH; lia).
  destruct (zero_first_holds v s Hv) as (b' & -> & Hh). by eexists.
Qed.

Lemma w_copy_holds r s : w_holds r s → ∃ v', w_copy r = Some v' ∧ w_holds v' s.
Proof.
  intros [Hl Hc [t Hb]]. unfold w_copy, w_alloc. rewrite Hl, decide_True by lia. cbn [mbind option_bind].
  assert (Hsrc : vbuf r = det (s ++ [0%Z]) ++ t).
  { rewrite Hb, fmap_app, <- app_assoc. done. }
  rewrite Hsrc, memcpy_det by (unfold uninit; rewrite ?length_app, ?length_replicate; cbn; lia).
  cbn [mbind option_bind]. eexists. split; [done|]. split; cbn [vlen vbuf]; [done|done|].
  rewrite take_ge by (rewrite length_app; cbn; lia). unfold uninit.
  rewrite drop_ge by (rewrite length_replicate; lia). exists []. by rewrite fmap_app, app_nil_r.
Qed.

Lemma w_shrink_holds v s len : w_holds v s → (0 ≤ len ≤ Z.of_nat (length s))%Z →
  ∃ v', w_SetVarCharLen v len = Some v' ∧ w_holds v' (take (Z.to_nat len) s).
Proof.
  intros Hv Hlen. pose proof Hv as [Hl Hc [t Hb]]. unfold w_SetVarCharLen. case_decide as H0.
  { subst. eexists. split; [done|]. apply w_new_holds. }
  rewrite decide_True by lia. rewrite Hb.
  destruct (decide (len = Z.of_nat (length s))) as [->|Hne].
  - rewrite poke_app by (by rewrite length_fmap). cbn. eexists. split; [done|].
    rewrite Nat2Z.id, take_ge by lia. split; cbn; [done|done|by eexists].
  - assert (Hsp : det s = det (take (Z.to_nat len) s) ++ det (drop (Z.to_nat len) s))
      by (by rewrite <- fmap_app, take_drop).
    rewrite Hsp, <- app_assoc.
    destruct (drop (Z.to_nat len) s) as [|x s'] eqn:Hd.
    { apply (f_equal length) in Hd. rewrite length_drop in Hd. cbn in Hd. lia. }
    rewrite fmap_cons. cbn [app].
    rewrite poke_app by (rewrite length_fmap, length_take; lia). cbn. eexists. split; [done|].
    split; cbn; [rewrite length_take; lia|rewrite length_take; lia|by eexists].
Qed.

Lemma w_eq_holds v1 v2 s1 s2 : w_holds v1 s1 → w_holds v2 s2 → w_eq v1 v2 = Some (bool_decide (s1 = s2)).
Proof.
  intros [Hl1 _ [t1 Hb1]] [Hl2 _ [t2 Hb2]]. unfold w_eq. rewrite Hl1, Hl2, Hb1, Hb2.
  case_decide as He.
  - rewrite Nat2Z.id. apply (same_from_det [] s1 s2); [done|lia|done|lia].
  - f_equal. symmetry. apply bool_decide_eq_false. congruence.
Qed.

Lemma i32_u32 n : (- 2 ^ 31 ≤ n < 2 ^ 31)%Z → i32 (u32 n) = n.
Proof.
  intros Hn. unfold i32, u32. destruct (decide (0 ≤ n)%Z).
  - rewrite (Z.mod_small n), Z.mod_small by lia. lia.
  - rewrite <- (Z_mod_plus_full n 1), (Z.mod_small (n + 1 * 2 ^ 32)) by lia.
    rewrite <- (Z_mod_plus_full _ (-1)), Z.mod_small by lia. lia.
Qed.
Lemma decode_int_cells a b c d t :
  decode_int (Some a :: Some b :: Some c :: Some d :: t)
  = Some (i32 (a * 2 ^ 24 + b * 2 ^ 16 + c * 2 ^ 8 + d)%Z, t).
Proof. done. Qed.
Lemma be_bytes u :
  (u / 2 ^ 24 * 2 ^ 24 + u / 2 ^ 16 mod 256 * 2 ^ 16 + u / 2 ^ 8 mod 256 * 2 ^ 8 + u mod 256 = u)%Z.
Proof.
  change (2 ^ 24)%Z with (256 * (256 * 256))%Z. change (2 ^ 16)%Z with (256 * 256)%Z.
  change (2 ^ 8)%Z with 256%Z.
  rewrite <- !Z.div_div by lia.
  pose proof (Z.div_mod u 256 ltac:(lia)). pose proof (Z.div_mod (u / 256) 256 ltac:(lia)).
  pose proof (Z.div_mod (u / 256 / 256) 256 ltac:(lia)). lia.
Qed.
Lemma decode_encode_int n t : (- 2 ^ 31 ≤ n < 2 ^ 31)%Z → decode_int (encode_int n ++ t) = Some (n, t).
Proof.
  intros Hn. unfold encode_int. cbv zeta. cbn [app]. rewrite decode_int_cells, be_bytes.
  by rewrite i32_u32.
Qed.

Lemma w_encode_holds v s : w_holds v s →
  w_encode v = Some (w_size v, encode_int (Z.of_nat (length s)) ++ det s) ∧ w_size v = (4 + Z.of_nat (length s))%Z.
Proof.
  intros [Hl Hc [t Hb]]. unfold w_encode, w_size. rewrite Hl. split; [|lia]. case_decide as H0.
  - rewrite Nat2Z.id, decide_True by (rewrite Hb, length_app, length_fmap; lia).
    rewrite Hb. by rewrite take_app_le, take_ge by (rewrite length_fmap; lia).
  - destruct s; [|cbn in H0; lia]. by rewrite app_nil_r.
Qed.
Lemma w_decode_holds v s0 s rest : w_holds v s0 → (Z.of_nat (length s) ≤ MAX_VCHAR_LENGTH)%Z →
  ∃ v', w_decode v (encode_int (Z.of_nat (length s)) ++ det s ++ rest) = Some (w_size v', v', rest) ∧
    (s ≠ [] → w_holds v' s) ∧ vlen v' = Z.of_nat (length s) ∧ (s = [] → w_holds v' []).
Proof.
  intros Hv Hs. unfold w_decode.
  rewrite decode_encode_int by (unfold MAX_VCHAR_LENGTH in Hs; lia). cbn [mbind option_bind].
  case_decide as H0.
  - destruct (w_fill s rest (length s) eq_refl Hs) as (b & Hb & Hh). rewrite Nat2Z.id.
    destruct (w_alloc _) as [b1|]; [|done]. cbn [mbind option_bind] in Hb |- *.
    destruct (memcpy b1 _ _) as [b2|]; [|done]. cbn [mbind option_bind] in Hb |- *. rewrite Hb.
    cbn [mbind option_bind]. rewrite drop_app_length' by (by rewrite length_fmap).
    eexists. split; [done|]. split_and!; [done|done|]. intros ->. cbn in H0. lia.
  - destruct s; [|cbn in H0; unfold MAX_VCHAR_LENGTH in *; cbn in *; lia].
    destruct Hv as [_ _ [t Hb]]. unfold poke.
    rewrite decide_True by (rewrite Hb, length_app; cbn; lia). cbn [mbind option_bind fmap list_fmap app].
    eexists. split; [done|]. split_and!; [done|done|]. intros _. split; cbn; [done|unfold MAX_VCHAR_LENGTH; lia|].
    rewrite Hb. destruct s0; cbn; by eexists.
Qed.
End unbounded.

(** *** [CFixedChar] *)
Section fixed.
Implicit Types (v : fchar) (s : bytes).

Lemma zeros_split n m : zeros (n + m) = zeros n ++ zeros m.
Proof. apply replicate_add. Qed.

Lemma f_new_size_holds size : f_holds (f_new_size size) [].
Proof.
  unfold f_new_size, MAX_FCHAR_LENGTH. cbv zeta.
  set (n := if decide (256 < _)%Z then _ else _). assert (0 < n ≤ 256)%Z by (subst n; repeat case_decide; lia).
  split; cbn [fsize flen fbuf]; [done|cbn; lia| | |lia].
  - exists (Z.to_nat n). cbn. replace (Z.to_nat (n + 1)) with (S (Z.to_nat n)) by lia. done.
  - unfold zeros. rewrite length_replicate. lia.
Qed.

(** [s] copied over a cleared buffer. *)
Lemma f_fill sz s t n : length s = n → (Z.of_nat n ≤ sz)%Z → (0 < sz)%Z →
  ∃ b, memcpy (zeros (Z.to_nat (sz + 1))) (det s ++ t) n = Some b ∧ f_holds (FChar sz (Z.of_nat n) b) s.
Proof.
  intros Hs Hn Hsz. unfold zeros. rewrite memcpy_det by (rewrite ?length_replicate; lia).
  eexists. split; [done|]. rewrite take_ge by lia. rewrite drop_replicate.
  split; cbn [fsize flen fbuf]; [by rewrite Hs|lia| | |done].
  - exists (Z.to_nat sz - n). by replace (Z.to_nat (sz + 1) - n) with (S (Z.to_nat sz - n)) by lia.
  - rewrite length_app, length_fmap, length_replicate. lia.
Qed.

Lemma f_set_holds v s b t len : f_holds v s → (0 < len ≤ Z.of_nat (length b))%Z →
  ∃ v', f_set v (Some (det b ++ t)) len = Some v' ∧ fsize v' = fsize v ∧
    f_holds v' (take (Z.to_nat (Z.min len (fsize v))) b).
Proof.
  intros Hv Hlen. unfold f_set. rewrite decide_True by lia. pose proof (fh_pos _ _ Hv).
  set (n := if decide (fsize v < len)%Z then fsize v else len).
  assert (Hn : n = Z.min len (fsize v)) by (subst n; case_decide; lia). cbv zeta. rewrite Hn.
  destruct (f_fill (fsize v) (take (Z.to_nat (Z.min len (fsize v))) b)
    (det (drop (Z.to_nat (Z.min len (fsize v))) b) ++ t) (Z.to_nat (Z.min len (fsize v)))) as (b' & Hb & Hh);
    [rewrite length_take; lia|lia|done|].
  rewrite app_assoc, <- fmap_app, take_drop in Hb. rewrite Hb. cbn [mbind option_bind].
  rewrite Z2Nat.id in Hh by lia. by eexists.
Qed.

Lemma f_encode_holds v s : f_holds v s →
  f_encode v = Some (fsize v, det s ++ zeros (Z.to_nat (fsize v) - length s)).
Proof.
  intros [Hl Hc [k Hb] Hs Hp]. unfold f_encode.
  rewrite memcpy_eq by (unfold uninit; rewrite ?length_replicate; lia). cbn [mbind option_bind].
  unfold uninit. rewrite drop_ge, app_nil_r by (rewrite length_replicate; lia).
  assert (Hk : Z.to_nat (fsize v) = length s + k).
  { rewrite Hb, length_app, length_fmap in Hs. unfold zeros in Hs. rewrite length_replicate in Hs. lia. }
  rewrite Hb, Hk. replace (length s + k - length s) with k by lia.
  rewrite take_app_ge by (rewrite length_fmap; lia). rewrite length_fmap.
  replace (length s + k - length s) with k by lia. unfold zeros. by rewrite take_replicate, Nat.min_l by lia.
Qed.

(** Decoding finds the string up to its first zero. *)
Lemma f_decode_holds v s0 s k rest : f_holds v s0 → Forall (λ x, x ≠ 0%Z) s →
  fsize v = Z.of_nat (length s + k) →
  ∃ v', f_decode v (det s ++ zeros k ++ rest) = Some (fsize v, v', rest) ∧ f_holds v' s.
Proof.
  intros [Hl Hc Hb Hs Hp] Hnz Hk. unfold f_decode. rewrite Hk, Nat2Z.id in *.
  assert (Hz : length (zeros k) = k) by (unfold zeros; apply length_replicate).
  rewrite memcpy_eq by (rewrite ?length_app, ?length_fmap; lia). cbn [mbind option_bind].
  rewrite app_assoc, take_app_le, (take_ge (det s ++ zeros k))
    by (rewrite length_app, length_fmap; lia).
  destruct (drop (length s + k) (fbuf v)) as [|x t] eqn:Hd;
    [apply (f_equal length) in Hd; rewrite length_drop in Hd; cbn in Hd; lia|].
  assert (t = []) as ->.
  { apply (f_equal length) in Hd. rewrite length_drop in Hd. cbn in Hd. destruct t; [done|cbn in Hd; lia]. }
  rewrite poke_app by (rewrite length_app, length_fmap, Hz; lia). cbn [mbind option_bind].
  assert (Hzz : (det s ++ zeros k) ++ [Some 0%Z] = det s ++ zeros (S k)).
  { rewrite <- app_assoc. f_equal. unfold zeros. rewrite replicate_S_end. done. }
  rewrite Hzz. change (zeros (S k)) with (Some 0%Z :: zeros k). rewrite strlen_det by done.
  cbn [mbind option_bind].
  rewrite (drop_app_length' (det s ++ zeros k)) by (rewrite length_app, length_fmap; lia).
  eexists. split; [done|]. split; cbn [fsize flen fbuf]; [done|lia|by exists k| |lia].
  rewrite length_app, length_fmap. cbn. rewrite Hz. lia.
Qed.
End fixed.

(** ** What the classes promise to a client *)
Class StrLaws (k : vkind) (o : strops) : Prop := {
  law_new : ∃ v, op_new o = Some v ∧ kholds k v [];
  law_copy r s : kholds k r s → ∃ v, op_copy o r = Some v ∧ kholds k v s;
  law_assign v r s s0 : kholds k v s0 → kholds k r s → ∃ v', op_assign o v r = Some v' ∧ kholds k v' s;
  law_set v s b t len : kholds k v s → (len ≤ Z.of_nat (length b))%Z →
    ∃ v', op_set o v (Some (det b ++ t)) len = Some v' ∧ kholds k v' (set_str k s (take (Z.to_nat len) b));
  law_set_null v len : op_set o v None len = Some v;
  law_set_str v s b t : kholds k v s → Forall (λ x, x ≠ 0%Z) b →
    ∃ v', op_set_str o v (Some (det b ++ Some 0%Z :: t)) = Some v' ∧
          op_set_content_str o v (Some (det b ++ Some 0%Z :: t)) = Some v' ∧
          op_assign_str o v (Some (det b ++ Some 0%Z :: t)) = Some v' ∧ kholds k v' (set_str k s b);
  law_from v s r b : kholds k v s → has_from k r → strobj_holds r b →
    ∃ v', op_from o v r = Some v' ∧ kholds k v' (set_str k s b);
  law_get v s i : kholds k v s →
    op_get o v i = Some (if decide (0 ≤ i)%Z then default 0%Z (s !! Z.to_nat i) else 0%Z);
  law_set_at v s i ch : kholds k v s → i ≠ Z.of_nat (length s) →
    ∃ v', op_set_at o v i ch = Some v' ∧
          kholds k v' (if decide (0 ≤ i)%Z then <[Z.to_nat i := ch]> s else s);
  law_length v s : kholds k v s → op_length o v = Z.of_nat (length s);
  law_eq v w s t : kholds k v s → kholds k w t → op_eq o v w = Some (bool_decide (s = t));
  law_encode v s : kholds k v s → op_encode o v = Some (hsize k + Z.of_nat (length s), wire k s)%Z;
  law_decode v s0 s rest : kholds k v s0 → (Z.of_nat (length s) ≤ smax k)%Z →
    ∃ v', op_decode o v (head k (Z.of_nat (length s)) ++ det s ++ rest)
            = Some (hsize k + Z.of_nat (length s), v', rest)%Z ∧ kholds k v' s;
}.

(** *** The bounded classes keep it *)
Lemma smax_pos k : (0 < smax k)%Z.
Proof. destruct k as [[]|]; done. Qed.

(** A source object shows its string in its buffer. *)
Lemma strobj_view r b : strobj_holds r b → ∃ t,
  match r with OFixed r => fbuf r | OBound _ r | OVar r => vbuf r end = det b ++ t ∧
  match r with OFixed r => flen r | OBound _ r | OVar r => vlen r end = Z.of_nat (length b).
Proof.
  destruct r as [r|c r|r]; cbn.
  - intros [Hl _ [n Hb] _ _]. by eexists.
  - intros [Hl _ [t Hb] _]. by eexists.
  - intros [Hl _ [t Hb]]. by eexists.
Qed.

Section bounded_laws.
Context (c : vclass).

Lemma v_set_law v s b t len : v_holds c v s → (len ≤ Z.of_nat (length b))%Z →
  ∃ v', v_set c v (Some (det b ++ t)) len = Some v' ∧ v_holds c v' (set_str (KBound c) s (take (Z.to_nat len) b)).
Proof.
  intros Hv Hl. destruct (decide (0 < len)%Z) as [Hp|Hp].
  - destruct (v_set_holds c v s b t len) as (v' & He & Hh); [done|lia|]. exists v'. split; [done|].
    destruct (take _ b) as [|x l] eqn:Ht; [|exact Hh].
    apply (f_equal length) in Ht. rewrite length_take in Ht. cbn in Ht. lia.
  - rewrite v_set_nothing by lia. exists v. split; [done|].
    replace (Z.to_nat len) with 0 by lia. by rewrite take_0.
Qed.
Lemma v_set_str_law v s b t : v_holds c v s → Forall (λ x, x ≠ 0%Z) b →
  ∃ v', v_set_str c v (Some (det b ++ Some 0%Z :: t)) = Some v' ∧ v_holds c v' (set_str (KBound c) s b).
Proof.
  intros Hv Hb. unfold v_set_str. rewrite strlen_det by done. cbn [mbind option_bind].
  destruct (v_set_law v s b (Some 0%Z :: t) (Z.of_nat (length b))) as (v' & He & Hh); [done|lia|].
  rewrite Nat2Z.id, take_ge in Hh by lia. by exists v'.
Qed.
Lemma v_from_law v s buf t b : v_holds c v s → buf = det b ++ t →
  ∃ v', v_assign_from c v buf (Z.of_nat (length b)) = Some v' ∧ v_holds c v' (set_str (KBound c) s b).
Proof.
  intros Hv ->. unfold v_assign_from.
  destruct (v_set_law v s b t (Z.of_nat (length b))) as (v' & He & Hh); [done|lia|].
  rewrite Nat2Z.id, take_ge in Hh by lia. by exists v'.
Qed.
Lemma v_get_law v s i : v_holds c v s →
  v_GetVarCharContent v i = Some (if decide (0 ≤ i)%Z then default 0%Z (s !! Z.to_nat i) else 0%Z).
Proof.
  intros Hv. case_decide; [by eapply v_get_holds|]. unfold v_GetVarCharContent.
  by rewrite decide_True by lia.
Qed.
Lemma v_set_at_law v s i ch : v_holds c v s → i ≠ Z.of_nat (length s) →
  ∃ v', v_SetVarCharContent_at v i ch = Some v' ∧
        v_holds c v' (if decide (0 ≤ i)%Z then <[Z.to_nat i := ch]> s else s).
Proof.
  intros Hv Hi. destruct (decide (0 ≤ i < Z.of_nat (length s))%Z) as [Hin|Hout].
  - rewrite decide_True by lia. by apply v_poke_holds.
  - exists v. split.
    + unfold v_SetVarCharContent_at. rewrite (vh_len _ _ _ Hv). rewrite decide_False; [done|lia].
    + case_decide; [|done]. rewrite list_insert_ge by lia. done.
Qed.
End bounded_laws.

#[export] Instance bounded_laws c : StrLaws (KBound c) (ops (KBound c)).
Proof.
  split; cbn [kholds].
  - destruct c; apply v_new_holds.
  - intros r s Hr. destruct (v_copy_holds c r r s [] Hr) as [H _]. destruct c; exact H.
  - intros v r s s0 Hv Hr. destruct (v_copy_holds c v r s s0 Hr) as [_ H]. destruct c; exact (H Hv).
  - intros. destruct c; by apply v_set_law.
  - by destruct c.
  - intros v s b t Hv Hb. destruct (v_set_str_law c v s b t Hv Hb) as (v' & He & Hh).
    exists v'. destruct c; split_and!; done.
  - intros v s r b Hv Hf Hr. destruct (strobj_view r b Hr) as (t & Hbuf & Hlen).
    destruct (v_from_law c v s _ t b Hv Hbuf) as (v' & He & Hh). rewrite <- Hlen in He. exists v'. split; [|done].
    clear - Hf He. destruct c, r as [r|[] r|r]; first [exact He|done|by apply bool_decide_unpack in Hf; cbn in Hf; lia].
  - intros. destruct c; by eapply v_get_law.
  - intros. destruct c; by eapply v_set_at_law.
  - intros v s Hv. pose proof (vh_len _ _ _ Hv). by destruct c.
  - intros v w s t Hv Hw. pose proof (v_eq_holds c _ _ _ _ Hv Hw). by destruct c.
  - intros v s Hv. destruct (v_encode_holds c v s Hv) as [He Hz]. rewrite Hz in He.
    unfold wire, head, hsize. replace (1 + Z.of_nat (length s))%Z with (Z.of_nat (S (length s))) by lia.
    by destruct c.
  - intros v s0 s rest Hv Hs. destruct (v_decode_holds c v s0 s rest Hv Hs) as (v' & He & Hh).
    exists v'. split; [|done]. destruct (v_encode_holds c v' s Hh) as [_ Hz]. rewrite Hz in He.
    unfold head, hsize. replace (1 + Z.of_nat (length s))%Z with (Z.of_nat (S (length s))) by lia.
    by destruct c.
Qed.

(** *** [CVarChar] keeps it *)
Lemma w_set_law v s b t len : w_holds v s → (len ≤ Z.of_nat (length b))%Z →
  ∃ v', w_set v (Some (det b ++ t)) len = Some v' ∧ w_holds v' (set_str KVar s (take (Z.to_nat len) b)).
Proof.
  intros Hv Hl. destruct (decide (0 < len)%Z) as [Hp|Hp].
  - destruct (w_set_holds v s b t len) as (v' & He & Hh); [done|lia|]. exists v'. split; [done|].
    destruct (take _ b) as [|x l] eqn:Ht; [|exact Hh].
    apply (f_equal length) in Ht. rewrite length_take in Ht. cbn in Ht. lia.
  - destruct (w_set_nothing v s (det b ++ t) len) as (v' & He & Hh); [done|lia|]. exists v'. split; [done|].
    replace (Z.to_nat len) with 0 by lia. by rewrite take_0.
Qed.
Lemma w_set_str_law v s b t : w_holds v s → Forall (λ x, x ≠ 0%Z) b →
  ∃ v', w_set_str v (Some (det b ++ Some 0%Z :: t)) = Some v' ∧ w_holds v' (set_str KVar s b).
Proof.
  intros Hv Hb. unfold w_set_str. rewrite strlen_det by done. cbn [mbind option_bind].
  destruct (w_set_law v s b (Some 0%Z :: t) (Z.of_nat (length b))) as (v' & He & Hh); [done|lia|].
  rewrite Nat2Z.id, take_ge in Hh by lia. by exists v'.
Qed.
Lemma w_from_law v s buf t b : w_holds v s → buf = det b ++ t →
  ∃ v', w_assign_from v buf (Z.of_nat (length b)) = Some v' ∧ w_holds v' (set_str KVar s b).
Proof.
  intros Hv ->. unfold w_assign_from.
  destruct (w_set_law v s b t (Z.of_nat (length b))) as (v' & He & Hh); [done|lia|].
  rewrite Nat2Z.id, take_ge in Hh by lia. by exists v'.
Qed.
Lemma w_get_law v s i : w_holds v s →
  w_GetVarCharContent v i = Some (if decide (0 ≤ i)%Z then default 0%Z (s !! Z.to_nat i) else 0%Z).
Proof.
  intros [Hl _ [t Hb]]. unfold w_GetVarCharContent. rewrite Hl. destruct (decide (0 ≤ i)%Z) as [Hi|Hi].
  - case_decide as Hd.
    + rewrite (lookup_ge_None_2 s) by lia. done.
    + rewrite Hb. destruct (decide (i = Z.of_nat (length s))) as [->|Hne].
      * unfold peek. rewrite decide_True, Nat2Z.id, lookup_app_r, length_fmap, Nat.sub_diag
          by (rewrite ?length_fmap; lia). rewrite (lookup_ge_None_2 s) by lia. done.
      * destruct (peek_det s (Some 0%Z :: t) i) as (x & Hx & ->); [lia|]. by rewrite Hx.
  - by rewrite decide_True by lia.
Qed.
Lemma w_set_at_law v s i ch : w_holds v s → i ≠ Z.of_nat (length s) →
  ∃ v', w_SetVarCharContent_at v i ch = Some v' ∧
        w_holds v' (if decide (0 ≤ i)%Z then <[Z.to_nat i := ch]> s else s).
Proof.
  intros Hv Hi. pose proof Hv as [Hl Hc [t Hb]]. unfold w_SetVarCharContent_at. rewrite Hl.
  destruct (decide (0 ≤ i < Z.of_nat (length s))%Z) as [Hin|Hout].
  - rewrite decide_True, (decide_True (P := (0 ≤ i)%Z)) by lia. unfold poke.
    rewrite decide_True by (rewrite Hb, length_app, length_fmap; lia). cbn.
    eexists. split; [done|]. split; cbn; rewrite ?length_insert; [done|done|].
    exists t. rewrite Hb, insert_app_l by (rewrite length_fmap; lia). by rewrite list_fmap_insert.
  - rewrite decide_False by lia. exists v. split; [done|].
    case_decide; [|done]. rewrite list_insert_ge by lia. done.
Qed.

#[export] Instance var_laws : StrLaws KVar (ops KVar).
Proof.
  split; cbn [kholds].
  - exists w_new. split; [done|apply w_new_holds].
  - intros. by apply w_copy_holds.
  - intros. by apply w_copy_holds.
  - intros. by apply w_set_law.
  - done.
  - intros v s b t Hv Hb. destruct (w_set_str_law v s b t Hv Hb) as (v' & He & Hh).
    exists v'. split_and!; done.
  - intros v s r b Hv Hf Hr. destruct (strobj_view r b Hr) as (t & Hbuf & Hlen).
    destruct (w_from_law v s _ t b Hv Hbuf) as (v' & He & Hh). rewrite <- Hlen in He. exists v'. split; [|done].
    clear - Hf He. destruct r as [r|[] r|r]; first [exact He|done|by apply bool_decide_unpack in Hf; cbn in Hf; lia].
  - intros. by apply w_get_law.
  - intros. by apply w_set_at_law.
  - intros v s Hv. apply (wh_len _ _ Hv).
  - intros v w s t Hv Hw. exact (w_eq_holds _ _ _ _ Hv Hw).
  - intros v s Hv. destruct (w_encode_holds v s Hv) as [He Hz]. rewrite Hz in He. exact He.
  - intros v s0 s rest Hv Hs. destruct (w_decode_holds v s0 s rest Hv Hs) as (v' & He & Hne & Hl & Hnil).
    exists v'. split.
    + unfold hsize, head. cbn [ops CVarChar_ops op_decode]. unfold CVarChar_decode. rewrite He.
      unfold w_size. by rewrite Hl.
    + destruct s; auto.
Qed.
#[export] Instance ops_laws k : StrLaws k (ops k).
Proof. destruct k; apply _. Qed.

(** *** Programs *)
Lemma vstep_refines k op v w s t : vop_ok k s op → kholds k v s → kholds k w t →
  ∃ v' w', vstep k op (v, w) = Some ((sstep k op (s, t)).1, (v', w')) ∧
    kholds k v' (sstep k op (s, t)).2.1 ∧ kholds k w' (sstep k op (s, t)).2.2.
Proof.
  intros Hok Hv Hw. unfold vstep.
  destruct op as [b bt len|len|b bt|b bt|b bt|r b|i ch|i| |b rest| | | | |];
    cbn [vop_ok] in Hok; cbn [sstep fst snd].
  - destruct (law_set v s b bt len Hv Hok) as (v' & -> & Hh). by do 2 eexists.
  - rewrite law_set_null. by do 2 eexists.
  - destruct (law_set_str v s b bt Hv Hok) as (v' & -> & _ & _ & Hh). by do 2 eexists.
  - destruct (law_set_str v s b bt Hv Hok) as (v' & _ & -> & _ & Hh). by do 2 eexists.
  - destruct (law_set_str v s b bt Hv Hok) as (v' & _ & _ & -> & Hh). by do 2 eexists.
  - destruct Hok as [Hf Hr]. destruct (law_from v s r b Hv Hf Hr) as (v' & -> & Hh). by do 2 eexists.
  - destruct (law_set_at v s i ch Hv Hok) as (v' & -> & Hh). by do 2 eexists.
  - rewrite (law_get v s i Hv). by do 2 eexists.
  - rewrite (law_length v s Hv). by do 2 eexists.
  - destruct (law_decode v s b rest Hv Hok) as (v' & -> & Hh). by do 2 eexists.
  - rewrite (law_encode v s Hv). by do 2 eexists.
  - rewrite (law_eq v w s t Hv Hw). by do 2 eexists.
  - destruct (law_assign v w t s Hv Hw) as (v' & -> & Hh). by do 2 eexists.
  - destruct (law_copy v s Hv) as (w' & -> & Hh). by do 2 eexists.
  - by do 2 eexists.
Qed.
Lemma vrun_refines k p v w s t : vprog_ok k p (s, t) → kholds k v s → kholds k w t →
  ∃ v' w', vrun k p (v, w) = Some ((srun k p (s, t)).1, (v', w')) ∧
    kholds k v' (srun k p (s, t)).2.1 ∧ kholds k w' (srun k p (s, t)).2.2.
Proof.
  revert v w s t. induction p as [|op p IH]; intros v w s t Hok Hv Hw.
  { by exists v, w. }
  destruct Hok as [Hop Hp]. destruct (vstep_refines k op v w s t Hop Hv Hw) as (v1 & w1 & H1 & Hv1 & Hw1).
  cbn [vrun srun]. rewrite H1. cbn [mbind option_bind].
  destruct (sstep k op (s, t)) as [x [s1 t1]]. cbn [fst snd] in *.
  destruct (IH v1 w1 s1 t1 Hp Hv1 Hw1) as (v' & w' & -> & Hv' & Hw').
  destruct (srun k p (s1, t1)) as [xs [s' t']]. by exists v', w'.
Qed.

(** C38: Clients of the length-prefixed string classes see strings.  For each
    of [CVarChar8] .. [CVarChar256] and [CVarChar], any program over two objects
    of the class - setting from buffers, C strings and objects of the other
    classes, reading and writing single characters, copying, assigning,
    comparing, encoding and decoding - has exactly the results of the same
    program over byte strings, where setting cuts the string to the capacity
    and setting an empty string keeps the old one ([CVarChar] zeroes its first
    character).  No character is read that was not written, none outside the
    buffer is touched, and what is finally encoded is the length and the
    string. *)
Theorem vchar_program_refinement k p : vprog_ok k p ([], []) → vprogram k p = Some (sprogram k p).
Proof.
  intros Hok. unfold vprogram, sprogram.
  destruct (law_new (k := k) (o := ops k)) as (v0 & -> & Hv0). cbn [mbind option_bind].
  destruct (vrun_refines k p v0 v0 [] [] Hok Hv0 Hv0) as (v & w & -> & Hv & Hw). cbn [mbind option_bind].
  destruct (srun k p ([], [])) as [xs [s t]]. cbn [fst snd] in *.
  by rewrite (law_encode v s Hv), (law_encode w t Hw).
Qed.
Lemma vchar_program_refinement_witness :
  let p := [VSet [104; 101; 108; 108; 111; 119; 111; 114; 108; 100]%Z [] 10; VEncode; VSwap;
            VFrom (OVar (VChar 2 [Some 104; Some 105; Some 0]%Z)) [104; 105]%Z; VSetAt 0 72; VEq; VSet [] [] 0;
            VGet 1; VDecode [97; 98; 99]%Z [Some 1%Z]] in
  vprogram (KBound V8) p = Some (sprogram (KBound V8) p) ∧
  (sprogram (KBound V8) p).2 = det [8; 104; 101; 108; 108; 111; 119; 111; 114]%Z.
Proof.
  split; [|vm_compute; reflexivity]. apply vchar_program_refinement.
  repeat (split; try done); cbn; try lia. by exists [].
Defined.

(** Round trip of the length-prefixed classes: what an object that holds
    [s] encodes, any object of its class decodes - consuming exactly the bytes
    written and returning the number [encode] returned - to an object equal to
    it. *)
Theorem vchar_roundtrip k v w s s0 rest : kholds k v s → kholds k w s0 →
  ∃ n b w', op_encode (ops k) v = Some (n, b) ∧ n = Z.of_nat (length b) ∧
    op_decode (ops k) w (b ++ rest) = Some (n, w', rest) ∧ kholds k w' s ∧ op_eq (ops k) w' v = Some true.
Proof.
  intros Hv Hw.
  assert (Hs : (Z.of_nat (length s) ≤ smax k)%Z).
  { destruct k; [exact (vh_cap _ _ _ Hv)|exact (wh_cap _ _ Hv)]. }
  destruct (law_decode (o := ops k) w s0 s rest Hw Hs) as (w' & Hd & Hh).
  rewrite (law_encode (o := ops k) v s Hv). do 3 eexists. split; [done|]. unfold wire. rewrite <- app_assoc, Hd.
  split_and!; [|done|done|].
  - rewrite length_app, length_fmap. destruct k; cbn; lia.
  - rewrite (law_eq (o := ops k) w' v s s Hh Hv). by rewrite bool_decide_eq_true_2.
Qed.
Lemma vchar_roundtrip_witness : ∃ n b w',
  op_encode (ops KVar) (VChar 3 [Some 97; Some 0; Some 99; Some 0]%Z) = Some (n, b) ∧ n = Z.of_nat (length b) ∧
  op_decode (ops KVar) w_new (b ++ [Some 5%Z]) = Some (n, w', [Some 5%Z]) ∧ w_holds w' [97; 0; 99]%Z ∧
  op_eq (ops KVar) w' (VChar 3 [Some 97; Some 0; Some 99; Some 0]%Z) = Some true.
Proof.
  apply (vchar_roundtrip KVar _ _ [97; 0; 99]%Z []); [|exact w_new_holds].
  split; [done|unfold MAX_VCHAR_LENGTH; cbn; lia|by exists []].
Defined.

(** [SetVarCharLen] of the bounded classes does not look at the capacity:
    afterwards [encode] reads past the buffer exactly when the new length (kept
    in a byte) exceeds the buffer, which happens in every class but
    [CVarChar256]; there it never does. *)
Theorem vchar_setlen_overread c v s len : v_holds c v s → (0 ≤ len)%Z →
  (v_encode (v_SetVarCharLen c v len) = None ↔ c ≠ V256 ∧ (Z.of_nat (S (vN c)) < u8 len)%Z).
Proof.
  intros [_ _ _ Hs] Hl. unfold v_encode, v_SetVarCharLen. cbn [vlen vbuf]. rewrite Hs.
  assert (Hu : ∀ n, (0 ≤ u8 n < 256)%Z) by (intros; unfold u8; apply Z.mod_pos_bound; lia).
  pose proof (Hu len) as Hlu. destruct c; cbn [vN];
    try (case_decide; split; [done|intros [_ ?]; exfalso; lia|intros _; split; [done|lia]|done]).
  pose proof (Hu (if decide (255 < len)%Z then 255%Z else len)).
  rewrite decide_True by lia. split; [done|by intros [? _]].
Qed.
Lemma vchar_setlen_overread_witness :
  v_encode (v_SetVarCharLen V16 (VChar 0 (zeros 17)) 100) = None.
Proof.
  apply (vchar_setlen_overread V16 _ []); [|lia|split; [done|vm_compute; reflexivity]].
  split; cbn; [done|lia|by eexists|done].
Defined.

(** Assigning a [CVarChar] to itself frees the characters before it copies
    them: the object keeps its length over a buffer nobody wrote, so reading any
    of its characters is undefined. *)
Theorem vchar_self_assign_destroys v s i : w_holds v s → (0 ≤ i ≤ Z.of_nat (length s))%Z →
  ∃ v', CVarChar_assign_self v = Some v' ∧ op_length (ops KVar) v' = Z.of_nat (length s) ∧
        op_get (ops KVar) v' i = None.
Proof.
  intros [Hl Hc _] Hi. unfold CVarChar_assign_self, w_assign_self, w_alloc. rewrite Hl, decide_True by lia.
  cbn [mbind option_bind]. unfold uninit.
  rewrite memcpy_eq by (rewrite length_replicate; lia). cbn [mbind option_bind].
  rewrite take_drop. eexists. split; [done|]. split; [done|].
  change (w_GetVarCharContent (VChar (Z.of_nat (length s))
    (replicate (Z.to_nat (Z.of_nat (length s) + 1)) None)) i = None).
  unfold w_GetVarCharContent. cbn [vlen vbuf]. rewrite decide_False by lia.
  unfold peek. rewrite decide_True by lia. by rewrite lookup_replicate_2 by lia.
Qed.
Lemma vchar_self_assign_destroys_witness : ∃ v',
  CVarChar_assign_self (VChar 1 [Some 65; Some 0]%Z) = Some v' ∧ op_length (ops KVar) v' = 1%Z ∧
  op_get (ops KVar) v' 0 = None.
Proof.
  apply (vchar_self_assign_destroys _ [65]%Z); [|cbn; lia].
  split; [done|unfold MAX_VCHAR_LENGTH; cbn; lia|by exists []].
Defined.

(** ** The fixed class *)
(** The string up to its first zero. *)
Fixpoint cprefix (s : bytes) : bytes :=
  match s with [] => [] | x :: s => if decide (x = 0)%Z then [] else x :: cprefix s end.
Lemma cprefix_nonzero s : Forall (λ x, x ≠ 0%Z) (cprefix s).
Proof. induction s as [|x s IH]; cbn; [done|]. case_decide; [done|]. by constructor. Qed.
Lemma cprefix_split s : ∃ t, s = cprefix s ++ t ∧ (t = [] ∨ ∃ t', t = 0%Z :: t').
Proof.
  induction s as [|x s [t [He Ht]]]; cbn; [by exists []; auto|]. case_decide as Hx.
  - subst x. exists (0%Z :: s). eauto.
  - exists t. split; [|done]. cbn. by rewrite <- He.
Qed.
Lemma strlen_cprefix s k : strlen (det s ++ zeros (S k)) = Some (length (cprefix s)).
Proof.
  destruct (cprefix_split s) as (t & He & Ht). pose proof (cprefix_nonzero s) as Hn.
  rewrite He at 1. rewrite fmap_app, <- app_assoc. destruct Ht as [->|[t' ->]]; by apply strlen_det.
Qed.

Lemma f_from_law v o s0 s : f_holds v s0 → strobj_holds o s →
  ∃ v', CFixedChar_from v o = Some v' ∧ fsize v' = fsize v ∧
    f_holds v' (match o, s with OFixed _, _ | _, _ :: _ => take (Z.to_nat (fsize v)) s | _, [] => s0 end).
Proof.
  intros Hv Ho. destruct (strobj_view o s Ho) as (t & Hb & Hl). pose proof (fh_pos _ _ Hv) as Hp.
  assert (Hset : s ≠ [] → ∃ v', f_assign_from v (det s ++ t) (Z.of_nat (length s)) = Some v' ∧ fsize v' = fsize v ∧
    f_holds v' (take (Z.to_nat (fsize v)) s)).
  { intros Hs. destruct (f_set_holds v s0 s t (Z.of_nat (length s)) Hv) as (v' & He & Hz & Hh).
    { destruct s; [done|cbn; lia]. }
    exists v'. split_and!; [done|done|]. replace (take (Z.to_nat (fsize v)) s)
      with (take (Z.to_nat (Z.min (Z.of_nat (length s)) (fsize v))) s); [done|].
    destruct (decide (fsize v ≤ Z.of_nat (length s))%Z); [by rewrite Z.min_r by lia|].
    rewrite Z.min_l, Nat2Z.id by lia. by rewrite !take_ge by lia. }
  assert (Hall : ∀ x, x = f_assign_from v (det s ++ t) (Z.of_nat (length s)) →
    ∃ v', x = Some v' ∧ fsize v' = fsize v ∧ f_holds v' (match s with _ :: _ => take (Z.to_nat (fsize v)) s | [] => s0 end)).
  { intros x ->. destruct s as [|y s]; [|by apply Hset]. by exists v. }
  destruct o as [r|c r|r].
  - clear Hset Hall. cbn in Hb, Hl. unfold CFixedChar_from, f_assign. rewrite Hb, Hl. cbv zeta.
    set (n := if decide (fsize v < _)%Z then _ else _).
    assert (Hn : (0 ≤ n ≤ fsize v)%Z ∧ take (Z.to_nat (fsize v)) s = take (Z.to_nat n) s ∧ (n ≤ Z.of_nat (length s))%Z).
    { subst n. case_decide; split_and!; try lia; [done|]. by rewrite !take_ge by lia. }
    destruct Hn as (Hn & Ht & Hns). rewrite Ht.
    destruct (f_fill (fsize v) (take (Z.to_nat n) s) (det (drop (Z.to_nat n) s) ++ t) (Z.to_nat n)) as (b & Hm & Hh);
      [rewrite length_take; lia|lia|done|].
    rewrite app_assoc, <- fmap_app, take_drop in Hm. rewrite Hm. cbn [mbind option_bind].
    rewrite Z2Nat.id in Hh by lia. by eexists.
  - apply Hall. rewrite <- Hb, <- Hl. by destruct c.
  - apply Hall. by rewrite <- Hb, <- Hl.
Qed.

(** A [CFixedChar] keeps of any assigned string object what fits into its
    size (an empty object of another class leaves it unchanged) and its size
    stays.  Encoded, it fills exactly its size; a [CFixedChar] of the same size
    decodes it to the string up to its first zero, so to an equal object exactly
    when the string has no zero in it. *)
Theorem fchar_assign_roundtrip v w o s0 s1 s rest : f_holds v s0 → f_holds w s1 → fsize w = fsize v →
  strobj_holds o s → s ≠ [] →
  let kept := take (Z.to_nat (fsize v)) s in
  ∃ v' b w', CFixedChar_from v o = Some v' ∧ f_holds v' kept ∧
    f_encode v' = Some (fsize v, b) ∧ length b = Z.to_nat (fsize v) ∧
    f_decode w (b ++ rest) = Some (fsize v, w', rest) ∧ flen w' = Z.of_nat (length (cprefix kept)) ∧
    f_eq w' v' = Some (bool_decide (Forall (λ x, x ≠ 0%Z) kept)).
Proof.
  intros Hv Hw Hsz Ho Hs kept. destruct (f_from_law v o s0 s Hv Ho) as (v' & He & Hz & Hh).
  assert (Hk : f_holds v' kept) by (by destruct o, s). clear Hh.
  pose proof (f_encode_holds v' kept Hk) as Henc. pose proof Hk as [Hkl Hkc [k Hkb] Hks Hkp].
  pose proof Hw as [Hwl Hwc [k' Hwb] Hws Hwp]. rewrite Hz in *.
  assert (Hkk : Z.to_nat (fsize v) - length kept = k).
  { rewrite Hkb in Hks. unfold zeros in Hks. rewrite length_app, length_fmap, length_replicate in Hks. lia. }
  rewrite Hkk in Henc.
  assert (Hbl : length (det kept ++ zeros k) = Z.to_nat (fsize v)).
  { unfold zeros. rewrite length_app, length_fmap, length_replicate. lia. }
  assert (Hd : f_decode w ((det kept ++ zeros k) ++ rest)
    = Some (fsize v, FChar (fsize v) (Z.of_nat (length (cprefix kept))) (det kept ++ zeros (S k)), rest)).
  { unfold f_decode. rewrite Hsz in *.
    rewrite memcpy_eq by (rewrite ?length_app in *; lia). cbn [mbind option_bind].
    rewrite take_app_le, take_ge by lia.
    destruct (drop (Z.to_nat (fsize v)) (fbuf w)) as [|x [|y l]] eqn:Hdr;
      apply (f_equal length) in Hdr; rewrite length_drop in Hdr; cbn in Hdr; try lia.
    rewrite poke_app by lia. cbn [mbind option_bind]. rewrite <- app_assoc.
    replace (zeros k ++ [Some 0%Z]) with (zeros (S k)) by (unfold zeros; by rewrite replicate_S_end).
    rewrite strlen_cprefix. cbn [mbind option_bind]. by rewrite drop_app_length' by lia. }
  exists v', (det kept ++ zeros k), (FChar (fsize v) (Z.of_nat (length (cprefix kept))) (det kept ++ zeros (S k))).
  split_and!; try done. unfold f_eq. cbn [flen fbuf]. rewrite Hkl, Hkb.
  destruct (cprefix_split kept) as (t & Hsp & Ht).
  assert (Hiff : length (cprefix kept) = length kept ↔ Forall (λ x, x ≠ 0%Z) kept).
  { split.
    - intros Hl. pose proof (cprefix_nonzero kept). pose proof (f_equal length Hsp) as Hlen.
      rewrite length_app in Hlen. destruct t; [|cbn in Hlen; lia]. rewrite app_nil_r in Hsp. by rewrite Hsp.
    - intros Hn. destruct Ht as [->|[t' ->]]; [by rewrite app_nil_r in Hsp; rewrite <- Hsp|].
      rewrite Hsp in Hn. apply Forall_app in Hn as [_ Hn]. by inversion Hn. }
  case_decide as Hl.
  - apply Nat2Z.inj in Hl. rewrite (bool_decide_eq_true_2 (Forall _ _)) by (by apply Hiff). rewrite Hl, Nat2Z.id.
    rewrite (same_from_det [] kept kept) by (done || lia). by rewrite bool_decide_eq_true_2.
  - f_equal. symmetry. apply bool_decide_eq_false. intros Hn. apply Hl. f_equal. by apply Hiff.
Qed.
Lemma fchar_assign_roundtrip_witness :
  ∃ v' b w', CFixedChar_from (f_new_size 4) (OBound V8 (VChar 3 (det [97; 0; 98]%Z ++ zeros 6))) = Some v' ∧
    f_holds v' [97; 0; 98]%Z ∧ f_encode v' = Some (4%Z, b) ∧ length b = 4 ∧
    f_decode (f_new_size 4) (b ++ []) = Some (4%Z, w', []) ∧ flen w' = 1%Z ∧ f_eq w' v' = Some false.
Proof.
  apply (fchar_assign_roundtrip (f_new_size 4) (f_new_size 4) (OBound V8 (VChar 3 (det [97; 0; 98]%Z ++ zeros 6)))
    [] [] [97; 0; 98]%Z []); try done; try apply f_new_size_holds.
  split; cbn; [done|lia|by eexists|done].
Defined.
