(* ===== verification/HashTable.v ===== *)
(** * The hash table ([include/comserv/unihashtable.h])

    [CHashTable<TKey, TValue>]: chained buckets in an array that doubles, a
    cursor over the buckets ([reset]/[getNext]) and a second list through the
    entries in the order they were put ([resetSeq]/[getNextSeq]).

    The heap of entries is split by field: [ents] has the hash, the key and the
    value of every allocated entry, [nexts], [sprevs] and [snexts] the link
    members that were written.  Reading a member of an entry that was freed, or
    one nobody wrote, and writing into a freed entry are undefined behaviour
    ([None]).  [DOUBLE] is IEEE binary64 (the Standard Library's SpecFloat). *)

From S2P Require Import Prelude.
From Stdlib Require Import SpecFloat.

(** ** [DOUBLE] and [UINT] *)
Abbreviation DOUBLE := spec_float.
Definition d_mul : DOUBLE → DOUBLE → DOUBLE := SFmul 53 1024.
Definition d_of_uint (n : Z) : DOUBLE := binary_normalize 53 1024 n 0 false.
(** The cast to [UINT]: truncation, undefined out of range. *)
Definition uint_of_double (x : DOUBLE) : option Z :=
  match x with
  | S754_zero _ => Some 0%Z
  | S754_finite false m e =>
      let z := Z.shiftl (Zpos m) e in if decide (z < 2 ^ 32)%Z then Some z else None
  | S754_finite true m e => if decide (Z.shiftl (Zpos m) e = 0)%Z then Some 0%Z else None
  | _ => None
  end.

Definition DEFAULT_HASHTABLE_LENGTH : Z := 16.
Definition DEFAULT_HASHTABLE_LOADFACTOR : DOUBLE := S754_finite false (3 * 2 ^ 51) (-53).
Definition HASHTABLE_MIN_LENGTH : Z := 8.
Definition HASHTABLE_MAX_LENGTH : Z := 131072.
(** [0.4f]: 13421773 / 2^25. *)
Definition HASHTABLE_MIN_LOADFACTOR : DOUBLE := S754_finite false (13421773 * 2 ^ 29) (-54).
Definition HASHTABLE_MAX_LOADFACTOR : DOUBLE := S754_finite false (3 * 2 ^ 51) (-52).

(** ** The object *)
Record hheap (K V : Type) := HHeap {
  ents : gmap ptr (Z * K * V);
  nexts : gmap ptr ptr;
  sprevs : gmap ptr ptr;
  snexts : gmap ptr ptr;
}.
Arguments HHeap {K V} _ _ _ _.
Arguments ents {K V} _.
Arguments nexts {K V} _.
Arguments sprevs {K V} _.
Arguments snexts {K V} _.

(** [m_table], [m_entryCount], [m_tableLength], [m_modCount], [m_loadFactor],
    [m_threshold], [m_pcurEntry], [m_uicurIndex], [seqHead], [seqTail],
    [seqCur].  The three cells [rehash] allocates beyond [m_tableLength] are
    never indexed and are left out. *)
Record htab (K V : Type) := HTab {
  hp : hheap K V;
  table : list ptr;
  tableLength : Z;
  entryCount : Z;
  modCount : Z;
  loadFactor : DOUBLE;
  threshold : Z;
  curEntry : ptr;
  curIndex : Z;
  seqHead : ptr;
  seqTail : ptr;
  seqCur : ptr;
}.
Arguments HTab {K V} _ _ _ _ _ _ _ _ _ _ _ _.
Arguments hp {K V} _.
Arguments table {K V} _.
Arguments tableLength {K V} _.
Arguments entryCount {K V} _.
Arguments modCount {K V} _.
Arguments loadFactor {K V} _.
Arguments threshold {K V} _.
Arguments curEntry {K V} _.
Arguments curIndex {K V} _.
Arguments seqHead {K V} _.
Arguments seqTail {K V} _.
Arguments seqCur {K V} _.

Section fields.
Context {K V : Type}.
Implicit Types t : htab K V.

Definition with_hp h t : htab K V := HTab h (table t) (tableLength t) (entryCount t) (modCount t) (loadFactor t)
  (threshold t) (curEntry t) (curIndex t) (seqHead t) (seqTail t) (seqCur t).
Definition with_table tb t : htab K V := HTab (hp t) tb (tableLength t) (entryCount t) (modCount t) (loadFactor t)
  (threshold t) (curEntry t) (curIndex t) (seqHead t) (seqTail t) (seqCur t).
Definition with_counts n m t : htab K V := HTab (hp t) (table t) (tableLength t) n m (loadFactor t)
  (threshold t) (curEntry t) (curIndex t) (seqHead t) (seqTail t) (seqCur t).
Definition with_cur p i t : htab K V := HTab (hp t) (table t) (tableLength t) (entryCount t) (modCount t) (loadFactor t)
  (threshold t) p i (seqHead t) (seqTail t) (seqCur t).
Definition with_ends a b t : htab K V := HTab (hp t) (table t) (tableLength t) (entryCount t) (modCount t) (loadFactor t)
  (threshold t) (curEntry t) (curIndex t) a b (seqCur t).
Definition with_seqCur p t : htab K V := HTab (hp t) (table t) (tableLength t) (entryCount t) (modCount t) (loadFactor t)
  (threshold t) (curEntry t) (curIndex t) (seqHead t) (seqTail t) p.

(** Reads and writes through an entry pointer. *)
Definition get_ent t p : option (Z * K * V) := ents (hp t) !! p.
Definition get_next t p : option ptr := nexts (hp t) !! p.
Definition get_snext t p : option ptr := snexts (hp t) !! p.
Definition get_sprev t p : option ptr := sprevs (hp t) !! p.
Definition set_next (p q : ptr) t : option (htab K V) :=
  _ ← get_ent t p;
  Some (with_hp (HHeap (ents (hp t)) (<[p := q]> (nexts (hp t))) (sprevs (hp t)) (snexts (hp t))) t).
Definition set_sprev (p q : ptr) t : option (htab K V) :=
  _ ← get_ent t p;
  Some (with_hp (HHeap (ents (hp t)) (nexts (hp t)) (<[p := q]> (sprevs (hp t))) (snexts (hp t))) t).
Definition set_snext (p q : ptr) t : option (htab K V) :=
  _ ← get_ent t p;
  Some (with_hp (HHeap (ents (hp t)) (nexts (hp t)) (sprevs (hp t)) (<[p := q]> (snexts (hp t)))) t).
Definition set_value (p : ptr) (v : V) t : option (htab K V) :=
  '(h, k, _) ← get_ent t p;
  Some (with_hp (HHeap (<[p := (h, k, v)]> (ents (hp t))) (nexts (hp t)) (sprevs (hp t)) (snexts (hp t))) t).
(** [new _Entry( hash, key, value, next )]: the sequence links are not set. *)
Definition new_entry (hash : Z) (key : K) (value : V) (next : ptr) t : ptr * htab K V :=
  let p := fresh ({[NULL]} ∪ dom (ents (hp t)) : gset ptr) in
  (p, with_hp (HHeap (<[p := (hash, key, value)]> (ents (hp t))) (<[p := next]> (nexts (hp t)))
                     (delete p (sprevs (hp t))) (delete p (snexts (hp t)))) t).
Definition delete_entry (p : ptr) t : option (htab K V) :=
  _ ← get_ent t p;
  Some (with_hp (HHeap (delete p (ents (hp t))) (delete p (nexts (hp t)))
                       (delete p (sprevs (hp t))) (delete p (snexts (hp t)))) t).
(** [m_table[i]] *)
Definition slot t (i : Z) : option ptr := if decide (0 ≤ i)%Z then table t !! Z.to_nat i else None.
Definition set_slot (i : Z) (p : ptr) t : option (htab K V) :=
  _ ← slot t i; Some (with_table (<[Z.to_nat i := p]> (table t)) t).
Definition GET_HASH_INDEX t (hash : Z) : Z := (hash mod tableLength t)%Z.
(** Enough iterations for a walk over a chain. *)
Definition fuel t : nat := S (size (ents (hp t))).

(** ** The sequence list *)
Definition addSequence (entry : ptr) t : option (htab K V) :=
  if decide (seqHead t = NULL ∨ seqTail t = NULL) then
    t ← set_snext entry NULL t; t ← set_sprev entry NULL t; Some (with_ends entry entry t)
  else
    t ← set_snext entry NULL t; t ← set_sprev entry (seqTail t) t;
    t ← set_snext (seqTail t) entry t; Some (with_ends (seqHead t) entry t).
Definition delSequence (entry : ptr) t : option (htab K V) :=
  n ← get_snext t entry; p ← get_sprev t entry;
  if decide (n = NULL ∧ p = NULL) then Some (with_ends NULL NULL t)
  else if decide (n = NULL) then
    t ← set_snext p NULL t; Some (with_ends (seqHead t) p t)
  else if decide (p = NULL) then
    t ← set_sprev n NULL t; Some (with_ends n (seqTail t) t)
  else t ← set_sprev n p t; n ← get_snext t entry; p ← get_sprev t entry; set_snext p n t.

(** ** The cursor over the buckets *)
(** The first occupied bucket among the next [n] from [i] on. *)
Fixpoint scan (n : nat) (i : Z) t : option (option (ptr * Z)) :=
  match n with
  | O => Some None
  | S n => p ← slot t i; if decide (p = NULL) then scan n (i + 1)%Z t else Some (Some (p, i))
  end.
Definition reset t : option (bool * htab K V) :=
  r ← scan (Z.to_nat (tableLength t)) 0 t;
  match r with
  | Some (p, i) => Some (true, with_cur p i t)
  | None => Some (false, with_cur NULL 0 t)
  end.
Definition searchNextEntry t : option (bool * htab K V) :=
  n ← get_next t (curEntry t);
  if decide (n ≠ NULL) then Some (true, with_cur n (curIndex t) t)
  else
    r ← scan (Z.to_nat (tableLength t - (curIndex t + 1))) (curIndex t + 1) t;
    match r with
    | Some (p, i) => Some (true, with_cur p i t)
    | None => Some (false, with_cur NULL 0 t)
    end.
(** [getNext( key, value )]; [getNext( value )] drops the key. *)
Definition getNext_kv t : option (option (K * V) * htab K V) :=
  if decide (curEntry t = NULL) then Some (None, t)
  else '(_, k, v) ← get_ent t (curEntry t); '(_, t) ← searchNextEntry t; Some (Some (k, v), t).
Definition getNext t : option (option V * htab K V) :=
  if decide (curEntry t = NULL) then Some (None, t)
  else '(_, _, v) ← get_ent t (curEntry t); '(_, t) ← searchNextEntry t; Some (Some v, t).
Definition resetSeq t : htab K V := with_seqCur (seqHead t) t.
Definition getNextSeq t : option (option (K * V) * htab K V) :=
  if decide (seqCur t = NULL) then Some (None, t)
  else '(_, k, v) ← get_ent t (seqCur t); n ← get_snext t (seqCur t); Some (Some (k, v), with_seqCur n t).

Definition size t : Z := entryCount t.
Definition isEmpty t : bool := if decide (entryCount t = 0)%Z then true else false.

(** ** Construction, clearing, growing *)
Definition initTable (length : Z) (lf : DOUBLE) : option (htab K V) :=
  let len := if decide (length < HASHTABLE_MIN_LENGTH)%Z then HASHTABLE_MIN_LENGTH
             else if decide (HASHTABLE_MAX_LENGTH < length)%Z then HASHTABLE_MAX_LENGTH else length in
  let lf := if SFltb lf HASHTABLE_MIN_LOADFACTOR then HASHTABLE_MIN_LOADFACTOR
            else if SFltb HASHTABLE_MAX_LOADFACTOR lf then HASHTABLE_MAX_LOADFACTOR else lf in
  th ← uint_of_double (d_mul (d_of_uint len) lf);
  Some (HTab (HHeap ∅ ∅ ∅ ∅) (replicate (Z.to_nat len) NULL) len 0 0 lf th NULL 0 NULL NULL NULL).
Definition new_table : option (htab K V) := initTable DEFAULT_HASHTABLE_LENGTH DEFAULT_HASHTABLE_LOADFACTOR.
Definition new_table_len (length : Z) : option (htab K V) := initTable length DEFAULT_HASHTABLE_LOADFACTOR.

Fixpoint clear_bucket (n : nat) (i : Z) t : option (htab K V) :=
  match n with
  | O => None
  | S n =>
      p ← slot t i;
      if decide (p = NULL) then Some t
      else
        q ← get_next t p; t ← set_slot i q t; t ← set_next p NULL t;
        t ← delSequence p t; t ← delete_entry p t; clear_bucket n i t
  end.
Fixpoint clear_from (n : nat) (i : Z) t : option (htab K V) :=
  match n with
  | O => Some t
  | S n => t ← clear_bucket (fuel t) i t; clear_from n (i + 1)%Z t
  end.
Definition clear t : option (htab K V) :=
  t ← clear_from (Z.to_nat (tableLength t)) 0 t;
  Some (with_cur NULL 0 (with_counts 0 (u32 (modCount t + 1)) t)).
(** [~CHashTable()] *)
Definition destroy t : option (htab K V) := t ← clear t; Some (with_table [] t).

(** [while ( oldTable[i] )]: the entries of an old chain move to the new array. *)
Fixpoint move_chain (n : nat) (p : ptr) t : option (htab K V) :=
  if decide (p = NULL) then Some t else
  match n with
  | O => None
  | S n =>
      q ← get_next t p; '(h, _, _) ← get_ent t p;
      let index := GET_HASH_INDEX t h in
      hd ← slot t index; t ← set_next p hd t; t ← set_slot index p t; move_chain n q t
  end.
Fixpoint move_all (old : list ptr) t : option (htab K V) :=
  match old with [] => Some t | p :: old => t ← move_chain (fuel t) p t; move_all old t end.
Definition rehash t : option (htab K V) :=
  if decide (HASHTABLE_MAX_LENGTH ≤ tableLength t)%Z then Some t else
  let len := u32 (tableLength t * 2) in
  let len := if decide (HASHTABLE_MAX_LENGTH ≤ len)%Z then HASHTABLE_MAX_LENGTH else len in
  th ← uint_of_double (d_mul (d_of_uint len) (loadFactor t));
  move_all (table t)
    (HTab (hp t) (replicate (Z.to_nat len) NULL) len (entryCount t) (u32 (modCount t + 1)) (loadFactor t) th
          (curEntry t) (curIndex t) (seqHead t) (seqTail t) (seqCur t)).
End fields.

(** ** Lookup and update by key

    [cmp] and [hash] are the functions the table was constructed with. *)
Section keys.
Context {K V : Type} (cmp : K → K → bool) (hash : K → Z).
Implicit Types t : htab K V.

(** The walk of every lookup: the entry with the key, or NULL. *)
Fixpoint walk (n : nat) (key : K) (p : ptr) t : option ptr :=
  if decide (p = NULL) then Some NULL else
  match n with
  | O => None
  | S n => '(_, k, _) ← get_ent t p; if cmp key k then Some p else q ← get_next t p; walk n key q t
  end.
Definition containsKey t (key : K) : option bool :=
  p ← slot t (GET_HASH_INDEX t (hash key)); p ← walk (fuel t) key p t; Some (bool_decide (p ≠ NULL)).
Definition get_r t (key : K) : option (option V) :=
  p ← slot t (GET_HASH_INDEX t (hash key)); p ← walk (fuel t) key p t;
  if decide (p = NULL) then Some None else '(_, _, v) ← get_ent t p; Some (Some v).
Definition get t (key : K) : option (option V) := get_r t key.

(** The new entry of [put_r] and [put_v]. *)
Definition put_new t (h : Z) (key : K) (value : V) : option (htab K V) :=
  let t := with_counts (u32 (entryCount t + 1)) (modCount t) t in
  let t := with_cur NULL 0 t in
  t ← (if decide (threshold t ≤ entryCount t)%Z then rehash t else Some t);
  let index := GET_HASH_INDEX t h in
  hd ← slot t index;
  let '(p, t) := new_entry h key value hd t in
  t ← set_slot index p t; addSequence p t.
Definition put_r t (key : K) (value : V) : option (V * htab K V) :=
  p ← slot t (GET_HASH_INDEX t (hash key));
  let t := with_counts (entryCount t) (u32 (modCount t + 1)) t in
  p ← walk (fuel t) key p t;
  if decide (p = NULL) then t ← put_new t (hash key) key value; Some (value, t)
  else '(_, _, old) ← get_ent t p; t ← set_value p value t; Some (old, t).
Definition put t (key : K) (value : V) : option (V * htab K V) := put_r t key value.
Definition put_v t (key : K) (value : V) : option (htab K V) :=
  p ← slot t (GET_HASH_INDEX t (hash key));
  let t := with_counts (entryCount t) (u32 (modCount t + 1)) t in
  p ← walk (fuel t) key p t;
  if decide (p = NULL) then put_new t (hash key) key value else set_value p value t.

(** Past the cursor, out of the sequence list, freed, counted. *)
Definition move_cursor (p : ptr) t : option (htab K V) :=
  if decide (p = curEntry t) then '(_, t) ← searchNextEntry t; Some t else Some t.
Definition drop_entry (p : ptr) t : option (htab K V) :=
  t ← delSequence p t; t ← delete_entry p t;
  Some (with_counts (u32 (entryCount t - 1)) (u32 (modCount t + 1)) t).
Fixpoint remove_walk (n : nat) (key : K) (prev p : ptr) t : option (bool * htab K V) :=
  if decide (p = NULL) then Some (false, t) else
  match n with
  | O => None
  | S n =>
      '(_, k, _) ← get_ent t p;
      if cmp key k then
        t ← move_cursor p t; q ← get_next t p; t ← set_next prev q t; t ← drop_entry p t; Some (true, t)
      else q ← get_next t p; remove_walk n key p q t
  end.
Definition remove t (key : K) : option (bool * htab K V) :=
  let index := GET_HASH_INDEX t (hash key) in
  p ← slot t index;
  if decide (p = NULL) then Some (false, t) else
  '(_, k, _) ← get_ent t p;
  if cmp key k then
    t ← move_cursor p t; q ← get_next t p; t ← set_slot index q t; t ← drop_entry p t; Some (true, t)
  else q ← get_next t p; remove_walk (fuel t) key p q t.
End keys.

(** ** The functional reading *)
Section assoc.
Context {K V : Type} `{!EqDecision K}.
Implicit Types al : list (K * V).
Fixpoint assoc_get (key : K) al : option V :=
  match al with [] => None | (k, v) :: al => if decide (k = key) then Some v else assoc_get key al end.
Definition assoc_set (key : K) (v : V) al : list (K * V) :=
  (λ kv, if decide (kv.1 = key) then (key, v) else kv) <$> al.
Definition assoc_put (key : K) (v : V) al : list (K * V) :=
  match assoc_get key al with Some _ => assoc_set key v al | None => al ++ [(key, v)] end.
Definition assoc_del (key : K) al : list (K * V) := filter (λ kv, kv.1 ≠ key) al.

Lemma assoc_get_None key al : assoc_get key al = None ↔ key ∉ al.*1.
Proof.
  induction al as [|[k v] al IH]; cbn; [split; [intros _; by apply not_elem_of_nil|done]|].
  rewrite not_elem_of_cons. case_decide; naive_solver.
Qed.
Lemma assoc_get_Some key v al : NoDup al.*1 → (key, v) ∈ al → assoc_get key al = Some v.
Proof.
  induction al as [|[k w] al IH]; cbn; [by intros _ ?%not_elem_of_nil|].
  rewrite NoDup_cons, elem_of_cons. intros [Hk Hnd] [[= -> ->]|Hin]; [by rewrite decide_True|].
  case_decide as Heq; [|auto]. subst k. destruct Hk. by apply (list_elem_of_fmap_2 fst) in Hin.
Qed.
Lemma assoc_get_elem key v al : assoc_get key al = Some v → (key, v) ∈ al.
Proof.
  induction al as [|[k w] al IH]; cbn; [done|]. case_decide as Hk; [intros [= ->]; subst; by left|].
  intros Hg. right. auto.
Qed.
Lemma assoc_set_keys key v al : (assoc_set key v al).*1 = al.*1.
Proof.
  induction al as [|[k w] al IH]; cbn; [done|]. unfold assoc_set in IH. rewrite IH.
  by case_decide; subst.
Qed.
Lemma assoc_set_id key v al : key ∉ al.*1 → assoc_set key v al = al.
Proof.
  induction al as [|[k w] al IH]; cbn; [done|]. rewrite not_elem_of_cons. intros [Hk Hin].
  unfold assoc_set in IH. rewrite IH by done. by rewrite decide_False by (intros ->; done).
Qed.
Lemma assoc_del_keys key al : (assoc_del key al).*1 = filter (λ k, k ≠ key) al.*1.
Proof.
  unfold assoc_del. induction al as [|[k w] al IH]; [done|]. rewrite fmap_cons, !filter_cons. cbn [fst].
  case_decide; cbn; by rewrite IH.
Qed.
End assoc.

(** ** Chains *)
Section segments.
Implicit Types (nx : gmap ptr ptr) (p q x : ptr) (l c : list ptr) (cs : list (list ptr)).

(** Following [nx] from [p] passes exactly [l] and arrives at [q]. *)
Fixpoint seg nx p l q : Prop :=
  match l with
  | [] => p = q
  | x :: l => p = x ∧ x ≠ NULL ∧ ∃ r, nx !! x = Some r ∧ seg nx r l q
  end.
Abbreviation chain nx p l := (seg nx p l NULL).

Lemma seg_app nx p l1 l2 q : seg nx p (l1 ++ l2) q ↔ ∃ r, seg nx p l1 r ∧ seg nx r l2 q.
Proof.
  revert p. induction l1 as [|x l1 IH]; intros p; cbn; [split; [by exists p|by intros (? & -> & ?)]|].
  split.
  - intros (-> & Hx & r & Hr & (r' & H1 & H2)%IH). exists r'. split; [|done]. split_and!; eauto.
  - intros (r' & (-> & Hx & r & Hr & H1) & H2). split_and!; [done|done|]. exists r. split; [done|]. apply IH. eauto.
Qed.
Lemma seg_eq nx nx' p l q : (∀ x, x ∈ l → nx' !! x = nx !! x) → seg nx p l q → seg nx' p l q.
Proof.
  revert p. induction l as [|x l IH]; intros p Hag; cbn; [done|].
  intros (-> & Hx & r & Hr & Hs). split_and!; [done|done|]. exists r. split.
  - by rewrite Hag by by left.
  - apply IH; [|done]. intros y Hy. apply Hag. by right.
Qed.
Lemma seg_insert nx p l q x y : x ∉ l → seg nx p l q → seg (<[x := y]> nx) p l q.
Proof. intros Hx. apply seg_eq. intros z Hz. rewrite lookup_insert_ne; [done|]. by intros ->. Qed.
Lemma seg_delete nx p l q x : x ∉ l → seg nx p l q → seg (delete x nx) p l q.
Proof. intros Hx. apply seg_eq. intros z Hz. rewrite lookup_delete_ne; [done|]. by intros ->. Qed.
(** Redirecting the last link. *)
Lemma seg_retarget nx p l x q r : x ∉ l → seg nx p (l ++ [x]) q → seg (<[x := r]> nx) p (l ++ [x]) r.
Proof.
  intros Hx (y & H1 & (-> & Hn & _))%seg_app. apply seg_app. exists x.
  split; [by apply seg_insert|]. split_and!; [done|done|]. exists r. by simplify_map_eq.
Qed.
Lemma chain_null nx p l : chain nx p l → (p = NULL ↔ l = []).
Proof. destruct l as [|x l]; cbn; [done|]. intros (-> & ? & _). done. Qed.
Lemma chain_head nx p l : chain nx p l → p = default NULL (head l).
Proof. destruct l; cbn; [done|]. by intros (-> & _). Qed.
Lemma seg_nonnull nx p l q : seg nx p l q → NULL ∉ l.
Proof.
  revert p. induction l as [|x l IH]; intros p; cbn; [intros _; apply not_elem_of_nil|].
  intros (_ & Hx & r & _ & Hs). apply not_elem_of_cons. split; [done|by eapply IH].
Qed.

(** The buckets [tb] hold the chains [cs]. *)
Definition buckets nx (tb : list ptr) cs : Prop := Forall2 (λ p c, chain nx p c) tb cs.

Lemma buckets_lookup nx tb cs i p : buckets nx tb cs → tb !! i = Some p → ∃ c, cs !! i = Some c ∧ chain nx p c.
Proof. intros Hb Hp. exact (Forall2_lookup_l _ _ _ _ _ Hb Hp). Qed.
Lemma buckets_eq nx nx' tb cs : (∀ x, x ∈ concat cs → nx' !! x = nx !! x) → buckets nx tb cs → buckets nx' tb cs.
Proof.
  intros Hag Hb. induction Hb as [|p c tb cs Hc Hb IH]; [constructor|]. constructor.
  - eapply seg_eq; [|exact Hc]. intros x Hx. apply Hag. cbn. apply elem_of_app. by left.
  - apply IH. intros x Hx. apply Hag. cbn. apply elem_of_app. by right.
Qed.

Lemma concat_replicate_nil n : concat (replicate n ([] : list ptr)) = [].
Proof. by induction n. Qed.
Lemma concat_split cs i c : cs !! i = Some c → concat cs = concat (take i cs) ++ c ++ concat (drop (S i) cs).
Proof. intros Hc. rewrite <- (take_drop_middle cs i c Hc) at 1. by rewrite concat_app. Qed.
Lemma concat_insert cs i c c' : cs !! i = Some c →
  concat (<[i := c']> cs) = concat (take i cs) ++ c' ++ concat (drop (S i) cs).
Proof.
  intros Hc. rewrite (concat_split _ i c').
  - by rewrite take_insert_ge, drop_insert_lt by lia.
  - apply list_lookup_insert_eq. by eapply lookup_lt_Some.
Qed.
Lemma concat_elem cs i c x : cs !! i = Some c → x ∈ c → x ∈ concat cs.
Proof. intros Hc Hx. rewrite (concat_split _ _ _ Hc), !elem_of_app. auto. Qed.
Lemma elem_of_concat_lookup cs x : x ∈ concat cs → ∃ i c, cs !! i = Some c ∧ x ∈ c.
Proof.
  induction cs as [|c cs IH]; cbn; [by intros ?%not_elem_of_nil|]. intros [Hx|Hx]%elem_of_app.
  - by exists 0, c.
  - destruct (IH Hx) as (i & c' & ? & ?). by exists (S i), c'.
Qed.
(** A pointer is in one bucket only. *)
Lemma concat_disjoint cs i j c c' x : NoDup (concat cs) → cs !! i = Some c → cs !! j = Some c' →
  x ∈ c → x ∈ c' → i = j.
Proof.
  revert i j. induction cs as [|d cs IH]; intros i j Hnd Hi Hj Hx Hx'; [done|].
  cbn in Hnd. apply NoDup_app in Hnd as (_ & Hd & Hnd).
  destruct i as [|i], j as [|j]; cbn in *; simplify_eq; [done| | |].
  - destruct (Hd x Hx). by eapply concat_elem.
  - destruct (Hd x Hx'). by eapply concat_elem.
  - f_equal. by eapply IH.
Qed.
Lemma NoDup_bucket cs i c : NoDup (concat cs) → cs !! i = Some c → NoDup c.
Proof. intros Hnd Hc. rewrite (concat_split _ _ _ Hc) in Hnd. by apply NoDup_app in Hnd as (_ & _ & [? _]%NoDup_app). Qed.

(** Writing a link or a slot of one bucket leaves the others. *)
Lemma buckets_insert nx nx' tb cs i p c : buckets nx tb cs → i < length tb → chain nx' p c →
  (∀ j d x, j ≠ i → cs !! j = Some d → x ∈ d → nx' !! x = nx !! x) →
  buckets nx' (<[i := p]> tb) (<[i := c]> cs).
Proof.
  intros Hb Hi Hc Hag. apply Forall2_same_length_lookup. pose proof (Forall2_length _ _ _ Hb) as Hlen.
  split; [by rewrite !length_insert|]. intros j q d.
  destruct (decide (i = j)) as [<-|Hne].
  - rewrite !list_lookup_insert_eq by lia. by intros [= <-] [= <-].
  - rewrite !list_lookup_insert_ne by done. intros Hq Hd. eapply seg_eq; [|exact (Forall2_lookup_lr _ _ _ _ _ _ Hb Hq Hd)].
    intros x Hx. by eapply Hag.
Qed.
Lemma buckets_insert_id nx nx' tb cs i p c : buckets nx tb cs → tb !! i = Some p → chain nx' p c →
  (∀ j d x, j ≠ i → cs !! j = Some d → x ∈ d → nx' !! x = nx !! x) →
  buckets nx' tb (<[i := c]> cs).
Proof.
  intros Hb Hi Hc Hag. rewrite <- (list_insert_id tb i p Hi). eapply buckets_insert; try done.
  by eapply lookup_lt_Some.
Qed.

(** Removing a pointer from a list that has it once. *)
Lemma filter_ne_id x l : x ∉ l → filter (λ y, y ≠ x) l = l.
Proof.
  induction l as [|y l IH]; [done|]. rewrite not_elem_of_cons. intros [Hy Hl].
  rewrite filter_cons_True by congruence. by rewrite IH.
Qed.
Lemma filter_ne_mid x l1 l2 : x ∉ l1 → x ∉ l2 → filter (λ y, y ≠ x) (l1 ++ x :: l2) = l1 ++ l2.
Proof.
  intros H1 H2. rewrite filter_app, filter_cons_False by (intros H; by apply H). by rewrite !filter_ne_id.
Qed.
Lemma NoDup_mid x l1 l2 : NoDup (l1 ++ x :: l2) → x ∉ l1 ∧ x ∉ l2.
Proof.
  intros (_ & Hd & [Hx _]%NoDup_cons)%NoDup_app. split; [|done]. intros H1. apply (Hd x H1). by left.
Qed.
Lemma concat_filter x cs : concat (filter (λ y, y ≠ x) <$> cs) = filter (λ y, y ≠ x) (concat cs).
Proof. induction cs as [|c cs IH]; cbn; [done|]. by rewrite filter_app, IH. Qed.
Lemma fmap_filter_ne cs i c x : NoDup (concat cs) → cs !! i = Some c → x ∈ c →
  filter (λ y, y ≠ x) <$> cs = <[i := filter (λ y, y ≠ x) c]> cs.
Proof.
  intros Hnd Hc Hx. apply list_eq. intros j. rewrite list_lookup_fmap.
  destruct (decide (i = j)) as [<-|Hne].
  - rewrite Hc, list_lookup_insert_eq by (by eapply lookup_lt_Some). done.
  - rewrite list_lookup_insert_ne by done. destruct (cs !! j) as [d|] eqn:Hd; [|done]. cbn. f_equal.
    apply filter_ne_id. intros Hxd. by destruct (concat_disjoint cs i j c d x Hnd Hc Hd Hx Hxd).
Qed.
End segments.
Abbreviation chain nx p l := (seg nx p l NULL).

(** ** The sequence list is a doubly linked list of the entries *)
Section sequence.
Context {K V : Type}.
Implicit Types (t : htab K V) (x y : ptr) (L : list ptr).

(** The state after relinking: only the sequence links and its ends differ. *)
Definition relinked t (sp sn : gmap ptr ptr) (a b : ptr) : htab K V :=
  with_ends a b (with_hp (HHeap (ents (hp t)) (nexts (hp t)) sp sn) t).
Definition seq_linked t L : Prop :=
  chain (snexts (hp t)) (seqHead t) L ∧ chain (sprevs (hp t)) (seqTail t) (reverse L).

Lemma set_snext_eq p q t : is_Some (ents (hp t) !! p) →
  set_snext p q t = Some (with_hp (HHeap (ents (hp t)) (nexts (hp t)) (sprevs (hp t)) (<[p := q]> (snexts (hp t)))) t).
Proof. unfold set_snext, get_ent. by intros [e ->]. Qed.
Lemma set_sprev_eq p q t : is_Some (ents (hp t) !! p) →
  set_sprev p q t = Some (with_hp (HHeap (ents (hp t)) (nexts (hp t)) (<[p := q]> (sprevs (hp t))) (snexts (hp t))) t).
Proof. unfold set_sprev, get_ent. by intros [e ->]. Qed.
Lemma set_next_eq p q t : is_Some (ents (hp t) !! p) →
  set_next p q t = Some (with_hp (HHeap (ents (hp t)) (<[p := q]> (nexts (hp t))) (sprevs (hp t)) (snexts (hp t))) t).
Proof. unfold set_next, get_ent. by intros [e ->]. Qed.

Lemma addSequence_ok x t L : seq_linked t L → (∀ y, y ∈ x :: L → is_Some (ents (hp t) !! y)) →
  x ∉ L → x ≠ NULL → NoDup L →
  ∃ sp sn a b, addSequence x t = Some (relinked t sp sn a b) ∧
    chain sn a (L ++ [x]) ∧ chain sp b (reverse (L ++ [x])).
Proof.
  intros [Hf Hb] He Hx Hn Hnd. unfold addSequence.
  assert (Hex : is_Some (ents (hp t) !! x)) by (apply He; by left).
  destruct L as [|z L _] using rev_ind.
  - cbn in Hf, Hb. rewrite decide_True by (by left).
    rewrite set_snext_eq by done. cbn [mbind option_bind]. rewrite set_sprev_eq by done.
    do 4 eexists. split; [done|]. cbn.
    split; (split; [done|split; [done|eexists; split; [apply lookup_insert_eq|done]]]).
  - rewrite reverse_snoc in Hb. cbn in Hb. destruct Hb as (Htl & Hz & r & Hr & Hb).
    assert (Hhd : seqHead t ≠ NULL) by (by destruct L; cbn in Hf; destruct Hf as (-> & ? & _)).
    rewrite Htl. rewrite decide_False by (by intros [?|?]).
    rewrite set_snext_eq by done. cbn [mbind option_bind]. rewrite set_sprev_eq by done.
    cbn [mbind option_bind with_hp hp ents nexts sprevs snexts seqTail seqHead]. rewrite Htl.
    rewrite set_snext_eq; [|apply He; right; apply elem_of_app; right; by left].
    do 4 eexists. split; [done|]. cbn [app with_hp hp ents nexts sprevs snexts].
    apply not_elem_of_app in Hx as [HxL Hxz]. rewrite list_elem_of_singleton in Hxz.
    apply NoDup_app in Hnd as (HL & Hd & _).
    assert (HzL : z ∉ L) by (intros HzL; apply (Hd z HzL); by left).
    split_and!.
    + apply seg_app. exists x. split.
      * apply (seg_retarget _ _ _ _ NULL); [done|]. apply seg_insert; [|done].
        apply not_elem_of_app. by rewrite list_elem_of_singleton.
      * cbn. split_and!; [done|done|]. exists NULL. split; [|done]. rewrite lookup_insert_ne by done.
        apply lookup_insert_eq.
    + rewrite reverse_snoc, reverse_snoc. cbn. split_and!; [done|done|]. exists z.
      split; [apply lookup_insert_eq|]. split_and!; [done|done|]. exists r. rewrite lookup_insert_ne by done.
      split; [done|]. apply seg_insert; [|done]. by rewrite elem_of_reverse.
Qed.

Lemma delSequence_ok x t L1 L2 : seq_linked t (L1 ++ x :: L2) → NoDup (L1 ++ x :: L2) →
  (∀ y, y ∈ L1 ++ x :: L2 → is_Some (ents (hp t) !! y)) →
  ∃ sp sn a b, delSequence x t = Some (relinked t sp sn a b) ∧
    chain sn a (L1 ++ L2) ∧ chain sp b (reverse (L1 ++ L2)).
Proof.
  intros [Hf Hb] Hnd He. apply seg_app in Hf as (? & Hf1 & (-> & Hn & r & Hr & Hf2)).
  rewrite reverse_app, reverse_cons, <- app_assoc in Hb.
  apply seg_app in Hb as (? & Hb2 & (-> & _ & r' & Hr' & Hb1)).
  destruct (NoDup_mid _ _ _ Hnd) as [Hx1 Hx2].
  unfold delSequence, get_snext, get_sprev. rewrite Hr, Hr'. cbn [mbind option_bind].
  pose proof (chain_null _ _ _ Hf2) as Hr0. pose proof (chain_null _ _ _ Hb1) as Hr0'.
  destruct L1 as [|y L1 _] using rev_ind; destruct L2 as [|z L2].
  - rewrite decide_True by (split; [by apply Hr0|by apply Hr0']).
    destruct t as [[e nx sp sn] ???????????]. exists sp, sn, NULL, NULL. done.
  - assert (Hrz : r = z) by (by destruct Hf2 as (-> & _)). subst r.
    assert (Hz : z ≠ NULL) by (by destruct Hf2 as (_ & ? & _)).
    rewrite decide_False, decide_False, decide_True by naive_solver.
    rewrite set_sprev_eq; [|apply He; cbn; right; by left]. do 4 eexists. split; [done|]. cbn [app with_hp hp ents nexts sprevs snexts].
    rewrite reverse_cons in Hb2 |- *. cbn in Hnd. apply NoDup_cons in Hnd as [_ [HzL2 _]%NoDup_cons].
    split; [done|]. apply (seg_retarget _ _ _ _ x); [by rewrite elem_of_reverse|done].
  - assert (Hry : r' = y) by (rewrite reverse_snoc in Hb1; by destruct Hb1 as (-> & _)). subst r'.
    assert (Hy : y ≠ NULL) by (rewrite reverse_snoc in Hb1; by destruct Hb1 as (_ & ? & _)).
    assert (r = NULL) as -> by (by apply Hr0).
    rewrite decide_False, decide_True by naive_solver.
    rewrite set_snext_eq; [|apply He; rewrite !elem_of_app; left; right; by left].
    do 4 eexists. split; [done|]. cbn [app with_hp hp ents nexts sprevs snexts]. rewrite app_nil_r.
    apply NoDup_app in Hnd as ([HL1 [Hd _]]%NoDup_app & _ & _).
    split; [|done]. apply (seg_retarget _ _ _ _ x); [|done]. intros Hin. apply (Hd y Hin). by left.
  - assert (Hrz : r = z) by (by destruct Hf2 as (-> & _)). subst r.
    assert (Hz : z ≠ NULL) by (by destruct Hf2 as (_ & ? & _)).
    assert (Hry : r' = y) by (rewrite reverse_snoc in Hb1; by destruct Hb1 as (-> & _)). subst r'.
    assert (Hy : y ≠ NULL) by (rewrite reverse_snoc in Hb1; by destruct Hb1 as (_ & ? & _)).
    rewrite decide_False, decide_False, decide_False by naive_solver.
    assert (Hzx : z ≠ x) by (intros ->; apply Hx2; by left).
    rewrite set_sprev_eq; [|apply He; apply elem_of_app; right; right; by left]. cbn [mbind option_bind].
    cbn [with_hp hp snexts sprevs ents nexts]. rewrite Hr. cbn [mbind option_bind].
    rewrite lookup_insert_ne, Hr' by done. cbn [mbind option_bind].
    rewrite set_snext_eq; [|cbn; apply He; rewrite !elem_of_app; left; right; by left].
    exists (<[z:=y]> (sprevs (hp t))), (<[y:=z]> (snexts (hp t))), (seqHead t), (seqTail t). split; [done|]. cbn [app with_hp hp ents nexts sprevs snexts].
    assert (HyL1 : y ∉ L1 ∧ y ∉ z :: L2 ∧ z ∉ L2 ∧ z ∉ L1 ++ [y]).
    { apply NoDup_app in Hnd as ((_ & Hd1 & _)%NoDup_app & Hd & (_ & [Hz2 _]%NoDup_cons)%NoDup_cons). split_and!.
      - intros Hin. apply (Hd1 y Hin). by left.
      - intros Hin. apply (Hd y); [apply elem_of_app; right; by left|by right].
      - done.
      - intros Hin. apply (Hd z Hin). right. by left. }
    destruct HyL1 as (H1 & H2 & H3 & H4). split.
    + apply seg_app. exists z. split; [by apply (seg_retarget _ _ _ _ x)|]. by apply (seg_insert _ _ (z :: L2)).
    + rewrite reverse_app. rewrite reverse_cons in Hb2 |- *. apply seg_app. exists y. split.
      * apply (seg_retarget _ _ _ _ x); [by rewrite elem_of_reverse|done].
      * apply seg_insert; [by rewrite elem_of_reverse|done].
Qed.
End sequence.

(** ** The invariant *)
(** The threshold can be computed at each of the next [n] doublings. *)
Fixpoint grows (n : nat) (len : Z) (lf : DOUBLE) : bool :=
  match n with
  | O => true
  | S n =>
      if decide (HASHTABLE_MAX_LENGTH ≤ len)%Z then true else
      let len' := if decide (HASHTABLE_MAX_LENGTH ≤ 2 * len)%Z then HASHTABLE_MAX_LENGTH else (2 * len)%Z in
      match uint_of_double (d_mul (d_of_uint len') lf) with Some _ => grows n len' lf | None => false end
  end.
Lemma grows_enough m len lf : (HASHTABLE_MAX_LENGTH ≤ len * 2 ^ Z.of_nat m)%Z → grows m len lf = true →
  ∀ n, grows n len lf = true.
Proof.
  revert len. induction m as [|m IH]; intros len Hm Hg n.
  - destruct n; [done|]. cbn. by rewrite decide_True by lia.
  - destruct n as [|n]; [done|]. cbn in Hg |- *. case_decide; [done|].
    set (len' := if decide _ then _ else _) in *. destruct (uint_of_double _); [|done].
    apply IH; [|done]. subst len'. case_decide; [|rewrite Nat2Z.inj_succ, Z.pow_succ_r in Hm by lia; lia].
    assert (0 < 2 ^ Z.of_nat m)%Z by (apply Z.pow_pos_nonneg; lia). nia.
Qed.

Section inv.
Context {K V : Type} `{!EqDecision K} (cmp : K → K → bool) (hash : K → Z).
Hypothesis cmp_eq : ∀ a b, cmp a b = true ↔ a = b.
Implicit Types (t : htab K V) (cs : list (list ptr)) (L c : list ptr) (al : list (K * V)).

Record core t cs L : Prop := {
  c_len : tableLength t = Z.of_nat (length (table t));
  c_pos : (0 < tableLength t)%Z;
  c_bk : buckets (nexts (hp t)) (table t) cs;
  c_perm : concat cs ≡ₚ L;
  c_nd : NoDup L;
  c_dom : dom (ents (hp t)) = list_to_set L;
  c_seq : seq_linked t L;
}.
(** Every entry is in the bucket of its hash. *)
Definition indexed t cs : Prop := ∀ i c p h k v, cs !! i = Some c → p ∈ c →
  get_ent t p = Some (h, k, v) → Z.to_nat (GET_HASH_INDEX t h) = i.
Definition entries t L al : Prop :=
  Forall2 (λ p kv, get_ent t p = Some (hash kv.1, kv.1, kv.2)) L al.
Record inv t cs L al : Prop := {
  i_core : core t cs L;
  i_idx : indexed t cs;
  i_ents : entries t L al;
  i_keys : NoDup al.*1;
  i_max : (tableLength t ≤ HASHTABLE_MAX_LENGTH)%Z;
  i_grows : ∀ n, grows n (tableLength t) (loadFactor t) = true;
}.

Lemma core_ent t cs L p : core t cs L → p ∈ L ↔ is_Some (ents (hp t) !! p).
Proof. intros Hc. by rewrite <- elem_of_dom, (c_dom _ _ _ Hc), elem_of_list_to_set. Qed.
Lemma core_nd t cs L : core t cs L → NoDup (concat cs).
Proof. intros Hc. rewrite (c_perm _ _ _ Hc). apply (c_nd _ _ _ Hc). Qed.
Lemma core_bucket_ent t cs L i c p : core t cs L → cs !! i = Some c → p ∈ c → is_Some (ents (hp t) !! p).
Proof.
  intros Hc Hi Hp. apply (core_ent _ _ _ _ Hc). rewrite <- (c_perm _ _ _ Hc). by eapply concat_elem.
Qed.
Lemma nodup_fuel t c : NoDup c → (∀ x, x ∈ c → is_Some (ents (hp t) !! x)) → length c < fuel t.
Proof.
  intros Hnd He. unfold fuel. rewrite <- size_dom. apply Nat.lt_succ_r.
  rewrite <- (size_list_to_set (C := gset ptr) c) by done.
  apply subseteq_size. intros x Hx. rewrite elem_of_list_to_set in Hx. apply elem_of_dom. auto.
Qed.
Lemma chain_fuel t cs L i c : core t cs L → cs !! i = Some c → length c < fuel t.
Proof.
  intros Hc Hi. apply nodup_fuel; [eapply NoDup_bucket; [by eapply core_nd|done]|].
  intros x Hx. by eapply core_bucket_ent.
Qed.
Lemma index_range t cs L h : core t cs L →
  ∃ p c, slot t (GET_HASH_INDEX t h) = Some p ∧ table t !! Z.to_nat (GET_HASH_INDEX t h) = Some p ∧
    cs !! Z.to_nat (GET_HASH_INDEX t h) = Some c ∧ chain (nexts (hp t)) p c.
Proof.
  intros Hc. pose proof (c_pos _ _ _ Hc). pose proof (c_len _ _ _ Hc).
  pose proof (Z.mod_pos_bound h (tableLength t) ltac:(done)) as Hb. unfold GET_HASH_INDEX, slot.
  rewrite decide_True by lia.
  destruct (lookup_lt_is_Some_2 (table t) (Z.to_nat (h mod tableLength t))) as [p Hp]; [lia|].
  destruct (buckets_lookup _ _ _ _ _ (c_bk _ _ _ Hc) Hp) as (c & Hcs & Hch). by exists p, c.
Qed.

Lemma walk_ok n key p t c : chain (nexts (hp t)) p c → (∀ x, x ∈ c → is_Some (ents (hp t) !! x)) → length c ≤ n →
  (∃ c1 x c2 h v, c = c1 ++ x :: c2 ∧ get_ent t x = Some (h, key, v) ∧ x ≠ NULL ∧ walk cmp n key p t = Some x) ∨
  (walk cmp n key p t = Some NULL ∧ ∀ x h k v, x ∈ c → get_ent t x = Some (h, k, v) → k ≠ key).
Proof.
  revert p c. induction n as [|n IH]; intros p c Hch He Hn; destruct c as [|x c]; cbn in Hn; try lia.
  1,2: cbn in Hch; subst p; right; split; [done|by intros ???? ?%not_elem_of_nil].
  destruct Hch as (-> & Hx & r & Hr & Hch). cbn [walk]. rewrite decide_False by done.
  destruct (He x) as [[[h k] v] Hex]; [by left|]. change (get_ent t x = Some (h, k, v)) in Hex. rewrite Hex. cbn [mbind option_bind].
  destruct (cmp key k) eqn:Hcmp.
  - left. apply cmp_eq in Hcmp. subst k. by exists [], x, c, h, v.
  - assert (Hk : k ≠ key) by (intros ->; assert (cmp key key = true) by (by apply cmp_eq); congruence).
    change (get_next t x = Some r) in Hr. rewrite Hr. cbn [mbind option_bind].
    destruct (IH r c Hch) as [(c1 & y & c2 & h' & v' & -> & Hy & Hny & Hw)|[Hw Hno]];
      [intros y Hy; apply He; by right|lia| |].
    + left. by exists (x :: c1), y, c2, h', v'.
    + right. split; [done|]. intros y h' k' v' [->|Hy]%elem_of_cons Hent; [|by eapply Hno].
      congruence.
Qed.

Lemma entries_lookup t L al key v : entries t L al → (key, v) ∈ al →
  ∃ p, p ∈ L ∧ get_ent t p = Some (hash key, key, v).
Proof.
  intros He [i Hi]%list_elem_of_lookup. destruct (Forall2_lookup_r _ _ _ _ _ He Hi) as (p & Hp & Hent).
  exists p. split; [by eapply list_elem_of_lookup_2|done].
Qed.
Lemma entries_elem t L al p : entries t L al → p ∈ L →
  ∃ k v, (k, v) ∈ al ∧ get_ent t p = Some (hash k, k, v).
Proof.
  intros He [i Hi]%list_elem_of_lookup. destruct (Forall2_lookup_l _ _ _ _ _ He Hi) as ([k v] & Hp & Hent).
  exists k, v. split; [by eapply list_elem_of_lookup_2|done].
Qed.
(** Two entries with one key are one entry. *)
Lemma entries_inj t L al p q h h' k v v' : entries t L al → NoDup al.*1 → p ∈ L → q ∈ L →
  get_ent t p = Some (h, k, v) → get_ent t q = Some (h', k, v') → p = q.
Proof.
  intros He Hnd [i Hi]%list_elem_of_lookup [j Hj]%list_elem_of_lookup Hp Hq.
  destruct (Forall2_lookup_l _ _ _ _ _ He Hi) as ([k1 v1] & H1 & He1).
  destruct (Forall2_lookup_l _ _ _ _ _ He Hj) as ([k2 v2] & H2 & He2). cbn in *.
  assert (k1 = k) by congruence. assert (k2 = k) by congruence. subst.
  assert (i = j); [|congruence]. eapply (NoDup_lookup al.*1); [done| |]; rewrite list_lookup_fmap.
  - by rewrite H1.
  - by rewrite H2.
Qed.

(** What the lookup at the start of every keyed operation finds. *)
Lemma lookup_ok t cs L al key : inv t cs L al →
  ∃ p c, slot t (GET_HASH_INDEX t (hash key)) = Some p ∧ table t !! Z.to_nat (GET_HASH_INDEX t (hash key)) = Some p ∧
    cs !! Z.to_nat (GET_HASH_INDEX t (hash key)) = Some c ∧ chain (nexts (hp t)) p c ∧
    ((∃ c1 x c2 v, c = c1 ++ x :: c2 ∧ x ∈ L ∧ x ≠ NULL ∧ get_ent t x = Some (hash key, key, v) ∧
        assoc_get key al = Some v ∧ walk cmp (fuel t) key p t = Some x)
     ∨ (assoc_get key al = None ∧ walk cmp (fuel t) key p t = Some NULL)).
Proof.
  intros Hi. pose proof (i_core _ _ _ _ Hi) as Hc.
  destruct (index_range t cs L (hash key) Hc) as (p & c & Hsl & Htb & Hcs & Hch).
  exists p, c. do 4 (split; [done|]).
  pose proof (chain_fuel _ _ _ _ _ Hc Hcs) as Hfu.
  destruct (walk_ok (fuel t) key p t c Hch) as [(c1 & x & c2 & h & v & -> & Hx & Hnx & Hw)|[Hw Hno]];
    [intros x Hx; by eapply core_bucket_ent|lia| |].
  - left. assert (HxL : x ∈ L).
    { rewrite <- (c_perm _ _ _ Hc). eapply concat_elem; [done|]. apply elem_of_app. right. by left. }
    destruct (entries_elem t L al x (i_ents _ _ _ _ Hi) HxL) as (k & v' & Hkv & Hx').
    rewrite Hx in Hx'. injection Hx' as -> -> ->. exists c1, x, c2, v'. split_and!; try done.
    apply assoc_get_Some; [apply (i_keys _ _ _ _ Hi)|done].
  - right. split; [|done]. destruct (assoc_get key al) as [v|] eqn:Hg; [|done]. exfalso.
    apply assoc_get_elem in Hg. destruct (entries_lookup t L al key v (i_ents _ _ _ _ Hi) Hg) as (x & Hx & Hent).
    rewrite <- (c_perm _ _ _ Hc) in Hx. apply elem_of_concat_lookup in Hx as (j & d & Hd & Hxd).
    pose proof (i_idx _ _ _ _ Hi j d x _ _ _ Hd Hxd Hent) as Hj. subst j. rewrite Hcs in Hd. injection Hd as <-.
    by apply (Hno x _ _ _ Hxd Hent).
Qed.

Lemma containsKey_ok t cs L al key : inv t cs L al →
  containsKey cmp hash t key = Some (bool_decide (is_Some (assoc_get key al))).
Proof.
  intros Hi. unfold containsKey.
  destruct (lookup_ok t cs L al key Hi) as (p & c & -> & _ & _ & _ & Hw). cbn [mbind option_bind].
  destruct Hw as [(c1 & x & c2 & v & _ & _ & Hx & _ & -> & ->)|[-> ->]]; cbn [mbind option_bind].
  - by rewrite (bool_decide_eq_true_2 (x ≠ NULL)), bool_decide_eq_true_2.
  - by rewrite (bool_decide_eq_false_2 (NULL ≠ NULL)), bool_decide_eq_false_2 by (by intros [? ?] || auto).
Qed.
Lemma get_ok t cs L al key : inv t cs L al → get cmp hash t key = Some (assoc_get key al).
Proof.
  intros Hi. unfold get, get_r.
  destruct (lookup_ok t cs L al key Hi) as (p & c & -> & _ & _ & _ & Hw). cbn [mbind option_bind].
  destruct Hw as [(c1 & x & c2 & v & _ & _ & Hx & He & -> & ->)|[-> ->]]; cbn [mbind option_bind].
  - rewrite decide_False by done. by rewrite He.
  - by rewrite decide_True.
Qed.
(** The members the invariant depends on. *)
Definition same_core t t' : Prop :=
  (hp t', table t', tableLength t', loadFactor t', seqHead t', seqTail t')
  = (hp t, table t, tableLength t, loadFactor t, seqHead t, seqTail t).
Lemma inv_same t t' cs L al : same_core t t' → inv t cs L al → inv t' cs L al.
Proof.
  destruct t, t'. unfold same_core. cbn. intros [= -> -> -> -> -> ->] [[] Hx He Hk Hm Hg]. split; [split|..]; assumption.
Qed.

(** *** The cursor over the buckets *)
(** [R]: the entries [getNext] still returns. *)
Definition cursor t cs (R : list ptr) : Prop :=
  match R with
  | [] => curEntry t = NULL
  | x :: R => curEntry t = x ∧ ∃ i c1 c2, curIndex t = Z.of_nat i ∧ cs !! i = Some (c1 ++ x :: c2) ∧
      R = c2 ++ concat (drop (S i) cs)
  end.

Lemma bucket_chain t cs L i c : core t cs L → cs !! i = Some c →
  ∃ p, slot t (Z.of_nat i) = Some p ∧ chain (nexts (hp t)) p c.
Proof.
  intros Hc Hi. destruct (Forall2_lookup_r _ _ _ _ _ (c_bk _ _ _ Hc) Hi) as (p & Hp & Hch).
  exists p. split; [|done]. unfold slot. by rewrite decide_True, Nat2Z.id by lia.
Qed.
Lemma core_length t cs L : core t cs L → tableLength t = Z.of_nat (length cs).
Proof. intros Hc. rewrite (c_len _ _ _ Hc). f_equal. apply (Forall2_length _ _ _ (c_bk _ _ _ Hc)). Qed.

Lemma scan_ok t cs L n i : core t cs L → i + n = length cs →
  (scan n (Z.of_nat i) t = Some None ∧ concat (drop i cs) = []) ∨
  (∃ j x c2, scan n (Z.of_nat i) t = Some (Some (x, Z.of_nat j)) ∧ x ≠ NULL ∧ cs !! j = Some (x :: c2) ∧
     concat (drop i cs) = x :: c2 ++ concat (drop (S j) cs)).
Proof.
  intros Hc. revert i. induction n as [|n IH]; intros i Hi.
  { left. split; [done|]. by rewrite drop_ge by lia. }
  destruct (lookup_lt_is_Some_2 cs i) as [c Hcs]; [lia|].
  destruct (bucket_chain t cs L i c Hc Hcs) as (p & Hsl & Hch). cbn [scan]. rewrite Hsl. cbn [mbind option_bind].
  rewrite (drop_S _ _ _ Hcs). cbn [concat].
  case_decide as Hp.
  - apply (chain_null _ _ _ Hch) in Hp. subst c. replace (Z.of_nat i + 1)%Z with (Z.of_nat (S i)) by lia.
    apply IH. lia.
  - right. destruct c as [|x c2]; [by destruct Hp|]. destruct Hch as (-> & Hx & _). by exists i, x, c2.
Qed.
Lemma reset_ok t cs L : core t cs L →
  ∃ p i, reset t = Some (bool_decide (L ≠ []), with_cur p i t) ∧ cursor (with_cur p i t) cs (concat cs).
Proof.
  intros Hc. unfold reset. pose proof (core_length t cs L Hc) as Hl. rewrite Hl, Nat2Z.id.
  destruct (scan_ok t cs L (length cs) 0 Hc) as [[Hs He]|(j & x & c2 & Hs & Hx & Hj & He)]; [done| |];
    change (Z.of_nat 0) with 0%Z in Hs; rewrite drop_0 in He; rewrite Hs; cbn [mbind option_bind]; do 2 eexists; split.
  - rewrite bool_decide_eq_false_2; [done|]. intros HL. apply HL. apply Permutation_nil_r.
    rewrite <- (c_perm _ _ _ Hc), He. done.
  - rewrite He. done.
  - rewrite bool_decide_eq_true_2; [done|]. intros HL. pose proof (c_perm _ _ _ Hc) as Hp.
    rewrite HL, He in Hp. by apply Permutation_nil_r in Hp.
  - rewrite He. cbn. split; [done|]. by exists j, [], c2.
Qed.
Lemma search_ok t cs L x R : core t cs L → cursor t cs (x :: R) →
  ∃ b p i, searchNextEntry t = Some (b, with_cur p i t) ∧ cursor (with_cur p i t) cs R.
Proof.
  intros Hc (Hcur & i & c1 & c2 & Hix & Hcs & ->). destruct (bucket_chain t cs L i _ Hc Hcs) as (p & _ & Hch).
  apply seg_app in Hch as (y & _ & (-> & Hx & r & Hr & Hch)).
  unfold searchNextEntry, get_next. rewrite Hcur, Hr. cbn [mbind option_bind].
  destruct c2 as [|z c2].
  - cbn in Hch. subst r. rewrite decide_False by (by intros ?). rewrite (core_length t cs L Hc), Hix.
    pose proof (lookup_lt_Some _ _ _ Hcs).
    replace (Z.to_nat (Z.of_nat (length cs) - (Z.of_nat i + 1))) with (length cs - S i) by lia.
    replace (Z.of_nat i + 1)%Z with (Z.of_nat (S i)) by lia.
    destruct (scan_ok t cs L (length cs - S i) (S i) Hc) as [[-> He]|(j & y & c2 & -> & Hy & Hj & He)]; [lia| |];
      cbn [mbind option_bind app]; do 3 eexists; (split; [done|]); rewrite He; [done|].
    cbn. split; [done|]. by exists j, [], c2.
  - destruct Hch as (-> & Hz & _). rewrite decide_True by done. do 3 eexists. split; [done|]. cbn.
    split; [done|]. exists i, (c1 ++ [x]), c2. by rewrite <- app_assoc.
Qed.
Lemma cursor_elem t cs x R : cursor t cs (x :: R) → x ∈ concat cs.
Proof.
  intros (_ & i & c1 & c2 & _ & Hcs & _). eapply concat_elem; [done|]. apply elem_of_app. right. by left.
Qed.
Lemma getNext_ok t cs L al R : inv t cs L al → cursor t cs R →
  match R with
  | [] => getNext_kv t = Some (None, t) ∧ getNext t = Some (None, t)
  | x :: R => ∃ k v p i, (k, v) ∈ al ∧ get_ent t x = Some (hash k, k, v) ∧
      getNext_kv t = Some (Some (k, v), with_cur p i t) ∧ getNext t = Some (Some v, with_cur p i t) ∧
      cursor (with_cur p i t) cs R
  end.
Proof.
  intros Hi Hcur. destruct R as [|x R]; unfold getNext_kv, getNext.
  { cbn in Hcur. by rewrite Hcur. }
  pose proof (i_core _ _ _ _ Hi) as Hc. destruct (search_ok t cs L x R Hc Hcur) as (b & p & i & Hs & Hcur').
  assert (HxL : x ∈ L) by (rewrite <- (c_perm _ _ _ Hc); by eapply cursor_elem).
  destruct (entries_elem t L al x (i_ents _ _ _ _ Hi) HxL) as (k & v & Hkv & Hent).
  exists k, v, p, i. split; [done|]. split; [done|].
  assert (Hx : x ≠ NULL).
  { intros ->. destruct Hcur as (_ & j & c1 & c2 & _ & Hcs & _).
    destruct (bucket_chain t cs L j _ Hc Hcs) as (q & _ & Hch). apply seg_nonnull in Hch. apply Hch.
    apply elem_of_app. right. by left. }
  destruct Hcur as [-> _]. rewrite !decide_False by done. rewrite Hent. cbn [mbind option_bind]. rewrite Hs. by split_and!.
Qed.

(** *** Growing *)
Definition moved t (nx : gmap ptr ptr) (tb : list ptr) : htab K V :=
  with_table tb (with_hp (HHeap (ents (hp t)) nx (sprevs (hp t)) (snexts (hp t))) t).
Definition array t : Prop := tableLength t = Z.of_nat (length (table t)) ∧ (0 < tableLength t)%Z.

Lemma move_chain_ok n p c t cs : array t → chain (nexts (hp t)) p c → buckets (nexts (hp t)) (table t) cs →
  NoDup (c ++ concat cs) → (∀ x, x ∈ c → is_Some (ents (hp t) !! x)) → indexed t cs → length c ≤ n →
  ∃ nx tb cs', move_chain n p t = Some (moved t nx tb) ∧ buckets nx tb cs' ∧ concat cs' ≡ₚ c ++ concat cs ∧
    length tb = length (table t) ∧ indexed t cs' ∧ (∀ y, y ∉ c → nx !! y = nexts (hp t) !! y).
Proof.
  revert p c t cs. induction n as [|n IH]; intros p c t cs Ha Hch Hb Hnd He Hix Hn; destruct c as [|x c];
    cbn in Hn; try lia.
  1,2: cbn in Hch; subst p; exists (nexts (hp t)), (table t), cs; (split; [by destruct t as [[]]|by split_and!]).
  destruct Hch as (-> & Hx & r & Hr & Hch). cbn [move_chain]. rewrite decide_False by done.
  change (get_next t x = Some r) in Hr. rewrite Hr. cbn [mbind option_bind].
  destruct (He x) as [[[h k] v] Hex]; [by left|]. assert (Hex' : get_ent t x = Some (h, k, v)) by done.
  rewrite Hex'. cbn [mbind option_bind]. cbv zeta. destruct Ha as [Hlen Hpos].
  pose proof (Z.mod_pos_bound h (tableLength t) Hpos) as Hbd. set (ix := GET_HASH_INDEX t h) in *.
  fold (GET_HASH_INDEX t h) in Hbd. fold ix in Hbd.
  destruct (lookup_lt_is_Some_2 (table t) (Z.to_nat ix)) as [hd Hhd]; [lia|].
  destruct (buckets_lookup _ _ _ _ _ Hb Hhd) as (d & Hd & Hchd).
  assert (Hsl : slot t ix = Some hd) by (unfold slot; by rewrite decide_True by lia).
  rewrite Hsl. cbn [mbind option_bind]. rewrite set_next_eq by done. cbn [mbind option_bind].
  unfold set_slot. change (slot (with_hp _ t) ix) with (slot t ix). rewrite Hsl. cbn [mbind option_bind].
  apply NoDup_app in Hnd as ([Hxc Hndc]%NoDup_cons & Hdj & Hndcs).
  assert (Hxcs : x ∉ concat cs) by (apply Hdj; by left).
  assert (Hxd : x ∉ d) by (intros Hin; apply Hxcs; by eapply concat_elem).
  set (t1 := with_table _ _).
  destruct (IH r c t1 (<[Z.to_nat ix := x :: d]> cs)) as (nx & tb & cs' & Hm & Hb' & Hp & Hl & Hix' & Hag).
  - split; [|done]. cbn. by rewrite length_insert.
  - by apply seg_insert.
  - eapply buckets_insert; [exact Hb|exact (lookup_lt_Some _ _ _ Hhd)| |].
    + split; [done|]. split; [done|]. exists hd. split; [apply lookup_insert_eq|]. by apply seg_insert.
    + intros j e y _ Hj Hy. change (<[x:=hd]> (nexts (hp t)) !! y = nexts (hp t) !! y).
      rewrite lookup_insert_ne; [done|]. intros <-. apply Hxcs. by eapply concat_elem.
  - rewrite (concat_insert _ _ _ _ Hd). rewrite (concat_split _ _ _ Hd) in Hxcs, Hndcs, Hdj.
    cbn [app]. rewrite <- Permutation_middle. apply NoDup_app. split_and!; [done| |].
    + intros y Hy. rewrite elem_of_cons. intros [->|Hy']; [done|]. by apply (Hdj y); [right|].
    + by apply NoDup_cons.
  - intros y Hy. apply He. by right.
  - intros j e y h' k' v' Hj Hy Hent. change (get_ent t y = Some (h', k', v')) in Hent.
    change (Z.to_nat (GET_HASH_INDEX t h') = j).
    destruct (decide (Z.to_nat ix = j)) as [<-|Hne].
    + rewrite list_lookup_insert_eq in Hj by (by eapply lookup_lt_Some). injection Hj as <-.
      apply elem_of_cons in Hy as [->|Hy]; [by simplify_eq|]. by eapply Hix.
    + rewrite list_lookup_insert_ne in Hj by done. by eapply Hix.
  - lia.
  - exists nx, tb, cs'. split; [exact Hm|]. split_and!; [done| | | |].
    + rewrite Hp, (concat_insert _ _ _ _ Hd), (concat_split _ _ _ Hd). cbn.
      rewrite <- (Permutation_middle (concat (take (Z.to_nat ix) cs))). by rewrite <- Permutation_middle.
    + rewrite Hl. cbn. apply length_insert.
    + exact Hix'.
    + intros y [Hy1 Hy2]%not_elem_of_cons. rewrite Hag by done. cbn. by rewrite lookup_insert_ne by congruence.
Qed.

Lemma move_all_ok old ocs t cs : array t → buckets (nexts (hp t)) old ocs → buckets (nexts (hp t)) (table t) cs →
  NoDup (concat ocs ++ concat cs) → (∀ x, x ∈ concat ocs → is_Some (ents (hp t) !! x)) → indexed t cs →
  ∃ nx tb cs', move_all old t = Some (moved t nx tb) ∧ buckets nx tb cs' ∧ concat cs' ≡ₚ concat ocs ++ concat cs ∧
    length tb = length (table t) ∧ indexed t cs'.
Proof.
  revert ocs t cs. induction old as [|p old IH]; intros ocs t cs Ha Ho Hb Hnd He Hix; inversion Ho as [|? c ? ocs' Hch Ho']; subst.
  { exists (nexts (hp t)), (table t), cs. split; [by destruct t as [[]]|by split_and!]. }
  cbn [concat] in Hnd, He |- *. rewrite <- app_assoc in Hnd. cbn [move_all].
  assert (Hcd : ∀ x, x ∈ c → x ∉ concat ocs') by (intros x Hx Hin; apply NoDup_app in Hnd as (_ & Hd & _);
    apply (Hd x Hx), elem_of_app; by left).
  destruct (move_chain_ok (fuel t) p c t cs Ha Hch Hb) as (nx & tb & cs1 & -> & Hb1 & Hp1 & Hl1 & Hix1 & Hag).
  - apply NoDup_app in Hnd as (Hc & Hd & (_ & _ & Hcs)%NoDup_app). apply NoDup_app. split_and!; [done| |done].
    intros x Hx Hin. apply (Hd x Hx), elem_of_app. by right.
  - intros x Hx. apply He, elem_of_app. by left.
  - done.
  - apply Nat.lt_le_incl, nodup_fuel; [by apply NoDup_app in Hnd as (? & _)|].
    intros x Hx. apply He, elem_of_app. by left.
  - cbn [mbind option_bind].
    destruct (IH ocs' (moved t nx tb) cs1) as (nx2 & tb2 & cs2 & Hm & Hb2 & Hp2 & Hl2 & Hix2).
    + destruct Ha. split; [|done]. cbn. by rewrite Hl1.
    + cbn. eapply buckets_eq; [|exact Ho']. intros x Hx. apply Hag. intros Hc. by apply (Hcd x).
    + done.
    + rewrite Hp1. rewrite (Permutation_app_swap_app (concat ocs')). done.
    + intros x Hx. apply He, elem_of_app. by right.
    + done.
    + exists nx2, tb2, cs2. split; [exact Hm|]. split_and!; [done| |by rewrite Hl2|done].
      rewrite Hp2, Hp1, <- app_assoc. apply Permutation_app_swap_app.
Qed.

Lemma rehash_ok t cs L al : inv t cs L al →
  ∃ t' cs', rehash t = Some t' ∧ inv t' cs' L al ∧ curEntry t' = curEntry t ∧ seqCur t' = seqCur t ∧
    entryCount t' = entryCount t ∧ hp t' = HHeap (ents (hp t)) (nexts (hp t')) (sprevs (hp t)) (snexts (hp t)).
Proof.
  intros Hi. unfold rehash. case_decide as Hmax.
  { exists t, cs. split_and!; try done. by destruct t as [[]]. }
  destruct Hi as [Hc Hix He Hk Hm Hg]. pose proof (c_pos _ _ _ Hc) as Hpos.
  unfold HASHTABLE_MAX_LENGTH in *. rewrite (u32_small (tableLength t * 2)) by lia. rewrite (Z.mul_comm _ 2).
  pose proof (Hg 1) as Hg1. cbn [grows] in Hg1. unfold HASHTABLE_MAX_LENGTH in Hg1. rewrite decide_False in Hg1 by lia.
  cbv zeta in Hg1 |- *. set (len' := if decide (131072 ≤ 2 * tableLength t)%Z then _ else _) in *.
  destruct (uint_of_double _) as [th|] eqn:Hth; [|done]. cbn [mbind option_bind].
  assert (Hlen' : (0 < len' ≤ 131072)%Z) by (subst len'; case_decide; lia).
  set (t0 := HTab _ _ _ _ _ _ _ _ _ _ _ _).
  destruct (move_all_ok (table t) cs t0 (replicate (Z.to_nat len') [])) as (nx & tb & cs' & Hmv & Hb & Hp & Hl & Hx).
  - split; cbn; [rewrite length_replicate|]; lia.
  - apply (c_bk _ _ _ Hc).
  - cbn. apply Forall2_replicate. done.
  - rewrite concat_replicate_nil, app_nil_r.
    by eapply core_nd.
  - intros x Hxc. apply (core_ent _ _ _ _ Hc). by rewrite <- (c_perm _ _ _ Hc).
  - intros i c p h k v Hci Hpc. apply lookup_replicate in Hci as [-> _]. by apply not_elem_of_nil in Hpc.
  - exists (moved t0 nx tb), cs'. split; [exact Hmv|]. split_and!; [|done|done|done|done].
    rewrite concat_replicate_nil, app_nil_r in Hp.
    split; [split| | | | |]; cbn.
    + rewrite Hl. cbn. rewrite length_replicate. lia.
    + lia.
    + done.
    + by rewrite Hp, (c_perm _ _ _ Hc).
    + apply (c_nd _ _ _ Hc).
    + apply (c_dom _ _ _ Hc).
    + apply (c_seq _ _ _ Hc).
    + exact Hx.
    + exact He.
    + exact Hk.
    + unfold HASHTABLE_MAX_LENGTH. lia.
    + intros n. specialize (Hg (S n)). cbn [grows] in Hg. unfold HASHTABLE_MAX_LENGTH in Hg.
      rewrite decide_False in Hg by lia. cbv zeta in Hg. fold len' in Hg. by rewrite Hth in Hg.
Qed.

(** *** Putting *)
Lemma put_new_ok t cs L al key value : inv t cs L al → assoc_get key al = None →
  ∃ t' cs' x, put_new t (hash key) key value = Some t' ∧ inv t' cs' (L ++ [x]) (al ++ [(key, value)]) ∧
    curEntry t' = NULL ∧ seqCur t' = seqCur t ∧ entryCount t' = u32 (entryCount t + 1) ∧
    get_ent t' x = Some (hash key, key, value) ∧ (∀ y, y ∈ L → get_ent t' y = get_ent t y).
Proof.
  intros Hi Hno. unfold put_new. cbv zeta. set (t1 := with_cur _ _ _).
  assert (Hi1 : inv t1 cs L al) by (by apply (inv_same t t1)).
  assert (Hre : ∃ t2 cs2, (if decide (threshold t1 ≤ entryCount t1)%Z then rehash t1 else Some t1) = Some t2 ∧
    inv t2 cs2 L al ∧ curEntry t2 = NULL ∧ seqCur t2 = seqCur t ∧ entryCount t2 = entryCount t1 ∧
    ents (hp t2) = ents (hp t)).
  { case_decide; [|by exists t1, cs]. destruct (rehash_ok t1 cs L al Hi1) as (t2 & cs2 & H1 & H2 & H3 & H4 & H5 & H6).
    exists t2, cs2. rewrite H6. by split_and!. }
  destruct Hre as (t2 & cs2 & -> & Hi2 & Hcur & Hsq & Hcnt & Hents). cbn [mbind option_bind].
  clear Hi1. pose proof (i_core _ _ _ _ Hi2) as Hc.
  destruct (index_range t2 cs2 L (hash key) Hc) as (hd & d & Hsl & Htb & Hcs & Hch). rewrite Hsl.
  cbn [mbind option_bind]. unfold new_entry. set (x := fresh _).
  assert (Hx : x ≠ NULL ∧ x ∉ L).
  { pose proof (is_fresh ({[NULL]} ∪ dom (ents (hp t2)) : gset ptr)) as Hf. fold x in Hf.
    rewrite (c_dom _ _ _ Hc) in Hf. apply not_elem_of_union in Hf as [H1 H2].
    rewrite not_elem_of_singleton in H1. by rewrite elem_of_list_to_set in H2. }
  destruct Hx as [Hxn HxL]. set (t3 := with_hp _ t2). unfold set_slot.
  change (slot t3 ?i) with (slot t2 i). rewrite Hsl. cbn [mbind option_bind]. set (t4 := with_table _ t3).
  destruct (c_seq _ _ _ Hc) as [Hf Hb].
  destruct (addSequence_ok x t4 L) as (sp & sn & a & b & Hadd & Hfw & Hbw).
  { split; [by apply seg_delete|]. apply seg_delete; [by rewrite elem_of_reverse|done]. }
  { intros y [->|Hy]%elem_of_cons; cbn; [by rewrite lookup_insert_eq|].
    rewrite lookup_insert_ne by (by intros ->). by apply (core_ent _ _ _ _ Hc). }
  { done. } { done. } { apply (c_nd _ _ _ Hc). }
  assert (Hxcs : x ∉ concat cs2) by (by rewrite (c_perm _ _ _ Hc)).
  assert (Hxd : x ∉ d) by (intros Hin; apply Hxcs; by eapply concat_elem).
  set (ix := Z.to_nat (GET_HASH_INDEX t2 (hash key))) in *.
  assert (Hent : ∀ y, y ≠ x → get_ent (relinked t4 sp sn a b) y = get_ent t2 y).
  { intros y Hy. unfold get_ent. cbn. by rewrite lookup_insert_ne. }
  assert (Hentx : get_ent (relinked t4 sp sn a b) x = Some (hash key, key, value)).
  { unfold get_ent. cbn. apply lookup_insert_eq. }
  exists (relinked t4 sp sn a b), (<[ix := x :: d]> cs2), x. split; [exact Hadd|].
  split; [|split; [exact Hcur|split; [exact Hsq|split; [exact Hcnt|split; [exact Hentx|]]]]].
  2: { intros y Hy. rewrite Hent by (by intros ->). unfold get_ent. by rewrite Hents. }
  destruct Hi2 as [_ Hix He Hk Hm Hg]. split; [split| | | | |].
  - cbn. rewrite length_insert. apply (c_len _ _ _ Hc).
  - apply (c_pos _ _ _ Hc).
  - eapply (buckets_insert (nexts (hp t2))); [apply (c_bk _ _ _ Hc)|exact (lookup_lt_Some _ _ _ Htb)| |].
    + split; [done|]. split; [done|]. exists hd. split; [apply lookup_insert_eq|]. by apply seg_insert.
    + intros j e y _ Hj Hy. change (<[x:=hd]> (nexts (hp t2)) !! y = nexts (hp t2) !! y).
      rewrite lookup_insert_ne; [done|]. intros <-. apply Hxcs. by eapply concat_elem.
  - rewrite (concat_insert _ _ _ _ Hcs). cbn [app]. rewrite <- Permutation_middle.
    rewrite <- (concat_split _ _ _ Hcs), (c_perm _ _ _ Hc). apply Permutation_cons_append.
  - apply NoDup_app. split_and!; [apply (c_nd _ _ _ Hc)| |apply NoDup_singleton].
    intros y Hy ->%list_elem_of_singleton. done.
  - cbn. rewrite dom_insert_L, (c_dom _ _ _ Hc), list_to_set_app_L. cbn. set_solver.
  - by split.
  - intros j e y h k v Hj Hy Hey. change (Z.to_nat (GET_HASH_INDEX t2 h) = j).
    destruct (decide (y = x)) as [->|Hne].
    + rewrite Hentx in Hey. injection Hey as <- <- <-. fold ix.
      destruct (decide (ix = j)) as [|Hij]; [done|]. rewrite list_lookup_insert_ne in Hj by done.
      destruct Hxcs. by eapply concat_elem.
    + rewrite Hent in Hey by done. destruct (decide (ix = j)) as [<-|Hij].
      * rewrite list_lookup_insert_eq in Hj by (by eapply lookup_lt_Some). injection Hj as <-.
        apply elem_of_cons in Hy as [->|Hy]; [done|]. by eapply Hix.
      * rewrite list_lookup_insert_ne in Hj by done. by eapply Hix.
  - apply Forall2_app; [|by constructor]. unfold entries in He.
    apply Forall2_same_length_lookup. split; [by eapply Forall2_length|].
    intros i p kv Hp Hkv. rewrite Hent; [by eapply (Forall2_lookup_lr _ _ _ _ _ _ He)|].
    intros ->. apply HxL. by eapply list_elem_of_lookup_2.
  - rewrite fmap_app. cbn. apply NoDup_app. split_and!; [done| |apply NoDup_singleton].
    intros k Hin ->%list_elem_of_singleton. by apply assoc_get_None in Hno.
  - exact Hm.
  - exact Hg.
Qed.

Lemma set_value_ok t cs L al x key v value : inv t cs L al → x ∈ L → get_ent t x = Some (hash key, key, v) →
  ∃ t', set_value x value t = Some t' ∧ inv t' cs L (assoc_set key value al) ∧ curEntry t' = curEntry t ∧
    curIndex t' = curIndex t ∧ seqCur t' = seqCur t ∧ entryCount t' = entryCount t ∧
    (∀ y h k w, get_ent t y = Some (h, k, w) → ∃ w', get_ent t' y = Some (h, k, w')).
Proof.
  intros Hi Hx Hent. unfold set_value. rewrite Hent. cbn [mbind option_bind]. eexists. split; [done|].
  split; [|do 4 (split; [done|])]; cycle 1.
  { intros y h k w Hy. unfold get_ent. cbn. destruct (decide (y = x)) as [->|Hne].
    - rewrite lookup_insert_eq. rewrite Hent in Hy. injection Hy as <- <- <-. eauto.
    - rewrite lookup_insert_ne by done. eauto. }
  destruct Hi as [[] Hix He Hk Hm Hg]. set (t' := with_hp _ t).
  assert (Hnew : ∀ y h k w, get_ent t' y = Some (h, k, w) → ∃ w', get_ent t y = Some (h, k, w')).
  { intros y h k w Hy. unfold get_ent, t' in Hy. cbn in Hy. destruct (decide (y = x)) as [->|Hne].
    - rewrite lookup_insert_eq in Hy. injection Hy as <- <- <-. eauto.
    - rewrite lookup_insert_ne in Hy by done. eauto. }
  split; [split| | | | |]; try done.
  - cbn. rewrite dom_insert_L, c_dom0. assert (x ∈ (list_to_set L : gset ptr)) by (by apply elem_of_list_to_set). set_solver.
  - intros i c p h k w Hc Hp Hy. destruct (Hnew _ _ _ _ Hy) as [w' Hw]. by eapply Hix.
  - unfold entries, assoc_set. apply Forall2_fmap_r.
    apply Forall2_same_length_lookup. split; [by eapply Forall2_length|]. intros i p [k w] Hp Hkw.
    pose proof (Forall2_lookup_lr _ _ _ _ _ _ He Hp Hkw) as Hpe. cbn in Hpe |- *.
    unfold get_ent, t'. cbn. destruct (decide (p = x)) as [->|Hne].
    + rewrite lookup_insert_eq. rewrite Hent in Hpe. injection Hpe as _ <- _. by rewrite decide_True.
    + rewrite lookup_insert_ne by done. rewrite decide_False; [exact Hpe|]. intros ->. apply Hne.
      eapply entries_inj; [exact He|exact Hk|by eapply list_elem_of_lookup_2|done|exact Hpe|exact Hent].
  - by rewrite assoc_set_keys.
Qed.

(** *** Removing *)
Lemma unlink_ok t cs L x : array t → buckets (nexts (hp t)) (table t) cs → concat cs ≡ₚ filter (λ y, y ≠ x) L →
  NoDup L → dom (ents (hp t)) = list_to_set L → seq_linked t L → x ∈ L →
  ∃ t', (t ← delSequence x t; delete_entry x t) = Some t' ∧ core t' cs (filter (λ y, y ≠ x) L) ∧
    (∀ y, y ≠ x → get_ent t' y = get_ent t y) ∧ table t' = table t ∧ tableLength t' = tableLength t ∧
    loadFactor t' = loadFactor t ∧ entryCount t' = entryCount t ∧ modCount t' = modCount t ∧
    curEntry t' = curEntry t ∧ curIndex t' = curIndex t ∧ seqCur t' = seqCur t.
Proof.
  intros [Hlen Hpos] Hb Hp Hnd Hd Hs Hx. apply list_elem_of_split in Hx as (L1 & L2 & ->).
  destruct (NoDup_mid _ _ _ Hnd) as [Hx1 Hx2]. rewrite (filter_ne_mid _ _ _ Hx1 Hx2) in Hp |- *.
  assert (He : ∀ y, y ∈ L1 ++ x :: L2 → is_Some (ents (hp t) !! y)).
  { intros y Hy. by rewrite <- elem_of_dom, Hd, elem_of_list_to_set. }
  destruct (delSequence_ok x t L1 L2 Hs Hnd He) as (sp & sn & a & b & -> & Hf & Hbw). cbn [mbind option_bind].
  unfold delete_entry. destruct (He x) as [e Hex]; [apply elem_of_app; right; by left|].
  change (get_ent (relinked t sp sn a b) x) with (ents (hp t) !! x). rewrite Hex. cbn [mbind option_bind].
  eexists. split; [done|].
  assert (Hxc : x ∉ concat cs) by (rewrite Hp, elem_of_app; by intros [?|?]).
  assert (Hx12 : x ∉ L1 ++ L2) by (by rewrite elem_of_app; intros [?|?]).
  split; [split|split; [|done]].
  - done.
  - done.
  - cbn. eapply buckets_eq; [|exact Hb]. intros y Hy. rewrite lookup_delete_ne; [done|]. by intros ->.
  - done.
  - rewrite <- Permutation_middle in Hnd.
    by apply NoDup_cons in Hnd as [_ ?].
  - cbn. rewrite dom_delete_L, Hd, !list_to_set_app_L. cbn.
    assert (x ∉ (list_to_set L1 : gset ptr)) by (by rewrite elem_of_list_to_set).
    assert (x ∉ (list_to_set L2 : gset ptr)) by (by rewrite elem_of_list_to_set). set_solver.
  - split; cbn; apply seg_delete; [done|done|by rewrite elem_of_reverse|done].
  - intros y Hy. unfold get_ent. cbn. by rewrite lookup_delete_ne.
Qed.

Lemma cursor_filter t t' cs R x : cursor t cs R → curEntry t' = curEntry t → curIndex t' = curIndex t →
  head R ≠ Some x → cursor t' (filter (λ y, y ≠ x) <$> cs) (filter (λ y, y ≠ x) R).
Proof.
  intros Hcur He Hi Hh. destruct R as [|y R]; cbn [cursor] in Hcur; [cbn; congruence|].
  destruct Hcur as (Hy & i & c1 & c2 & Hix & Hcs & ->).
  assert (Hyx : y ≠ x) by (intros ->; done). rewrite filter_cons_True by done. split; [congruence|].
  exists i, (filter (λ y, y ≠ x) c1), (filter (λ y, y ≠ x) c2). split; [congruence|]. split.
  - rewrite list_lookup_fmap, Hcs. cbn. by rewrite filter_app, filter_cons_True.
  - by rewrite filter_app, <- fmap_drop, concat_filter.
Qed.
Lemma entries_del t t' L al x key v : entries t L al → NoDup al.*1 → x ∈ L → get_ent t x = Some (hash key, key, v) →
  (∀ y, y ≠ x → get_ent t' y = get_ent t y) → entries t' (filter (λ y, y ≠ x) L) (assoc_del key al).
Proof.
  intros He Hk Hx Hent Hag. unfold entries, assoc_del.
  assert (Hiff : ∀ p kv, p ∈ L → get_ent t p = Some (hash kv.1, kv.1, kv.2) → (p ≠ x ↔ kv.1 ≠ key)).
  { intros p [k w] Hp Hpe. cbn in *. split.
    - intros Hne ->. apply Hne. by eapply entries_inj.
    - intros Hne ->. rewrite Hent in Hpe. congruence. }
  clear Hk Hx. induction He as [|p kv L al Hp He IH]; [constructor|].
  assert (Hpx : p ≠ x ↔ kv.1 ≠ key) by (apply Hiff; [by left|done]). rewrite !filter_cons.
  assert (IH' : Forall2 (λ p kv, get_ent t' p = Some (hash kv.1, kv.1, kv.2))
    (filter (λ y, y ≠ x) L) (filter (λ kv, kv.1 ≠ key) al)).
  { apply IH. intros q kv' Hq. apply Hiff. by right. }
  destruct (decide (p ≠ x)) as [Hpx'|Hpx']; destruct (decide (kv.1 ≠ key)); try tauto.
  constructor; [|done]. by rewrite Hag.
Qed.

Lemma drop_ok t t2 nx tb cs L al R x key v : inv t cs L al → x ∈ L → get_ent t x = Some (hash key, key, v) →
  t2 = with_table tb (with_hp (HHeap (ents (hp t)) nx (sprevs (hp t)) (snexts (hp t))) t) →
  length tb = length (table t) → buckets nx tb (filter (λ y, y ≠ x) <$> cs) →
  cursor t cs R → head R ≠ Some x →
  ∃ t3, drop_entry x t2 = Some t3 ∧
    inv t3 (filter (λ y, y ≠ x) <$> cs) (filter (λ y, y ≠ x) L) (assoc_del key al) ∧
    cursor t3 (filter (λ y, y ≠ x) <$> cs) (filter (λ y, y ≠ x) R) ∧ seqCur t3 = seqCur t ∧
    entryCount t3 = u32 (entryCount t - 1) ∧ (∀ y, y ≠ x → get_ent t3 y = get_ent t y).
Proof.
  intros Hi Hx Hent -> Htb Hb Hcur Hh. destruct Hi as [Hc Hix He Hk Hm Hg]. set (t2 := with_table tb _).
  destruct (unlink_ok t2 (filter (λ y, y ≠ x) <$> cs) L x) as
    (t3 & Hd & Hc3 & Hag & Htab & Hlen & Hlf & Hcnt & Hmod & Hce & Hci & Hsq).
  - split; [cbn; rewrite Htb; apply (c_len _ _ _ Hc)|apply (c_pos _ _ _ Hc)].
  - exact Hb.
  - rewrite concat_filter. apply filter_Permutation, (c_perm _ _ _ Hc).
  - apply (c_nd _ _ _ Hc).
  - apply (c_dom _ _ _ Hc).
  - apply (c_seq _ _ _ Hc).
  - done.
  - unfold drop_entry. destruct (delSequence x t2) as [t2'|]; [|done]. cbn [mbind option_bind] in Hd |- *.
    rewrite Hd. cbn [mbind option_bind]. eexists. split; [done|].
    split; [|split; [by eapply cursor_filter|split; [done|split; [cbn; by rewrite Hcnt|exact Hag]]]].
    apply (inv_same t3); [done|]. split; [done| | | | |].
    + intros i c p h k w Hc' Hp Hpe. rewrite list_lookup_fmap in Hc'. apply fmap_Some in Hc' as (c0 & Hc0 & ->).
      apply list_elem_of_filter in Hp as [Hpx Hp]. rewrite Hag in Hpe by done.
      unfold GET_HASH_INDEX. rewrite Hlen. by eapply Hix.
    + eapply entries_del; [exact He|done|done|exact Hent|]. intros y Hy. by rewrite Hag.
    + rewrite assoc_del_keys. by apply NoDup_filter.
    + by rewrite Hlen.
    + intros n. rewrite Hlen, Hlf. apply Hg.
Qed.

(** Moving the cursor off an entry. *)
Definition past (x : ptr) (R : list ptr) : list ptr :=
  match R with y :: R' => if decide (x = y) then R' else R | [] => [] end.
Lemma cursor_nodup t cs L R : core t cs L → cursor t cs R → NoDup R.
Proof.
  intros Hc Hcur. destruct R as [|x R]; [constructor|]. destruct Hcur as (_ & i & c1 & c2 & _ & Hcs & ->).
  pose proof (core_nd _ _ _ Hc) as Hnd. rewrite (concat_split _ _ _ Hcs), <- app_assoc in Hnd.
  apply NoDup_app in Hnd as (_ & _ & (_ & _ & Hnd)%NoDup_app). done.
Qed.
Lemma past_filter t cs L R x : core t cs L → cursor t cs R →
  head (past x R) ≠ Some x ∧ filter (λ y, y ≠ x) (past x R) = filter (λ y, y ≠ x) R.
Proof.
  intros Hc Hcur. pose proof (cursor_nodup _ _ _ _ Hc Hcur) as Hnd. destruct R as [|y R]; [done|]. cbn [past].
  apply NoDup_cons in Hnd as [Hy _]. case_decide as Hxy.
  - subst y. split; [destruct R; cbn; [done|]; intros [= ->]; apply Hy; by left|].
    by rewrite filter_cons_False by (intros Hne; by apply Hne).
  - split; [by intros [= ->]|done].
Qed.
Lemma move_cursor_ok t cs L R x : core t cs L → cursor t cs R → x ≠ NULL →
  ∃ p i, move_cursor x t = Some (with_cur p i t) ∧ cursor (with_cur p i t) cs (past x R).
Proof.
  intros Hc Hcur Hx. unfold move_cursor. destruct R as [|y R]; cbn [past].
  - cbn in Hcur. rewrite Hcur, decide_False by done. exists (curEntry t), (curIndex t). by destruct t.
  - destruct (Hcur) as [-> _]. case_decide as Hxy.
    + destruct (search_ok t cs L y R Hc Hcur) as (b & p & i & -> & Hcur'). by exists p, i.
    + exists (curEntry t), (curIndex t). by destruct t.
Qed.

Definition unlink_after (prev x : ptr) t : option (bool * htab K V) :=
  t ← move_cursor x t; q ← get_next t x; t ← set_next prev q t; t ← drop_entry x t; Some (true, t).
Lemma remove_walk_ok n key prev q t c c0 : chain (nexts (hp t)) q c → (∀ x, x ∈ c → is_Some (ents (hp t) !! x)) →
  length c ≤ n →
  (∃ c1 prev' x c2 h v, c0 ++ prev :: c = c1 ++ prev' :: x :: c2 ∧ x ∈ c ∧ get_ent t x = Some (h, key, v) ∧
     remove_walk cmp n key prev q t = unlink_after prev' x t) ∨
  (remove_walk cmp n key prev q t = Some (false, t) ∧
     ∀ x h k v, x ∈ c → get_ent t x = Some (h, k, v) → k ≠ key).
Proof.
  revert prev q c c0. induction n as [|n IH]; intros prev q c c0 Hch He Hn; destruct c as [|x c]; cbn in Hn; try lia.
  1,2: cbn in Hch; subst q; right; split; [done|by intros ???? ?%not_elem_of_nil].
  destruct Hch as (-> & Hx & r & Hr & Hch). cbn [remove_walk]. rewrite decide_False by done.
  destruct (He x) as [[[h k] v] Hex]; [by left|]. change (get_ent t x = Some (h, k, v)) in Hex.
  rewrite Hex. cbn [mbind option_bind].
  destruct (cmp key k) eqn:Hcmp.
  - left. apply cmp_eq in Hcmp. subst k. exists c0, prev, x, c, h, v. split_and!; [done|by left|done|done].
  - assert (Hk : k ≠ key) by (intros ->; assert (cmp key key = true) by (by apply cmp_eq); congruence).
    change (get_next t x = Some r) in Hr. rewrite Hr. cbn [mbind option_bind].
    destruct (IH x r c (c0 ++ [prev]) Hch) as [(c1 & pr & y & c2 & h' & v' & Heq & Hy & Hent & Hw)|[Hw Hno]];
      [intros y Hy; apply He; by right|lia| |].
    + left. exists c1, pr, y, c2, h', v'. rewrite <- app_assoc in Heq. split_and!; [done|by right|done|done].
    + right. split; [done|]. intros y h' k' v' [->|Hy]%elem_of_cons Hent; [congruence|by eapply Hno].
Qed.

(** What [remove] does to the table that has the key. *)
Definition removed t t' cs L al R key x : Prop :=
  inv t' (filter (λ y, y ≠ x) <$> cs) (filter (λ y, y ≠ x) L) (assoc_del key al) ∧
  cursor t' (filter (λ y, y ≠ x) <$> cs) (filter (λ y, y ≠ x) R) ∧ seqCur t' = seqCur t ∧
  entryCount t' = u32 (entryCount t - 1) ∧ (∀ y, y ≠ x → get_ent t' y = get_ent t y).

Lemma unlink_step t cs L al R key x v i c c1 c2 nxf tbf : inv t cs L al → cursor t cs R →
  get_ent t x = Some (hash key, key, v) → cs !! i = Some c → c = c1 ++ x :: c2 →
  length tbf = length (table t) → buckets nxf tbf (<[i := c1 ++ c2]> cs) →
  ∃ p j t', move_cursor x t = Some (with_cur p j t) ∧
    drop_entry x (with_table tbf (with_hp (HHeap (ents (hp t)) nxf (sprevs (hp t)) (snexts (hp t))) (with_cur p j t)))
      = Some t' ∧ removed t t' cs L al R key x.
Proof.
  intros Hi Hcur Hent Hcs -> Htb Hb. pose proof (i_core _ _ _ _ Hi) as Hc.
  assert (Hxc : x ∈ c1 ++ x :: c2) by (apply elem_of_app; right; by left).
  assert (HxL : x ∈ L) by (rewrite <- (c_perm _ _ _ Hc); by eapply concat_elem).
  assert (Hx : x ≠ NULL).
  { intros ->. destruct (bucket_chain t cs L i _ Hc Hcs) as (q & _ & Hch). by apply seg_nonnull in Hch. }
  destruct (move_cursor_ok t cs L R x Hc Hcur Hx) as (p & j & Hmv & Hcur').
  destruct (past_filter t cs L R x Hc Hcur) as [Hh Hf].
  assert (Hi' : inv (with_cur p j t) cs L al) by (by apply (inv_same t)).
  destruct (drop_ok (with_cur p j t) _ nxf tbf cs L al (past x R) x key v Hi' HxL Hent eq_refl Htb) as
    (t' & Hd & Hinv & Hcu & Hsq & Hcnt & Hag); [|done|done|].
  - rewrite (fmap_filter_ne _ i _ x (core_nd _ _ _ Hc) Hcs Hxc).
    destruct (NoDup_mid x c1 c2) as [H1 H2]; [eapply NoDup_bucket; [by eapply core_nd|done]|].
    by rewrite filter_ne_mid.
  - exists p, j, t'. split; [done|]. split; [exact Hd|]. rewrite Hf in Hcu. by split_and!.
Qed.

Lemma remove_ok t cs L al R key : inv t cs L al → cursor t cs R →
  (assoc_get key al = None ∧ remove cmp hash t key = Some (false, t)) ∨
  (∃ v x t', assoc_get key al = Some v ∧ x ∈ L ∧ get_ent t x = Some (hash key, key, v) ∧
     remove cmp hash t key = Some (true, t') ∧ removed t t' cs L al R key x).
Proof.
  intros Hi Hcur. pose proof (i_core _ _ _ _ Hi) as Hc. unfold remove. cbv zeta.
  destruct (lookup_ok t cs L al key Hi) as (p & c & Hsl & Htb & Hcs & Hch & Hw). rewrite Hsl. cbn [mbind option_bind].
  set (ix := GET_HASH_INDEX t (hash key)) in *. pose proof (lookup_lt_Some _ _ _ Hcs) as Hlt.
  assert (Hce : ∀ y, y ∈ c → is_Some (ents (hp t) !! y)) by (intros y Hy; by eapply core_bucket_ent).
  pose proof (chain_fuel _ _ _ _ _ Hc Hcs) as Hfu.
  (* what an entry of the bucket with the key says *)
  assert (Hget : ∀ x h v, x ∈ c → get_ent t x = Some (h, key, v) →
    x ∈ L ∧ h = hash key ∧ assoc_get key al = Some v).
  { intros x h v Hx Hent. assert (HxL : x ∈ L) by (rewrite <- (c_perm _ _ _ Hc); by eapply concat_elem).
    destruct (entries_elem t L al x (i_ents _ _ _ _ Hi) HxL) as (k & v' & Hkv & Hx'). rewrite Hent in Hx'.
    injection Hx' as -> -> ->. split_and!; [done|done|]. apply assoc_get_Some; [apply (i_keys _ _ _ _ Hi)|done]. }
  assert (Hnone : (∀ x h k v, x ∈ c → get_ent t x = Some (h, k, v) → k ≠ key) → assoc_get key al = None).
  { intros Hno. destruct Hw as [(c1 & x & c2 & v & -> & _ & _ & Hx & _)|[? _]]; [|done].
    exfalso. eapply Hno; [|exact Hx|done]. apply elem_of_app. right. by left. }
  case_decide as Hp.
  { left. split; [|done]. apply Hnone. apply (chain_null _ _ _ Hch) in Hp. subst c.
    by intros ???? ?%not_elem_of_nil. }
  destruct c as [|x0 c]; [by destruct Hp|]. pose proof Hch as (-> & _ & r & Hr & Hch').
  destruct (Hce x0) as [[[h k] v] Hex]; [by left|]. change (get_ent t x0 = Some (h, k, v)) in Hex.
  rewrite Hex. cbn [mbind option_bind]. destruct (cmp key k) eqn:Hcmp.
  - right. apply cmp_eq in Hcmp. subst k. destruct (Hget x0 h v) as (HxL & -> & Hg); [by left|done|].
    destruct (unlink_step t cs L al R key x0 v (Z.to_nat ix) (x0 :: c) [] c (nexts (hp t)) (<[Z.to_nat ix := r]> (table t)))
      as (p & j & t' & -> & Hd & Hrem); [done|done|done|done|done|by rewrite length_insert| |].
    { eapply buckets_insert; [apply (c_bk _ _ _ Hc)|exact (lookup_lt_Some _ _ _ Htb)|done|done]. }
    exists v, x0, t'. split_and!; [done|done|done| |done]. cbn [mbind option_bind].
    change (get_next (with_cur p j t) x0) with (nexts (hp t) !! x0). rewrite Hr. cbn [mbind option_bind].
    unfold set_slot. change (slot (with_cur p j t) ix) with (slot t ix). rewrite Hsl. cbn [mbind option_bind].
    assert (Heta : hp t = HHeap (ents (hp t)) (nexts (hp t)) (sprevs (hp t)) (snexts (hp t))) by (by destruct (hp t)).
    match type of Hd with drop_entry _ ?a = _ => match goal with |- context[drop_entry _ ?b] => replace b with a end end.
    + by rewrite Hd.
    + cbn [with_cur with_table with_hp hp table]. unfold with_table, with_hp, with_cur. cbn. by rewrite <- Heta.
  - assert (Hk : k ≠ key) by (intros ->; assert (cmp key key = true) by (by apply cmp_eq); congruence).
    change (get_next t x0 = Some r) in Hr. rewrite Hr. cbn [mbind option_bind].
    destruct (remove_walk_ok (fuel t) key x0 r t c [] Hch') as
      [(c1 & pr & x & c2 & h' & v' & Heq & Hx & Hent & Hrw)|[Hrw Hno]];
      [intros y Hy; apply Hce; by right|cbn in Hfu; lia| |]; rewrite Hrw.
    + right. cbn in Heq. destruct (Hget x h' v') as (HxL & -> & Hg); [by right|done|].
      pose proof Hch as Hch2. rewrite Heq in Hch2. change (c1 ++ pr :: x :: c2) with (c1 ++ [pr] ++ x :: c2) in Hch2.
      rewrite app_assoc in Hch2. apply seg_app in Hch2 as (y & Hs1 & (-> & Hxn & q & Hq & Hs2)).
      pose proof (core_nd _ _ _ Hc) as Hnd. pose proof (NoDup_bucket _ _ _ Hnd Hcs) as Hndc. rewrite Heq in Hndc.
      destruct (NoDup_mid pr c1 (x :: c2) Hndc) as [Hpr1 Hpr2].
      assert (Hprc : pr ∈ x0 :: c) by (rewrite Heq; apply elem_of_app; right; by left).
      destruct (unlink_step t cs L al R key x v' (Z.to_nat ix) (x0 :: c) (c1 ++ [pr]) c2
        (<[pr := q]> (nexts (hp t))) (table t)) as (p & j & t' & Hmv & Hd & Hrem);
        [done|done|done|done|by rewrite <- app_assoc|done| |].
      { eapply buckets_insert_id; [apply (c_bk _ _ _ Hc)|exact Htb| |].
        - apply seg_app. exists q. split; [by eapply seg_retarget|]. apply seg_insert; [|done].
          intros Hin. apply Hpr2. by right.
        - intros j d y Hj Hd Hy. rewrite lookup_insert_ne; [done|]. intros <-. apply Hj.
          exact (concat_disjoint cs j _ d _ pr Hnd Hd Hcs Hy Hprc). }
      exists v', x, t'. split_and!; [done|done|done| |done]. unfold unlink_after. rewrite Hmv. cbn [mbind option_bind].
      change (get_next (with_cur p j t) x) with (nexts (hp t) !! x). rewrite Hq. cbn [mbind option_bind].
      rewrite set_next_eq by (by apply Hce). cbn [mbind option_bind].
      match type of Hd with drop_entry _ ?a = _ => match goal with |- context[drop_entry _ ?b] => change b with a end end.
      by rewrite Hd.
    + left. split; [|done]. apply Hnone. intros y h' k' v' [->|Hy]%elem_of_cons Hent; [congruence|by eapply Hno].
Qed.

(** *** Clearing *)
Lemma clear_bucket_ok n t cs L i c : core t cs L → cs !! i = Some c → length c < n →
  ∃ t' L', clear_bucket n (Z.of_nat i) t = Some t' ∧ core t' (<[i := []]> cs) L' ∧
    tableLength t' = tableLength t ∧ loadFactor t' = loadFactor t ∧ seqCur t' = seqCur t.
Proof.
  revert t cs L c. induction n as [|n IH]; intros t cs L c Hc Hcs Hn; [lia|].
  destruct (Forall2_lookup_r _ _ _ _ _ (c_bk _ _ _ Hc) Hcs) as (p & Htb & Hch).
  assert (Hsl : slot t (Z.of_nat i) = Some p) by (unfold slot; by rewrite decide_True, Nat2Z.id by lia).
  cbn [clear_bucket]. rewrite Hsl. cbn [mbind option_bind]. case_decide as Hp.
  { apply (chain_null _ _ _ Hch) in Hp. subst c. exists t, L. by rewrite list_insert_id by done. }
  destruct c as [|x c]; [by destruct Hp|]. destruct Hch as (-> & _ & r & Hr & Hch).
  change (get_next t x = Some r) in Hr. rewrite Hr. cbn [mbind option_bind].
  unfold set_slot. rewrite Hsl. cbn [mbind option_bind].
  assert (Hex : is_Some (ents (hp t) !! x)) by (eapply core_bucket_ent; [done|done|by left]).
  rewrite set_next_eq by done. cbn [mbind option_bind]. rewrite Nat2Z.id. set (t1 := with_hp _ _).
  assert (HxL : x ∈ L) by (rewrite <- (c_perm _ _ _ Hc); eapply concat_elem; [done|by left]).
  pose proof (core_nd _ _ _ Hc) as Hnd. pose proof (NoDup_bucket _ _ _ Hnd Hcs) as Hndc.
  apply NoDup_cons in Hndc as [Hxc _].
  destruct (unlink_ok t1 (<[i := c]> cs) L x) as (t2 & Hd & Hc2 & _ & _ & Hl & Hlf & _ & _ & _ & _ & Hsq).
  - split; [cbn; rewrite length_insert; apply (c_len _ _ _ Hc)|apply (c_pos _ _ _ Hc)].
  - eapply (buckets_insert (nexts (hp t))); [apply (c_bk _ _ _ Hc)|by eapply lookup_lt_Some| |].
    + by apply seg_insert.
    + intros j d y Hj Hdj Hy. change (<[x:=NULL]> (nexts (hp t)) !! y = nexts (hp t) !! y).
      rewrite lookup_insert_ne; [done|]. intros <-. apply Hj.
      exact (concat_disjoint cs j i d _ x Hnd Hdj Hcs Hy ltac:(by left)).
  - replace (<[i := c]> cs) with (filter (λ y, y ≠ x) <$> cs).
    + rewrite concat_filter. apply filter_Permutation, (c_perm _ _ _ Hc).
    + rewrite (fmap_filter_ne cs i (x :: c) x Hnd Hcs) by by left. f_equal. by apply (filter_ne_mid x []); [apply not_elem_of_nil|].
  - apply (c_nd _ _ _ Hc).
  - apply (c_dom _ _ _ Hc).
  - apply (c_seq _ _ _ Hc).
  - done.
  - destruct (delSequence x t1) as [t1'|]; [|done]. cbn [mbind option_bind] in Hd |- *.
    rewrite Hd. cbn [mbind option_bind].
    destruct (IH t2 (<[i := c]> cs) _ c Hc2) as (t3 & L3 & Hcl & Hc3 & Hl3 & Hlf3 & Hsq3).
    + apply list_lookup_insert_eq. by eapply lookup_lt_Some.
    + cbn in Hn. lia.
    + exists t3, L3. rewrite list_insert_insert_eq in Hc3. split_and!; [done|done|by rewrite Hl3|by rewrite Hlf3|by rewrite Hsq3].
Qed.
Lemma clear_from_ok n i t cs L : core t cs L → i + n = length cs → (∀ j c, j < i → cs !! j = Some c → c = []) →
  ∃ t' cs' L', clear_from n (Z.of_nat i) t = Some t' ∧ core t' cs' L' ∧ concat cs' = [] ∧
    tableLength t' = tableLength t ∧ loadFactor t' = loadFactor t ∧ seqCur t' = seqCur t.
Proof.
  revert i t cs L. induction n as [|n IH]; intros i t cs L Hc Hi Hdone.
  { exists t, cs, L. split_and!; try done. destruct (concat cs) as [|x l] eqn:Hcc; [done|]. exfalso.
    assert (Hx : x ∈ concat cs) by (rewrite Hcc; by left). apply elem_of_concat_lookup in Hx as (j & c & Hj & Hx).
    assert (c = []) as -> by (apply (Hdone j); [apply lookup_lt_Some in Hj; lia|done]). by apply not_elem_of_nil in Hx. }
  destruct (lookup_lt_is_Some_2 cs i) as [c Hcs]; [lia|]. cbn [clear_from].
  destruct (clear_bucket_ok (fuel t) t cs L i c Hc Hcs) as (t1 & L1 & -> & Hc1 & Hl1 & Hlf1 & Hsq1).
  { by eapply chain_fuel. }
  cbn [mbind option_bind]. replace (Z.of_nat i + 1)%Z with (Z.of_nat (S i)) by lia.
  destruct (IH (S i) t1 (<[i := []]> cs) L1 Hc1) as (t2 & cs2 & L2 & -> & Hc2 & He & Hl & Hlf & Hsq).
  { rewrite length_insert. lia. }
  { intros j d Hj Hd. destruct (decide (j = i)) as [->|Hne].
    - rewrite list_lookup_insert_eq in Hd by lia. congruence.
    - rewrite list_lookup_insert_ne in Hd by done. apply (Hdone j); [lia|done]. }
  exists t2, cs2, L2. split_and!; [done|done|done|congruence|congruence|congruence].
Qed.
Lemma clear_ok t cs L al : inv t cs L al →
  ∃ t' cs', clear t = Some t' ∧ inv t' cs' [] [] ∧ ents (hp t') = ∅ ∧ curEntry t' = NULL ∧ seqCur t' = seqCur t ∧
    entryCount t' = 0%Z.
Proof.
  intros Hi. pose proof (i_core _ _ _ _ Hi) as Hc. unfold clear. rewrite (core_length t cs L Hc), Nat2Z.id.
  destruct (clear_from_ok (length cs) 0 t cs L Hc) as (t1 & cs1 & L1 & Hcl & Hc1 & He & Hl & Hlf & Hsq); [done|lia|].
  change (Z.of_nat 0) with 0%Z in Hcl. rewrite Hcl. cbn [mbind option_bind]. eexists _, cs1. split; [done|].
  assert (L1 = []) as ->.
  { apply Permutation_nil_r. rewrite <- (c_perm _ _ _ Hc1), He. done. }
  split; [|split; [|done]].
  - apply (inv_same t1); [done|]. split; [done| | | | |].
    + intros i c p h k v Hci Hp. apply (concat_elem _ _ _ _ Hci) in Hp. rewrite He in Hp. by apply not_elem_of_nil in Hp.
    + constructor.
    + constructor.
    + rewrite Hl. apply (i_max _ _ _ _ Hi).
    + intros n. rewrite Hl, Hlf. apply (i_grows _ _ _ _ Hi).
  - apply dom_empty_inv_L. apply (c_dom _ _ _ Hc1).
Qed.

Lemma initTable_ok len lf t : initTable len lf = Some t →
  grows 15 (tableLength t) (loadFactor t) = true →
  ∃ cs, inv t cs [] [] ∧ entryCount t = 0%Z ∧ curEntry t = NULL ∧ seqCur t = NULL.
Proof.
  unfold initTable. cbv zeta. set (n := if decide (len < HASHTABLE_MIN_LENGTH)%Z then _ else _).
  set (f := if SFltb lf _ then _ else _). assert (Hn : (8 ≤ n ≤ 131072)%Z).
  { subst n. unfold HASHTABLE_MIN_LENGTH, HASHTABLE_MAX_LENGTH. repeat case_decide; lia. }
  destruct (uint_of_double _) as [th|]; [|done]. cbn [mbind option_bind]. intros [= <-] Hg.
  exists (replicate (Z.to_nat n) []). split; [|done]. split; [split| | | | |]; cbn.
  - rewrite length_replicate. lia.
  - lia.
  - apply Forall2_replicate. done.
  - by rewrite concat_replicate_nil.
  - constructor.
  - done.
  - done.
  - intros i c p h k v Hci Hp. apply lookup_replicate in Hci as [-> _]. by apply not_elem_of_nil in Hp.
  - constructor.
  - constructor.
  - unfold HASHTABLE_MAX_LENGTH. lia.
  - apply (grows_enough 15); [unfold HASHTABLE_MAX_LENGTH; cbn [Z.of_nat]; lia|exact Hg].
Qed.
End inv.

(** ** Client programs *)
Inductive hop (K V : Type) :=
  | HPut (k : K) (v : V)
  | HPutV (k : K) (v : V)
  | HGet (k : K)
  | HContainsKey (k : K)
  | HRemove (k : K)
  | HSize
  | HIsEmpty
  | HClear
  | HReset
  | HGetNext
  | HGetNextV
  | HResetSeq
  | HGetNextSeq.
Arguments HPut {K V} _ _.
Arguments HPutV {K V} _ _.
Arguments HGet {K V} _.
Arguments HContainsKey {K V} _.
Arguments HRemove {K V} _.
Arguments HSize {K V}.
Arguments HIsEmpty {K V}.
Arguments HClear {K V}.
Arguments HReset {K V}.
Arguments HGetNext {K V}.
Arguments HGetNextV {K V}.
Arguments HResetSeq {K V}.
Arguments HGetNextSeq {K V}.
Inductive hres (K V : Type) :=
  | RUnit
  | RVal (v : V)
  | ROpt (v : option V)
  | RBool (b : bool)
  | RNum (n : Z)
  | RNext (kv : option (K * V)).
Arguments RUnit {K V}.
Arguments RVal {K V} _.
Arguments ROpt {K V} _.
Arguments RBool {K V} _.
Arguments RNum {K V} _.
Arguments RNext {K V} _.

Section programs.
Context {K V : Type} `{!EqDecision K} (cmp : K → K → bool) (hash : K → Z).
Implicit Types (t : htab K V) (al : list (K * V)) (rem srem : list K).

Definition hexec (op : hop K V) t : option (hres K V * htab K V) :=
  match op with
  | HPut k v => '(x, t) ← put cmp hash t k v; Some (RVal x, t)
  | HPutV k v => t ← put_v cmp hash t k v; Some (RUnit, t)
  | HGet k => x ← get cmp hash t k; Some (ROpt x, t)
  | HContainsKey k => b ← containsKey cmp hash t k; Some (RBool b, t)
  | HRemove k => '(b, t) ← remove cmp hash t k; Some (RBool b, t)
  | HSize => Some (RNum (size t), t)
  | HIsEmpty => Some (RBool (isEmpty t), t)
  | HClear => t ← clear t; Some (RUnit, t)
  | HReset => '(b, t) ← reset t; Some (RBool b, t)
  | HGetNext => '(x, t) ← getNext_kv t; Some (RNext x, t)
  | HGetNextV => '(x, t) ← getNext t; Some (ROpt x, t)
  | HResetSeq => Some (RUnit, resetSeq t)
  | HGetNextSeq => '(x, t) ← getNextSeq t; Some (RNext x, t)
  end.
Fixpoint hrun (ops : list (hop K V)) t : option (list (hres K V) * htab K V) :=
  match ops with
  | [] => Some ([], t)
  | op :: ops => '(r, t) ← hexec op t; '(rs, t) ← hrun ops t; Some (r :: rs, t)
  end.

(** *** The specification: entries in the order they were first put, the keys
    [getNext] still returns and the keys [getNextSeq] still returns *)
Definition fresh_key (k : K) al : bool := match assoc_get k al with Some _ => false | None => true end.
Definition dstep (op : hop K V) (s : list (K * V) * list K) : list (K * V) * list K :=
  let '(al, srem) := s in
  match op with
  | HPut k v | HPutV k v =>
      (assoc_put k v al, if fresh_key k al then match srem with [] => [] | _ => srem ++ [k] end else srem)
  | HRemove k => (assoc_del k al, filter (λ k', k' ≠ k) srem)
  | HClear => ([], [])
  | HResetSeq => (al, al.*1)
  | HGetNextSeq => (al, tail srem)
  | _ => (al, srem)
  end.
(** Removing the entry under the sequence cursor, and clearing the table while
    that cursor is on an entry, leave the cursor on a freed entry. *)
Definition hallowed (op : hop K V) (s : list (K * V) * list K) : bool :=
  match op with
  | HRemove k => bool_decide (head s.2 ≠ Some k)
  | HClear => bool_decide (s.2 = [])
  | _ => true
  end.
Fixpoint hsafe (ops : list (hop K V)) s : bool :=
  match ops with [] => true | op :: ops => hallowed op s && hsafe ops (dstep op s) end.

(** The results; the order of [getNext] is only known to be a permutation. *)
Inductive answer : hop K V → list (K * V) * list K → list K → hres K V → list K → Prop :=
  | A_put k v al srem rem : answer (HPut k v) (al, srem) rem
      (RVal (default v (assoc_get k al))) (if fresh_key k al then [] else rem)
  | A_put_v k v al srem rem : answer (HPutV k v) (al, srem) rem RUnit (if fresh_key k al then [] else rem)
  | A_get k al srem rem : answer (HGet k) (al, srem) rem (ROpt (assoc_get k al)) rem
  | A_contains k al srem rem :
      answer (HContainsKey k) (al, srem) rem (RBool (bool_decide (is_Some (assoc_get k al)))) rem
  | A_remove k al srem rem :
      answer (HRemove k) (al, srem) rem (RBool (bool_decide (is_Some (assoc_get k al)))) (filter (λ k', k' ≠ k) rem)
  | A_size al srem rem : answer HSize (al, srem) rem (RNum (u32 (Z.of_nat (length al)))) rem
  | A_isEmpty al srem rem : (Z.of_nat (length al) < 2 ^ 32)%Z →
      answer HIsEmpty (al, srem) rem (RBool (bool_decide (al = []))) rem
  | A_isEmpty_wrap al srem rem b : (2 ^ 32 ≤ Z.of_nat (length al))%Z → answer HIsEmpty (al, srem) rem (RBool b) rem
  | A_clear al srem rem : answer HClear (al, srem) rem RUnit []
  | A_reset al srem rem rem' : rem' ≡ₚ al.*1 → answer HReset (al, srem) rem (RBool (bool_decide (al ≠ []))) rem'
  | A_getNext_end al srem : answer HGetNext (al, srem) [] (RNext None) []
  | A_getNext k v al srem rem : assoc_get k al = Some v →
      answer HGetNext (al, srem) (k :: rem) (RNext (Some (k, v))) rem
  | A_getNextV_end al srem : answer HGetNextV (al, srem) [] (ROpt None) []
  | A_getNextV k v al srem rem : assoc_get k al = Some v →
      answer HGetNextV (al, srem) (k :: rem) (ROpt (Some v)) rem
  | A_resetSeq al srem rem : answer HResetSeq (al, srem) rem RUnit rem
  | A_getNextSeq_end al rem : answer HGetNextSeq (al, []) rem (RNext None) rem
  | A_getNextSeq k v al srem rem : assoc_get k al = Some v →
      answer HGetNextSeq (al, k :: srem) rem (RNext (Some (k, v))) rem.
Inductive answers : list (hop K V) → list (K * V) * list K → list K → list (hres K V) → list K → Prop :=
  | AS_nil s rem : answers [] s rem [] rem
  | AS_cons op ops s rem r rem' rs rem'' : answer op s rem r rem' → answers ops (dstep op s) rem' rs rem'' →
      answers (op :: ops) s rem (r :: rs) rem''.
Definition dsteps (ops : list (hop K V)) s := foldl (λ s op, dstep op s) s ops.

(** *** The representation *)
Definition has_key t (p : ptr) (k : K) : Prop := ∃ v, get_ent t p = Some (hash k, k, v).
Definition rep t (s : list (K * V) * list K) rem : Prop := ∃ cs L R L1 S,
  inv hash t cs L s.1 ∧ entryCount t = u32 (Z.of_nat (length s.1)) ∧ cursor t cs R ∧ Forall2 (has_key t) R rem ∧
  L = L1 ++ S ∧ seqCur t = default NULL (head S) ∧ Forall2 (has_key t) S s.2.

Hypothesis cmp_eq : ∀ a b, cmp a b = true ↔ a = b.

Lemma Forall2_filter_iff {A B} (P : A → B → Prop) (Q : A → Prop) (Q' : B → Prop) `{!∀ x, Decision (Q x)}
    `{!∀ x, Decision (Q' x)} l k : (∀ a b, a ∈ l → P a b → (Q a ↔ Q' b)) → Forall2 P l k →
  Forall2 P (filter Q l) (filter Q' k).
Proof.
  intros Hiff Hf. induction Hf as [|a b l k Hab Hf IH]; [constructor|].
  assert (Hq : Q a ↔ Q' b) by (apply Hiff; [by left|done]). rewrite !filter_cons.
  assert (IH' : Forall2 P (filter Q l) (filter Q' k)) by (apply IH; intros; apply Hiff; [by right|done]).
  do 2 case_decide; try tauto. by constructor.
Qed.
Lemma keys_impl t t' (R : list ptr) rem : Forall2 (has_key t) R rem →
  (∀ y k, y ∈ R → has_key t y k → has_key t' y k) → Forall2 (has_key t') R rem.
Proof.
  intros Hf Hk. induction Hf as [|y k R rem Hyk Hf IH]; constructor.
  - apply Hk; [by left|done].
  - apply IH. intros z k' Hz. apply Hk. by right.
Qed.
Lemma cursor_sub t cs L R y : core t cs L → cursor t cs R → y ∈ R → y ∈ L.
Proof.
  intros Hc Hcur Hy. rewrite <- (c_perm _ _ _ Hc). destruct R as [|x R]; [by apply not_elem_of_nil in Hy|].
  destruct Hcur as (_ & i & c1 & c2 & _ & Hcs & ->). rewrite (concat_split _ _ _ Hcs).
  apply elem_of_cons in Hy as [->|[Hy|Hy]%elem_of_app]; rewrite !elem_of_app, elem_of_cons; auto 6.
Qed.
Lemma has_key_al t cs L al y k : inv hash t cs L al → y ∈ L → has_key t y k → ∃ v, (k, v) ∈ al ∧ get_ent t y = Some (hash k, k, v).
Proof.
  intros Hi Hy [v Hv]. destruct (entries_elem hash t L al y (i_ents _ _ _ _ _ Hi) Hy) as (k' & v' & Hin & Hy').
  rewrite Hv in Hy'. injection Hy' as _ -> ->. eauto.
Qed.
Lemma u32_add_l n m : u32 (u32 n + m) = u32 (n + m).
Proof. unfold u32. by rewrite Zplus_mod_idemp_l. Qed.
Lemma length_filter_ne (x : ptr) L : NoDup L → x ∈ L → S (length (filter (λ y, y ≠ x) L)) = length L.
Proof.
  intros Hnd (L1 & L2 & ->)%list_elem_of_split. destruct (NoDup_mid _ _ _ Hnd).
  rewrite filter_ne_mid by done. rewrite !length_app. cbn. lia.
Qed.

Lemma put_step t s rem k v : rep t s rem →
  ∃ t', put cmp hash t k v = Some (default v (assoc_get k s.1), t') ∧ put_v cmp hash t k v = Some t' ∧
    rep t' (dstep (HPut k v) s) (if fresh_key k s.1 then [] else rem).
Proof.
  destruct s as [al srem]. intros (cs & L & R & L1 & S & Hi & Hcnt & Hcur & HR & HL & Hsq & HS). cbn [fst snd] in *.
  unfold put, put_r, put_v. cbv zeta. set (t1 := with_counts _ _ t).
  assert (Hi1 : inv hash t1 cs L al) by (by apply (inv_same hash t t1)).
  destruct (lookup_ok cmp hash cmp_eq t cs L al k Hi) as (p & c & -> & _ & _ & _ & Hw). cbn [mbind option_bind].
  assert (Hwk : ∀ n q, walk cmp n k q t1 = walk cmp n k q t).
  { intros n. induction n as [|n IH]; intros q; [done|]. cbn [walk]. case_decide; [done|].
    change (get_ent t1 q) with (get_ent t q). destruct (get_ent t q) as [[[? ?] ?]|]; [|done]. cbn.
    case_match; [done|]. change (get_next t1 q) with (get_next t q). destruct (get_next t q); [|done]. apply IH. }
  change (fuel t1) with (fuel t). rewrite Hwk. unfold fresh_key, dstep, assoc_put.
  destruct Hw as [(c1 & x & c2 & w & _ & HxL & Hx & Hent & Hg & ->)|[Hg ->]]; rewrite Hg; cbn [mbind option_bind].
  - rewrite !decide_False by done. change (get_ent t1 x) with (get_ent t x). rewrite Hent. cbn [mbind option_bind].
    destruct (set_value_ok cmp hash cmp_eq t1 cs L al x k w v Hi1 HxL Hent) as (t' & -> & Hi' & Hce & Hci & Hsq' & Hcnt' & Hk).
    exists t'. split_and!; [done|done|]. unfold fresh_key. rewrite Hg.
    exists cs, L, R, L1, S. cbn [fst snd]. split; [done|]. split.
    { rewrite Hcnt'. unfold assoc_set. by rewrite length_fmap. }
    assert (Hkk : ∀ y k', has_key t y k' → has_key t' y k') by (intros y k' [w' Hw']; by eapply Hk).
    split; [|split_and!; [by eapply keys_impl; eauto|done|by rewrite Hsq'|by eapply keys_impl; eauto]].
    destruct R as [|y R]; cbn [cursor] in *; rewrite Hce; [done|]. by rewrite Hci.
  - rewrite !decide_True by done.
    destruct (put_new_ok cmp hash cmp_eq t1 cs L al k v Hi1 Hg) as (t' & cs' & x & -> & Hi' & Hce & Hsq' & Hcnt' & Hx & Hag).
    cbn [mbind option_bind]. exists t'. split_and!; [done|done|]. unfold fresh_key. rewrite Hg.
    assert (HSk : Forall2 (has_key t') S srem).
    { eapply keys_impl; [done|]. intros y k' Hy [w Hw]. exists w. rewrite Hag; [done|].
      rewrite HL. apply elem_of_app. by right. }
    exists cs', (L ++ [x]), [], (match S with [] => L ++ [x] | _ => L1 end), (match S with [] => [] | _ => S ++ [x] end).
    cbn [fst snd]. split_and!; [done| |exact Hce|constructor| | |].
    + rewrite Hcnt'. change (entryCount t1) with (entryCount t). rewrite Hcnt, u32_add_l, length_app. cbn.
      f_equal. lia.
    + destruct S; [by rewrite app_nil_r|]. by rewrite HL, <- app_assoc.
    + rewrite Hsq'. change (seqCur t1) with (seqCur t). rewrite Hsq. by destruct S.
    + destruct HSk as [|y k' S srem Hy HSk]; [constructor|]. cbn. constructor; [done|].
      apply Forall2_app; [done|]. constructor; [by exists v|constructor].
Qed.

Lemma remove_step t s rem k : rep t s rem → head s.2 ≠ Some k →
  ∃ t', remove cmp hash t k = Some (bool_decide (is_Some (assoc_get k s.1)), t') ∧
    rep t' (dstep (HRemove k) s) (filter (λ k', k' ≠ k) rem).
Proof.
  destruct s as [al srem]. intros (cs & L & R & L1 & S & Hi & Hcnt & Hcur & HR & HL & Hsq & HS) Hh. cbn [fst snd] in *.
  pose proof (i_core _ _ _ _ _ Hi) as Hc.
  assert (HRL : ∀ y, y ∈ R → y ∈ L) by (intros y; by eapply cursor_sub).
  assert (HSL : ∀ y, y ∈ S → y ∈ L) by (intros y Hy; rewrite HL; apply elem_of_app; by right).
  assert (Hin : ∀ (T : list ptr) ks k', (∀ y, y ∈ T → y ∈ L) → Forall2 (has_key t) T ks → k' ∈ ks → k' ∈ al.*1).
  { intros T ks k' HT HTk [i Hi']%list_elem_of_lookup. destruct (Forall2_lookup_r _ _ _ _ _ HTk Hi') as (y & Hy & Hyk).
    apply list_elem_of_lookup_2 in Hy. destruct (has_key_al t cs L al y k' Hi (HT y Hy) Hyk) as (v & Hv & _).
    by apply (list_elem_of_fmap_2 fst) in Hv. }
  destruct (remove_ok cmp hash cmp_eq t cs L al R k Hi Hcur) as
    [[Hg ->]|(v & x & t' & Hg & HxL & Hent & -> & Hi' & Hcur' & Hsq' & Hcnt' & Hag)]; rewrite Hg.
  - exists t. split; [done|]. apply assoc_get_None in Hg.
    assert (Hid : ∀ l : list K, k ∉ l → filter (λ k', k' ≠ k) l = l).
    { intros l. induction l as [|a l IH]; [done|]. rewrite not_elem_of_cons. intros [Ha Hl].
      rewrite filter_cons_True by congruence. by rewrite IH. }
    assert (Hdel : assoc_del k al = al).
    { unfold assoc_del. clear - Hg. induction al as [|[a w] al IH]; [done|]. cbn in Hg.
      apply not_elem_of_cons in Hg as [Ha Hl]. rewrite filter_cons_True by (cbn; congruence). by rewrite IH. }
    unfold dstep. rewrite Hdel, (Hid srem), (Hid rem);
      [by exists cs, L, R, L1, S|intros Hk; by eapply Hg, (Hin R)|intros Hk; by eapply Hg, (Hin S)].
  - exists t'. split; [done|].
    assert (Hiff : ∀ (T : list ptr), (∀ y, y ∈ T → y ∈ L) → ∀ y k', y ∈ T → has_key t y k' → (y ≠ x ↔ k' ≠ k)).
    { intros T HT y k' Hy Hyk. destruct (has_key_al t cs L al y k' Hi (HT y Hy) Hyk) as (w & _ & Hw). split.
      - intros Hne ->. apply Hne. eapply entries_inj; [apply (i_ents _ _ _ _ _ Hi)|apply (i_keys _ _ _ _ _ Hi)|..];
          [by apply HT|done|exact Hw|exact Hent].
      - intros Hne ->. congruence. }
    assert (Hfil : ∀ (T : list ptr) ks, (∀ y, y ∈ T → y ∈ L) → Forall2 (has_key t) T ks →
      Forall2 (has_key t') (filter (λ y, y ≠ x) T) (filter (λ k', k' ≠ k) ks)).
    { intros T ks HT HTk. eapply (keys_impl t).
      - apply Forall2_filter_iff; [by apply Hiff|done].
      - intros y k' [Hyx _]%list_elem_of_filter [w Hw]. exists w. by rewrite Hag. }
    exists (filter (λ y, y ≠ x) <$> cs), (filter (λ y, y ≠ x) L), (filter (λ y, y ≠ x) R),
      (filter (λ y, y ≠ x) L1), (filter (λ y, y ≠ x) S). unfold dstep. cbn [fst snd].
    split_and!; [done| |done|by apply Hfil| | |by apply Hfil].
    + rewrite Hcnt', Hcnt. replace (u32 (Z.of_nat (length al)) - 1)%Z with (u32 (Z.of_nat (length al)) + (-1))%Z by lia.
      rewrite u32_add_l. f_equal. rewrite <- (Forall2_length _ _ _ (i_ents _ _ _ _ _ Hi')).
      rewrite <- (Forall2_length _ _ _ (i_ents _ _ _ _ _ Hi)).
      pose proof (length_filter_ne x L (c_nd _ _ _ Hc) HxL). lia.
    + by rewrite HL, filter_app.
    + rewrite Hsq', Hsq. destruct HS as [|y k' S srem Hy HS]; [done|]. cbn in Hh.
      assert (Hyx : y ≠ x) by (apply (Hiff [y] ltac:(intros z ->%list_elem_of_singleton; apply HSL; by left) y k');
        [by left|done|congruence]). by rewrite filter_cons_True.
Qed.

Lemma iter_step t s rem op : rep t s rem → op = HGetNext ∨ op = HGetNextV →
  ∃ r t' rem', hexec op t = Some (r, t') ∧ answer op s rem r rem' ∧ rep t' (dstep op s) rem'.
Proof.
  destruct s as [al srem]. intros (cs & L & R & L1 & S & Hi & Hcnt & Hcur & HR & HL & Hsq & HS) Hop. cbn [fst snd] in *.
  pose proof (getNext_ok hash t cs L al R Hi Hcur) as Hn.
  destruct HR as [|x k R rem [w Hw] HR].
  - destruct Hn as [H1 H2]. destruct Hop as [-> | ->]; cbn [hexec]; rewrite ?H1, ?H2; cbn [mbind option_bind];
      do 3 eexists; (split; [done|]); (split; [constructor|]); by exists cs, L, [], L1, S.
  - destruct Hn as (k' & v & p & i & Hkv & Hent & H1 & H2 & Hcur'). rewrite Hw in Hent. injection Hent as _ -> ->.
    apply assoc_get_Some in Hkv; [|apply (i_keys _ _ _ _ _ Hi)].
    assert (Hrep : rep (with_cur p i t) (al, srem) rem).
    { exists cs, L, R, L1, S. split; [by apply (inv_same hash t)|]. by split_and!. }
    destruct Hop as [-> | ->]; cbn [hexec]; rewrite ?H1, ?H2; cbn [mbind option_bind];
      do 3 eexists; (split; [done|]); (split; [by constructor|]); done.
Qed.
Lemma seq_step t s rem op : rep t s rem → op = HResetSeq ∨ op = HGetNextSeq →
  ∃ r t', hexec op t = Some (r, t') ∧ answer op s rem r rem ∧ rep t' (dstep op s) rem.
Proof.
  destruct s as [al srem]. intros (cs & L & R & L1 & S & Hi & Hcnt & Hcur & HR & HL & Hsq & HS) Hop. cbn [fst snd] in *.
  pose proof (i_core _ _ _ _ _ Hi) as Hc. destruct (c_seq _ _ _ Hc) as [Hf _].
  destruct Hop as [-> | ->]; cbn [hexec].
  - do 2 eexists. split; [done|]. split; [constructor|]. exists cs, L, R, [], L. cbn [dstep fst snd].
    split; [by apply (inv_same hash t)|]. split_and!; [done|by destruct R|done|done|by apply (chain_head _ _ _ Hf)|].
    pose proof (i_ents _ _ _ _ _ Hi) as He. clear - He. induction He as [|p [k v] L al Hp He IH]; cbn; constructor; [|done].
    by exists v.
  - unfold getNextSeq. destruct HS as [|x k S srem [v Hv] HS]; cbn in Hsq; rewrite Hsq.
    { do 2 eexists. split; [done|]. split; [constructor|]. by exists cs, L, R, L1, []. }
    rewrite HL in Hf. apply seg_app in Hf as (y & _ & (-> & Hx & r & Hr & Hf)).
    rewrite decide_False by done. rewrite Hv. cbn [mbind option_bind].
    change (get_snext t x = Some r) in Hr. rewrite Hr. cbn [mbind option_bind].
    assert (HxL : x ∈ L) by (rewrite HL; apply elem_of_app; right; by left).
    do 2 eexists. split; [done|]. split.
    + constructor. destruct (has_key_al t cs L al x k Hi HxL) as (w & Hw & Hent); [by exists v|].
      rewrite Hv in Hent. injection Hent as ->. apply assoc_get_Some; [apply (i_keys _ _ _ _ _ Hi)|done].
    + exists cs, L, R, (L1 ++ [x]), S. cbn [dstep fst snd tail]. rewrite <- app_assoc.
      split; [by apply (inv_same hash t)|].
      split_and!; [done|by destruct R|done|done|by apply (chain_head _ _ _ Hf)|done].
Qed.

Lemma hexec_ok op t s rem : rep t s rem → hallowed op s = true →
  ∃ r t' rem', hexec op t = Some (r, t') ∧ answer op s rem r rem' ∧ rep t' (dstep op s) rem'.
Proof.
  intros Hrep Hal. destruct op as [k v|k v|k|k|k| | | | | | | |].
  - destruct (put_step t s rem k v Hrep) as (t' & H1 & _ & Hr). cbn [hexec]. rewrite H1.
    destruct s as [al srem]. do 3 eexists. split; [done|]. split; [constructor|exact Hr].
  - destruct (put_step t s rem k v Hrep) as (t' & _ & H1 & Hr). cbn [hexec]. rewrite H1.
    destruct s as [al srem]. do 3 eexists. split; [done|]. split; [constructor|exact Hr].
  - destruct s as [al srem]. pose proof Hrep as (cs & L & R & L1 & S & Hi & _). cbn [hexec].
    rewrite (get_ok cmp hash cmp_eq t cs L al k Hi). do 3 eexists. split; [done|]. split; [constructor|done].
  - destruct s as [al srem]. pose proof Hrep as (cs & L & R & L1 & S & Hi & _). cbn [hexec].
    rewrite (containsKey_ok cmp hash cmp_eq t cs L al k Hi). do 3 eexists. split; [done|]. split; [constructor|done].
  - destruct (remove_step t s rem k Hrep) as (t' & H1 & Hr); [by apply bool_decide_eq_true in Hal|].
    cbn [hexec]. rewrite H1. destruct s as [al srem]. do 3 eexists. split; [done|]. split; [constructor|exact Hr].
  - destruct s as [al srem]. pose proof Hrep as (cs & L & R & L1 & S & _ & Hcnt & _). cbn [hexec]. unfold size.
    rewrite Hcnt. do 3 eexists. split; [done|]. split; [constructor|done].
  - destruct s as [al srem]. pose proof Hrep as (cs & L & R & L1 & S & _ & Hcnt & _). cbn [hexec fst] in *. unfold isEmpty.
    rewrite Hcnt. do 3 eexists. split; [done|]. split; [|exact Hrep].
    destruct (decide (Z.of_nat (length al) < 2 ^ 32)%Z); [|apply A_isEmpty_wrap; lia].
    rewrite u32_small by lia.
    replace (if decide (Z.of_nat (length al) = 0)%Z then true else false) with (bool_decide (al = [])); [by constructor|].
    case_decide; [apply bool_decide_eq_true_2|apply bool_decide_eq_false_2]; destruct al; done.
  - destruct s as [al srem]. pose proof Hrep as (cs & L & R & L1 & S & Hi & _ & _ & _ & HL & Hsq & HS). cbn [hexec fst snd] in *.
    apply bool_decide_eq_true in Hal. cbn in Hal. subst srem. inversion HS; subst S.
    destruct (clear_ok cmp hash cmp_eq t cs L al Hi) as (t' & cs' & -> & Hi' & _ & Hce & Hsq' & Hcnt').
    do 3 eexists. split; [done|]. split; [constructor|].
    exists cs', [], [], [], []. cbn [dstep fst snd]. split_and!; try done. by rewrite Hsq'.
  - destruct s as [al srem]. destruct Hrep as (cs & L & R & L1 & S & Hi & Hcnt & _ & _ & HL & Hsq & HS). cbn [hexec fst snd] in *.
    pose proof (i_core _ _ _ _ _ Hi) as Hc. destruct (reset_ok t cs L Hc) as (p & i & -> & Hcur').
    pose proof (i_ents _ _ _ _ _ Hi) as He.
    assert (HLk : Forall2 (has_key t) L al.*1).
    { clear - He. induction He as [|q [k v] L al Hp He IH]; cbn; constructor; [|done]. by exists v. }
    destruct (Permutation_Forall2 (Permutation_sym (c_perm _ _ _ Hc)) HLk) as (rem' & Hp & HRk).
    exists (RBool (bool_decide (al ≠ []))), (with_cur p i t), rem'. split; [|split].
    + cbn [mbind option_bind]. do 3 f_equal. apply bool_decide_ext. destruct He; done.
    + constructor. by symmetry.
    + exists cs, L, (concat cs), L1, S. split; [by apply (inv_same hash t)|]. by split_and!.
  - destruct (iter_step t s rem HGetNext Hrep) as (r & t' & rem' & ? & ? & ?); [by left|]. by exists r, t', rem'.
  - destruct (iter_step t s rem HGetNextV Hrep) as (r & t' & rem' & ? & ? & ?); [by right|]. by exists r, t', rem'.
  - destruct (seq_step t s rem HResetSeq Hrep) as (r & t' & ? & ? & ?); [by left|]. by exists r, t', rem.
  - destruct (seq_step t s rem HGetNextSeq Hrep) as (r & t' & ? & ? & ?); [by right|]. by exists r, t', rem.
Qed.

Lemma hrun_ok ops t s rem : rep t s rem → hsafe ops s = true →
  ∃ rs t' rem', hrun ops t = Some (rs, t') ∧ answers ops s rem rs rem' ∧ rep t' (dsteps ops s) rem'.
Proof.
  revert t s rem. induction ops as [|op ops IH]; intros t s rem Hrep Hs.
  { exists [], t, rem. split_and!; [done|constructor|done]. }
  apply andb_true_iff in Hs as [Hal Hs]. destruct (hexec_ok op t s rem Hrep Hal) as (r & t1 & rem1 & H1 & Ha & Hr1).
  destruct (IH t1 _ rem1 Hr1 Hs) as (rs & t' & rem' & H2 & Has & Hr'). exists (r :: rs), t', rem'.
  cbn [hrun]. rewrite H1. cbn [mbind option_bind]. rewrite H2. split_and!; [done|by econstructor|done].
Qed.
Lemma rep_init len lf t : initTable len lf = Some t → grows 15 (tableLength t) (loadFactor t) = true →
  rep t ([], []) [].
Proof.
  intros Ht Hg. destruct (initTable_ok hash len lf t Ht Hg) as (cs & Hi & Hcnt & Hce & Hsq).
  exists cs, [], [], [], []. split_and!; done.
Qed.
Lemma hrun_app ops1 ops2 t : hrun (ops1 ++ ops2) t =
  ('(rs1, t) ← hrun ops1 t; '(rs2, t) ← hrun ops2 t; Some (rs1 ++ rs2, t)).
Proof.
  revert t. induction ops1 as [|op ops1 IH]; intros t; cbn [hrun app mbind option_bind].
  { by destruct (hrun ops2 t) as [[]|]. }
  destruct (hexec op t) as [[r t1]|]; [|done]. cbn [mbind option_bind]. rewrite IH.
  destruct (hrun ops1 t1) as [[rs1 t2]|]; [|done]. cbn [mbind option_bind].
  by destruct (hrun ops2 t2) as [[]|].
Qed.
(** From a state where [getNext] still returns [rem]. *)
Lemma getNext_run t s rem : rep t s rem →
  ∃ kvs t', hrun (replicate (length rem) HGetNext ++ [HGetNext]) t
      = Some (((λ kv, RNext (Some kv)) <$> kvs) ++ [RNext None], t') ∧
    kvs.*1 = rem ∧ Forall (λ kv, assoc_get kv.1 s.1 = Some kv.2) kvs.
Proof.
  revert t. induction rem as [|k rem IH]; intros t Hrep;
    destruct (hexec_ok HGetNext t s _ Hrep eq_refl) as (r & t1 & rem1 & He & Ha & Hr1); destruct s as [al srem].
  - inversion Ha; subst. exists [], t1. cbn [length replicate app hrun]. rewrite He. done.
  - inversion Ha; subst. destruct (IH t1 Hr1) as (kvs & t' & Hrun & <- & Hall).
    exists ((k, v) :: kvs), t'. cbn [length replicate app hrun]. rewrite He. cbn [mbind option_bind].
    cbn [length] in Hrun. rewrite Hrun. split_and!; [done|done|]. by constructor.
Qed.
Lemma lookups_perm (al kvs : list (K * V)) : NoDup al.*1 → kvs.*1 ≡ₚ al.*1 →
  Forall (λ kv, assoc_get kv.1 al = Some kv.2) kvs → kvs ≡ₚ al.
Proof.
  intros Hnd Hp Hall. rewrite Forall_forall in Hall.
  assert (Hndk : NoDup kvs.*1) by (by rewrite Hp). apply NoDup_Permutation; [by eapply NoDup_fmap_1|by eapply NoDup_fmap_1|].
  intros [k v]. split.
  - intros Hin. apply assoc_get_elem. apply (Hall _ Hin).
  - intros Hin. assert (Hk : k ∈ kvs.*1) by (rewrite Hp; by apply (list_elem_of_fmap_2 fst) in Hin).
    apply list_elem_of_fmap in Hk as ([k' v'] & Hk & Hin'). cbn in Hk. subst k'. pose proof (Hall _ Hin') as Hg. cbn in Hg.
    rewrite (assoc_get_Some k v) in Hg by done. congruence.
Qed.
Lemma iteration_run t s rem : rep t s rem →
  ∃ kvs t', hrun (HReset :: replicate (length s.1) HGetNext ++ [HGetNext]) t
      = Some (RBool (bool_decide (s.1 ≠ [])) :: ((λ kv, RNext (Some kv)) <$> kvs) ++ [RNext None], t') ∧ kvs ≡ₚ s.1.
Proof.
  intros Hrep. destruct (hexec_ok HReset t s rem Hrep eq_refl) as (r & t1 & rem1 & He & Ha & Hr1).
  destruct s as [al srem]. inversion Ha as [| | | | | | | | |? ? ? ? Hp| | | | | | |]; subst. cbn [dstep fst] in *.
  destruct (getNext_run t1 _ _ Hr1) as (kvs & t' & Hrun & Hk & Hall).
  rewrite (Permutation_length Hp), length_fmap in Hrun. exists kvs, t'. cbn [hrun]. rewrite He. cbn [mbind option_bind].
  rewrite Hrun. split; [done|]. destruct Hr1 as (cs & L & R & L1 & S & Hi & _).
  apply lookups_perm; [apply (i_keys _ _ _ _ _ Hi)|by rewrite Hk|done].
Qed.

Lemma seq_dangles t al k ks rem : rep t (al, k :: ks) rem →
  hrun [HRemove k; HGetNextSeq] t = None ∧ hrun [HClear; HGetNextSeq] t = None.
Proof.
  intros (cs & L & R & L1 & S & Hi & Hcnt & Hcur & HR & HL & Hsq & HS). cbn [fst snd] in *.
  inversion HS as [|x k' S' ks' [v Hv] HS']; subst S k' ks'. cbn in Hsq.
  pose proof (i_core _ _ _ _ _ Hi) as Hc. assert (HxL : x ∈ L) by (rewrite HL; apply elem_of_app; right; by left).
  assert (Hx : x ≠ NULL).
  { intros ->. destruct (c_seq _ _ _ Hc) as [Hf _]. by apply seg_nonnull in Hf. }
  assert (Hdead : ∀ t', seqCur t' = x → get_ent t' x = None → getNextSeq t' = None).
  { intros t' Hs Hg. unfold getNextSeq. rewrite Hs, decide_False by done. by rewrite Hg. }
  destruct (has_key_al t cs L al x k Hi HxL) as (w & Hw & Hent); [by exists v|].
  apply assoc_get_Some in Hw; [|apply (i_keys _ _ _ _ _ Hi)]. split; cbn [hrun hexec].
  - destruct (remove_ok cmp hash cmp_eq t cs L al R k Hi Hcur) as
      [[Hg _]|(v' & y & t' & Hg & HyL & Hy & -> & Hi' & _ & Hsq' & _ & _)]; [congruence|]. cbn [mbind option_bind].
    assert (y = x) as -> by (eapply entries_inj; [apply (i_ents _ _ _ _ _ Hi)|apply (i_keys _ _ _ _ _ Hi)|..]; done).
    rewrite (Hdead t'); [done|congruence|]. unfold get_ent. apply eq_None_not_Some.
    rewrite <- (core_ent _ _ _ _ (i_core _ _ _ _ _ Hi')). intros [Hne _]%list_elem_of_filter. by apply Hne.
  - destruct (clear_ok cmp hash cmp_eq t cs L al Hi) as (t' & cs' & -> & _ & He & _ & Hsq' & _). cbn [mbind option_bind].
    rewrite (Hdead t'); [done|congruence|]. unfold get_ent. by rewrite He.
Qed.
End programs.

Definition zcmp (a b : Z) : bool := (a =? b)%Z.
Lemma zcmp_eq a b : zcmp a b = true ↔ a = b.
Proof. apply Z.eqb_eq. Qed.
Definition sample_table : htab Z Z :=
  HTab (HHeap ∅ ∅ ∅ ∅) (replicate 16 NULL) 16 0 0 DEFAULT_HASHTABLE_LOADFACTOR 12 NULL 0 NULL NULL NULL.
Lemma sample_table_new : new_table = Some sample_table.
Proof. by vm_compute. Qed.

(** A full iteration visits every entry: after any such program, [reset]
    followed by one [getNext] per entry returns each entry exactly once, and the
    next [getNext] returns FALSE. *)
Theorem hash_iteration_complete {K V} `{!EqDecision K} (cmp : K → K → bool) (hash : K → Z) len lf t
    (ops : list (hop K V)) :
  (∀ a b, cmp a b = true ↔ a = b) → initTable len lf = Some t → grows 15 (tableLength t) (loadFactor t) = true →
  hsafe ops ([], []) = true →
  let al := (dsteps ops ([], [])).1 in
  ∃ rs t1 kvs t2, hrun cmp hash ops t = Some (rs, t1) ∧
    hrun cmp hash (HReset :: replicate (length al) HGetNext ++ [HGetNext]) t1
      = Some (RBool (bool_decide (al ≠ [])) :: ((λ kv, RNext (Some kv)) <$> kvs) ++ [RNext None], t2) ∧
    kvs ≡ₚ al.
Proof.
  intros Hcmp Ht Hg Hs al. destruct (hrun_ok cmp hash Hcmp ops t _ _ (rep_init hash len lf t Ht Hg) Hs)
    as (rs & t1 & rem & H1 & _ & Hr). destruct (iteration_run cmp hash Hcmp t1 _ _ Hr) as (kvs & t2 & H2 & Hp).
  by exists rs, t1, kvs, t2.
Qed.
Lemma hash_iteration_complete_witness :
  let ops := [HPut 5 50; HPut 21 60; HPut 6 70; HRemove 5]%Z in let al := (dsteps ops ([], [])).1 in
  al = [(21, 60); (6, 70)]%Z ∧
  ∃ rs t1 kvs t2, hrun zcmp id ops sample_table = Some (rs, t1) ∧
    hrun zcmp id (HReset :: replicate (length al) HGetNext ++ [HGetNext]) t1
      = Some (RBool (bool_decide (al ≠ [])) :: ((λ kv, RNext (Some kv)) <$> kvs) ++ [RNext None], t2) ∧ kvs ≡ₚ al.
Proof.
  intros ops al. split; [vm_compute; reflexivity|].
  apply (hash_iteration_complete zcmp id 16 DEFAULT_HASHTABLE_LOADFACTOR sample_table ops).
  - exact zcmp_eq.
  - exact sample_table_new.
  - vm_compute. reflexivity.
  - vm_compute. reflexivity.
Defined.

(** [remove] moves the bucket cursor off the removed entry but not the
    sequence cursor: when the next entry [getNextSeq] would return is removed,
    or the table is cleared while there is one, the following [getNextSeq] reads
    a freed entry. *)
Theorem hash_seq_cursor_dangles {K V} `{!EqDecision K} (cmp : K → K → bool) (hash : K → Z) len lf t
    (ops : list (hop K V)) al k ks :
  (∀ a b, cmp a b = true ↔ a = b) → initTable len lf = Some t → grows 15 (tableLength t) (loadFactor t) = true →
  hsafe ops ([], []) = true → dsteps ops ([], []) = (al, k :: ks) →
  hrun cmp hash (ops ++ [HRemove k; HGetNextSeq]) t = None ∧
  hrun cmp hash (ops ++ [HClear; HGetNextSeq]) t = None.
Proof.
  intros Hcmp Ht Hg Hs Hd. destruct (hrun_ok cmp hash Hcmp ops t _ _ (rep_init hash len lf t Ht Hg) Hs)
    as (rs & t1 & rem & H1 & _ & Hr). rewrite Hd in Hr. destruct (seq_dangles cmp hash Hcmp t1 al k ks rem Hr) as [H2 H3].
  rewrite !hrun_app, H1. cbn [mbind option_bind]. by rewrite H2, H3.
Qed.
Lemma hash_seq_cursor_dangles_witness :
  hrun zcmp id ([HPut 5 50; HPut 21 60; HResetSeq] ++ [HRemove 5; HGetNextSeq])%Z sample_table = None ∧
  hrun zcmp id ([HPut 5 50; HPut 21 60; HResetSeq] ++ [HClear; HGetNextSeq])%Z sample_table = None.
Proof.
  apply (hash_seq_cursor_dangles zcmp id 16 DEFAULT_HASHTABLE_LOADFACTOR sample_table _ [(5, 50); (21, 60)]%Z 5%Z [21%Z]).
  - exact zcmp_eq.
  - exact sample_table_new.
  - vm_compute. reflexivity.
  - vm_compute. reflexivity.
  - vm_compute. reflexivity.
Defined.

(** The destructor frees every entry a program allocated. *)
Theorem hash_no_leak {K V} `{!EqDecision K} (cmp : K → K → bool) (hash : K → Z) len lf t (ops : list (hop K V)) :
  (∀ a b, cmp a b = true ↔ a = b) → initTable len lf = Some t → grows 15 (tableLength t) (loadFactor t) = true →
  hsafe ops ([], []) = true →
  ∃ rs t1 t2, hrun cmp hash ops t = Some (rs, t1) ∧ destroy t1 = Some t2 ∧ ents (hp t2) = ∅ ∧ table t2 = [].
Proof.
  intros Hcmp Ht Hg Hs. destruct (hrun_ok cmp hash Hcmp ops t _ _ (rep_init hash len lf t Ht Hg) Hs)
    as (rs & t1 & rem & H1 & _ & (cs & L & R & L1 & S & Hi & _)).
  destruct (clear_ok cmp hash Hcmp t1 cs L _ Hi) as (t2 & cs2 & Hcl & _ & He & _).
  exists rs, t1, (with_table [] t2). unfold destroy. rewrite Hcl. done.
Qed.
Lemma hash_no_leak_witness : ∃ rs t1 t2, hrun zcmp id [HPut 5 50; HPut 21 60]%Z sample_table = Some (rs, t1) ∧
  destroy t1 = Some t2 ∧ ents (hp t2) = ∅ ∧ table t2 = [].
Proof.
  apply (hash_no_leak zcmp id 16 DEFAULT_HASHTABLE_LOADFACTOR).
  - exact zcmp_eq.
  - exact sample_table_new.
  - vm_compute. reflexivity.
  - vm_compute. reflexivity.
Defined.
