(* ===== verification/CStr.v ===== *)
(** * The growing string [CStr] ([comserv/comtypedef_vchar.C] 1734-2890,
    [include/comserv/comtypedef_vchar.h])

    [CStr] keeps its characters in an internal array of 32 and moves to an
    allocated one when it needs more.  The model has the buffer as cells (see
    VarChar.v), so a read of a character nobody wrote or an access outside the
    buffer is undefined behaviour ([None]); a [const char*] argument is the list
    of cells readable from it.  Lengths are taken without wrap-around: an object
    of 2^31 characters is out of scope.  The character classes of [isspace],
    [isalnum], [tolower], [toupper] are those of the C locale.

    [fCatChars], [merge], [uricEncode] and [uricDecode] end without the value
    they are declared to return: a call of one of them is undefined, whatever
    its caller does with the result ([no_return]).  What they have done to the
    object by then is a definition of its own ([_work]). *)

From S2P Require Import Prelude VarChar.

Definition MaxCStrBufferLen : Z := 32.

(** [m_capacity], [m_length], [m_buffer] and whether it was allocated. *)
Record cstr := CS { scap : Z; slen : Z; sbuf : cells; sheap : bool }.

(** [memcpy(dst + off, src, n)] *)
Definition blit (dst : cells) (off : Z) (src : cells) (n : Z) : option cells :=
  if decide (0 ≤ off ∧ 0 ≤ n ∧ off + n ≤ Z.of_nat (length dst) ∧ n ≤ Z.of_nat (length src))%Z then
    Some (take (Z.to_nat off) dst ++ take (Z.to_nat n) src ++ drop (Z.to_nat (off + n)) dst)
  else None.

(** ** Construction and size *)
Definition cs_new : cstr := CS (MaxCStrBufferLen - 1) 0 (<[0 := Some 0%Z]> (uninit 32)) false.
Definition cs_new_str (str : cptr) : option cstr :=
  match str with
  | None => Some cs_new
  | Some str =>
      n ← strlen str; let n := Z.of_nat n in
      if decide (MaxCStrBufferLen - 1 < n)%Z then
        b ← w_alloc (n + 1); b ← blit b 0 str (n + 1); Some (CS n n b true)
      else b ← blit (uninit 32) 0 str (n + 1); Some (CS (MaxCStrBufferLen - 1) n b false)
  end.
Definition cs_copy (str : cstr) : option cstr :=
  let n := slen str in
  if decide (MaxCStrBufferLen - 1 < n)%Z then
    b ← w_alloc (n + 1); b ← blit b 0 (sbuf str) (n + 1); Some (CS n n b true)
  else b ← blit (sbuf cs_new) 0 (sbuf str) (n + 1); Some (CS (MaxCStrBufferLen - 1) n b false).
Definition cs_resize (s : cstr) (newCapacity : Z) : option cstr :=
  if decide (newCapacity ≤ scap s)%Z then Some s else
  let realCap := ((Z.quot newCapacity MaxCStrBufferLen + 1) * MaxCStrBufferLen)%Z in
  b ← w_alloc realCap; b ← blit b 0 (sbuf s) (slen s + 1)%Z; Some (CS (realCap - 1)%Z (slen s) b true).
(** The [if (m_capacity < n) resize(n)] of every appending member. *)
Definition cs_room (s : cstr) (n : Z) : option cstr :=
  if decide (scap s < n)%Z then cs_resize s n else Some s.
(** [m_length = n; m_buffer[n] = 0] *)
Definition cs_end (s : cstr) (n : Z) : option cstr :=
  b ← poke (sbuf s) n 0; Some (CS (scap s) n b (sheap s)).
Definition with_buf (b : cells) (s : cstr) : cstr := CS (scap s) (slen s) b (sheap s).

Definition cs_length (s : cstr) : Z := slen s.
(** [c_str()]: the terminator is written before the buffer is shown. *)
Definition cs_c_str (s : cstr) : option cells := poke (sbuf s) (slen s) 0.
Definition cs_empty (s : cstr) : bool := bool_decide (slen s = 0%Z).
Definition cs_size (s : cstr) : Z := (4 + slen s)%Z.
Definition cs_clear (s : cstr) : option cstr :=
  b ← poke (sbuf s) 0 0; Some (CS (scap s) 0 b (sheap s)).
(** [steal(len)]: the characters and the emptied object. *)
Definition cs_steal (s : cstr) : option (cells * Z * cstr) :=
  if sheap s then
    Some (sbuf s, slen s, CS (MaxCStrBufferLen - 1) 0 (<[0 := Some 0%Z]> (uninit 32)) false)
  else
    r ← w_alloc (slen s + 1); r ← blit r 0 (sbuf s) (slen s); r ← poke r (slen s) 0;
    b ← poke (sbuf s) 0 0; Some (r, slen s, CS (scap s) 0 b false).
(** [str()] *)
Definition cs_str (s : cstr) : option cptr :=
  if decide (0 < slen s)%Z then
    r ← w_alloc (slen s + 1); r ← blit r 0 (sbuf s) (slen s); r ← poke r (slen s) 0; Some (Some r)
  else Some None.

(** ** Single characters *)
Definition cs_getByte (s : cstr) (pos : Z) : option Z :=
  if decide (slen s ≤ pos ∨ pos < - slen s)%Z then Some 0%Z
  else if decide (0 ≤ pos)%Z then peek (sbuf s) pos else peek (sbuf s) (slen s + pos).
Definition cs_setByte (s : cstr) (c pos : Z) : option cstr :=
  if decide (slen s ≤ pos ∨ pos < - slen s)%Z then Some s
  else b ← poke (sbuf s) (if decide (0 ≤ pos)%Z then pos else slen s + pos)%Z c; Some (with_buf b s).
Definition cs_SetVarCharContent_at (s : cstr) (num character : Z) : option cstr :=
  if decide (num ≤ slen s ∧ 0 ≤ num)%Z then b ← poke (sbuf s) num character; Some (with_buf b s) else Some s.
Definition cs_cut (s : cstr) (len : Z) : option cstr :=
  if decide (slen s ≤ len ∨ len < - slen s)%Z then Some s
  else if decide (0 ≤ len)%Z then cs_end s len else cs_end s (slen s + len).

(** ** Assignment *)
Definition cs_assign_str (s : cstr) (str : cptr) : option cstr :=
  match str with
  | None => cs_clear s
  | Some str =>
      c ← peek str 0; if decide (c = 0)%Z then cs_clear s else
      n ← strlen str; let n := Z.of_nat n in
      s ← cs_room s n; b ← blit (sbuf s) 0 str (n + 1); cs_end (with_buf b s) n
  end.
(** [operator=] from another object; assigning an object to itself does nothing. *)
Definition cs_assign (s str : cstr) : option cstr :=
  s ← cs_room s (slen str);
  b ← blit (sbuf s) 0 (sbuf str) (slen str + 1); Some (CS (scap s) (slen str) b (sheap s)).
Definition cs_set (s : cstr) (str : cells) (len : Z) : option cstr :=
  s ← cs_room s len;
  b ← (if decide (len = 0)%Z then poke (sbuf s) 0 0 else Some (sbuf s));
  b ← blit b 0 str len; b ← poke b len 0; Some (CS (scap s) len b (sheap s)).

(** A function that must return a value and whose flow runs off its end after
    [work]. *)
Definition no_return {A} (work : option A) : option A := _ ← work; None.

(** ** Appending *)
Definition cs_nCat (s : cstr) (str : cells) (l : Z) : option cstr :=
  s ← cs_room s (slen s + l); b ← blit (sbuf s) (slen s) str l; cs_end (with_buf b s) (slen s + l).
Definition cs_add (s str : cstr) : option cstr :=
  s ← cs_room s (slen s + slen str); b ← blit (sbuf s) (slen s) (sbuf str) (slen str + 1);
  cs_end (with_buf b s) (slen s + slen str).
Definition cs_add_str (s : cstr) (str : cells) : option cstr :=
  l ← strlen str; let l := Z.of_nat l in
  s ← cs_room s (slen s + l); b ← blit (sbuf s) (slen s) str (l + 1); cs_end (with_buf b s) (slen s + l).
Definition cs_add_char (s : cstr) (c : Z) : option cstr :=
  s ← cs_room s (slen s + 1); b ← poke (sbuf s) (slen s) c; cs_end (with_buf b s) (slen s + 1).
Fixpoint cs_fCatChars_from (n : nat) (s : cstr) (fillChar : Z) : option cstr :=
  match n with O => Some s | S n => s ← cs_add_char s fillChar; cs_fCatChars_from n s fillChar end.
Definition cs_fCatChars (s : cstr) (fillChar lineLen : Z) : option cstr :=
  no_return (cs_fCatChars_from (Z.to_nat lineLen) s fillChar).
Definition cs_fCatTitle (s : cstr) (title : cells) (fillChar lineLen : Z) : option cstr :=
  t ← strlen title; let titleLen := Z.of_nat t in
  if decide (lineLen - 4 < titleLen)%Z then cs_add_str s title else
  let leftLen := Z.quot (lineLen - titleLen - 2) 2 in
  let rightLen := (lineLen - titleLen - 2 - leftLen)%Z in
  s ← cs_fCatChars s fillChar leftLen; s ← cs_add_char s 32; s ← cs_add_str s title; s ← cs_add_char s 32;
  cs_fCatChars s fillChar rightLen.

(** ** Integers as characters *)
(** [intCat4]: four bytes, network order. *)
Definition cs_intCat4 (s : cstr) (i : Z) : option cstr := cs_nCat s (encode_int i) 4.
(** [intCatShort]: the loop over the leading bytes. *)
Fixpoint short_bytes (n : nat) (p : cells) (len : Z) : option (cells * Z) :=
  match n with
  | O => None
  | S n =>
      a ← peek p 0;
      (* (len>1 && p[0]==0 && !(p[1]&0x80)) || (p[0]==0xff && (p[1]&0x80)) *)
      again ← (if decide (1 < len ∧ a = 0)%Z then b ← peek p 1; Some (bool_decide (Z.land b 128 = 0)%Z)
               else if decide (a = 255)%Z then b ← peek p 1; Some (bool_decide (Z.land b 128 ≠ 0)%Z)
               else Some false);
      if (again : bool) then short_bytes n (drop 1 p) (len - 1) else Some (p, len)
  end.
Definition cs_intCatShort (s : cstr) (i : Z) : option cstr :=
  '(p, len) ← short_bytes 5 (encode_int i) 4; cs_nCat s p len.
Definition cs_intCatUtf8 (s : cstr) (i : Z) : option cstr :=
  let high := u8 (Z.quot i 256) in let low := u8 (Z.rem i 256) in
  if decide (high = 0 ∧ low < 128)%Z then cs_add_char s low
  else if decide (high < 8)%Z then
    cs_nCat s [Some (Z.lor (Z.lor 192 (Z.land (Z.shiftl high 2) 28)) (Z.land (Z.shiftr low 6) 3));
               Some (Z.lor 128 (Z.land low 63))] 2
  else
    cs_nCat s [Some (Z.lor 224 (Z.shiftr high 4));
               Some (Z.lor (Z.lor 128 (Z.land (Z.shiftl high 2) 60)) (Z.land (Z.shiftr low 6) 3));
               Some (Z.lor 128 (Z.land low 63))] 3.
(** [mask[j]] with [bitPos[j]], [j] from [5 - n] on; [c] is a [char], the mask
    an [int] (the first one is negative). *)
Definition mask7 (j : Z) : Z := if decide (j = 0)%Z then i32 4026531840 else Z.shiftl 127 (7 * (4 - j)).
Fixpoint cs_intCat7_from (n : nat) (j : Z) (begin : bool) (s : cstr) (id : Z) : option cstr :=
  match n with
  | O => Some s
  | S n =>
      let c := u8 (Z.shiftr (Z.land id (mask7 j)) (7 * (4 - j))) in
      if decide (c ≠ 0 ∨ begin = true ∨ j = 4)%Z then
        s ← cs_add_char s (if decide (j = 4)%Z then c else Z.lor c 128);
        cs_intCat7_from n (j + 1) true s id
      else cs_intCat7_from n (j + 1) begin s id
  end.
Definition cs_intCat7 (s : cstr) (id : Z) : option cstr := cs_intCat7_from 5 0 false s id.

(** ** On the wire *)
Definition cs_decode (s : cstr) (buf : cells) : option (Z * cstr * cells) :=
  '(n, rest) ← decode_int buf;
  s ← cs_room s n;
  b ← blit (sbuf s) 0 rest n; s ← cs_end (with_buf b s) n;
  Some (cs_size s, s, drop (Z.to_nat n) rest).
Definition cs_encode (s : cstr) : option (Z * cells) :=
  if decide (0 < slen s)%Z then
    if decide (slen s ≤ Z.of_nat (length (sbuf s)))%Z
    then Some (cs_size s, encode_int (slen s) ++ take (Z.to_nat (slen s)) (sbuf s)) else None
  else Some (cs_size s, encode_int (slen s)).
(** [CStrShort] *)
Definition short_size (s : cstr) : Z := (1 + slen s)%Z.
Definition short_decode (s : cstr) (buf : cells) : option (Z * cstr * cells) :=
  n ← peek buf 0;
  s ← cs_room s n;
  b ← blit (sbuf s) 0 buf n; s ← cs_end (with_buf b s) n;
  Some (short_size s, s, drop (Z.to_nat n) buf).
Definition short_encode (s : cstr) : option (Z * cells) :=
  let n := if decide (255 < slen s)%Z then 255%Z else slen s in
  if decide (n ≤ Z.of_nat (length (sbuf s)))%Z
  then Some (short_size s, Some n :: take (Z.to_nat n) (sbuf s)) else None.

(** ** Comparing and searching (C strings: cells up to a zero) *)
(** The sign of [strcmp]. *)
Fixpoint strcmp (a b : cells) : option Z :=
  match a, b with
  | Some x :: a, Some y :: b =>
      if decide (x = y) then if decide (x = 0)%Z then Some 0%Z else strcmp a b
      else Some (if decide (x < y)%Z then -1 else 1)%Z
  | _, _ => None
  end.
(** [strncmp(h, n, strlen(n)) == 0] *)
Fixpoint strprefix (h n : cells) {struct n} : option bool :=
  match n with
  | Some y :: n =>
      if decide (y = 0)%Z then Some true else
      match h with
      | Some x :: h => if decide (x = y) then strprefix h n else Some false
      | _ => None
      end
  | _ => None
  end.
(** [strstr(h, n)]: the distance of the first occurrence. *)
Fixpoint strstr (h n : cells) : option (option Z) :=
  b ← strprefix h n;
  if (b : bool) then Some (Some 0%Z) else
  match h with
  | Some x :: h =>
      if decide (x = 0)%Z then Some None else
      r ← strstr h n; Some (match r with Some i => Some (i + 1)%Z | None => None end)
  | _ => None
  end.
(** [strchr(h, c)] for [c] that is not zero. *)
Fixpoint strchr (h : cells) (c : Z) : option bool :=
  match h with
  | Some x :: h => if decide (x = c) then Some true else if decide (x = 0)%Z then Some false else strchr h c
  | _ => None
  end.
Definition cs_eq (s str : cstr) : option bool :=
  if decide (slen s ≠ slen str) then Some false else same_from (Z.to_nat (slen s)) (sbuf s) (sbuf str) 0.
Definition cs_eq_str (s : cstr) (str : cptr) : option bool :=
  match str with
  | None => Some (bool_decide (slen s = 0%Z))
  | Some str => c ← cs_c_str s; r ← strcmp c str; Some (bool_decide (r = 0%Z))
  end.
Definition cs_lt_str (s : cstr) (str : cptr) : option bool :=
  match str with None => Some false | Some str => r ← strcmp (sbuf s) str; Some (bool_decide (r < 0)%Z) end.
Definition cs_gt_str (s : cstr) (str : cptr) : option bool :=
  match str with
  | None => Some (bool_decide (0 < slen s)%Z)
  | Some str => r ← strcmp (sbuf s) str; Some (bool_decide (0 < r)%Z)
  end.
Definition cs_ge_str (s : cstr) (str : cptr) : option bool :=
  b ← cs_gt_str s str; if (b : bool) then Some true else cs_eq_str s str.
Definition cs_le_str (s : cstr) (str : cptr) : option bool :=
  b ← cs_lt_str s str; if (b : bool) then Some true else cs_eq_str s str.
Definition cs_ge (s str : cstr) : option bool := c ← cs_c_str str; cs_ge_str s (Some c).
Definition cs_gt (s str : cstr) : option bool := c ← cs_c_str str; cs_gt_str s (Some c).
Definition cs_le (s str : cstr) : option bool := c ← cs_c_str str; cs_le_str s (Some c).
Definition cs_lt (s str : cstr) : option bool := c ← cs_c_str str; cs_lt_str s (Some c).

Definition cs_index (s : cstr) (subStr : cells) : option Z :=
  r ← strstr (sbuf s) subStr; Some (match r with Some i => i | None => (-1)%Z end).
Definition cs_beginWith (s : cstr) (beginStr : cells) : option bool := strprefix (sbuf s) beginStr.
Definition cs_endWith (s : cstr) (endStr : cells) : option bool :=
  n ← strlen endStr; let len := Z.of_nat n in
  if decide (slen s < len)%Z then Some false else
  r ← strcmp (drop (Z.to_nat (slen s - len)) (sbuf s)) endStr; Some (bool_decide (r = 0%Z)).
Fixpoint cs_contain (s : cstr) (charSet : cells) : option bool :=
  match charSet with
  | Some c :: cs =>
      if decide (c = 0)%Z then Some false else
      b ← strchr (sbuf s) c; if (b : bool) then Some true else cs_contain s cs
  | _ => None
  end.

(** ** Splitting and joining *)
(** [split(argvArray, maxArgc, sep)]: the loop with [k] places left in the
    array, [p] from the current position, [rest] characters before [end]; the
    places it filled. *)
Fixpoint cs_split_from (argv : list cstr) (p : cells) (rest : Z) (sep : cells) (sepLen : Z) : option (list cstr) :=
  match argv with
  | [] => Some []
  | a :: argv =>
      if decide (rest ≤ 0)%Z then Some [] else
      r ← strstr p sep;
      match r with
      | None => a ← cs_assign_str a (Some p); Some [a]
      | Some i =>
          a ← cs_set a p i;
          as' ← cs_split_from argv (drop (Z.to_nat (i + sepLen)) p) (rest - (i + sepLen)) sep sepLen;
          Some (a :: as')
      end
  end.
Definition cs_split_sep (s : cstr) (argvArray : list cstr) (sep : cells) : option (list cstr) :=
  p ← cs_c_str s; sepLen ← strlen sep; cs_split_from argvArray p (slen s) sep (Z.of_nat sepLen).
Fixpoint cs_merge_from (first : bool) (s : cstr) (argvArray : list cstr) : option cstr :=
  match argvArray with
  | [] => Some s
  | a :: argv =>
      s ← (if first then Some s else cs_add_str s [Some 32%Z; Some 0%Z]); s ← cs_add s a; cs_merge_from false s argv
  end.
Definition cs_merge_work (s : cstr) (argvArray : list cstr) : option cstr :=
  s ← cs_clear s; cs_merge_from true s argvArray.
Definition cs_merge (s : cstr) (argvArray : list cstr) : option cstr := no_return (cs_merge_work s argvArray).
(** [replace]: the loop that builds [destStr]; each turn passes an occurrence. *)
Fixpoint cs_replace_from (n : nat) (dest : cstr) (p pattern replace : cells) (patternLength : Z) : option cstr :=
  match n with
  | O => None
  | S n =>
      r ← strstr p pattern;
      match r with
      | None => cs_add_str dest p
      | Some i =>
          dest ← cs_nCat dest p i; dest ← cs_add_str dest replace;
          cs_replace_from n dest (drop (Z.to_nat (i + patternLength)) p) pattern replace patternLength
      end
  end.
Definition cs_replace (s : cstr) (pattern replace : cells) : option cstr :=
  n ← strlen pattern;
  dest ← cs_replace_from (S (length (sbuf s))) cs_new (sbuf s) pattern replace (Z.of_nat n); cs_assign s dest.

(** ** Query-string escapes *)
Definition hexdigit (n : Z) : Z := if decide (n < 10)%Z then (48 + n)%Z else (55 + n)%Z.
(** The loop of [uricEncode] into the fresh buffer. *)
Fixpoint uric_encode_from (r : cells) (w : cells) (k : Z) : option (cells * Z) :=
  match r with
  | Some c :: r =>
      if decide (c = 0)%Z then w ← poke w k 0; Some (w, k)
      else if decide (c = 38 ∨ c = 61 ∨ c = 43 ∨ c = 37)%Z then
        w ← blit w k [Some 37%Z; Some (hexdigit (c / 16)); Some (hexdigit (c mod 16)); Some 0%Z] 4;
        uric_encode_from r w (k + 3)
      else w ← poke w k (if decide (c = 32)%Z then 43%Z else c); uric_encode_from r w (k + 1)
  | _ => None
  end.
Definition cs_uricEncode_work (s : cstr) : option cstr :=
  r ← cs_c_str s; w ← w_alloc (slen s * 3 + 1); '(w, _) ← uric_encode_from r w 0;
  n ← strlen w; let n := Z.of_nat n in
  s ← cs_room s n; b ← blit (sbuf s) 0 w (n + 1); Some (CS (scap s) n b (sheap s)).
Definition cs_uricEncode (s : cstr) : option cstr := no_return (cs_uricEncode_work s).
(** Two or four hexadecimal digits read by [sscanf]; an escape without them is
    outside the model. *)
Definition hexval (c : Z) : option Z :=
  if decide (48 ≤ c ≤ 57)%Z then Some (c - 48)%Z
  else if decide (65 ≤ c ≤ 70)%Z then Some (c - 55)%Z
  else if decide (97 ≤ c ≤ 102)%Z then Some (c - 87)%Z else None.
Fixpoint scan_hex (n : nat) (b : cells) (r acc : Z) : option Z :=
  match n with
  | O => Some acc
  | S n => c ← peek b r; d ← hexval c; scan_hex n b (r + 1) (16 * acc + d)
  end.
(** The loop of [uricDecode], reading and writing one buffer. *)
Fixpoint uric_decode_from (n : nat) (b : cells) (r w : Z) : option (cells * Z) :=
  match n with
  | O => None
  | S n =>
      c ← peek b r;
      if decide (c = 0)%Z then b ← poke b w 0; Some (b, w)
      else if decide (c = 37)%Z then
        d ← peek b (r + 1);
        if decide (d = 117)%Z then
          unicode ← scan_hex 4 b (r + 2) 0;
          utf8Str ← cs_intCatUtf8 cs_new unicode;
          b ← blit b w (sbuf utf8Str) (slen utf8Str);
          uric_decode_from n b (r + 6) (w + slen utf8Str)
        else
          temp ← scan_hex 2 b (r + 1) 0;
          b ← poke b w temp; uric_decode_from n b (r + 3) (w + 1)
      else b ← poke b w (if decide (c = 43)%Z then 32%Z else c); uric_decode_from n b (r + 1) (w + 1)
  end.
Definition cs_uricDecode_work (s : cstr) : option cstr :=
  '(b, w) ← uric_decode_from (S (length (sbuf s))) (sbuf s) 0 0; Some (CS (scap s) w b (sheap s)).
Definition cs_uricDecode (s : cstr) : option cstr := no_return (cs_uricDecode_work s).

(** ** Client programs over two objects *)
(** Every operation is on the first object; the second is the other operand.
    A [const char*] argument is given by its characters. *)
Inductive cop :=
  | CSwap | CNew (x : bytes) | CAssignStr (x : bytes) | CAssignNull | CAssign | CCopy
  | CSet (x : bytes) | CNCat (x : bytes) | CAdd | CAddStr (x : bytes) | CAddChar (c : Z)
  | CTitle (x : bytes) (c n : Z) | CInt4 (i : Z)
  | CCut (n : Z) | CClear | CResize (n : Z) | CSetByte (c i : Z) | CSetAt (i c : Z)
  | CReplace (x y : bytes)
  | CSteal | CGetStr | CChars | CGetByte (i : Z) | CLength
  | CIndex (x : bytes) | CBegin (x : bytes) | CEnd (x : bytes) | CContain (x : bytes)
  | CEqStr (x : bytes) | CCmpStr (x : bytes) | CEq | CCmp.
Inductive cobs :=
  | CNothing | CNum (n : Z) | CBool (b : bool) | CText (n : Z) (b : cells) | CNull
  | COrder (lt le gt ge : bool).

(** A terminated argument. *)
Abbreviation carg x := (det x ++ [Some 0%Z]).
(** The characters [n] of a text handed out, without what follows them. *)
Definition ctext (r : cells) (n : Z) : cobs := CText n (take (Z.to_nat n + 1) r).

Definition cstep (op : cop) (st : cstr * cstr) : option (cobs * (cstr * cstr)) :=
  let '(s, t) := st in
  let upd r := s ← r; Some (CNothing, (s, t)) in
  match op with
  | CSwap => Some (CNothing, (t, s))
  | CNew x => upd (cs_new_str (Some (carg x)))
  | CAssignStr x => upd (cs_assign_str s (Some (carg x)))
  | CAssignNull => upd (cs_assign_str s None)
  | CAssign => upd (cs_assign s t)
  | CCopy => upd (cs_copy t)
  | CSet x => upd (cs_set s (det x) (Z.of_nat (length x)))
  | CNCat x => upd (cs_nCat s (det x) (Z.of_nat (length x)))
  | CAdd => upd (cs_add s t)
  | CAddStr x => upd (cs_add_str s (carg x))
  | CAddChar c => upd (cs_add_char s c)
  | CTitle x c n => upd (cs_fCatTitle s (carg x) c n)
  | CInt4 i => upd (cs_intCat4 s i)
  | CCut n => upd (cs_cut s n)
  | CClear => upd (cs_clear s)
  | CResize n => upd (cs_resize s n)
  | CSetByte c i => upd (cs_setByte s c i)
  | CSetAt i c => upd (cs_SetVarCharContent_at s i c)
  | CReplace x y => upd (cs_replace s (carg x) (carg y))
  | CSteal => '(r, n, s) ← cs_steal s; Some (ctext r n, (s, t))
  | CGetStr => r ← cs_str s; Some (match r with Some r => CText (cs_length s) r | None => CNull end, (s, t))
  | CChars => r ← cs_c_str s; Some (ctext r (cs_length s), (s, t))
  | CGetByte i => c ← cs_getByte s i; Some (CNum c, (s, t))
  | CLength => Some (CNum (cs_length s), (s, t))
  | CIndex x => i ← cs_index s (carg x); Some (CNum i, (s, t))
  | CBegin x => b ← cs_beginWith s (carg x); Some (CBool b, (s, t))
  | CEnd x => b ← cs_endWith s (carg x); Some (CBool b, (s, t))
  | CContain x => b ← cs_contain s (carg x); Some (CBool b, (s, t))
  | CEqStr x => b ← cs_eq_str s (Some (carg x)); Some (CBool b, (s, t))
  | CCmpStr x =>
      let x := Some (carg x) in
      lt ← cs_lt_str s x; le ← cs_le_str s x; gt ← cs_gt_str s x; ge ← cs_ge_str s x;
      Some (COrder lt le gt ge, (s, t))
  | CEq => b ← cs_eq s t; Some (CBool b, (s, t))
  | CCmp => lt ← cs_lt s t; le ← cs_le s t; gt ← cs_gt s t; ge ← cs_ge s t; Some (COrder lt le gt ge, (s, t))
  end.
Fixpoint crun (p : list cop) (st : cstr * cstr) : option (list cobs * (cstr * cstr)) :=
  match p with
  | [] => Some ([], st)
  | op :: p => '(x, st) ← cstep op st; '(xs, st) ← crun p st; Some (x :: xs, st)
  end.
(** Two new objects, the program, and what both encode to at the end. *)
Definition cprogram (p : list cop) : option (list cobs * cells * cells) :=
  '(xs, (s, t)) ← crun p (cs_new, cs_new);
  '(_, b) ← cs_encode s; '(_, b') ← cs_encode t; Some (xs, b, b').

(** *** The same programs over byte strings *)
Abbreviation cstring b t := (det b ++ Some 0%Z :: t).
Abbreviation nonzero b := (Forall (λ c, c ≠ 0%Z) b).
(** What the C library sees of the characters. *)
Fixpoint upto0 (b : bytes) : bytes :=
  match b with [] => [] | c :: b => if decide (c = 0)%Z then [] else c :: upto0 b end.
(** The first occurrence of [n] in [h]. *)
Fixpoint find_sub (n h : bytes) : option nat :=
  if decide (n `prefix_of` h) then Some 0 else
  match h with [] => None | _ :: h => S <$> find_sub n h end.
(** Lexicographic order, the terminator included. *)
Fixpoint lex (a b : bytes) : Z :=
  match a, b with
  | [], [] => 0 | [], y :: _ => if decide (0 < y)%Z then -1 else 1 | x :: _, [] => if decide (x < 0)%Z then -1 else 1
  | x :: a, y :: b => if decide (x = y) then lex a b else if decide (x < y)%Z then -1 else 1
  end.
(** Every occurrence of [x], from the left, replaced by [y]. *)
Fixpoint sub_all (n : nat) (x y b : bytes) : bytes :=
  match n with
  | O => b
  | S n =>
      match find_sub x b with
      | None => b
      | Some i => take i b ++ y ++ sub_all n x y (drop (i + length x) b)
      end
  end.
(** [%XX] for the four special characters, [+] for a blank. *)
Definition uric_char (c : Z) : bytes :=
  if decide (c = 38 ∨ c = 61 ∨ c = 43 ∨ c = 37)%Z then [37; hexdigit (c / 16); hexdigit (c mod 16)]%Z
  else if decide (c = 32)%Z then [43%Z] else [c].
Definition uric (b : bytes) : bytes := concat (uric_char <$> b).
(** Positions from the end are negative. *)
Definition byte_index (b : bytes) (i : Z) : option nat :=
  if decide (0 ≤ i < Z.of_nat (length b))%Z then Some (Z.to_nat i)
  else if decide (- Z.of_nat (length b) ≤ i < 0)%Z then Some (Z.to_nat (Z.of_nat (length b) + i)) else None.
Definition int4 (i : Z) : bytes :=
  let n := u32 i in [n / 2 ^ 24; n / 2 ^ 16 mod 256; n / 2 ^ 8 mod 256; n mod 256]%Z.
Definition order (o : Z) : cobs :=
  COrder (bool_decide (o < 0)%Z) (bool_decide (o ≤ 0)%Z) (bool_decide (0 < o)%Z) (bool_decide (0 ≤ o)%Z).

Definition sstep (op : cop) (st : bytes * bytes) : cobs * (bytes * bytes) :=
  let '(s, t) := st in
  let upd s := (CNothing, (s, t)) in
  match op with
  | CSwap => (CNothing, (t, s))
  | CNew x | CAssignStr x | CSet x => upd x
  | CAssignNull | CClear => upd []
  | CAssign | CCopy => upd t
  | CNCat x | CAddStr x => upd (s ++ x)
  | CAdd => upd (s ++ t)
  | CAddChar c => upd (s ++ [c])
  | CTitle x _ _ => upd (s ++ x)
  | CInt4 i => upd (s ++ int4 i)
  | CCut n => upd (match byte_index s n with Some k => take k s | None => s end)
  | CResize _ => upd s
  | CSetByte c i => upd (match byte_index s i with Some k => <[k := c]> s | None => s end)
  | CSetAt i c => upd (if decide (0 ≤ i)%Z then <[Z.to_nat i := c]> s else s)
  | CReplace x y => upd (sub_all (length s) x y (upto0 s))
  | CSteal => (CText (Z.of_nat (length s)) (carg s), ([], t))
  | CGetStr => (match s with [] => CNull | _ => CText (Z.of_nat (length s)) (carg s) end, (s, t))
  | CChars => (CText (Z.of_nat (length s)) (carg s), (s, t))
  | CGetByte i => (CNum (default 0%Z (k ← byte_index s i; s !! k)), (s, t))
  | CLength => (CNum (Z.of_nat (length s)), (s, t))
  | CIndex x => (CNum (match find_sub x (upto0 s) with Some i => Z.of_nat i | None => -1 end), (s, t))
  | CBegin x => (CBool (bool_decide (x `prefix_of` s)), (s, t))
  | CEnd x => (CBool (bool_decide (x `suffix_of` s)), (s, t))
  | CContain x => (CBool (existsb (λ c, bool_decide (c ∈ upto0 s)) x), (s, t))
  | CEqStr x => (CBool (bool_decide (upto0 s = x)), (s, t))
  | CCmpStr x => (order (lex (upto0 s) x), (s, t))
  | CEq => (CBool (bool_decide (s = t)), (s, t))
  | CCmp => (order (lex (upto0 s) (upto0 t)), (s, t))
  end.
Fixpoint srun (p : list cop) (st : bytes * bytes) : list cobs * (bytes * bytes) :=
  match p with
  | [] => ([], st)
  | op :: p => let '(x, st) := sstep op st in let '(xs, st) := srun p st in (x :: xs, st)
  end.
Definition swire (b : bytes) : cells := encode_int (Z.of_nat (length b)) ++ det b.
Definition sprogram (p : list cop) : list cobs * cells * cells :=
  let '(xs, (s, t)) := srun p ([], []) in (xs, swire s, swire t).

(** What a program may do: no zero in a [const char*], no write on the
    terminator, an occurrence to replace is not empty, and a title for
    [fCatTitle] is too long for its line (else the call comes to [fCatChars],
    which does not return). *)
Definition cop_ok (op : cop) (s : bytes) : Prop :=
  match op with
  | CNew x | CAssignStr x | CAddStr x | CIndex x | CBegin x | CEnd x | CContain x
  | CEqStr x | CCmpStr x => nonzero x
  | CTitle x _ n => nonzero x ∧ (n - 4 < Z.of_nat (length x))%Z
  | CSetAt i _ => i ≠ Z.of_nat (length s)
  | CReplace x y => nonzero x ∧ x ≠ [] ∧ nonzero y
  | _ => True
  end.
Fixpoint cprog_ok (p : list cop) (st : bytes * bytes) : Prop :=
  match p with [] => True | op :: p => cop_ok op st.1 ∧ cprog_ok p (sstep op st).2 end.

(** *** Splitting *)
Fixpoint pieces (k : nat) (sep s : bytes) : list bytes :=
  match k, s with
  | O, _ | _, [] => []
  | S k, _ =>
      match find_sub sep s with
      | None => [s]
      | Some i => take i s :: pieces k sep (drop (i + length sep) s)
      end
  end.
Fixpoint join (sep : bytes) (ps : list bytes) : bytes :=
  match ps with [] => [] | [p] => p | p :: ps => p ++ sep ++ join sep ps end.

(** ** What the object holds *)
(** A terminated string of exactly [length b] characters, within the capacity. *)
Record cs_holds (s : cstr) (b : bytes) : Prop := {
  ch_len : slen s = Z.of_nat (length b);
  ch_buf : ∃ t, sbuf s = det b ++ Some 0%Z :: t;
  ch_cap : Z.of_nat (length (sbuf s)) = (scap s + 1)%Z;
  ch_min : (MaxCStrBufferLen - 1 ≤ scap s)%Z;
}.
Lemma holds_fits s b : cs_holds s b → (Z.of_nat (length b) ≤ scap s)%Z.
Proof.
  intros [Hl [t Hb] Hc Hm]. rewrite Hb, length_app, length_fmap in Hc. cbn in Hc. lia.
Qed.

Lemma blit_eq a m c x t off n : off = Z.of_nat (length a) → n = Z.of_nat (length x) → length m = length x →
  blit (a ++ m ++ c) off (x ++ t) n = Some (a ++ x ++ c).
Proof.
  intros -> -> Hm. unfold blit. rewrite decide_True by (rewrite !length_app; lia).
  rewrite <- Nat2Z.inj_add, !Nat2Z.id, take_app_length, take_app_length. rewrite <- Hm.
  rewrite (drop_app_ge _ _ (length a + length m)) by lia.
  replace (length a + length m - length a) with (length m) by lia. by rewrite drop_app_length.
Qed.
Lemma split_room (c : cells) n : n < length c → ∃ m y t, c = m ++ y :: t ∧ length m = n.
Proof.
  intros Hn. destruct (drop n c) as [|y t] eqn:Hd.
  { apply (f_equal length) in Hd. rewrite length_drop in Hd. cbn in Hd. lia. }
  exists (take n c), y, t. split; [by rewrite <- Hd, take_drop|rewrite length_take; lia].
Qed.

(** Characters written over the rest of the string from some position on. *)
Definition overwrite (s : cstr) (pos : Z) (str : cells) (n len : Z) : option cstr :=
  b ← blit (sbuf s) pos str n; cs_end (with_buf b s) len.
Lemma overwrite_ok s b p q x str tl pos n len : cs_holds s b → b = p ++ q →
  (Z.of_nat (length p + length x) ≤ scap s)%Z → str = det x ++ tl → pos = Z.of_nat (length p) →
  len = Z.of_nat (length p + length x) →
  (n = Z.of_nat (length x) ∨ n = Z.of_nat (S (length x)) ∧ ∃ tl', tl = Some 0%Z :: tl') →
  ∃ s', overwrite s pos str n len = Some s' ∧ cs_holds s' (p ++ x) ∧ scap s' = scap s.
Proof.
  intros [Hl [t Hb] Hc Hm] -> Hfit -> -> -> Hn. unfold overwrite.
  rewrite fmap_app, <- app_assoc in Hb.
  destruct (split_room (det q ++ Some 0%Z :: t) (length x)) as (m & y & t' & Hmy & Hml).
  { rewrite Hb, !length_app, !length_fmap in Hc. rewrite length_app, length_fmap. lia. }
  rewrite Hb, Hmy.
  assert (Hend : ∀ b z, b = (det p ++ det x) ++ z :: t' → ∃ s',
    cs_end (with_buf b s) (Z.of_nat (length p + length x)) = Some s' ∧ cs_holds s' (p ++ x) ∧ scap s' = scap s).
  { intros b z ->. unfold cs_end. cbn [with_buf sbuf scap slen sheap].
    rewrite poke_app by (by rewrite length_app, !length_fmap). cbn [mbind option_bind].
    eexists. split; [done|]. split; [|done]. split; cbn [sbuf scap slen].
    - by rewrite length_app.
    - exists t'. by rewrite fmap_app.
    - rewrite <- Hc, Hb, Hmy, !length_app, !length_fmap. cbn. lia.
    - done. }
  destruct Hn as [->|[-> [tl' ->]]].
  - rewrite (blit_eq (det p) m (y :: t') (det x) tl) by (rewrite ?length_fmap; done). cbn [mbind option_bind].
    apply (Hend _ y). by rewrite <- app_assoc.
  - replace (det x ++ Some 0%Z :: tl') with ((det x ++ [Some 0%Z]) ++ tl') by (by rewrite <- app_assoc).
    replace (m ++ y :: t') with ((m ++ [y]) ++ t') by (by rewrite <- app_assoc).
    rewrite (blit_eq (det p) (m ++ [y]) t' (det x ++ [Some 0%Z]) tl')
      by (rewrite ?length_app, ?length_fmap; cbn; lia). cbn [mbind option_bind].
    apply (Hend _ (Some 0%Z)). by rewrite <- !app_assoc.
Qed.

Lemma alloc_ok n : (0 ≤ n)%Z → w_alloc n = Some (uninit (Z.to_nat n)).
Proof. intros. unfold w_alloc. by rewrite decide_True. Qed.
Lemma resize_ok s b n : cs_holds s b → (scap s < n)%Z →
  ∃ s', cs_resize s n = Some s' ∧ cs_holds s' b ∧ (n ≤ scap s')%Z.
Proof.
  intros Hs Hn. pose proof (holds_fits s b Hs) as Hfit. destruct Hs as [Hl [t Hb] Hc Hm].
  unfold cs_resize. rewrite decide_False by lia. cbv zeta. unfold MaxCStrBufferLen in *.
  set (r := ((n ÷ 32 + 1) * 32)%Z).
  assert (Hr : (n < r)%Z).
  { subst r. rewrite Z.quot_div_nonneg by lia. pose proof (Z.mod_pos_bound n 32 ltac:(lia)).
    pose proof (Z.div_mod n 32 ltac:(lia)). lia. }
  rewrite alloc_ok by lia. cbn [mbind option_bind].
  replace (sbuf s) with ((det b ++ [Some 0%Z]) ++ t) by (by rewrite Hb, <- app_assoc).
  replace (uninit (Z.to_nat r)) with ([] ++ uninit (S (length b)) ++ uninit (Z.to_nat r - S (length b))).
  2: { cbn [app]. unfold uninit. rewrite <- replicate_add. f_equal. lia. }
  rewrite (blit_eq []) by (unfold uninit; rewrite ?length_app, ?length_fmap, ?length_replicate; cbn; lia).
  cbn [mbind option_bind app]. eexists. split; [done|]. split; [|cbn; lia]. split; cbn [sbuf slen scap].
  - done.
  - eexists. by rewrite <- app_assoc.
  - unfold uninit. rewrite !length_app, length_fmap, length_replicate. cbn. lia.
  - unfold MaxCStrBufferLen. lia.
Qed.
Lemma room_ok s b n : cs_holds s b → ∃ s', cs_room s n = Some s' ∧ cs_holds s' b ∧ (n ≤ scap s')%Z.
Proof.
  intros Hs. unfold cs_room. case_decide as Hn; [by apply resize_ok|]. exists s. split_and!; [done|done|lia].
Qed.

(** *** Members *)
Lemma cs_new_holds : cs_holds cs_new [].
Proof. split; cbn; [done|by eexists|done|done]. Qed.
Lemma append_ok s b x str tl n : cs_holds s b → str = det x ++ tl →
  (n = Z.of_nat (length x) ∨ n = Z.of_nat (S (length x)) ∧ ∃ tl', tl = Some 0%Z :: tl') →
  ∃ s', (s ← cs_room s (slen s + Z.of_nat (length x));
         c ← blit (sbuf s) (slen s) str n; cs_end (with_buf c s) (slen s + Z.of_nat (length x))) = Some s' ∧
        cs_holds s' (b ++ x).
Proof.
  intros Hs Hstr Hn. destruct (room_ok s b (slen s + Z.of_nat (length x)) Hs) as (s1 & -> & H1 & Hcap).
  cbn [mbind option_bind]. pose proof (ch_len _ _ H1) as Hl1. rewrite (ch_len _ _ Hs) in Hcap.
  destruct (overwrite_ok s1 b b [] x str tl (slen s1) n (slen s1 + Z.of_nat (length x))) as (s' & Ho & Hh & _);
    [done|by rewrite app_nil_r|lia|done|done|rewrite Hl1; lia|done|].
  exists s'. split; [exact Ho|done].
Qed.
Lemma nCat_ok s b x t : cs_holds s b → ∃ s', cs_nCat s (det x ++ t) (Z.of_nat (length x)) = Some s' ∧ cs_holds s' (b ++ x).
Proof. intros Hs. by eapply append_ok; [|done|left]. Qed.
Lemma add_ok s b s2 x : cs_holds s b → cs_holds s2 x → ∃ s', cs_add s s2 = Some s' ∧ cs_holds s' (b ++ x).
Proof.
  intros Hs [Hl [t Hb] _ _]. unfold cs_add. rewrite Hl, Hb.
  eapply append_ok; [done|done|]. right. split; [lia|by eexists].
Qed.
Lemma add_str_ok s b x t : cs_holds s b → Forall (λ c, c ≠ 0%Z) x →
  ∃ s', cs_add_str s (det x ++ Some 0%Z :: t) = Some s' ∧ cs_holds s' (b ++ x).
Proof.
  intros Hs Hx. unfold cs_add_str. rewrite strlen_det by done. cbn [mbind option_bind]. cbv zeta.
  eapply append_ok; [done|done|]. right. split; [lia|by eexists].
Qed.
Lemma add_char_ok s b c : cs_holds s b → ∃ s', cs_add_char s c = Some s' ∧ cs_holds s' (b ++ [c]).
Proof.
  intros Hs. unfold cs_add_char. destruct (room_ok s b (slen s + 1) Hs) as (s1 & -> & H1 & Hcap).
  cbn [mbind option_bind]. pose proof H1 as [Hl [t Hb] Hc Hm]. rewrite (ch_len _ _ Hs) in Hcap.
  rewrite Hb, poke_app by (by rewrite length_fmap). cbn [mbind option_bind].
  destruct t as [|y t]; [rewrite Hb, length_app, length_fmap in Hc; cbn in Hc; lia|].
  unfold cs_end. cbn [with_buf sbuf slen scap sheap].
  change (det b ++ Some c :: y :: t) with (det b ++ [Some c] ++ y :: t). rewrite app_assoc.
  rewrite poke_app by (rewrite length_app, length_fmap; cbn; lia). cbn [mbind option_bind].
  eexists. split; [done|]. split; cbn [sbuf slen scap].
  - rewrite Hl, length_app. cbn. lia.
  - exists t. by rewrite fmap_app.
  - rewrite <- Hc, Hb, !length_app. cbn. lia.
  - done.
Qed.
Lemma str_clear_ok s b : cs_holds s b → ∃ s', cs_clear s = Some s' ∧ cs_holds s' [].
Proof.
  intros [Hl [t Hb] Hc Hm]. unfold cs_clear, poke. rewrite decide_True by (rewrite Hb, length_app; cbn; lia).
  cbn [mbind option_bind]. eexists. split; [done|]. split; cbn [sbuf slen scap]; [done| |by rewrite length_insert|done].
  rewrite Hb. destruct b; cbn; by eexists.
Qed.
Lemma assign_str_ok s b x t : cs_holds s b → Forall (λ c, c ≠ 0%Z) x →
  ∃ s', cs_assign_str s (Some (det x ++ Some 0%Z :: t)) = Some s' ∧ cs_holds s' x.
Proof.
  intros Hs Hx. unfold cs_assign_str. destruct x as [|c x].
  { change (peek _ 0) with (Some 0%Z). cbn [mbind option_bind]. by eapply str_clear_ok. }
  change (peek _ 0) with (Some c). cbn [mbind option_bind].
  rewrite decide_False by (by inversion Hx). rewrite strlen_det by done. cbn [mbind option_bind]. cbv zeta.
  destruct (room_ok s b (Z.of_nat (length (c :: x))) Hs) as (s1 & -> & H1 & Hcap). cbn [mbind option_bind].
  destruct (overwrite_ok s1 b [] b (c :: x) (det (c :: x) ++ Some 0%Z :: t) (Some 0%Z :: t) 0
    (Z.of_nat (length (c :: x)) + 1) (Z.of_nat (length (c :: x)))) as (s' & Ho & Hh & _);
    [done|done|done|done|done|done|right; split; [lia|by eexists]|]. by exists s'.
Qed.
Lemma assign_ok s b s2 x : cs_holds s b → cs_holds s2 x → ∃ s', cs_assign s s2 = Some s' ∧ cs_holds s' x.
Proof.
  intros Hs [Hl [t Hb] _ _]. unfold cs_assign. rewrite Hl, Hb.
  destruct (room_ok s b (Z.of_nat (length x)) Hs) as (s1 & -> & H1 & Hcap). cbn [mbind option_bind].
  pose proof H1 as [_ [t1 Hb1] Hc1 Hm1].
  destruct (split_room (sbuf s1) (S (length x) - 1)) as (m & y & t' & Hmy & Hml); [lia|]. rewrite Hmy.
  replace (m ++ y :: t') with ([] ++ (m ++ [y]) ++ t') by (cbn; by rewrite <- app_assoc).
  replace (det x ++ Some 0%Z :: t) with ((det x ++ [Some 0%Z]) ++ t) by (by rewrite <- app_assoc).
  rewrite (blit_eq []) by (rewrite ?length_app, ?length_fmap; cbn; lia). cbn [mbind option_bind app].
  eexists. split; [done|]. split; cbn [sbuf slen scap].
  - done.
  - exists t'. by rewrite <- app_assoc.
  - rewrite <- Hc1, Hmy, !length_app, length_fmap. cbn. lia.
  - done.
Qed.
Lemma set_ok s b x t : cs_holds s b → ∃ s', cs_set s (det x ++ t) (Z.of_nat (length x)) = Some s' ∧ cs_holds s' x.
Proof.
  intros Hs. unfold cs_set. destruct (room_ok s b (Z.of_nat (length x)) Hs) as (s1 & -> & H1 & Hcap).
  cbn [mbind option_bind]. case_decide as Hx.
  - assert (x = []) as -> by (destruct x; [done|cbn in Hx; lia]).
    destruct (str_clear_ok s1 b H1) as (s2 & Hcl & H2). unfold cs_clear in Hcl.
    destruct (poke (sbuf s1) 0 0) as [c|] eqn:Hp; [|done]. cbn [mbind option_bind] in Hcl |- *. injection Hcl as <-.
    destruct (overwrite_ok _ [] [] [] [] (det [] ++ t) t 0 0 0 H2) as (s' & Ho & Hh & _);
      [done|cbn; pose proof (ch_min _ _ H1); unfold MaxCStrBufferLen in *; lia|done|done|done|by left|].
    exists s'. split; [exact Ho|done].
  - cbn [mbind option_bind].
    destruct (overwrite_ok s1 b [] b x (det x ++ t) t 0 (Z.of_nat (length x)) (Z.of_nat (length x)) H1)
      as (s' & Ho & Hh & _); [done|done|done|done|done|by left|]. exists s'. split; [exact Ho|done].
Qed.
Lemma end_ok s b n : cs_holds s b → (0 ≤ n ≤ Z.of_nat (length b))%Z →
  ∃ s', cs_end s n = Some s' ∧ cs_holds s' (take (Z.to_nat n) b).
Proof.
  intros Hs Hn. pose proof (holds_fits _ _ Hs).
  destruct (overwrite_ok s b (take (Z.to_nat n) b) (drop (Z.to_nat n) b) [] [] [] n 0 n Hs) as (s' & Ho & Hh & _).
  - by rewrite take_drop.
  - rewrite length_take. cbn. lia.
  - done.
  - rewrite length_take. lia.
  - rewrite length_take. cbn. lia.
  - by left.
  - rewrite app_nil_r in Hh. exists s'. split; [|done]. unfold overwrite in Ho.
    assert (Hbl : blit (sbuf s) n [] 0 = Some (sbuf s)).
    { unfold blit. pose proof (ch_cap _ _ Hs). rewrite decide_True by (cbn; lia). rewrite Z.add_0_r. change (Z.to_nat 0) with 0. rewrite take_0. cbn [app].
      by rewrite take_drop. }
    rewrite Hbl in Ho. cbn [mbind option_bind] in Ho. by destruct s.
Qed.
Lemma cut_ok s b n : cs_holds s b →
  ∃ s', cs_cut s n = Some s' ∧ cs_holds s' (if decide (0 ≤ n)%Z then take (Z.to_nat n) b
    else if decide (- Z.of_nat (length b) ≤ n)%Z then take (Z.to_nat (Z.of_nat (length b) + n)) b else b).
Proof.
  intros Hs. unfold cs_cut. rewrite (ch_len _ _ Hs). case_decide as H1.
  - exists s. split; [done|]. repeat case_decide; [by rewrite take_ge by lia|lia|done].
  - case_decide; [apply end_ok; [done|lia]|]. rewrite decide_True by lia. apply end_ok; [done|lia].
Qed.
Lemma copy_ok s b : cs_holds s b → ∃ s', cs_copy s = Some s' ∧ cs_holds s' b.
Proof.
  intros [Hl [t Hb] Hc Hm]. unfold cs_copy. rewrite Hl. cbv zeta.
  replace (sbuf s) with ((det b ++ [Some 0%Z]) ++ t) by (by rewrite Hb, <- app_assoc).
  unfold MaxCStrBufferLen in *. case_decide as Hn.
  - rewrite alloc_ok by lia. cbn [mbind option_bind].
    replace (uninit _) with ([] ++ uninit (Z.to_nat (Z.of_nat (length b) + 1)) ++ []) by (cbn; by rewrite app_nil_r).
    rewrite (blit_eq []) by (unfold uninit; rewrite ?length_app, ?length_fmap, ?length_replicate; cbn; lia).
    cbn [mbind option_bind app]. eexists. split; [done|]. split; cbn [sbuf slen scap].
    + done.
    + eexists. by rewrite <- app_assoc.
    + rewrite !length_app, length_fmap. cbn. lia.
    + unfold MaxCStrBufferLen. lia.
  - destruct (split_room (sbuf cs_new) (length b)) as (m & y & t' & Hmy & Hml); [cbn; lia|]. rewrite Hmy.
    replace (m ++ y :: t') with ([] ++ (m ++ [y]) ++ t') by (cbn; by rewrite <- app_assoc).
    rewrite (blit_eq []) by (rewrite ?length_app, ?length_fmap; cbn; lia). cbn [mbind option_bind app].
    eexists. split; [done|]. split; cbn [sbuf slen scap].
    + done.
    + eexists. by rewrite <- app_assoc.
    + apply (f_equal length) in Hmy. rewrite length_app in Hmy. cbn in Hmy.
      rewrite !length_app, length_fmap. cbn. lia.
    + unfold MaxCStrBufferLen. lia.
Qed.
Lemma new_str_ok x t : Forall (λ c, c ≠ 0%Z) x → ∃ s', cs_new_str (Some (det x ++ Some 0%Z :: t)) = Some s' ∧ cs_holds s' x.
Proof.
  intros Hx. unfold cs_new_str. rewrite strlen_det by done. cbn [mbind option_bind]. cbv zeta.
  replace (det x ++ Some 0%Z :: t) with ((det x ++ [Some 0%Z]) ++ t) by (by rewrite <- app_assoc).
  unfold MaxCStrBufferLen. case_decide as Hn.
  - rewrite alloc_ok by lia. cbn [mbind option_bind].
    replace (uninit _) with ([] ++ uninit (Z.to_nat (Z.of_nat (length x) + 1)) ++ []) by (cbn; by rewrite app_nil_r).
    rewrite (blit_eq []) by (unfold uninit; rewrite ?length_app, ?length_fmap, ?length_replicate; cbn; lia).
    cbn [mbind option_bind app]. eexists. split; [done|]. split; cbn [sbuf slen scap].
    + done.
    + eexists. by rewrite <- app_assoc.
    + rewrite !length_app, length_fmap. cbn. lia.
    + unfold MaxCStrBufferLen. lia.
  - replace (uninit 32) with ([] ++ uninit (S (length x)) ++ uninit (32 - S (length x))).
    2: { cbn [app]. unfold uninit. rewrite <- replicate_add. f_equal. lia. }
    rewrite (blit_eq []) by (unfold uninit; rewrite ?length_app, ?length_fmap, ?length_replicate; cbn; lia).
    cbn [mbind option_bind app]. eexists. split; [done|]. split; cbn [sbuf slen scap].
    + done.
    + eexists. by rewrite <- app_assoc.
    + unfold uninit. rewrite !length_app, length_fmap, length_replicate. cbn. lia.
    + unfold MaxCStrBufferLen. lia.
Qed.

(** The characters handed out by [steal] and [str]. *)
Lemma dup_ok s b : cs_holds s b →
  (r ← w_alloc (slen s + 1); r ← blit r 0 (sbuf s) (slen s); poke r (slen s) 0) = Some (det b ++ [Some 0%Z]).
Proof.
  intros [Hl [t Hb] Hc Hm]. rewrite Hl, alloc_ok by lia. cbn [mbind option_bind]. rewrite Hb.
  replace (uninit _) with ([] ++ uninit (length b) ++ [None]).
  2: { cbn [app]. unfold uninit. rewrite <- replicate_S_end. f_equal. lia. }
  rewrite (blit_eq []) by (unfold uninit; rewrite ?length_fmap, ?length_replicate; done).
  cbn [mbind option_bind app]. by rewrite poke_app by (by rewrite length_fmap).
Qed.
Lemma steal_ok s b : cs_holds s b →
  ∃ r t s', cs_steal s = Some (r, Z.of_nat (length b), s') ∧ r = det b ++ Some 0%Z :: t ∧ cs_holds s' [].
Proof.
  intros Hs. pose proof (ch_len _ _ Hs) as Hl. unfold cs_steal. destruct (sheap s) eqn:Hh.
  - destruct (ch_buf _ _ Hs) as [t Hb]. exists (sbuf s), t. eexists. rewrite Hl. split; [done|]. split; [done|].
    apply cs_new_holds.
  - pose proof (dup_ok s b Hs) as Hd. destruct (w_alloc _) as [r|]; [|done]. cbn [mbind option_bind] in Hd |- *.
    destruct (blit r 0 _ _) as [r'|]; [|done]. cbn [mbind option_bind] in Hd |- *. rewrite Hd. cbn [mbind option_bind].
    destruct (str_clear_ok s b Hs) as (s' & Hc & Hh'). unfold cs_clear in Hc.
    destruct (poke (sbuf s) 0 0) as [c|]; [|done]. cbn [mbind option_bind] in Hc |- *. injection Hc as <-.
    rewrite Hh in Hh'. do 3 eexists. rewrite Hl. split; [done|]. by split.
Qed.

Lemma c_str_ok s b : cs_holds s b → cs_c_str s = Some (sbuf s).
Proof.
  intros [Hl [t Hb] Hc Hm]. unfold cs_c_str. by rewrite Hl, Hb, poke_app by (by rewrite length_fmap).
Qed.
Lemma getByte_ok s b i : cs_holds s b →
  cs_getByte s i = Some (default 0%Z (if decide (0 ≤ i)%Z then b !! Z.to_nat i
    else if decide (- Z.of_nat (length b) ≤ i)%Z then b !! Z.to_nat (Z.of_nat (length b) + i) else None)).
Proof.
  intros [Hl [t Hb] Hc Hm]. unfold cs_getByte. rewrite Hl, Hb. case_decide as H1.
  - destruct (decide (0 ≤ i)%Z); [by rewrite lookup_ge_None_2 by lia|]. by rewrite decide_False by lia.
  - destruct (decide (0 ≤ i)%Z) as [Hi|Hi].
    + destruct (peek_det b (Some 0%Z :: t) i) as (x & -> & ->); [lia|done].
    + rewrite decide_True by lia.
      destruct (peek_det b (Some 0%Z :: t) (Z.of_nat (length b) + i)) as (x & -> & ->); [lia|done].
Qed.
Lemma write_ok s b i c : cs_holds s b → (0 ≤ i < Z.of_nat (length b))%Z →
  ∃ b', poke (sbuf s) i c = Some b' ∧ cs_holds (with_buf b' s) (<[Z.to_nat i := c]> b).
Proof.
  intros [Hl [t Hb] Hc Hm] Hi. unfold poke.
  rewrite decide_True by (rewrite Hb, length_app, length_fmap; lia). eexists. split; [done|].
  split; cbn [with_buf sbuf slen scap]; rewrite ?length_insert; [done| |done|done].
  exists t. rewrite Hb, insert_app_l by (rewrite length_fmap; lia). by rewrite list_fmap_insert.
Qed.
Lemma setByte_ok s b i c : cs_holds s b →
  ∃ s', cs_setByte s c i = Some s' ∧ cs_holds s' (if decide (0 ≤ i)%Z then <[Z.to_nat i := c]> b
    else if decide (- Z.of_nat (length b) ≤ i)%Z then <[Z.to_nat (Z.of_nat (length b) + i) := c]> b else b).
Proof.
  intros Hs. unfold cs_setByte. rewrite (ch_len _ _ Hs). case_decide as H1.
  - exists s. split; [done|]. destruct (decide (0 ≤ i)%Z); [by rewrite list_insert_ge by lia|].
    by rewrite decide_False by lia.
  - destruct (decide (0 ≤ i)%Z) as [Hi|Hi].
    + destruct (write_ok s b i c Hs) as (b' & -> & Hh); [lia|]. by eexists.
    + rewrite decide_True by lia.
      destruct (write_ok s b (Z.of_nat (length b) + i) c Hs) as (b' & -> & Hh); [lia|]. by eexists.
Qed.
Lemma set_at_ok s b i c : cs_holds s b → i ≠ Z.of_nat (length b) →
  ∃ s', cs_SetVarCharContent_at s i c = Some s' ∧
        cs_holds s' (if decide (0 ≤ i)%Z then <[Z.to_nat i := c]> b else b).
Proof.
  intros Hs Hi. unfold cs_SetVarCharContent_at. rewrite (ch_len _ _ Hs).
  destruct (decide (i ≤ Z.of_nat (length b) ∧ 0 ≤ i)%Z) as [H1|H1].
  - rewrite (decide_True (P := (0 ≤ i)%Z)) by lia. destruct (write_ok s b i c Hs) as (b' & -> & Hh); [lia|]. by eexists.
  - exists s. split; [done|]. case_decide; [|done]. by rewrite list_insert_ge by lia.
Qed.

(** *** On the wire *)
Lemma cs_encode_ok s b : cs_holds s b →
  cs_encode s = Some ((4 + Z.of_nat (length b))%Z, encode_int (Z.of_nat (length b)) ++ det b).
Proof.
  intros [Hl [t Hb] Hc Hm]. unfold cs_encode, cs_size. rewrite Hl. case_decide as H0.
  - rewrite decide_True by (rewrite Hb, length_app, length_fmap; lia).
    rewrite Nat2Z.id, Hb. by rewrite take_app_le, take_ge by (rewrite length_fmap; lia).
  - destruct b; [|cbn in H0; lia]. by rewrite app_nil_r.
Qed.
Lemma decode_from_ok s b x t pre : cs_holds s b →
  ∃ s', (s ← cs_room s (Z.of_nat (length x));
         c ← blit (sbuf s) 0 (det x ++ t) (Z.of_nat (length x)); s ← cs_end (with_buf c s) (Z.of_nat (length x));
         Some (pre s)) = Some (pre s' : Z * cstr * cells) ∧ cs_holds s' x.
Proof.
  intros Hs. destruct (room_ok s b (Z.of_nat (length x)) Hs) as (s1 & -> & H1 & Hcap). cbn [mbind option_bind].
  destruct (overwrite_ok s1 b [] b x (det x ++ t) t 0 (Z.of_nat (length x)) (Z.of_nat (length x)) H1)
    as (s' & Ho & Hh & _); [done|done|done|done|done|by left|]. exists s'. split; [|done].
  unfold overwrite in Ho. destruct (blit _ _ _ _) as [c|]; [|done]. cbn [mbind option_bind] in Ho |- *. by rewrite Ho.
Qed.
Lemma cs_decode_ok s b x rest : cs_holds s b → (Z.of_nat (length x) < 2 ^ 31)%Z →
  ∃ s', cs_decode s (encode_int (Z.of_nat (length x)) ++ det x ++ rest)
      = Some ((4 + Z.of_nat (length x))%Z, s', rest) ∧ cs_holds s' x.
Proof.
  intros Hs Hx. unfold cs_decode. rewrite decode_encode_int by lia. cbn [mbind option_bind].
  destruct (decode_from_ok s b x rest (λ s, (cs_size s, s, drop (Z.to_nat (Z.of_nat (length x))) (det x ++ rest))) Hs)
    as (s' & He & Hh). cbv beta in He. rewrite He. exists s'. split; [|done]. unfold cs_size.
  rewrite (ch_len _ _ Hh), Nat2Z.id. by rewrite drop_app_length' by (by rewrite length_fmap).
Qed.

(** *** Searching *)
#[local] Hint Constructors Forall : core.

Lemma strprefix_ok h n t t' : nonzero n →
  strprefix (cstring h t) (cstring n t') = Some (bool_decide (n `prefix_of` h)).
Proof.
  intros Hn. revert h. induction Hn as [|y n Hy Hn IH]; intros h; cbn [strprefix fmap list_fmap app].
  { rewrite bool_decide_eq_true_2; [done|]. apply prefix_nil. }
  rewrite decide_False by done. destruct h as [|x h]; cbn [fmap list_fmap app].
  { rewrite decide_False by done. rewrite bool_decide_eq_false_2; [done|]. intros Hp. by apply prefix_nil_not in Hp. }
  case_decide as Hxy.
  - subst y. rewrite IH. f_equal. apply bool_decide_ext. split; [apply prefix_cons|apply prefix_cons_inv_2].
  - rewrite bool_decide_eq_false_2; [done|]. intros Hp. apply prefix_cons_inv_1 in Hp. congruence.
Qed.
Lemma strstr_ok h n t t' : nonzero h → nonzero n →
  strstr (cstring h t) (cstring n t') = Some (Z.of_nat <$> find_sub n h).
Proof.
  intros Hh Hn. induction Hh as [|x h Hx Hh IH].
  - pose proof (strprefix_ok [] n t t' Hn) as Hp. cbn in Hp. cbn [strstr fmap list_fmap app find_sub].
    rewrite Hp. cbn [mbind option_bind]. case_decide as Hpre.
    + by rewrite bool_decide_eq_true_2.
    + rewrite bool_decide_eq_false_2 by done. by rewrite decide_True.
  - pose proof (strprefix_ok (x :: h) n t t' Hn) as Hp. cbn [strstr fmap list_fmap app find_sub] in Hp |- *.
    rewrite Hp. cbn [mbind option_bind]. case_decide as Hpre.
    + by rewrite bool_decide_eq_true_2.
    + rewrite bool_decide_eq_false_2 by done. rewrite decide_False by done. cbn in IH. rewrite IH. cbn [mbind option_bind].
      rewrite decide_False by done.
      destruct (find_sub n h) as [i|]; [|done]. cbn. do 2 f_equal. lia.
Qed.
Lemma find_sub_spec n h i : find_sub n h = Some i →
  h = take i h ++ n ++ drop (i + length n) h ∧ i + length n ≤ length h ∧ ∀ j, j < i → ¬ n `prefix_of` drop j h.
Proof.
  revert i. induction h as [|x h IH]; intros i; cbn [find_sub]; case_decide as Hp.
  - intros [= <-]. apply prefix_nil_inv in Hp. subst n. split_and!; [done|done|intros; lia].
  - done.
  - intros [= <-]. destruct Hp as [k ->]. cbn [take app Nat.add]. rewrite drop_app_length, length_app.
    split_and!; [done|lia|intros; lia].
  - intros (j & Hj & ->)%fmap_Some. destruct (IH j Hj) as (He & Hl & Hno). cbn [take drop app Nat.add length].
    split_and!; [by f_equal|lia|]. intros [|k] Hk; [done|]. apply Hno. lia.
Qed.
Lemma find_sub_None n h : find_sub n h = None → ∀ j, ¬ n `prefix_of` drop j h.
Proof.
  induction h as [|x h IH]; cbn [find_sub]; case_decide as Hp; try done.
  - intros _ j. by rewrite drop_nil.
  - intros Hn [|j]; [done|]. apply IH. by destruct (find_sub n h).
Qed.

(** *** Splitting *)
Lemma join_cons sep p ps : ps ≠ [] → join sep (p :: ps) = p ++ sep ++ join sep ps.
Proof. by destruct ps. Qed.

Lemma pieces_join k sep s : sep ≠ [] → length s ≤ k →
  join sep (pieces k sep s) = s ∨ join sep (pieces k sep s) ++ sep = s.
Proof.
  intros Hsep. revert s. induction k as [|k IH]; intros s Hk.
  { destruct s; [by left|cbn in Hk; lia]. }
  destruct s as [|x s]; [by left|]. cbn [pieces]. destruct (find_sub sep (x :: s)) as [i|] eqn:Hf; [|by left].
  destruct (find_sub_spec _ _ _ Hf) as (He & Hl & _). set (h := x :: s) in *.
  assert (Hsl : 0 < length sep) by (destruct sep; [done|cbn; lia]).
  destruct (IH (drop (i + length sep) h)) as [H1|H1]; [rewrite length_drop; lia| |].
  - destruct (pieces k sep (drop (i + length sep) h)) as [|p ps] eqn:Hps.
    + right. cbn [join] in H1 |- *. rewrite He at 2. by rewrite <- H1, app_nil_r.
    + left. rewrite join_cons, H1 by done. by rewrite <- He.
  - destruct (pieces k sep (drop (i + length sep) h)) as [|p ps] eqn:Hps.
    + exfalso. cbn in H1. pose proof (f_equal length H1) as Hlen. rewrite length_drop in Hlen.
      destruct k as [|k]; [lia|]. cbn [pieces] in Hps.
      rewrite <- H1 in Hps. destruct sep as [|y sep]; [done|]. cbn [find_sub] in Hps. by rewrite decide_True in Hps by done.
    + right. rewrite join_cons by done. rewrite <- !app_assoc, H1. by rewrite <- He.
Qed.
Lemma pieces_sub k sep s p : sep ≠ [] → p ∈ pieces k sep s → ∀ j, ¬ sep `prefix_of` drop j p.
Proof.
  intros Hsep. revert s. induction k as [|k IH]; intros s; [by intros ?%not_elem_of_nil|].
  destruct s as [|x s]; [by intros ?%not_elem_of_nil|]. cbn [pieces].
  destruct (find_sub sep (x :: s)) as [i|] eqn:Hf.
  - destruct (find_sub_spec _ _ _ Hf) as (He & Hl & Hno). intros [->|Hp]%elem_of_cons; [|by eapply IH].
    intros j Hpre. assert (Hji : j < i).
    { apply prefix_length in Hpre. rewrite length_drop, length_take in Hpre. destruct sep; [done|cbn in *; lia]. }
    apply (Hno j Hji). etrans; [exact Hpre|]. exists (drop i (x :: s)).
    rewrite <- drop_app_le by (rewrite length_take; lia). by rewrite take_drop.
  - intros ->%list_elem_of_singleton. by apply find_sub_None.
Qed.

Lemma det_drop (b : bytes) n t : n ≤ length b → drop n (cstring b t) = cstring (drop n b) t.
Proof. intros Hn. by rewrite drop_app_le, fmap_drop by (by rewrite length_fmap). Qed.
Lemma nonzero_drop n (b : bytes) : nonzero b → nonzero (drop n b).
Proof. apply Forall_drop. Qed.
Lemma assign_from_ok a b0 b t : cs_holds a b0 → nonzero b →
  ∃ a', cs_assign_str a (Some (cstring b t)) = Some a' ∧ cs_holds a' b.
Proof. apply assign_str_ok. Qed.

Lemma split_from_ok argv olds b t sep ts : Forall2 cs_holds argv olds → nonzero b → nonzero sep →
  ∃ out, cs_split_from argv (cstring b t) (Z.of_nat (length b)) (cstring sep ts) (Z.of_nat (length sep)) = Some out ∧
    Forall2 cs_holds out (pieces (length argv) sep b).
Proof.
  intros Ha. revert b. induction Ha as [|a o argv olds Ha Has IH]; intros b Hb Hsep; cbn [cs_split_from length pieces].
  { by exists []. }
  destruct b as [|x b]; [rewrite decide_True by (cbn; lia); by exists []|]. set (h := x :: b) in *.
  rewrite decide_False by (subst h; cbn; lia). rewrite strstr_ok by done. cbn [mbind option_bind].
  destruct (find_sub sep h) as [i|] eqn:Hf; cbn [fmap option_fmap option_map].
  - destruct (find_sub_spec _ _ _ Hf) as (He & Hl & _).
    destruct (set_ok a o (take i h) (det (drop i h) ++ Some 0%Z :: t) Ha) as (a' & Hs & Hh).
    rewrite app_assoc, <- fmap_app, take_drop, length_take, Nat.min_l in Hs by lia. rewrite Hs. cbn [mbind option_bind].
    replace (Z.to_nat (Z.of_nat i + Z.of_nat (length sep))) with (i + length sep) by lia. rewrite det_drop by done.
    replace (Z.of_nat (length h) - (Z.of_nat i + Z.of_nat (length sep)))%Z
      with (Z.of_nat (length (drop (i + length sep) h))) by (rewrite length_drop; lia).
    destruct (IH (drop (i + length sep) h)) as (out & -> & Hout); [by apply nonzero_drop|done|].
    exists (a' :: out). by split; [|constructor].
  - destruct (assign_str_ok a o h t Ha Hb) as (a' & -> & Hh). exists [a']. by split; [|constructor].
Qed.
Lemma merge_from_ok first s b argv ps : cs_holds s b → Forall2 cs_holds argv ps →
  ∃ s', cs_merge_from first s argv = Some s' ∧
    cs_holds s' (b ++ match ps with [] => [] | _ => (if first then [] else [32%Z]) ++ join [32%Z] ps end).
Proof.
  intros Hs Hp. revert first s b Hs. induction Hp as [|a p argv ps Ha Hp IH]; intros first s b Hs; cbn [cs_merge_from].
  { exists s. by rewrite app_nil_r. }
  assert (H1 : ∃ s1, (if first then Some s else cs_add_str s [Some 32%Z; Some 0%Z]) = Some s1 ∧
    cs_holds s1 (b ++ if first then [] else [32%Z])).
  { destruct first; [exists s; by rewrite app_nil_r|]. by apply (add_str_ok s b [32%Z] []); [|repeat constructor]. }
  destruct H1 as (s1 & -> & H1). cbn [mbind option_bind].
  destruct (add_ok s1 _ a p H1 Ha) as (s2 & -> & H2). cbn [mbind option_bind].
  destruct (IH false s2 _ H2) as (s' & He & Hh). exists s'. split; [done|].
  destruct ps as [|p2 ps]; [by rewrite app_nil_r, <- app_assoc in Hh|].
  rewrite (join_cons _ p) by done. by rewrite <- !app_assoc in Hh.
Qed.

(** *** Escapes *)
Lemma uric_length b : length (uric b) ≤ 3 * length b.
Proof.
  induction b as [|c b IH]; cbn; [lia|]. rewrite length_app. unfold uric in IH.
  assert (length (uric_char c) ≤ 3) by (unfold uric_char; repeat case_decide; cbn; lia). lia.
Qed.
Lemma uric_nonzero b : nonzero b → nonzero (uric b).
Proof.
  induction 1 as [|c b Hc Hb IH]; cbn; [constructor|]. apply Forall_app. split; [|done].
  unfold uric_char. case_decide as H1.
  - destruct H1 as [ ->|[ ->|[ ->| ->]]]; repeat constructor; by vm_compute.
  - case_decide; repeat constructor; lia.
Qed.
Lemma uric_encode_ok b t p rest : nonzero b → 3 * length b < length rest →
  ∃ t', uric_encode_from (cstring b t) (det p ++ rest) (Z.of_nat (length p))
    = Some (cstring (p ++ uric b) t', Z.of_nat (length (p ++ uric b))).
Proof.
  intros Hb. revert p rest. induction Hb as [|c b Hc Hb IH]; intros p rest Hr; cbn [uric_encode_from fmap list_fmap app].
  { rewrite decide_True by done. destruct rest as [|y rest]; [cbn in Hr; lia|].
    rewrite poke_app by (by rewrite length_fmap). cbn [mbind option_bind]. exists rest.
    unfold uric. cbn. by rewrite app_nil_r. }
  rewrite decide_False by done. unfold uric. cbn [fmap list_fmap concat]. unfold uric_char at 1 3. cbn [length] in Hr.
  case_decide as Hsp.
  - destruct (split_room rest 3) as (m & y & t' & -> & Hm); [lia|].
    replace (m ++ y :: t') with ((m ++ [y]) ++ t') by (by rewrite <- app_assoc).
    rewrite (blit_eq (det p) (m ++ [y]) t' [Some 37%Z; Some (hexdigit (c / 16)); Some (hexdigit (c mod 16)); Some 0%Z] [])
      by (rewrite ?length_fmap, ?length_app; cbn; lia). cbn [mbind option_bind].
    destruct (IH (p ++ [37; hexdigit (c / 16); hexdigit (c mod 16)]%Z) (Some 0%Z :: t')) as (t2 & He).
    { rewrite length_app in Hr. cbn in Hr |- *. lia. }
    exists t2. unfold uric in He. rewrite <- app_assoc in He.
    rewrite fmap_app, <- app_assoc, length_app in He. cbn [length fmap list_fmap app] in He.
    replace (Z.of_nat (length p) + 3)%Z with (Z.of_nat (length p + 3)) by lia. exact He.
  - destruct rest as [|y rest]; [cbn in Hr; lia|]. rewrite poke_app by (by rewrite length_fmap). cbn [mbind option_bind].
    destruct (IH (p ++ [if decide (c = 32)%Z then 43%Z else c]) rest) as (t2 & He); [cbn in Hr; lia|].
    exists t2. unfold uric in He. rewrite <- app_assoc in He.
    rewrite fmap_app, <- app_assoc, length_app in He. cbn [length fmap list_fmap app] in He.
    replace (Z.of_nat (length p) + 1)%Z with (Z.of_nat (length p + 1)) by lia.
    case_decide; exact He.
Qed.
Lemma peek_at (p : cells) x t i : i = Z.of_nat (length p) → peek (p ++ Some x :: t) i = Some x.
Proof.
  intros ->. unfold peek. rewrite decide_True, Nat2Z.id, lookup_app_r, Nat.sub_diag by lia. done.
Qed.
Lemma peek_run (q : cells) (e : bytes) t j x : e !! j = Some x →
  peek (q ++ det e ++ t) (Z.of_nat (length q) + Z.of_nat j) = Some x.
Proof.
  intros Hj. pose proof (lookup_lt_Some _ _ _ Hj). unfold peek. rewrite decide_True by lia.
  replace (Z.to_nat _) with (length q + j) by lia.
  rewrite lookup_app_r, Nat.add_comm, Nat.add_sub, lookup_app_l by (rewrite ?length_fmap; lia).
  by rewrite list_lookup_fmap, Hj.
Qed.
Lemma peek_run0 (q : cells) (e : bytes) t x : e !! 0 = Some x → peek (q ++ det e ++ t) (Z.of_nat (length q)) = Some x.
Proof. intros He. by rewrite <- (peek_run q e t 0 x He), Z.add_0_r. Qed.
(** One character decoded: written over the first cell after the decoded ones. *)
Lemma poke_junk p junk (e b : bytes) c t : e ≠ [] → ∃ junk',
  poke ((det p ++ junk) ++ cstring (e ++ b) t) (Z.of_nat (length p)) c
    = Some (det (p ++ [c]) ++ junk' ++ cstring b t) ∧ length junk' + 1 = length junk + length e.
Proof.
  intros Hne. rewrite <- app_assoc, fmap_app, <- (app_assoc (det e)), (app_assoc junk).
  destruct (junk ++ det e) as [|y l] eqn:Hje.
  { apply app_eq_nil in Hje as [_ Hje]. by destruct e. }
  cbn [app]. rewrite poke_app by (by rewrite length_fmap). exists l. split.
  - rewrite fmap_app, <- app_assoc. done.
  - apply (f_equal length) in Hje. rewrite length_app, length_fmap in Hje. cbn in Hje. lia.
Qed.
Lemma hex_special c : (c = 38 ∨ c = 61 ∨ c = 43 ∨ c = 37)%Z →
  hexdigit (c / 16) ≠ 117%Z ∧ hexval (hexdigit (c / 16)) = Some (c / 16)%Z ∧
  hexval (hexdigit (c mod 16)) = Some (c mod 16)%Z ∧ (16 * (16 * 0 + c / 16) + c mod 16 = c)%Z.
Proof. by intros [ ->|[ ->|[ ->| ->]]]; vm_compute. Qed.
Lemma uric_char_ne c : uric_char c ≠ [].
Proof. unfold uric_char. by repeat case_decide. Qed.
(** The turn of the loop at an encoded character. *)
Lemma uric_decode_step n q (c : Z) b t w : c ≠ 0%Z →
  uric_decode_from (S n) (q ++ cstring (uric_char c ++ b) t) (Z.of_nat (length q)) w =
  (b' ← poke (q ++ cstring (uric_char c ++ b) t) w c;
   uric_decode_from n b' (Z.of_nat (length q) + Z.of_nat (length (uric_char c))) (w + 1)).
Proof.
  intros Hc. cbn [uric_decode_from]. unfold uric_char. case_decide as Hsp.
  - destruct (hex_special c Hsp) as (Hu & Hh1 & Hh2 & Hval).
    rewrite (peek_run0 _ _ _ 37%Z) by done. cbn [mbind option_bind]. rewrite decide_False, decide_True by done.
    rewrite (peek_run _ _ _ 1 (hexdigit (c / 16))) by done. cbn [mbind option_bind scan_hex].
    rewrite decide_False by done. rewrite (peek_run _ _ _ 1 (hexdigit (c / 16))) by done. cbn [mbind option_bind].
    rewrite Hh1. cbn [mbind option_bind]. rewrite <- Z.add_assoc.
    rewrite (peek_run _ _ _ 2 (hexdigit (c mod 16))) by done. cbn [mbind option_bind].
    rewrite Hh2. cbn [mbind option_bind]. by rewrite Hval.
  - destruct (decide (c = 32)%Z) as [->|Hne].
    + by rewrite (peek_run0 _ _ _ 43%Z) by done.
    + rewrite (peek_run0 _ _ _ c) by done. cbn [mbind option_bind].
      by rewrite decide_False, decide_False, decide_False by tauto.
Qed.
Lemma uric_decode_ok n b p junk t : nonzero b → length (uric b) < n →
  ∃ t', uric_decode_from n (det p ++ junk ++ cstring (uric b) t) (Z.of_nat (length p + length junk)) (Z.of_nat (length p))
    = Some (cstring (p ++ b) t', Z.of_nat (length (p ++ b))) ∧
    length (cstring (p ++ b) t') = length (det p ++ junk ++ cstring (uric b) t).
Proof.
  intros Hb. revert n p junk. induction Hb as [|c b Hc Hb IH]; intros n p junk Hn; (destruct n as [|n]; [lia|]);
    rewrite app_assoc;
    replace (length p + length junk) with (length (det p ++ junk)) by (by rewrite length_app, length_fmap).
  { cbn [uric_decode_from]. change (uric []) with (@nil Z). cbn [fmap list_fmap app].
    rewrite (peek_at _ _ _ _ eq_refl). cbn [mbind option_bind]. rewrite decide_True by done.
    rewrite <- !app_assoc, app_nil_r. destruct junk as [|y junk]; cbn [app length].
    - rewrite poke_app by (by rewrite length_fmap). cbn [mbind option_bind]. by exists t.
    - rewrite poke_app by (by rewrite length_fmap). cbn [mbind option_bind]. eexists. split; [done|].
      by rewrite !length_app. }
  change (uric (c :: b)) with (uric_char c ++ uric b) in Hn |- *. rewrite length_app in Hn.
  destruct (poke_junk p junk (uric_char c) (uric b) c t (uric_char_ne c)) as (junk' & Hpk & Hj).
  assert (0 < length (uric_char c)) by (pose proof (uric_char_ne c); destruct (uric_char c); [done|cbn; lia]).
  destruct (IH n (p ++ [c]) junk' ltac:(lia)) as (t' & He & Hl). exists t'.
  rewrite uric_decode_step, Hpk by done. cbn [mbind option_bind].
  rewrite <- !(app_assoc p [c] b) in He, Hl. cbn [app] in He, Hl. split.
  - rewrite <- He. rewrite !length_app, length_fmap. cbn [length]. f_equal; lia.
  - rewrite Hl, !fmap_app, !length_app, !length_fmap. cbn. lia.
Qed.
Lemma uricDecode_ok s b : cs_holds s (uric b) → nonzero b → ∃ s', cs_uricDecode_work s = Some s' ∧ cs_holds s' b.
Proof.
  intros [Hl [t Hbuf] Hc Hm] Hb. unfold cs_uricDecode_work.
  destruct (uric_decode_ok (S (length (sbuf s))) b [] [] t Hb) as (t' & He & Hlen).
  { rewrite Hbuf, length_app, length_fmap. lia. }
  cbn [fmap list_fmap app length Nat.add] in He, Hlen. change (Z.of_nat 0) with 0%Z in He. rewrite <- Hbuf in He.
  rewrite He. cbn [mbind option_bind]. eexists. split; [done|]. split; cbn [sbuf slen scap]; [done|by eexists| |done].
  rewrite Hlen, <- Hc, Hbuf. done.
Qed.

(** *** The members that read *)
Lemma upto0_nonzero b : nonzero (upto0 b).
Proof. induction b as [|c b IH]; cbn; [constructor|]. case_decide; by constructor. Qed.
Lemma upto0_id b : nonzero b → upto0 b = b.
Proof. induction 1 as [|c b Hc Hb IH]; cbn; [done|]. rewrite decide_False by done. by f_equal. Qed.
Lemma upto0_length b : length (upto0 b) ≤ length b.
Proof. induction b as [|c b IH]; cbn; [done|]. case_decide; cbn; lia. Qed.
Lemma upto0_full b x : length b = length x → upto0 b = x → b = x.
Proof.
  intros Hl Hx. subst x. induction b as [|c b IH]; cbn in *; [done|].
  case_decide; cbn in *; [lia|]. f_equal. apply IH. lia.
Qed.
(** The characters as a C string. *)
Lemma cstring_upto0 b t : ∃ t', cstring b t = cstring (upto0 b) t'.
Proof.
  induction b as [|c b [t' IH]]; cbn; [by exists t|]. case_decide as Hc; cbn; [subst; by eexists|].
  exists t'. by f_equal.
Qed.
Lemma holds_cstring s b : cs_holds s b → ∃ t, sbuf s = cstring (upto0 b) t.
Proof. intros [_ [t Hb] _ _]. rewrite Hb. apply cstring_upto0. Qed.

Lemma uricEncode_ok s b : cs_holds s b → ∃ s', cs_uricEncode_work s = Some s' ∧ cs_holds s' (uric (upto0 b)).
Proof.
  intros Hs. unfold cs_uricEncode_work. rewrite (c_str_ok s b Hs). cbn [mbind option_bind].
  pose proof (ch_len _ _ Hs) as Hl. destruct (holds_cstring s b Hs) as [t Hbuf]. rewrite Hl, alloc_ok by lia.
  cbn [mbind option_bind]. rewrite Hbuf. pose proof (upto0_length b). pose proof (upto0_nonzero b) as Hb.
  destruct (uric_encode_ok (upto0 b) t [] (uninit (Z.to_nat (Z.of_nat (length b) * 3 + 1))) Hb) as (t' & He).
  { unfold uninit. rewrite length_replicate. lia. }
  cbn [fmap list_fmap app length] in He. change (Z.of_nat 0) with 0%Z in He. rewrite He. cbn [mbind option_bind].
  set (u := uric (upto0 b)) in *. rewrite strlen_det by (by apply uric_nonzero). cbn [mbind option_bind]. cbv zeta.
  destruct (room_ok s b (Z.of_nat (length u)) Hs) as (s1 & -> & H1 & Hcap). cbn [mbind option_bind].
  pose proof H1 as [_ _ Hc1 Hm1].
  destruct (split_room (sbuf s1) (length u)) as (m & y & t2 & Hmy & Hml); [lia|]. rewrite Hmy.
  replace (m ++ y :: t2) with ([] ++ (m ++ [y]) ++ t2) by (cbn; by rewrite <- app_assoc).
  replace (cstring u t') with ((det u ++ [Some 0%Z]) ++ t') by (by rewrite <- app_assoc).
  rewrite (blit_eq []) by (rewrite ?length_app, ?length_fmap; cbn; lia). cbn [mbind option_bind app].
  eexists. split; [done|]. split; cbn [sbuf slen scap].
  - done.
  - eexists. by rewrite <- app_assoc.
  - rewrite <- Hc1, Hmy, !length_app, length_fmap. cbn. lia.
  - done.
Qed.

Lemma strcmp_ok a b t t' : nonzero a → nonzero b → strcmp (cstring a t) (cstring b t') = Some (lex a b).
Proof.
  intros Ha. revert b. induction Ha as [|x a Hx Ha IH]; intros b Hb; destruct Hb as [|y b Hy Hb];
    cbn [strcmp fmap list_fmap app lex].
  - done.
  - by rewrite decide_False by done.
  - by rewrite decide_False by done.
  - case_decide; [|done]. rewrite decide_False by done. by apply IH.
Qed.
Lemma lex_eq a b : nonzero a → nonzero b → lex a b = 0%Z ↔ a = b.
Proof.
  intros Ha. revert b. induction Ha as [|x a Hx Ha IH]; intros b Hb; destruct Hb as [|y b Hy Hb]; cbn [lex].
  - done.
  - split; [|done]. case_decide; lia.
  - split; [|done]. case_decide; lia.
  - case_decide as Hxy; [subst; rewrite IH by done; split; [by intros ->|by intros [=]]|].
    split; [case_decide; lia|by intros [=]].
Qed.
Lemma eq_ok s b s2 b2 : cs_holds s b → cs_holds s2 b2 → cs_eq s s2 = Some (bool_decide (b = b2)).
Proof.
  intros [Hl [t Hb] _ _] [Hl2 [t2 Hb2] _ _]. unfold cs_eq. rewrite Hl, Hl2. case_decide as Hn.
  - rewrite bool_decide_eq_false_2; [done|]. intros ->. done.
  - rewrite Hb, Hb2, Nat2Z.id. apply (same_from_det [] b b2); [done|done|done|lia].
Qed.
Lemma eq_str_ok s b x t : cs_holds s b → nonzero x →
  cs_eq_str s (Some (cstring x t)) = Some (bool_decide (upto0 b = x)).
Proof.
  intros Hs Hx. cbn [cs_eq_str]. rewrite (c_str_ok s b Hs). cbn [mbind option_bind].
  destruct (holds_cstring s b Hs) as [t' ->]. rewrite strcmp_ok by (done || apply upto0_nonzero). cbn [mbind option_bind].
  f_equal. apply bool_decide_ext. by rewrite lex_eq by (done || apply upto0_nonzero).
Qed.
(** The four orders against a C string. *)
Lemma order_ok s b x t : cs_holds s b → nonzero x → let o := lex (upto0 b) x in
  cs_lt_str s (Some (cstring x t)) = Some (bool_decide (o < 0)%Z) ∧
  cs_le_str s (Some (cstring x t)) = Some (bool_decide (o ≤ 0)%Z) ∧
  cs_gt_str s (Some (cstring x t)) = Some (bool_decide (0 < o)%Z) ∧
  cs_ge_str s (Some (cstring x t)) = Some (bool_decide (0 ≤ o)%Z).
Proof.
  intros Hs Hx o. pose proof (upto0_nonzero b) as Hz. destruct (holds_cstring s b Hs) as [t' Hb].
  assert (Hlt : cs_lt_str s (Some (cstring x t)) = Some (bool_decide (o < 0)%Z))
    by (cbn [cs_lt_str]; by rewrite Hb, strcmp_ok by done).
  assert (Hgt : cs_gt_str s (Some (cstring x t)) = Some (bool_decide (0 < o)%Z))
    by (cbn [cs_gt_str]; by rewrite Hb, strcmp_ok by done).
  assert (Heq : cs_eq_str s (Some (cstring x t)) = Some (bool_decide (o = 0)%Z)).
  { rewrite (eq_str_ok s b) by done. f_equal. apply bool_decide_ext. subst o. by rewrite lex_eq by done. }
  unfold cs_le_str, cs_ge_str. rewrite Hlt, Hgt. cbn [mbind option_bind]. split_and!; [done| |done|].
  - destruct (bool_decide_reflect (o < 0)%Z); [by rewrite bool_decide_eq_true_2 by lia|]. rewrite Heq. f_equal. apply bool_decide_ext. lia.
  - destruct (bool_decide_reflect (0 < o)%Z); [by rewrite bool_decide_eq_true_2 by lia|]. rewrite Heq. f_equal. apply bool_decide_ext. lia.
Qed.
Lemma index_ok s b x t : cs_holds s b → nonzero x →
  cs_index s (cstring x t) = Some (match find_sub x (upto0 b) with Some i => Z.of_nat i | None => -1 end)%Z.
Proof.
  intros Hs Hx. unfold cs_index. destruct (holds_cstring s b Hs) as [t' ->].
  rewrite strstr_ok by (done || apply upto0_nonzero). by destruct (find_sub _ _).
Qed.
Lemma endWith_ok s b x t : cs_holds s b → nonzero x →
  cs_endWith s (cstring x t) = Some (bool_decide (x `suffix_of` b)).
Proof.
  intros [Hl [t' Hb] _ _] Hx. unfold cs_endWith. rewrite strlen_det by done. cbn [mbind option_bind]. cbv zeta. rewrite Hl, Hb.
  case_decide as Hn.
  { rewrite bool_decide_eq_false_2; [done|]. intros Hs%suffix_length. lia. }
  replace (Z.to_nat _) with (length b - length x) by lia. rewrite drop_app_le by (rewrite length_fmap; lia).
  rewrite <- fmap_drop. set (d := drop (length b - length x) b).
  destruct (cstring_upto0 d t') as [t2 ->]. rewrite strcmp_ok by (done || apply upto0_nonzero).
  cbn [mbind option_bind]. f_equal. apply bool_decide_ext. rewrite lex_eq by (done || apply upto0_nonzero).
  assert (Hd : length d = length x) by (subst d; rewrite length_drop; lia). split.
  - intros He. exists (take (length b - length x) b). rewrite <- (take_drop (length b - length x) b) at 1. f_equal. exact (upto0_full d x Hd He).
  - intros [k ->]. unfold d. rewrite length_app. replace (length k + length x - length x) with (length k) by lia.
    rewrite drop_app_length. by apply upto0_id.
Qed.
Lemma strchr_ok b t c : nonzero b → c ≠ 0%Z → strchr (cstring b t) c = Some (bool_decide (c ∈ b)).
Proof.
  intros Hb Hc. induction Hb as [|x b Hx Hb IH]; cbn [strchr fmap list_fmap app].
  - rewrite decide_False, decide_True by done. by rewrite bool_decide_eq_false_2 by apply not_elem_of_nil.
  - destruct (decide (x = c)) as [->|Hxc]; [by rewrite bool_decide_eq_true_2 by left|].
    rewrite decide_False, IH by done.
    f_equal. apply bool_decide_ext. rewrite elem_of_cons. naive_solver.
Qed.
Lemma contain_ok s b x t : cs_holds s b → nonzero x →
  cs_contain s (cstring x t) = Some (existsb (λ c, bool_decide (c ∈ upto0 b)) x).
Proof.
  intros Hs Hx. destruct (holds_cstring s b Hs) as [t' Hb].
  induction Hx as [|c x Hc Hx IH]; cbn [cs_contain fmap list_fmap app existsb]; [done|].
  rewrite decide_False, Hb, strchr_ok by (done || apply upto0_nonzero). cbn [mbind option_bind].
  by destruct (bool_decide (c ∈ upto0 b)).
Qed.

(** *** The members that change *)
Lemma sub_all_fuel n m x y b : x ≠ [] → length b ≤ n → length b ≤ m → sub_all n x y b = sub_all m x y b.
Proof.
  intros Hx. revert m b. induction n as [|n IH]; intros m b Hn Hm.
  { destruct b; [|cbn in Hn; lia]. destruct m; [done|]. destruct x; [done|]. cbn [sub_all find_sub].
    rewrite decide_False; [done|]. intros Hp. by apply prefix_nil_not in Hp. }
  destruct m as [|m].
  { destruct b; [|cbn in Hm; lia]. destruct x; [done|]. cbn [sub_all find_sub].
    rewrite decide_False; [done|]. intros Hp. by apply prefix_nil_not in Hp. }
  cbn [sub_all]. destruct (find_sub x b) as [i|] eqn:Hf; [|done]. destruct (find_sub_spec _ _ _ Hf) as (_ & Hl & _).
  assert (0 < length x) by (destruct x; [done|cbn; lia]).
  rewrite (IH m); [done|rewrite length_drop; lia..].
Qed.
Lemma replace_from_ok n d out b t x tx y ty : cs_holds d out → nonzero b → nonzero x → nonzero y → x ≠ [] →
  length b < n → ∃ d', cs_replace_from n d (cstring b t) (cstring x tx) (cstring y ty) (Z.of_nat (length x)) = Some d' ∧
    cs_holds d' (out ++ sub_all (length b) x y b).
Proof.
  intros Hd Hb Hx Hy Hne. revert d out b Hd Hb. induction n as [|n IH]; intros d out b Hd Hb Hn; [lia|].
  cbn [cs_replace_from]. rewrite strstr_ok by done. cbn [mbind option_bind].
  assert (Hxl : 0 < length x) by (destruct x; [done|cbn; lia]).
  rewrite (sub_all_fuel (length b) (S (length b)) x y b) by (done || lia). cbn [sub_all].
  destruct (find_sub x b) as [i|] eqn:Hf; cbn [fmap option_fmap option_map].
  - destruct (find_sub_spec _ _ _ Hf) as (_ & Hl & _).
    destruct (nCat_ok d out (take i b) (det (drop i b) ++ Some 0%Z :: t) Hd) as (d1 & H1 & Hh1).
    rewrite app_assoc, <- fmap_app, take_drop, length_take, Nat.min_l in H1 by lia. rewrite H1. cbn [mbind option_bind].
    destruct (add_str_ok d1 _ y ty Hh1 Hy) as (d2 & -> & Hh2). cbn [mbind option_bind].
    replace (Z.to_nat (Z.of_nat i + Z.of_nat (length x))) with (i + length x) by lia. rewrite det_drop by done.
    destruct (IH d2 _ (drop (i + length x) b) Hh2) as (d' & -> & Hh');
      [by apply nonzero_drop|rewrite length_drop; lia|]. exists d'. split; [done|].
    rewrite <- !app_assoc in Hh'.
    rewrite (sub_all_fuel (length b) (length (drop (i + length x) b))) by (done || rewrite ?length_drop; lia). done.
  - by apply add_str_ok.
Qed.
Lemma replace_ok s b x tx y ty : cs_holds s b → nonzero x → nonzero y → x ≠ [] →
  ∃ s', cs_replace s (cstring x tx) (cstring y ty) = Some s' ∧ cs_holds s' (sub_all (length b) x y (upto0 b)).
Proof.
  intros Hs Hx Hy Hne. unfold cs_replace. rewrite strlen_det by done. cbn [mbind option_bind].
  destruct (holds_cstring s b Hs) as [t Hb]. pose proof (upto0_length b).
  destruct (replace_from_ok (S (length (sbuf s))) cs_new [] (upto0 b) t x tx y ty) as (d & Hd & Hh);
    [apply cs_new_holds|apply upto0_nonzero|done..| |].
  { rewrite Hb, length_app, length_fmap. lia. }
  rewrite <- Hb in Hd. rewrite Hd. cbn [mbind option_bind app] in Hh |- *.
  rewrite (sub_all_fuel (length b) (length (upto0 b))) by (done || lia). by eapply assign_ok.
Qed.
Lemma fCatTitle_ok s b x t c n : cs_holds s b → nonzero x → (n - 4 < Z.of_nat (length x))%Z →
  ∃ s', cs_fCatTitle s (cstring x t) c n = Some s' ∧ cs_holds s' (b ++ x).
Proof.
  intros Hs Hx Hn. unfold cs_fCatTitle. rewrite strlen_det by done. cbn [mbind option_bind]. cbv zeta.
  rewrite decide_True by done. by apply add_str_ok.
Qed.
Lemma fCatChars_undefined s c n : cs_fCatChars s c n = None.
Proof. unfold cs_fCatChars, no_return. by destruct (cs_fCatChars_from (Z.to_nat n) s c). Qed.
(** A title that fits comes to [fCatChars]. *)
Lemma fCatTitle_undefined s x t c n : nonzero x → (Z.of_nat (length x) ≤ n - 4)%Z → cs_fCatTitle s (cstring x t) c n = None.
Proof.
  intros Hx Hn. unfold cs_fCatTitle. rewrite strlen_det by done. cbn [mbind option_bind]. cbv zeta.
  rewrite decide_False by lia. by rewrite fCatChars_undefined.
Qed.
Lemma encode_int_bytes i : encode_int i = det (int4 i).
Proof. done. Qed.
Lemma intCat4_ok s b i : cs_holds s b → ∃ s', cs_intCat4 s i = Some s' ∧ cs_holds s' (b ++ int4 i).
Proof.
  intros Hs. unfold cs_intCat4. rewrite encode_int_bytes. rewrite <- (app_nil_r (det (int4 i))).
  by apply (nCat_ok s b (int4 i) []).
Qed.
Lemma byte_index_inv b i k : byte_index b i = Some k → k < length b.
Proof. unfold byte_index. repeat case_decide; intros [= <-]; lia. Qed.
Lemma cut_index_ok s b n : cs_holds s b →
  ∃ s', cs_cut s n = Some s' ∧ cs_holds s' (match byte_index b n with Some k => take k b | None => b end).
Proof.
  intros Hs. destruct (cut_ok s b n Hs) as (s' & He & Hh). exists s'. split; [done|]. unfold byte_index.
  repeat case_decide; try lia; try done. by rewrite take_ge in Hh by lia.
Qed.
Lemma setByte_index_ok s b c i : cs_holds s b →
  ∃ s', cs_setByte s c i = Some s' ∧ cs_holds s' (match byte_index b i with Some k => <[k := c]> b | None => b end).
Proof.
  intros Hs. destruct (setByte_ok s b i c Hs) as (s' & He & Hh). exists s'. split; [done|]. unfold byte_index.
  repeat case_decide; try lia; try done. by rewrite list_insert_ge in Hh by lia.
Qed.
Lemma getByte_index_ok s b i : cs_holds s b → cs_getByte s i = Some (default 0%Z (k ← byte_index b i; b !! k)).
Proof.
  intros Hs. rewrite (getByte_ok s b i Hs). unfold byte_index. repeat case_decide; try lia; try done.
  by rewrite lookup_ge_None_2 by lia.
Qed.
Lemma resize_any_ok s b n : cs_holds s b → ∃ s', cs_resize s n = Some s' ∧ cs_holds s' b.
Proof.
  intros Hs. destruct (decide (n ≤ scap s)%Z) as [Hn|Hn].
  - exists s. unfold cs_resize. by rewrite decide_True.
  - destruct (resize_ok s b n Hs) as (s' & He & Hh & _); [lia|]. by exists s'.
Qed.
Lemma take_text (b : bytes) t : take (length b + 1) (cstring b t) = carg b.
Proof. rewrite take_app_ge by (rewrite length_fmap; lia). rewrite length_fmap. by replace (length b + 1 - length b) with 1 by lia. Qed.
Lemma str_ok s b : cs_holds s b →
  cs_str s = Some (match b with [] => None | _ => Some (carg b) end).
Proof.
  intros Hs. unfold cs_str. pose proof (dup_ok s b Hs) as Hd. rewrite (ch_len _ _ Hs) in *. case_decide as Hn.
  - destruct (w_alloc _) as [r|]; [|done]. cbn [mbind option_bind] in Hd |- *.
    destruct (blit r 0 _ _) as [r'|]; [|done]. cbn [mbind option_bind] in Hd |- *. rewrite Hd. by destruct b.
  - by destruct b; [|cbn in Hn; lia].
Qed.

(** *** Programs *)
(** An updating member, as a step. *)
Lemma upd_refines (r : option cstr) t b b2 :
  (∃ s', r = Some s' ∧ cs_holds s' b) → cs_holds t b2 →
  ∃ s' t', (s ← r; Some (CNothing, (s, t))) = Some (CNothing, (s', t')) ∧ cs_holds s' b ∧ cs_holds t' b2.
Proof. intros (s' & -> & Hh) Ht. by exists s', t. Qed.
(** An observing member. *)
Lemma obs_refines {A} (r : option A) (f : A → cobs) a o s t b b2 : r = Some a → f a = o → cs_holds s b → cs_holds t b2 →
  ∃ s' t', (x ← r; Some (f x, (s, t))) = Some (o, (s', t')) ∧ cs_holds s' b ∧ cs_holds t' b2.
Proof. intros -> <- Hs Ht. by exists s, t. Qed.
Lemma cstep_refines op s t b b2 : cop_ok op b → cs_holds s b → cs_holds t b2 →
  ∃ s' t', cstep op (s, t) = Some ((sstep op (b, b2)).1, (s', t')) ∧
    cs_holds s' (sstep op (b, b2)).2.1 ∧ cs_holds t' (sstep op (b, b2)).2.2.
Proof.
  intros Hok Hs Ht. destruct op; cbn [cop_ok] in Hok; cbn [cstep sstep fst snd];
    try (apply upd_refines; [|done]).
  - by exists t, s.
  - by apply new_str_ok.
  - by eapply assign_str_ok.
  - by eapply str_clear_ok.
  - by eapply assign_ok.
  - by apply copy_ok.
  - rewrite <- (app_nil_r (det x)). by eapply set_ok.
  - rewrite <- (app_nil_r (det x)). by apply nCat_ok.
  - by apply add_ok.
  - by apply add_str_ok.
  - by apply add_char_ok.
  - destruct Hok. by apply fCatTitle_ok.
  - by apply intCat4_ok.
  - by apply cut_index_ok.
  - by eapply str_clear_ok.
  - by apply resize_any_ok.
  - by apply setByte_index_ok.
  - by apply set_at_ok.
  - destruct Hok as (Hx & Hne & Hy). by apply replace_ok.
  - destruct (steal_ok s b Hs) as (r & tl & s' & -> & -> & Hh). cbn [mbind option_bind]. exists s', t.
    unfold ctext. by rewrite Nat2Z.id, take_text.
  - eapply obs_refines; [by apply str_ok| |done|done]. unfold cs_length. rewrite (ch_len _ _ Hs). by destruct b.
  - eapply obs_refines; [by eapply c_str_ok| |done|done]. unfold cs_length. rewrite (ch_len _ _ Hs).
    destruct (ch_buf _ _ Hs) as [tl ->]. unfold ctext. by rewrite Nat2Z.id, take_text.
  - by eapply obs_refines; [apply getByte_index_ok| | |].
  - exists s, t. unfold cs_length. by rewrite (ch_len _ _ Hs).
  - by eapply obs_refines; [apply index_ok| | |].
  - eapply obs_refines; [|done|done|done]. unfold cs_beginWith. destruct (ch_buf _ _ Hs) as [tl ->]. by apply strprefix_ok.
  - by eapply obs_refines; [apply endWith_ok| | |].
  - by eapply obs_refines; [apply contain_ok| | |].
  - by eapply obs_refines; [apply eq_str_ok| | |].
  - destruct (order_ok s b x [] Hs Hok) as (-> & -> & -> & ->). by exists s, t.
  - by eapply obs_refines; [apply eq_ok| | |].
  - unfold cs_lt, cs_le, cs_gt, cs_ge. rewrite (c_str_ok t b2 Ht). cbn [mbind option_bind].
    destruct (holds_cstring t b2 Ht) as [tl ->].
    destruct (order_ok s b (upto0 b2) tl Hs (upto0_nonzero b2)) as (-> & -> & -> & ->). by exists s, t.
Qed.
Lemma crun_refines p s t b b2 : cprog_ok p (b, b2) → cs_holds s b → cs_holds t b2 →
  ∃ s' t', crun p (s, t) = Some ((srun p (b, b2)).1, (s', t')) ∧
    cs_holds s' (srun p (b, b2)).2.1 ∧ cs_holds t' (srun p (b, b2)).2.2.
Proof.
  revert s t b b2. induction p as [|op p IH]; intros s t b b2 Hok Hs Ht.
  { by exists s, t. }
  destruct Hok as [Hop Hp]. destruct (cstep_refines op s t b b2 Hop Hs Ht) as (s1 & t1 & H1 & Hs1 & Ht1).
  cbn [crun srun]. rewrite H1. cbn [mbind option_bind]. destruct (sstep op (b, b2)) as [x [c c2]]. cbn [fst snd] in *.
  destruct (IH s1 t1 c c2 Hp Hs1 Ht1) as (s' & t' & -> & Hs' & Ht').
  destruct (srun p (c, c2)) as [xs [d d2]]. by exists s', t'.
Qed.

(** C40: Clients of [CStr] see byte strings.  Any program over two objects -
    construction, the assignments, appending of strings, characters and integers,
    cutting, writing and reading single characters, [replace], [steal] and [str],
    searching and comparing - has exactly the results of the same program over
    byte strings, whatever the capacities and whether the characters are in the
    object or on the heap; the members of the C library see the characters up
    to the first zero, [==] of two objects sees all of them.  No character is
    read that was not written, none outside the buffer is touched, and the loops
    end.  Not among the operations are [fCatChars], [merge], [uricEncode] and
    [uricDecode], whose flow runs off their end, and of [fCatTitle] only titles
    that are too long for the line (others come to [fCatChars],
    [fCatTitle_undefined]). *)
Theorem cstr_program_refinement p : cprog_ok p ([], []) → cprogram p = Some (sprogram p).
Proof.
  intros Hok. unfold cprogram, sprogram.
  destruct (crun_refines p cs_new cs_new [] [] Hok cs_new_holds cs_new_holds) as (s & t & -> & Hs & Ht).
  cbn [mbind option_bind]. destruct (srun p ([], [])) as [xs [b b2]]. cbn [fst snd] in *.
  by rewrite (cs_encode_ok s b Hs), (cs_encode_ok t b2 Ht).
Qed.
Lemma cstr_program_refinement_witness :
  let p := [CAssignStr [97; 98; 97; 98]%Z; CNCat (replicate 40 120%Z); CSwap; CCopy; CReplace [98; 97]%Z [45]%Z; CEnd [120; 120]%Z; CCut (-38);
            CCmp; CIndex [45]%Z; CSetAt 1 0; CEqStr [97]%Z; CTitle [104; 105]%Z 61 5; CSteal; CInt4 258; CSwap; CCut 5] in
  cprogram p = Some (sprogram p) ∧
  (sprogram p).1.1 !! 12 = Some (CText 7 (carg [97; 0; 98; 120; 120; 104; 105]%Z)).
Proof.
  split; [|vm_compute; reflexivity]. apply cstr_program_refinement.
  repeat (split; try done); cbn; try lia; repeat constructor; lia.
Defined.

(** Round trip of [CStr]: what an object encodes - four bytes of length and
    the characters, zeroes included - any object decodes to the same string,
    whatever it held before, reporting the encoded size and leaving the buffer at
    the next byte. *)
Theorem cstr_roundtrip s b s0 b0 rest : cs_holds s b → cs_holds s0 b0 → (Z.of_nat (length b) < 2 ^ 31)%Z →
  ∃ n w s', cs_encode s = Some (n, w) ∧ n = Z.of_nat (length w) ∧
    cs_decode s0 (w ++ rest) = Some (n, s', rest) ∧ cs_holds s' b ∧ cs_eq s' s = Some true.
Proof.
  intros Hs Hs0 Hb. destruct (cs_decode_ok s0 b0 b rest Hs0 Hb) as (s' & Hd & Hh).
  rewrite (cs_encode_ok s b Hs). do 2 eexists. exists s'. split; [done|].
  split; [rewrite length_app, length_fmap; cbn; lia|]. rewrite <- app_assoc. split; [done|]. split; [done|].
  rewrite (eq_ok s' b s b Hh Hs). by rewrite bool_decide_eq_true_2.
Qed.
Lemma cstr_roundtrip_witness :
  let b := replicate 33 7%Z in let s := default cs_new (cs_set cs_new (det b) 33) in
  ∃ n w s', cs_encode s = Some (n, w) ∧ n = Z.of_nat (length w) ∧
    cs_decode cs_new (w ++ [Some 9%Z]) = Some (n, s', [Some 9%Z]) ∧ cs_holds s' b ∧ cs_eq s' s = Some true.
Proof.
  cbv zeta. eapply cstr_roundtrip; [|apply cs_new_holds|vm_compute; reflexivity].
  split; [done|eexists; vm_compute; reflexivity|vm_compute; reflexivity|vm_compute; discriminate].
Defined.

(** [CStr::decode] trusts the length on the wire.  Decoding the bytes of a
    length [n] followed by [rest] stays inside the message exactly when [n] is
    neither negative nor greater than what follows; the code compares it with
    nothing, and copies [n] bytes - as an unsigned count - in every case. *)
Theorem cstr_decode_trusts_length s b n rest : cs_holds s b → (- 2 ^ 31 ≤ n < 2 ^ 31)%Z →
  is_Some (cs_decode s (encode_int n ++ rest)) ↔ (0 ≤ n ≤ Z.of_nat (length rest))%Z.
Proof.
  intros Hs Hn. unfold cs_decode. rewrite decode_encode_int by done. cbn [mbind option_bind].
  destruct (room_ok s b n Hs) as (s1 & -> & H1 & Hcap). cbn [mbind option_bind]. split.
  - unfold blit. case_decide as Hb; [lia|]. intros [? [=]].
  - intros Hr. pose proof H1 as [_ _ Hc1 Hm1]. unfold blit. rewrite decide_True by lia. cbn [mbind option_bind].
    unfold cs_end, poke. cbn [with_buf sbuf]. rewrite decide_True by (rewrite !length_app, !length_take, length_drop; lia).
    by eexists.
Qed.
Lemma cstr_decode_trusts_length_witness :
  (is_Some (cs_decode cs_new (encode_int (-1) ++ [Some 1%Z])) ↔ (0 ≤ -1 ≤ 1)%Z) ∧
  (is_Some (cs_decode cs_new (encode_int 1 ++ [Some 1%Z])) ↔ (0 ≤ 1 ≤ 1)%Z).
Proof.
  split.
  - apply (cstr_decode_trusts_length cs_new [] (-1) [Some 1%Z] cs_new_holds). vm_compute. by split.
  - apply (cstr_decode_trusts_length cs_new [] 1 [Some 1%Z] cs_new_holds). vm_compute. by split.
Defined.

(** [CStrShort::decode] does not step over the length byte: decoding what
    [CStrShort::encode] wrote gives the length byte followed by all characters
    but the last, and leaves the buffer one byte short. *)
Theorem cstr_short_keeps_length_byte s b s0 b0 rest : cs_holds s b → cs_holds s0 b0 → length b ≤ 255 →
  ∃ n w s', short_encode s = Some (n, w) ∧ n = Z.of_nat (length w) ∧
    let all := Z.of_nat (length b) :: b in
    short_decode s0 (w ++ rest) = Some (n, s', drop (length b) (det all) ++ rest) ∧ cs_holds s' (take (length b) all).
Proof.
  intros Hs Hs0 Hb. pose proof Hs as [Hl [t Hbuf] Hc Hm]. unfold short_encode, short_size. cbv zeta. rewrite Hl.
  rewrite (decide_False (P := (255 < _)%Z)) by lia.
  rewrite decide_True by (rewrite Hbuf, length_app, length_fmap; lia).
  rewrite Nat2Z.id, Hbuf, take_app_le, take_ge by (rewrite length_fmap; lia).
  change (Some (Z.of_nat (length b)) :: det b) with (det (Z.of_nat (length b) :: b)). set (all := Z.of_nat (length b) :: b).
  assert (Hlen : length all = S (length b)) by done.
  destruct (decode_from_ok s0 b0 (take (length b) all) (det (drop (length b) all) ++ rest)
    (λ s, (short_size s, s, drop (Z.to_nat (Z.of_nat (length b))) (det (take (length b) all) ++ det (drop (length b) all) ++ rest))) Hs0)
    as (s' & He & Hh). rewrite !length_take, Hlen, Nat.min_l in He by lia. cbv beta in He.
  do 2 eexists. exists s'. split; [done|]. split; [rewrite length_fmap, Hlen; lia|]. split; [|done].
  unfold short_decode. change (peek (det all ++ rest) 0) with (Some (Z.of_nat (length b))). cbn [mbind option_bind].
  replace (det all ++ rest) with (det (take (length b) all) ++ (det (drop (length b) all) ++ rest))
    by (by rewrite app_assoc, <- fmap_app, take_drop).
  rewrite He. unfold short_size. rewrite (ch_len _ _ Hh), length_take, Hlen, Nat.min_l, Nat2Z.id by lia.
  rewrite (drop_app_length' _ _ (length b)) by (rewrite length_fmap, length_take, Hlen; lia). by rewrite fmap_drop.
Qed.
Lemma cstr_short_keeps_length_byte_witness :
  let b := [104; 105]%Z in let s := default cs_new (cs_set cs_new (det b) 2) in
  ∃ n w s', short_encode s = Some (n, w) ∧ n = Z.of_nat (length w) ∧
    let all := Z.of_nat (length b) :: b in
    short_decode cs_new (w ++ [Some 9%Z]) = Some (n, s', drop (length b) (det all) ++ [Some 9%Z]) ∧
    cs_holds s' (take (length b) all).
Proof.
  cbv zeta. eapply cstr_short_keeps_length_byte; [|apply cs_new_holds|cbn; lia].
  split; [done|eexists; vm_compute; reflexivity|vm_compute; reflexivity|vm_compute; discriminate].
Defined.

(** Round trip of the query-string escapes, by what the two functions have
    written when their flow runs off the end: [uricDecode] of what [uricEncode]
    makes of a string without zeroes is the string; in between there is no blank
    and none of the characters [&], [=] that separate the parameters of a query. *)
Theorem cstr_uric_roundtrip s b : cs_holds s b → Forall (λ c, c ≠ 0%Z) b →
  ∃ u s', cs_uricEncode_work s = Some u ∧ cs_holds u (uric b) ∧ Forall (λ c, c ≠ 32 ∧ c ≠ 38 ∧ c ≠ 61)%Z (uric b) ∧
    cs_uricDecode_work u = Some s' ∧ cs_holds s' b.
Proof.
  intros Hs Hb. destruct (uricEncode_ok s b Hs) as (u & He & Hu). rewrite (upto0_id b Hb) in Hu.
  destruct (uricDecode_ok u b Hu Hb) as (s' & Hd & Hh). exists u, s'. split_and!; [done..| |done|done].
  clear. induction b as [|c b IH]; cbn; [constructor|]. apply Forall_app. split; [|done]. unfold uric_char.
  case_decide as Hsp.
  - destruct Hsp as [ ->|[ ->|[ ->| ->]]]; repeat constructor; by vm_compute.
  - case_decide; repeat constructor; tauto || lia.
Qed.
Lemma cstr_uric_roundtrip_witness :
  let b := [97; 38; 98; 32; 61; 37; 43]%Z in let s := default cs_new (cs_set cs_new (det b) 7) in
  ∃ u s', cs_uricEncode_work s = Some u ∧ cs_holds u (uric b) ∧ Forall (λ c, c ≠ 32 ∧ c ≠ 38 ∧ c ≠ 61)%Z (uric b) ∧
    cs_uricDecode_work u = Some s' ∧ cs_holds s' b.
Proof.
  cbv zeta. eapply cstr_uric_roundtrip; [|repeat constructor; lia].
  split; [done|eexists; vm_compute; reflexivity|vm_compute; reflexivity|vm_compute; discriminate].
Defined.

(** [split] and [merge].  Splitting a string at a separator fills the array
    with the pieces between its occurrences, at most as many as the array has
    places, none of them containing the separator; with a blank as the separator
    and enough places, what [merge] writes before its flow runs off the end is
    the string, or the string
    without its last character where that is a blank. *)
Theorem cstr_split_merge s b argv olds sep ts : cs_holds s b → Forall2 cs_holds argv olds →
  Forall (λ c, c ≠ 0%Z) b → Forall (λ c, c ≠ 0%Z) sep → sep ≠ [] →
  ∃ out, cs_split_sep s argv (det sep ++ Some 0%Z :: ts) = Some out ∧
    Forall2 cs_holds out (pieces (length argv) sep b) ∧
    (∀ p j, p ∈ pieces (length argv) sep b → ¬ sep `prefix_of` drop j p) ∧
    (sep = [32%Z] → length b ≤ length argv → ∃ m c, cs_merge_work s out = Some m ∧ cs_holds m c ∧ (c = b ∨ c ++ [32%Z] = b)).
Proof.
  intros Hs Ha Hb Hsep Hne. unfold cs_split_sep. rewrite (c_str_ok s b Hs), strlen_det by done. cbn [mbind option_bind].
  rewrite (ch_len _ _ Hs). destruct (ch_buf _ _ Hs) as [t ->].
  destruct (split_from_ok argv olds b t sep ts Ha Hb Hsep) as (out & -> & Hout). exists out. split; [done|]. split; [done|].
  split; [intros p j Hp; by eapply pieces_sub|]. intros -> Hlen. unfold cs_merge_work.
  destruct (str_clear_ok s b Hs) as (s1 & -> & H1). cbn [mbind option_bind].
  destruct (merge_from_ok true s1 [] out _ H1 Hout) as (m & Hm & Hh). exists m. eexists. split; [done|]. split; [done|].
  cbn [app]. destruct (pieces_join (length argv) [32%Z] b Hne Hlen) as [Hj|Hj];
    destruct (pieces (length argv) [32%Z] b); cbn [join] in *; auto.
Qed.
Lemma cstr_split_merge_witness :
  let b := [97; 98; 32; 99; 32]%Z in let s := default cs_new (cs_set cs_new (det b) 5) in
  ∃ out, cs_split_sep s (replicate 5 cs_new) (det [32%Z] ++ Some 0%Z :: []) = Some out ∧
    Forall2 cs_holds out (pieces 5 [32%Z] b) ∧
    (∀ p j, p ∈ pieces 5 [32%Z] b → ¬ [32%Z] `prefix_of` drop j p) ∧
    ([32%Z] = [32%Z] → 5 ≤ 5 → ∃ m c, cs_merge_work s out = Some m ∧ cs_holds m c ∧ (c = b ∨ c ++ [32%Z] = b)).
Proof.
  cbv zeta. apply (cstr_split_merge _ [97; 98; 32; 99; 32]%Z (replicate 5 cs_new) (replicate 5 [])).
  - split; [done|eexists; vm_compute; reflexivity|vm_compute; reflexivity|vm_compute; discriminate].
  - apply Forall2_replicate, cs_new_holds.
  - repeat constructor; lia.
  - repeat constructor; lia.
  - done.
Defined.
