(* ===== verification/MsgCodec.v ===== *)
(** * Messages on the wire ([msg/msgdef.C], [msg/msgdef_com.C], [msg/msgdatadef.C])

    [encode], [decode], [size] and [operator ==] of [TUniNetMsg], of the COM
    header and of the COM body, with the macros of [include/msg/msgutil.h] and
    [include/msg/msgdef.h] they are written in.  A buffer to read from is the
    list of cells from the pointer on (see VarChar.v) and decoding moves it
    forward; encoding gives the cells it writes and the value it returns.
    Strings are encoded and decoded by the [CStr] of CStr.v.  Headers and bodies
    of other classes are parameters. *)

From S2P Require Import Prelude VarChar CStr UniMsg.

(** ** Fields *)
Definition get_int : M cells Z := decode_int.
Definition get_uint : M cells Z := n ← get_int; mret (u32 n).
(** [DECODE] of a BYTE. *)
Definition get_byte : M cells Z := λ b, c ← peek b 0; Some (c, drop 1 b).
(** The characters of an object. *)
Definition cs_content (s : cstr) : option bytes := mapM id (take (Z.to_nat (slen s)) (sbuf s)).
(** [CStr::decode] into a member. *)
Definition get_str : M cells bytes := λ b, '(_, s, b) ← cs_decode cs_new b; x ← cs_content s; Some (x, b).
Definition put_str (s : bytes) : cells := encode_int (Z.of_nat (length s)) ++ det s.

Definition TMsgAddress_size : Z := 12.
Definition TMsgAddress_encode (a : TMsgAddress) : cells :=
  encode_int (logAddr a) ++ encode_int (phyAddr a) ++ encode_int (taskInstID a).
Definition TMsgAddress_decode : M cells TMsgAddress :=
  l ← get_uint; p ← get_uint; t ← get_uint; mret (Addr l p t).

(** ** The COM header and body *)
Definition orgAddr_flag : Z := 1.
Definition hdr_flag (o : Z) : bool := bool_decide (Z.land o orgAddr_flag ≠ 0)%Z.
(** [argv[0]] .. [argv[argc-1]]; beyond the array is undefined. *)
Definition args (h : TComMsgHdr) : option (list bytes) :=
  if decide (argc h ≤ Z.of_nat (length (argv h)))%Z then Some (take (Z.to_nat (argc h)) (argv h)) else None.
Definition TComMsgHdr_size (h : TComMsgHdr) : option Z :=
  v ← args h;
  Some (4 + (if hdr_flag (h_optionSet h) then TMsgAddress_size else 0) + 16 + foldr (λ s n, CStr_size s + n) 0 v)%Z.
Definition TComMsgHdr_encode (h : TComMsgHdr) : option (Z * cells) :=
  v ← args h; n ← TComMsgHdr_size h;
  Some (n, encode_int (h_optionSet h) ++ (if hdr_flag (h_optionSet h) then TMsgAddress_encode (orgAddr h) else []) ++
    encode_int (status h) ++ encode_int (pri h) ++ encode_int (facility h) ++ encode_int (argc h) ++ concat (put_str <$> v)).
(** [DECODE_VCHAR_ARRAY]: the first [n] strings of the array. *)
Fixpoint get_args (n : nat) (argv : list bytes) : M cells (list bytes) :=
  match n, argv with
  | O, _ => mret argv
  | S n, [] => ub
  | S n, _ :: argv => s ← get_str; v ← get_args n argv; mret (s :: v)
  end.
(** [CHECK_DECODE_ARRAY_SIZE]: a count that does not fit is set to 0, and the
    function returns 0 where it is. *)
Definition TComMsgHdr_decode (h : TComMsgHdr) : M cells (Z * TComMsgHdr) :=
  o ← get_uint;
  a ← (if hdr_flag o then TMsgAddress_decode else mret (orgAddr h));
  s ← get_int; p ← get_int; f ← get_int; n ← get_int;
  if decide (Z.of_nat MAX_MSG_ARGV_NUM < n ∨ n < 0)%Z then mret (0, ComHdr o a s p f 0 (argv h))%Z else
  v ← get_args (Z.to_nat n) (argv h);
  let h := ComHdr o a s p f n v in
  k ← defined (TComMsgHdr_size h); mret (k, h).

(** [TComMsgHdr::operator ==]: neither the option set nor [orgAddr]. *)
Fixpoint same_args (n : nat) (v w : list bytes) : option bool :=
  match n, v, w with
  | O, _, _ => Some true
  | S n, x :: v, y :: w => if decide (x = y) then same_args n v w else Some false
  | S _, _, _ => None
  end.
Definition TComMsgHdr_eq (h h2 : TComMsgHdr) : option bool :=
  if decide (status h = status h2 ∧ pri h = pri h2 ∧ facility h = facility h2 ∧ argc h = argc h2)
  then same_args (Z.to_nat (argc h)) (argv h) (argv h2) else Some false.

Definition TComMsgBody_size (info : bytes) : Z := CStr_size info.
Definition TComMsgBody_encode (info : bytes) : Z * cells := (TComMsgBody_size info, put_str info).
Definition TComMsgBody_decode : M cells (Z * bytes) := s ← get_str; mret (TComMsgBody_size s, s).

(** ** The message *)
(** The virtual functions of headers and bodies of other classes: [size()] and
    what [encode] writes, and [operator ==]. *)
Class OtherParts := {
  other_hdr : N → bytes → option (Z * cells);
  other_body : N → bytes → option (Z * cells);
  other_hdr_eq : N → bytes → TCtrlMsg → option bool;
  other_body_eq : N → bytes → TMsgBody → option bool;
}.

Section message.
Context `{OtherParts}.

Definition hdr_encode (c : TCtrlMsg) : option (Z * cells) :=
  match c with CtrlCom h => TComMsgHdr_encode h | CtrlOther k b => other_hdr k b end.
Definition body_encode (b : TMsgBody) : option (Z * cells) :=
  match b with BodyCom i => Some (TComMsgBody_encode i) | BodyOther k b => other_body k b end.
(** A part behind a pointer, when the pointer is not NULL. *)
Definition part {A} (enc : A → option (Z * cells)) (p : option A) : option (Z * cells) :=
  match p with Some x => enc x | None => Some (0%Z, []) end.
Definition hdr_size (c : TCtrlMsg) : option Z :=
  match c with CtrlCom h => TComMsgHdr_size h | CtrlOther k b => fst <$> other_hdr k b end.
Definition body_size (b : TMsgBody) : option Z :=
  match b with BodyCom i => Some (TComMsgBody_size i) | BodyOther k b => fst <$> other_body k b end.

Definition fixed_size : Z := (4 + 1 + 4 + 4 + TMsgAddress_size + TMsgAddress_size)%Z.
Definition TUniNetMsg_encode (m : TUniNetMsg) : option (Z * cells) :=
  c ← (if hasCSeq m then n ← cseq m; Some (4%Z, encode_int n) else Some (0%Z, []));
  let t := if hasTransId m then (CStr_size (transID m), put_str (transID m)) else (0%Z, []) in
  h ← part hdr_encode (ctrlMsgHdr m);
  b ← part body_encode (msgBody m);
  Some (fixed_size + c.1 + t.1 + h.1 + b.1,
        encode_int (optionSet m) ++ TMsgAddress_encode (oAddr m) ++ TMsgAddress_encode (tAddr m) ++
        [Some (dialogType m)] ++ encode_int (msgName m) ++ encode_int (msgType m) ++ c.2 ++ t.2 ++ h.2 ++ b.2)%Z.
(** [STuple::size] is [sizeof] of three integers; the size has no [cseq]. *)
Definition STuple_size : Z := 12.
Definition TUniNetMsg_size (m : TUniNetMsg) : option Z :=
  h ← from_option hdr_size (Some 0%Z) (ctrlMsgHdr m);
  b ← from_option body_size (Some 0%Z) (msgBody m);
  Some (STuple_size + fixed_size + (if hasTransId m then CStr_size (transID m) else 0) + h + b)%Z.
End message.

Definition decode_into (m : TUniNetMsg) (o : Z) (oa ta : TMsgAddress) (d n t : Z) : TUniNetMsg :=
  UniNetMsg (sender m) o oa ta d n t (transID m) (cseq m) (ctrlMsgHdr m) (msgBody m).
Definition TUniNetMsg_decode (m : TUniNetMsg) : M cells (Z * TUniNetMsg) :=
  o ← get_uint; oa ← TMsgAddress_decode; ta ← TMsgAddress_decode; d ← get_byte; n ← get_uint; t ← get_uint;
  let m := decode_into m o oa ta d n t in
  c ← (if hasCSeq m then n ← get_uint; mret (Some n) else mret (cseq m));
  s ← (if hasTransId m then get_str else mret (transID m));
  let m := UniNetMsg (sender m) o oa ta d n t s c (ctrlMsgHdr m) (msgBody m) in
  mret (fixed_size + (if hasCSeq m then 4 else 0) + (if hasTransId m then CStr_size s else 0), m)%Z.
(** [DECODE_CTRLHDR(TComMsgHdr)], [DECODE_MSGBODY(TComMsgBody)] *)
Definition DECODE_CTRLHDR (m : TUniNetMsg) : M cells TUniNetMsg :=
  if hasCtrlMsgHdr m then '(_, h) ← TComMsgHdr_decode new_TComMsgHdr; mret (put_hdr (Some (CtrlCom h)) m) else mret m.
Definition DECODE_MSGBODY (m : TUniNetMsg) : M cells TUniNetMsg :=
  if hasMsgBody m then '(_, i) ← TComMsgBody_decode; mret (put_body (Some (BodyCom i)) m) else mret m.
Definition decode_com : M cells TUniNetMsg :=
  '(_, m) ← TUniNetMsg_decode new_TUniNetMsg; m ← DECODE_CTRLHDR m; DECODE_MSGBODY m.

(** [TUniNetMsg::operator ==]: the second operand's parts are cast to the class
    of the first one's. *)
Definition hdr_eq `{OtherParts} (c c2 : TCtrlMsg) : option bool :=
  match c, c2 with
  | CtrlCom h, CtrlCom h2 => TComMsgHdr_eq h h2
  | CtrlCom _, CtrlOther _ _ => None
  | CtrlOther k b, c2 => other_hdr_eq k b c2
  end.
Definition body_eq `{OtherParts} (b b2 : TMsgBody) : option bool :=
  match b, b2 with
  | BodyCom i, BodyCom i2 => Some (bool_decide (i = i2))
  | BodyCom _, BodyOther _ _ => None
  | BodyOther k b, b2 => other_body_eq k b b2
  end.
Definition TUniNetMsg_eq `{OtherParts} (m m2 : TUniNetMsg) : option bool :=
  match msgBody m, msgBody m2 with
  | None, None =>
      let rt := bool_decide (optionSet m = optionSet m2 ∧ oAddr m = oAddr m2 ∧ tAddr m = tAddr m2 ∧
        dialogType m = dialogType m2 ∧ msgName m = msgName m2 ∧ msgType m = msgType m2 ∧ transID m = transID m2) in
      match ctrlMsgHdr m, ctrlMsgHdr m2 with
      | None, None => Some rt
      | Some c, Some c2 => if rt then hdr_eq c c2 else Some false
      | _, _ => Some false
      end
  | Some b, Some b2 => body_eq b b2
  | _, _ => Some false
  end.

#[local] Arguments encode_int : simpl never.
#[local] Arguments put_str : simpl never.
#[local] Arguments TMsgAddress_encode : simpl never.

(** ** Reading back *)
(** [m] reads exactly the bytes [w], whatever follows, and gives [a]. *)
Definition reads {A} (m : M cells A) (a : A) (w : cells) : Prop := ∀ rest, m (w ++ rest) = Some (a, rest).
Lemma reads_bind {A B} (m : M cells A) (f : A → M cells B) a b w w' : reads m a w → reads (f a) b w' → reads (m ≫= f) b (w ++ w').
Proof. intros Hm Hf rest. unfold mbind, M_bind. rewrite <- app_assoc, Hm. apply Hf. Qed.
Lemma reads_ret {A} (a : A) : reads (mret a) a [].
Proof. done. Qed.
Lemma reads_last {A B} (m : M cells A) (f : A → M cells B) a b w : reads m a w → reads (f a) b [] → reads (m ≫= f) b w.
Proof. intros Hm Hf. rewrite <- (app_nil_r w). by eapply reads_bind. Qed.
Lemma reads_if {A} (c : bool) (m : M cells A) a b w : (c = true → reads m a w) → reads (if c then m else mret b) (if c then a else b) (if c then w else []).
Proof. intros Hm. destruct c; [by apply Hm|apply reads_ret]. Qed.

Definition is_uint (n : Z) : Prop := (0 ≤ n < 2 ^ 32)%Z.
Definition is_int (n : Z) : Prop := (- 2 ^ 31 ≤ n < 2 ^ 31)%Z.
Definition addr_ok (a : TMsgAddress) : Prop := is_uint (logAddr a) ∧ is_uint (phyAddr a) ∧ is_uint (taskInstID a).
Definition str_ok (s : bytes) : Prop := (Z.of_nat (length s) < 2 ^ 31)%Z.

Lemma length_int n : length (encode_int n) = 4.
Proof. done. Qed.
Lemma length_addr a : length (TMsgAddress_encode a) = 12.
Proof. done. Qed.
Lemma reads_int n : is_int n → reads get_int n (encode_int n).
Proof. intros Hn rest. by apply decode_encode_int. Qed.
Lemma encode_u32 n m : u32 n = u32 m → encode_int n = encode_int m.
Proof. unfold encode_int. by intros ->. Qed.
Lemma reads_uint n : is_uint n → reads get_uint n (encode_int n).
Proof.
  unfold is_uint. intros Hn. rewrite (encode_u32 n (i32 n)).
  - eapply reads_last; [apply reads_int|].
    + unfold is_int, i32. pose proof (Z.mod_pos_bound (n + 2 ^ 31) (2 ^ 32)). lia.
    + replace n with (u32 (i32 n)) at 2; [apply reads_ret|]. unfold u32, i32.
      rewrite Zminus_mod_idemp_l. by rewrite Z.add_simpl_r, Z.mod_small.
  - unfold u32, i32. rewrite Zminus_mod_idemp_l. by rewrite Z.add_simpl_r.
Qed.
Lemma reads_byte c : reads get_byte c [Some c].
Proof. done. Qed.
Lemma content_ok s b : cs_holds s b → cs_content s = Some b.
Proof.
  intros [Hl [t Hb] _ _]. unfold cs_content. rewrite Hl, Hb, Nat2Z.id.
  rewrite take_app_le, take_ge by (rewrite length_fmap; lia). apply mapM_Some_2, Forall2_fmap_l, Forall_Forall2_diag.
  apply Forall_true. done.
Qed.
Lemma reads_str s : str_ok s → reads get_str s (put_str s).
Proof.
  intros Hs rest. unfold get_str, put_str. rewrite <- app_assoc.
  destruct (cs_decode_ok cs_new [] s rest cs_new_holds Hs) as (s' & -> & Hh). cbn [mbind option_bind]. by rewrite (content_ok _ _ Hh).
Qed.
Lemma reads_addr a : addr_ok a → reads TMsgAddress_decode a (TMsgAddress_encode a).
Proof.
  intros (Hl & Hp & Ht). unfold TMsgAddress_decode, TMsgAddress_encode. destruct a as [l p t]; cbn [logAddr phyAddr taskInstID] in *.
  eapply reads_bind; [by apply reads_uint|]. eapply reads_bind; [by apply reads_uint|].
  eapply reads_last; [by apply reads_uint|apply reads_ret].
Qed.
Lemma reads_args v old : Forall str_ok v → length v ≤ length old →
  reads (get_args (length v) old) (v ++ drop (length v) old) (concat (put_str <$> v)).
Proof.
  intros Hv. revert old. induction Hv as [|s v Hs Hv IH]; intros old Hl; [by destruct old|].
  destruct old as [|x old]; cbn in Hl; [lia|]. cbn. eapply reads_bind; [by apply reads_str|].
  eapply reads_last; [apply IH; lia|apply reads_ret].
Qed.

(** ** The header *)
Record hdr_wire_ok (h : TComMsgHdr) : Prop := {
  hw_opt : is_uint (h_optionSet h); hw_addr : addr_ok (orgAddr h);
  hw_ints : is_int (status h) ∧ is_int (pri h) ∧ is_int (facility h);
  hw_argc : (0 ≤ argc h ≤ 5)%Z; hw_argv : length (argv h) = 5; hw_args : Forall str_ok (argv h) }.
(** What the receiver has: arguments past [argc] and an address without its flag
    are not sent. *)
Definition received_hdr (h : TComMsgHdr) : TComMsgHdr :=
  let n := Z.to_nat (argc h) in
  ComHdr (h_optionSet h) (if hdr_flag (h_optionSet h) then orgAddr h else Addr 0 0 0) (status h) (pri h) (facility h) (argc h)
    (take n (argv h) ++ replicate (5 - n) []).
Lemma hdr_args h : hdr_wire_ok h → args h = Some (take (Z.to_nat (argc h)) (argv h)).
Proof. intros []. unfold args. by rewrite decide_True by lia. Qed.
Lemma received_size h : hdr_wire_ok h → TComMsgHdr_size (received_hdr h) = TComMsgHdr_size h.
Proof.
  intros Hh. pose proof (hdr_args h Hh) as Ha. destruct Hh. unfold TComMsgHdr_size. rewrite Ha. unfold args, received_hdr. cbn [argc argv h_optionSet].
  assert (Hl : length (take (Z.to_nat (argc h)) (argv h)) = Z.to_nat (argc h)) by (rewrite length_take; lia).
  rewrite decide_True by (rewrite length_app, Hl; lia). by rewrite take_app_length'.
Qed.
Lemma hdr_size_written h : hdr_wire_ok h → ∃ n w, TComMsgHdr_encode h = Some (n, w) ∧ TComMsgHdr_size h = Some n ∧ n = Z.of_nat (length w).
Proof.
  intros Hh. pose proof (hdr_args h Hh) as Ha. unfold TComMsgHdr_encode, TComMsgHdr_size. rewrite Ha. cbn [mbind option_bind].
  eexists _, _. split; [done|]. split; [done|]. set (v := take _ _).
  assert (Hc : Z.of_nat (length (concat (put_str <$> v))) = foldr (λ s n, CStr_size s + n)%Z 0%Z v).
  { induction v as [|s v IH]; [done|]. cbn. rewrite length_app, Nat2Z.inj_add, IH. unfold put_str, CStr_size.
    rewrite length_app, length_fmap, length_int. lia. }
  rewrite <- Hc, !length_app, !length_int. destruct (hdr_flag _); rewrite ?length_addr; unfold TMsgAddress_size; cbn [length]; lia.
Qed.
Lemma reads_hdr h : hdr_wire_ok h → ∃ n w, TComMsgHdr_encode h = Some (n, w) ∧
  reads (TComMsgHdr_decode new_TComMsgHdr) (n, received_hdr h) w.
Proof.
  intros Hh. destruct (hdr_size_written h Hh) as (n & w & He & Hs & _). exists n, w. split; [done|].
  pose proof (hdr_args h Hh) as Ha. pose proof (received_size h Hh) as Hr. destruct Hh as [Ho Hd (H1 & H2 & H3) Hc Hv Hvs].
  unfold TComMsgHdr_encode in He. rewrite Ha, Hs in He. cbn [mbind option_bind] in He.
  apply (f_equal (from_option snd [])) in He. cbn [from_option snd] in He. subst w. set (v := take _ _).
  assert (Hlen : length v = Z.to_nat (argc h)) by (unfold v; rewrite length_take; lia).
  unfold TComMsgHdr_decode. eapply reads_bind; [by apply reads_uint|]. eapply reads_bind; [apply reads_if; intros _; by apply reads_addr|].
  do 3 (eapply reads_bind; [by apply reads_int|]). eapply reads_bind; [apply reads_int; unfold is_int; lia|].
  rewrite decide_False by (unfold MAX_MSG_ARGV_NUM; lia). eapply reads_last.
  { rewrite <- Hlen. apply reads_args; [by apply Forall_take|]. change (length (argv new_TComMsgHdr)) with 5. lia. }
  cbv zeta. change (argv new_TComMsgHdr) with (replicate 5 ([] : bytes)). change (orgAddr new_TComMsgHdr) with (Addr 0 0 0).
  rewrite Hlen, drop_replicate. unfold received_hdr in Hr |- *. unfold v in *. rewrite Hr, Hs. apply reads_ret.
Qed.

(** ** The message *)
Definition opt_ok {A} (P : A → Prop) (flag : bool) (p : option A) : Prop :=
  match p with Some x => flag = true ∧ P x | None => flag = false end.
Definition ctrl_ok (c : TCtrlMsg) : Prop := match c with CtrlCom h => hdr_wire_ok h | CtrlOther _ _ => False end.
Definition body_ok (b : TMsgBody) : Prop := match b with BodyCom i => str_ok i | BodyOther _ _ => False end.
(** A COM message: the parts that are there are the flagged ones. *)
Record wire_ok (m : TUniNetMsg) : Prop := {
  wo_opt : is_uint (optionSet m); wo_addrs : addr_ok (oAddr m) ∧ addr_ok (tAddr m);
  wo_kind : is_uint (msgName m) ∧ is_uint (msgType m);
  wo_cseq : hasCSeq m = true → ∃ n, cseq m = Some n ∧ is_uint n; wo_trans : str_ok (transID m);
  wo_hdr : opt_ok ctrl_ok (hasCtrlMsgHdr m) (ctrlMsgHdr m); wo_body : opt_ok body_ok (hasMsgBody m) (msgBody m) }.
(** What the receiver has: not the sender, and of the optional members those
    with their flag. *)
Definition received (m : TUniNetMsg) : TUniNetMsg :=
  UniNetMsg (Tuple 0 0 0) (optionSet m) (oAddr m) (tAddr m) (dialogType m) (msgName m) (msgType m)
    (if hasTransId m then transID m else []) (if hasCSeq m then cseq m else None)
    (match ctrlMsgHdr m with Some (CtrlCom h) => Some (CtrlCom (received_hdr h)) | c => c end) (msgBody m).

(** The flags only depend on the option set. *)
Lemma same_flags m m' f : optionSet m = optionSet m' → flagged f m = flagged f m'.
Proof. unfold flagged. by intros ->. Qed.
Definition head_bytes (m : TUniNetMsg) : cells :=
  encode_int (optionSet m) ++ TMsgAddress_encode (oAddr m) ++ TMsgAddress_encode (tAddr m) ++
  [Some (dialogType m)] ++ encode_int (msgName m) ++ encode_int (msgType m) ++
  (if hasCSeq m then from_option encode_int [] (cseq m) else []) ++ (if hasTransId m then put_str (transID m) else []).
Definition received_head (m : TUniNetMsg) : TUniNetMsg := put_hdr None (put_body None (received m)).
Lemma reads_head m : wire_ok m → ∃ k, reads (TUniNetMsg_decode new_TUniNetMsg) (k, received_head m) (head_bytes m).
Proof.
  intros [Ho [Ha Ht] [Hn Hy] Hc Hs _ _]. eexists. unfold TUniNetMsg_decode, head_bytes.
  eapply reads_bind; [by apply reads_uint|]. do 2 (eapply reads_bind; [by apply reads_addr|]).
  eapply reads_bind; [apply reads_byte|]. do 2 (eapply reads_bind; [by apply reads_uint|]). cbv zeta.
  set (d := decode_into _ _ _ _ _ _ _). assert (Hd : ∀ f, flagged f d = flagged f m) by done.
  unfold hasCSeq, hasTransId in *. rewrite !Hd. eapply reads_bind.
  { apply (reads_if _ _ (cseq m) None). intros Hf. destruct (Hc Hf) as (n & -> & Hr). cbn [from_option].
    eapply reads_last; [by apply reads_uint|apply reads_ret]. }
  eapply reads_last; [apply (reads_if _ _ (transID m) []); intros _; by apply reads_str|]. apply reads_ret.
Qed.
Lemma encode_msg_eq `{OtherParts} m : wire_ok m → ∃ nh wh nb wb, part hdr_encode (ctrlMsgHdr m) = Some (nh, wh) ∧ nh = Z.of_nat (length wh) ∧
  part body_encode (msgBody m) = Some (nb, wb) ∧ nb = Z.of_nat (length wb) ∧
  TUniNetMsg_encode m = Some (Z.of_nat (length (head_bytes m ++ wh ++ wb)), head_bytes m ++ wh ++ wb) ∧
  TUniNetMsg_size m = Some (Z.of_nat (length (head_bytes m ++ wh ++ wb)) + 12 - (if hasCSeq m then 4 else 0))%Z.
Proof.
  intros [Ho Had Hk Hc Hs Hh Hb].
  assert (Hp : ∃ nh wh, part hdr_encode (ctrlMsgHdr m) = Some (nh, wh) ∧ nh = Z.of_nat (length wh) ∧ from_option hdr_size (Some 0%Z) (ctrlMsgHdr m) = Some nh).
  { destruct (ctrlMsgHdr m) as [[h|]|]; cbn in Hh |- *; [|by destruct Hh|by exists 0%Z, []]. destruct Hh as [_ Hh].
    destruct (hdr_size_written h Hh) as (n & w & He & Hsz & Hl). by exists n, w. }
  assert (Hq : ∃ nb wb, part body_encode (msgBody m) = Some (nb, wb) ∧ nb = Z.of_nat (length wb) ∧ from_option body_size (Some 0%Z) (msgBody m) = Some nb).
  { destruct (msgBody m) as [[i|]|]; cbn in Hb |- *; [|by destruct Hb|by exists 0%Z, []].
    eexists _, _. split; [done|]. split; [|done]. unfold TComMsgBody_size, CStr_size, put_str. rewrite length_app, length_fmap, length_int. lia. }
  destruct Hp as (nh & wh & Hp & Hlh & Hsh), Hq as (nb & wb & Hq & Hlb & Hsb). exists nh, wh, nb, wb. do 4 (split; [done|]).
  unfold TUniNetMsg_encode, TUniNetMsg_size. rewrite Hp, Hq, Hsh, Hsb. cbn [mbind option_bind].
  assert (Hcs : ∃ nc wc, (if hasCSeq m then n ← cseq m; Some (4%Z, encode_int n) else Some (0%Z, [])) = Some (nc, wc) ∧
    wc = (if hasCSeq m then from_option encode_int [] (cseq m) else []) ∧ nc = Z.of_nat (length wc) ∧ nc = (if hasCSeq m then 4 else 0)%Z).
  { destruct (hasCSeq m) eqn:Hf; [|by exists 0%Z, []]. destruct (Hc eq_refl) as (n & -> & _). by exists 4%Z, (encode_int n). }
  destruct Hcs as (nc & wc & -> & Hwc & Hnc & Hnc'). cbn [mbind option_bind]. unfold head_bytes. rewrite <- Hwc, <- Hnc', !app_assoc.
  assert (Htl : (if hasTransId m then CStr_size (transID m) else 0)%Z = Z.of_nat (length (if hasTransId m then put_str (transID m) else []))).
  { destruct (hasTransId m); [|done]. unfold CStr_size, put_str. rewrite length_app, length_fmap, length_int. lia. }
  split; f_equal; [f_equal|]; rewrite ?length_app, ?length_int, ?length_addr; destruct (hasTransId m); cbn [fst snd length] in *;
    unfold fixed_size, TMsgAddress_size, STuple_size; first [reflexivity|lia].
Qed.
Lemma reads_msg `{OtherParts} m : wire_ok m → ∃ w, TUniNetMsg_encode m = Some (Z.of_nat (length w), w) ∧ reads decode_com (received m) w.
Proof.
  intros Hm. destruct (encode_msg_eq m Hm) as (nh & wh & nb & wb & Hp & _ & Hq & _ & He & _). eexists. split; [exact He|].
  destruct (reads_head m Hm) as [k Hk]. destruct Hm as [_ _ _ _ _ Hh Hb].
  unfold decode_com. eapply reads_bind; [exact Hk|]. apply (reads_bind _ _ (put_hdr (ctrlMsgHdr (received m)) (received_head m))).
  - unfold DECODE_CTRLHDR. change (hasCtrlMsgHdr (received_head m)) with (hasCtrlMsgHdr m). cbn [received ctrlMsgHdr].
    destruct (ctrlMsgHdr m) as [[h|]|]; cbn in Hh; [|by destruct Hh|].
    + destruct Hh as [-> Hh]. destruct (reads_hdr h Hh) as (n & w & He' & Hr). cbn in Hp. rewrite He' in Hp. injection Hp as <- <-.
      eapply reads_last; [exact Hr|apply reads_ret].
    + rewrite Hh. injection Hp as <- <-. apply (reads_ret (received_head m)).
  - unfold DECODE_MSGBODY. change (hasMsgBody (put_hdr _ _)) with (hasMsgBody m). destruct m as [sd o oa ta d n t s c h b].
    cbn [msgBody] in *. destruct b as [[i|]|]; cbn in Hb; [|by destruct Hb|].
    + destruct Hb as [-> Hb]. injection Hq as <- <-. eapply reads_last; [eapply reads_last; [by apply reads_str|apply reads_ret]|apply reads_ret].
    + rewrite Hb. injection Hq as <- <-. apply reads_ret.
Qed.
(** A received message goes out again as the same bytes. *)
Lemma received_hdr_encode h : hdr_wire_ok h → TComMsgHdr_encode (received_hdr h) = TComMsgHdr_encode h.
Proof.
  intros Hh. pose proof (hdr_args h Hh) as Ha. pose proof (received_size h Hh) as Hs. destruct Hh.
  unfold TComMsgHdr_encode. rewrite Ha, Hs. cbn [mbind option_bind].
  assert (Hl : length (take (Z.to_nat (argc h)) (argv h)) = Z.to_nat (argc h)) by (rewrite length_take; lia).
  unfold args, received_hdr. cbn [argc argv h_optionSet orgAddr status pri facility].
  rewrite decide_True by (rewrite length_app, Hl; lia). rewrite take_app_length' by done. cbn [mbind option_bind].
  by destruct (hdr_flag (h_optionSet h)).
Qed.
Lemma received_encode `{OtherParts} m : wire_ok m → TUniNetMsg_encode (received m) = TUniNetMsg_encode m.
Proof.
  intros [_ _ _ _ _ Hh _]. unfold TUniNetMsg_encode. cbn [received optionSet oAddr tAddr dialogType msgName msgType transID cseq ctrlMsgHdr msgBody].
  change (hasCSeq (received m)) with (hasCSeq m). change (hasTransId (received m)) with (hasTransId m).
  assert (Hp : part hdr_encode (match ctrlMsgHdr m with Some (CtrlCom h) => Some (CtrlCom (received_hdr h)) | c => c end) = part hdr_encode (ctrlMsgHdr m)).
  { destruct (ctrlMsgHdr m) as [[h|]|]; [|done|done]. destruct Hh as [_ Hh]. by apply received_hdr_encode. }
  rewrite Hp. by destruct (hasCSeq m), (hasTransId m).
Qed.

(** ** Properties *)
(** C9: the wire round trip of a COM message: what [encode] writes - as many
    bytes as it says - decodes to the message, up to its sender, the members
    whose flag is not set and the arguments past [argc], and leaves the buffer
    at the next byte; forwarding the result writes the same bytes. *)
Theorem msg_wire_roundtrip `{OtherParts} (m : TUniNetMsg) : wire_ok m →
  ∃ w, TUniNetMsg_encode m = Some (Z.of_nat (length w), w) ∧ (∀ rest, decode_com (w ++ rest) = Some (received m, rest)) ∧
    TUniNetMsg_encode (received m) = Some (Z.of_nat (length w), w).
Proof.
  intros Hm. destruct (reads_msg m Hm) as (w & He & Hr). exists w. rewrite (received_encode m Hm). done.
Qed.

(** [size()] counts the sender, which is not sent, and forgets the
    [cseq]: it is eight or twelve bytes more than [encode] writes, so a buffer
    of that size is enough. *)
Theorem msg_wire_size `{OtherParts} (m : TUniNetMsg) : wire_ok m →
  ∃ w n, TUniNetMsg_encode m = Some (Z.of_nat (length w), w) ∧ TUniNetMsg_size m = Some n ∧
    n = (Z.of_nat (length w) + (if hasCSeq m then 8 else 12))%Z.
Proof.
  intros Hm. destruct (encode_msg_eq m Hm) as (nh & wh & nb & wb & _ & _ & _ & _ & He & Hs).
  eexists _, _. split; [exact He|]. split; [exact Hs|]. destruct (hasCSeq m); lia.
Qed.

(** The fixed part of a header with [n] arguments. *)
Definition hdr_head (h : TComMsgHdr) (n : Z) : cells :=
  encode_int (h_optionSet h) ++ (if hdr_flag (h_optionSet h) then TMsgAddress_encode (orgAddr h) else []) ++
  encode_int (status h) ++ encode_int (pri h) ++ encode_int (facility h) ++ encode_int n.
Lemma reads_bad_hdr h n : hdr_wire_ok h → is_int n → (n < 0 ∨ 5 < n)%Z → ∃ h', argc h' = 0%Z ∧ reads (TComMsgHdr_decode new_TComMsgHdr) (0%Z, h') (hdr_head h n).
Proof.
  intros [Ho Hd (H1 & H2 & H3) _ _ _] Hi Hn. eexists. split; [|unfold TComMsgHdr_decode, hdr_head; eapply reads_bind; [by apply reads_uint|];
    eapply reads_bind; [apply reads_if; intros _; by apply reads_addr|]; do 3 (eapply reads_bind; [by apply reads_int|]);
    eapply reads_last; [by apply reads_int|]; rewrite decide_True by (unfold MAX_MSG_ARGV_NUM; lia); apply reads_ret]. done.
Qed.
(** A header whose argument count does not fit - a sender with a longer
    array, or a hostile one - is not refused: decoding goes on behind the count
    with no arguments, and takes the first argument for the body. *)
Theorem hdr_argc_desync (m : TUniNetMsg) (h : TComMsgHdr) (n : Z) (s info : bytes) (vs : list bytes) (rest : cells) :
  wire_ok m → ctrlMsgHdr m = Some (CtrlCom h) → msgBody m = Some (BodyCom info) → is_int n → (n < 0 ∨ 5 < n)%Z → str_ok s →
  ∃ m' h', decode_com (head_bytes m ++ hdr_head h n ++ concat (put_str <$> (s :: vs)) ++ put_str info ++ rest)
      = Some (m', concat (put_str <$> vs) ++ put_str info ++ rest) ∧
    getCtrlMsgHdr m' = Some (CtrlCom h') ∧ argc h' = 0%Z ∧ getMsgBody m' = Some (BodyCom s).
Proof.
  intros Hm Hh Hb Hi Hn Hs. destruct (reads_head m Hm) as [k Hk]. destruct Hm as [_ _ _ _ _ Hho Hbo]. rewrite Hh in Hho. rewrite Hb in Hbo.
  destruct Hho as [Hfh Hho], Hbo as [Hfb _]. destruct (reads_bad_hdr h n Hho Hi Hn) as (h' & Hc & Hr).
  set (m' := put_body (Some (BodyCom s)) (put_hdr (Some (CtrlCom h')) (received_head m))). exists m', h'.
  assert (Hd : reads decode_com m' (head_bytes m ++ hdr_head h n ++ put_str s)).
  { unfold decode_com. eapply reads_bind; [exact Hk|]. unfold DECODE_CTRLHDR. change (hasCtrlMsgHdr (received_head m)) with (hasCtrlMsgHdr m).
    rewrite Hfh. eapply reads_bind; [eapply reads_last; [exact Hr|apply reads_ret]|]. unfold DECODE_MSGBODY. change (hasMsgBody _) with (hasMsgBody m).
    rewrite Hfb. eapply reads_last; [eapply reads_last; [by apply reads_str|apply reads_ret]|apply reads_ret]. }
  split; [|unfold getCtrlMsgHdr, getMsgBody; change (hasCtrlMsgHdr m') with (hasCtrlMsgHdr m); change (hasMsgBody m') with (hasMsgBody m); by rewrite Hfh, Hfb].
  specialize (Hd (concat (put_str <$> vs) ++ put_str info ++ rest)). rewrite <- !app_assoc in Hd. cbn [fmap list_fmap concat]. by rewrite <- app_assoc.
Qed.

(** *** Witnesses *)
Definition no_parts : OtherParts := {| other_hdr _ _ := None; other_body _ _ := None; other_hdr_eq _ _ _ := None; other_body_eq _ _ _ := None |}.
Definition sample_hdr : TComMsgHdr :=
  ComHdr 1 (Addr 1 2 3) 200 (-1) 7 2 [[104; 105]; []; [7]; []; []]%Z.
Definition sample_msg : TUniNetMsg :=
  UniNetMsg (Tuple 4 5 6) 15 (Addr 1 4294967295 2) (Addr 7 0 0) 3 101 1 [49; 50]%Z (Some 9%Z) (Some (CtrlCom sample_hdr)) (Some (BodyCom [111; 107]%Z)).
Lemma sample_wire_ok : wire_ok sample_msg.
Proof.
  assert (Hhdr : hdr_wire_ok sample_hdr).
  { split; unfold addr_ok, is_uint, is_int; cbn; [lia..|done|]. repeat constructor. }
  split; unfold addr_ok, is_uint, str_ok; cbn; [lia..| |lia|done|done].
  intros _. exists 9%Z. split; [done|lia].
Qed.
Lemma msg_wire_roundtrip_witness :
  ∃ w, TUniNetMsg_encode (H:=no_parts) sample_msg = Some (Z.of_nat (length w), w) ∧
    (∀ rest, decode_com (w ++ rest) = Some (received sample_msg, rest)) ∧
    TUniNetMsg_encode (H:=no_parts) (received sample_msg) = Some (Z.of_nat (length w), w).
Proof. apply (msg_wire_roundtrip (H:=no_parts)). exact sample_wire_ok. Defined.
Lemma msg_wire_size_witness :
  ∃ w n, TUniNetMsg_encode (H:=no_parts) sample_msg = Some (Z.of_nat (length w), w) ∧ TUniNetMsg_size (H:=no_parts) sample_msg = Some n ∧
    n = (Z.of_nat (length w) + 8)%Z.
Proof.
  destruct (msg_wire_size (H:=no_parts) sample_msg sample_wire_ok) as (w & n & He & Hs & Hn). change (hasCSeq sample_msg) with true in Hn.
  exists w, n. split; [exact He|]. split; [exact Hs|exact Hn].
Defined.
Lemma hdr_argc_desync_witness :
  ∃ m' h', decode_com (head_bytes sample_msg ++ hdr_head sample_hdr 6 ++ concat (put_str <$> [[97]; []; []; []; []; []])%Z ++ put_str [111; 107]%Z ++ [])
      = Some (m', concat (put_str <$> [[]; []; []; []; []]) ++ put_str [111; 107]%Z ++ []) ∧
    getCtrlMsgHdr m' = Some (CtrlCom h') ∧ argc h' = 0%Z ∧ getMsgBody m' = Some (BodyCom [97]%Z).
Proof.
  apply (hdr_argc_desync sample_msg sample_hdr 6 [97]%Z [111; 107]%Z [[]; []; []; []; []] []);
    [exact sample_wire_ok|reflexivity|reflexivity|vm_compute; split; congruence|right; lia|vm_compute; reflexivity].
Defined.
