(* ===== verification/Uri.v ===== *)
(** * URIs ([TURI], [include/msg/msgdatadef.h], [msg/msgdatadef.C])

    A URI as a string and as its parts.  [setUri] takes the string apart with
    [CStr::split] (on strings without zeroes the pieces of CStr.v), [resetUri]
    puts it together.  Texts are sequences of bytes; numbers are printed by
    [sprintf("%d")] and read by [atoi], whose result is undefined when it does
    not fit. *)

From S2P Require Import Prelude VarChar CStr UniMsg MsgCodec.

(** ** Numbers as text *)
Definition is_digit (c : Z) : bool := bool_decide (48 ≤ c ≤ 57)%Z.
Fixpoint digits (acc : Z) (s : bytes) : Z :=
  match s with c :: s => if is_digit c then digits (acc * 10 + (c - 48)) s else acc | [] => acc end.
Fixpoint skip_spaces (s : bytes) : bytes :=
  match s with c :: s' => if decide (c = 32 ∨ 9 ≤ c ≤ 13)%Z then skip_spaces s' else s | [] => [] end.
(** [atoi], [CStr::toInt] *)
Definition atoi (s : bytes) : option Z :=
  let v := match skip_spaces s with
           | c :: s' => if decide (c = 45)%Z then (- digits 0 s')%Z else if decide (c = 43)%Z then digits 0 s' else digits 0 (c :: s')
           | [] => 0%Z
           end in
  if decide (- 2 ^ 31 ≤ v < 2 ^ 31)%Z then Some v else None.
(** [sprintf("%d")] of an [int]: at most ten digits. *)
Fixpoint dec_digits (fuel : nat) (n : Z) : bytes :=
  match fuel with
  | O => []
  | S fuel => (if decide (n < 10)%Z then [] else dec_digits fuel (n / 10)) ++ [(48 + n mod 10)%Z]
  end.
Definition dec (n : Z) : bytes := if decide (n < 0)%Z then 45%Z :: dec_digits 10 (- n) else dec_digits 10 n.

(** ** The class *)
(** [port] is not initialised by the constructor from a string. *)
Record TURI := URI { uri : bytes; schema : bytes; user : bytes; password : bytes; domain : bytes; host : bytes; port : option Z }.
Definition new_TURI : TURI := URI [] [] [] [] [] [] (Some 0%Z).

Definition sep_schema : bytes := [58; 47; 47]%Z.
Definition sep_at : bytes := [64]%Z.
Definition sep_colon : bytes := [58]%Z.
(** [split(argv, 2, sep)], when it finds two pieces. *)
Definition split2 (sep s : bytes) : option (bytes * bytes) :=
  match pieces 2 sep s with [a; b] => Some (a, b) | _ => None end.

Definition setUri (_uri : bytes) (u : TURI) : option TURI :=
  let '(sch, rest) := match split2 sep_schema _uri with Some (a, b) => (a, b) | None => (schema u, _uri) end in
  let '(us, pw, dom) := match split2 sep_at rest with
    | Some (a, b) => match split2 sep_colon a with Some (x, y) => (x, y, b) | None => (a, password u, b) end
    | None => (user u, password u, rest)
    end in
  '(h, p) ← match split2 sep_colon dom with Some (a, b) => p ← atoi b; Some (a, Some p) | None => Some (dom, port u) end;
  Some (URI _uri sch us pw dom h p).
(** [TURI(CStr &str)] *)
Definition TURI_of (str : bytes) : option TURI := setUri (upto0 str) (URI [] [] [] [] [] [] None).

Definition prefixed (sep s : bytes) : bytes := if decide (s = []) then [] else sep ++ s.
Definition resetUri (u : TURI) : option TURI :=
  p ← port u;
  let sch := if decide (schema u = []) then [] else schema u ++ sep_schema in
  let num := if decide (p = 0)%Z then [] else dec p in
  Some (URI (sch ++ user u ++ prefixed sep_colon (password u) ++ prefixed sep_at (host u) ++ prefixed sep_colon num)
    (schema u) (user u) (password u) (host u ++ num) (host u) (port u)).
Definition setSchema (s : bytes) (u : TURI) : option TURI := resetUri (URI (uri u) s (user u) (password u) (domain u) (host u) (port u)).
Definition setUser (s : bytes) (u : TURI) : option TURI := resetUri (URI (uri u) (schema u) s (password u) (domain u) (host u) (port u)).
Definition setPassword (s : bytes) (u : TURI) : option TURI := resetUri (URI (uri u) (schema u) (user u) s (domain u) (host u) (port u)).
Definition setHost (s : bytes) (u : TURI) : option TURI := resetUri (URI (uri u) (schema u) (user u) (password u) (domain u) s (port u)).
Definition setPort (p : Z) (u : TURI) : option TURI := resetUri (URI (uri u) (schema u) (user u) (password u) (domain u) (host u) (Some p)).
(** [setDomain]: the new domain is cleared before it is used. *)
Definition setDomain (_domain : bytes) (u : TURI) : option TURI :=
  let u := URI (uri u) (schema u) (user u) (password u) _domain [] (Some 0%Z) in
  let u := URI [] (schema u) (user u) (password u) [] (host u) (port u) in
  let sch := if decide (schema u = []) then [] else schema u ++ sep_schema in
  let base := sch ++ user u ++ prefixed sep_colon (password u) in
  if decide (domain u = []) then Some (URI base (schema u) (user u) (password u) (domain u) (host u) (port u)) else
  '(h, p) ← match split2 sep_colon (domain u) with
            | Some (a, b) => p ← atoi b; Some (a, Some p) | None => Some (domain u, port u) end;
  Some (URI (base ++ sep_at ++ domain u) (schema u) (user u) (password u) (domain u) h p).

Definition TURI_encode (u : TURI) : option (cells * TURI) :=
  u ← (if decide (uri u = []) then resetUri u else Some u); Some (put_str (uri u), u).
Definition TURI_decode (u : TURI) : M cells (Z * TURI) :=
  s ← get_str; u ← defined (setUri (upto0 s) u); mret (CStr_size s, u).

(** ** Printing and reading numbers *)
Definition digit_text (s : bytes) : Prop := Forall (λ c, is_digit c = true) s.
Lemma digits_app acc s t : digit_text s → digits acc (s ++ t) = digits (digits acc s) t.
Proof. intros Hs. revert acc. induction Hs as [|c s Hc Hs IH]; intros acc; [done|]. cbn. by rewrite Hc. Qed.
Lemma last_digit n : is_digit (48 + n mod 10)%Z = true.
Proof. unfold is_digit. apply bool_decide_eq_true_2. pose proof (Z.mod_pos_bound n 10). lia. Qed.
Lemma dec_digits_text f n : digit_text (dec_digits f n).
Proof.
  revert n. induction f as [|f IH]; intros n; [constructor|]. cbn. apply Forall_app. split; [|repeat constructor; apply last_digit].
  case_decide; [constructor|apply IH].
Qed.
Lemma dec_digits_ok f n : (0 ≤ n < 10 ^ Z.of_nat f)%Z → digits 0 (dec_digits f n) = n.
Proof.
  revert n. induction f as [|f IH]; intros n Hn; [cbn in Hn |- *; lia|].
  rewrite Nat2Z.inj_succ, Z.pow_succ_r in Hn by lia. cbn [dec_digits]. rewrite digits_app by (case_decide; [constructor|apply dec_digits_text]).
  cbn [digits]. rewrite last_digit. pose proof (Z.div_mod n 10). case_decide as Hs.
  - cbn [digits]. rewrite Z.mod_small; lia.
  - rewrite IH; [lia|]. pose proof (Z.mod_pos_bound n 10). split; [apply Z.div_pos; lia|apply Z.div_lt_upper_bound; lia].
Qed.
Lemma dec_digits_head f n : ∃ c s, dec_digits (S f) n = c :: s ∧ is_digit c = true.
Proof.
  destruct (dec_digits (S f) n) as [|c s] eqn:He; [by apply app_nil in He as [_ He]|].
  exists c, s. split; [done|]. pose proof (dec_digits_text (S f) n) as Ht. rewrite He in Ht. by inversion Ht.
Qed.
Lemma atoi_dec n : is_int n → atoi (dec n) = Some n.
Proof.
  unfold is_int, atoi, dec. cbv zeta. intros Hn. assert (Hp : (2 ^ 31 < 10 ^ Z.of_nat 10)%Z) by (vm_compute; done).
  destruct (decide (n < 0)%Z) as [Hneg|Hneg].
  - change (skip_spaces (45%Z :: ?s)) with (45%Z :: s). cbv iota beta. rewrite (decide_True (P := (45 = 45)%Z)) by done.
    rewrite dec_digits_ok by lia. rewrite decide_True by lia. f_equal. lia.
  - destruct (dec_digits_head 9 n) as (c & s & He & Hc%bool_decide_eq_true).
    pose proof (dec_digits_ok 10 n ltac:(lia)) as Hd. rewrite He in Hd |- *. cbn [skip_spaces].
    rewrite (decide_False (P := (c = 32 ∨ 9 ≤ c ≤ 13)%Z)) by lia. rewrite (decide_False (P := (c = 45)%Z)), (decide_False (P := (c = 43)%Z)) by lia.
    rewrite Hd. by rewrite decide_True by lia.
Qed.
Lemma dec_plain n c : c ∈ dec n → c = 45%Z ∨ (48 ≤ c ≤ 57)%Z.
Proof.
  assert (Hd : ∀ f m, c ∈ dec_digits f m → (48 ≤ c ≤ 57)%Z).
  { intros f m Hin. pose proof (dec_digits_text f m) as Ht. unfold digit_text in Ht. rewrite Forall_forall in Ht.
    apply Ht in Hin. by apply bool_decide_eq_true in Hin. }
  unfold dec. case_decide; [rewrite elem_of_cons; intros [->|Hin]; [by left|]|intros Hin]; right; by eapply Hd.
Qed.

(** ** Taking a text apart *)
Lemma find_sub_absent c sep s : c ∉ s → find_sub (c :: sep) s = None.
Proof.
  intros Hs. induction s as [|x s IH]; cbn [find_sub].
  - rewrite decide_False; [done|]. intros Hp. by apply prefix_nil_not in Hp.
  - apply not_elem_of_cons in Hs as [Hx Hs]. rewrite decide_False; [by rewrite (IH Hs)|]. intros Hp. by apply prefix_cons_inv_1 in Hp.
Qed.
Lemma find_sub_first c sep a b : c ∉ a → find_sub (c :: sep) (a ++ (c :: sep) ++ b) = Some (length a).
Proof.
  intros Ha. induction a as [|x a IH]; cbn [app find_sub length].
  - rewrite decide_True; [done|]. change (c :: sep ++ b) with ((c :: sep) ++ b). by eexists.
  - apply not_elem_of_cons in Ha as [Hx Ha]. rewrite decide_False; [|intros Hp; by apply prefix_cons_inv_1 in Hp].
    cbn in IH. by rewrite (IH Ha).
Qed.
Lemma split2_none c sep s : c ∉ s → split2 (c :: sep) s = None.
Proof.
  intros Hs. unfold split2. destruct s as [|x s]; [done|]. cbn [pieces]. by rewrite (find_sub_absent c sep _ Hs).
Qed.
Lemma split2_some c sep a b : c ∉ a → find_sub (c :: sep) b = None → b ≠ [] → split2 (c :: sep) (a ++ (c :: sep) ++ b) = Some (a, b).
Proof.
  intros Ha Hb Hne. unfold split2. assert (Hx : ∃ x s, a ++ (c :: sep) ++ b = x :: s) by (destruct a; by eexists _, _).
  pose proof (find_sub_first c sep a b Ha) as Hf. destruct Hx as (x & s & Hx). rewrite Hx in *. cbn [pieces]. rewrite Hf, <- Hx.
  rewrite take_app_length, drop_app_ge by lia. replace (length a + length (c :: sep) - length a) with (length (c :: sep)) by lia.
  rewrite drop_app_length. destruct b as [|y b]; [done|]. cbn [pieces]. by rewrite Hb.
Qed.
(** [://] does not occur where there is no slash. *)
Lemma no_slash_no_schema s : 47%Z ∉ s → find_sub sep_schema s = None.
Proof.
  intros Hs. destruct (find_sub sep_schema s) as [i|] eqn:Hf; [|done]. destruct (find_sub_spec _ _ _ Hf) as (He & _).
  destruct Hs. rewrite He. unfold sep_schema. set_solver.
Qed.
Lemma split2_absent sep s : find_sub sep s = None → split2 sep s = None.
Proof. intros Hf. unfold split2. destruct s as [|x s]; [done|]. cbn [pieces]. by rewrite Hf. Qed.

(** A part without zeroes and separators. *)
Definition part_ok (s : bytes) : Prop := Forall (λ c, c ≠ 0 ∧ c ≠ 47 ∧ c ≠ 58 ∧ c ≠ 64)%Z s.
Lemma part_absent s c : part_ok s → c ∈ [0; 47; 58; 64]%Z → c ∉ s.
Proof. intros Hs Hc Hin. unfold part_ok in Hs. rewrite Forall_forall in Hs. apply Hs in Hin. set_solver. Qed.
Lemma dec_ok n : part_ok (dec n).
Proof. apply Forall_forall. intros c [->|Hc]%dec_plain; lia. Qed.
Lemma dec_nonempty n : dec n ≠ [].
Proof. unfold dec. case_decide; [done|]. by destruct (dec_digits_head 9 n) as (c & s & -> & _). Qed.
Lemma prefixed_in c sep s : c ∈ prefixed sep s → c ∈ sep ∨ c ∈ s.
Proof. unfold prefixed. case_decide; set_solver. Qed.
(** An optional second part. *)
Lemma split2_prefixed a b : part_ok a → part_ok b →
  split2 sep_colon (a ++ prefixed sep_colon b) = if decide (b = []) then None else Some (a, b).
Proof.
  intros Ha Hb. unfold prefixed. case_decide as Hne.
  - rewrite app_nil_r. apply split2_none, (part_absent a); [done|set_solver].
  - apply split2_some; [apply (part_absent a); [done|set_solver]|apply find_sub_absent, (part_absent b); [done|set_solver]|done].
Qed.
Lemma uri_upto0_id s : 0%Z ∉ s → upto0 s = s.
Proof. induction s as [|c s IH]; [done|]. intros [Hc Hs]%not_elem_of_cons. cbn. rewrite decide_False by done. by rewrite IH. Qed.

Record parts_ok (u : TURI) (p : Z) : Prop := {
  po_schema : part_ok (schema u); po_user : part_ok (user u); po_password : part_ok (password u);
  po_host : part_ok (host u) ∧ host u ≠ []; po_port : port u = Some p ∧ is_int p }.
Definition num_text (p : Z) : bytes := if decide (p = 0)%Z then [] else dec p.
Definition hostport (u : TURI) (p : Z) : bytes := host u ++ prefixed sep_colon (num_text p).
Definition uri_text (u : TURI) (p : Z) : bytes :=
  (if decide (schema u = []) then [] else schema u ++ sep_schema) ++
  (user u ++ prefixed sep_colon (password u)) ++ sep_at ++ hostport u p.
Lemma resetUri_text u p : parts_ok u p →
  resetUri u = Some (URI (uri_text u p) (schema u) (user u) (password u) (host u ++ num_text p) (host u) (port u)).
Proof.
  intros [_ _ _ [_ Hne] [Hp _]]. unfold resetUri. rewrite Hp. cbn [mbind option_bind]. cbv zeta. do 2 f_equal.
  unfold uri_text, hostport. fold (num_text p). rewrite <- !app_assoc. unfold prefixed at 2. rewrite (decide_False (P := host u = [])) by done.
  by rewrite <- !app_assoc.
Qed.
Lemma num_ok p : part_ok (num_text p).
Proof. unfold num_text. case_decide; [constructor|apply dec_ok]. Qed.
Lemma text_absent u p c : parts_ok u p → c = 0%Z ∨ c = 47%Z →
  c ∉ (user u ++ prefixed sep_colon (password u)) ++ sep_at ++ hostport u p.
Proof.
  intros [_ Hu Hw [Hh _] _] Hc. unfold hostport.
  assert (Hin : c ∈ [0; 47; 58; 64]%Z) by (destruct Hc as [-> | ->]; set_solver).
  rewrite !elem_of_app. intros [[H1|H1%prefixed_in]|[H1|[H1|H1%prefixed_in]]].
  - by apply (part_absent _ _ Hu) in H1.
  - destruct H1 as [H1|H1]; [apply list_elem_of_singleton in H1; lia|by apply (part_absent _ _ Hw) in H1].
  - apply list_elem_of_singleton in H1; lia.
  - by apply (part_absent _ _ Hh) in H1.
  - destruct H1 as [H1|H1]; [apply list_elem_of_singleton in H1; lia|by apply (part_absent _ _ (num_ok p)) in H1].
Qed.
Lemma setUri_text u p v : parts_ok u p →
  setUri (uri_text u p) v = Some (URI (uri_text u p)
    (if decide (schema u = []) then schema v else schema u) (user u)
    (if decide (password u = []) then password v else password u) (hostport u p) (host u)
    (if decide (p = 0)%Z then port v else Some p)).
Proof.
  intros Hp. pose proof (text_absent u p 47 Hp ltac:(by right)) as Hslash. pose proof Hp as [Hs Hu Hw [Hh Hne] [_ Hi]].
  unfold setUri. set (body := (user u ++ _) ++ _) in Hslash.
  assert (Hsch : match split2 sep_schema (uri_text u p) with Some (a, b) => (a, b) | None => (schema v, uri_text u p) end
    = (if decide (schema u = []) then schema v else schema u, body)).
  { unfold uri_text. fold body. case_decide as Hn.
    - cbn [app]. by rewrite (split2_absent _ _ (no_slash_no_schema _ Hslash)).
    - rewrite <- app_assoc. rewrite (split2_some 58 [47; 47]%Z); [done|apply (part_absent _ _ Hs); set_solver|by apply no_slash_no_schema|].
      unfold body. by destruct (user u), (prefixed sep_colon (password u)). }
  rewrite Hsch. assert (Hat : split2 sep_at body = Some (user u ++ prefixed sep_colon (password u), hostport u p)).
  { unfold body. apply (split2_some 64 []).
    - rewrite elem_of_app. intros [H1|[H1|H1]%prefixed_in]; [by apply (part_absent _ _ Hu) in H1; set_solver|set_solver|by apply (part_absent _ _ Hw) in H1; set_solver].
    - apply find_sub_absent. unfold hostport. rewrite elem_of_app.
      intros [H1|[H1|H1]%prefixed_in]; [by apply (part_absent _ _ Hh) in H1; set_solver|set_solver|by apply (part_absent _ _ (num_ok p)) in H1; set_solver].
    - unfold hostport. by destruct (host u). }
  rewrite Hat, (split2_prefixed _ _ Hu Hw).
  assert (Hus : match (if decide (password u = []) then None else Some (user u, password u)) with
    | Some (x, y) => (x, y, hostport u p) | None => (user u ++ prefixed sep_colon (password u), password v, hostport u p) end
    = (user u, if decide (password u = []) then password v else password u, hostport u p)).
  { destruct (decide (password u = [])) as [Hpw|Hpw]; [|reflexivity]. rewrite Hpw. unfold prefixed. by rewrite decide_True, app_nil_r by done. }
  rewrite Hus. assert (Hhp : split2 sep_colon (hostport u p) = if decide (num_text p = []) then None else Some (host u, num_text p)).
  { apply split2_prefixed; [done|apply num_ok]. }
  rewrite Hhp. destruct (decide (p = 0)%Z) as [->|Hp0].
  - assert (Hn0 : num_text 0 = []) by done. rewrite Hn0, (decide_True (P := ([] : bytes) = [])) by done. cbn [mbind option_bind].
    assert (Hh0 : hostport u 0 = host u) by (unfold hostport; rewrite Hn0; apply app_nil_r). by rewrite Hh0.
  - assert (Hn : num_text p = dec p) by (unfold num_text; by rewrite decide_False). pose proof (dec_nonempty p) as Hd.
    rewrite Hn. destruct (decide (dec p = [])) as [He|_]; [by destruct Hd|]. cbn [mbind option_bind]. by rewrite (atoi_dec p Hi).
Qed.

(** ** Properties *)
(** C31: the round trip of a URI made from parts without separators: the
    receiver's string and parts are the sender's - but not the domain, which the
    sender makes without the colon before the port. *)
Theorem uri_roundtrip (u : TURI) (p : Z) (rest : cells) : parts_ok u p → str_ok (uri_text u p) →
  ∃ r w n v, resetUri u = Some r ∧ TURI_encode r = Some (w, r) ∧ TURI_decode new_TURI (w ++ rest) = Some ((n, v), rest) ∧
    uri v = uri r ∧ schema v = schema u ∧ user v = user u ∧ password v = password u ∧ host v = host u ∧ port v = port u ∧
    (domain v = domain r ↔ p = 0%Z).
Proof.
  intros Hp Hl. rewrite (resetUri_text u p Hp). eexists _, _, _, _. split; [done|].
  assert (Hne : uri_text u p ≠ []).
  { destruct Hp as [_ _ _ [_ Hh] _]. unfold uri_text, hostport. case_decide; cbn; by destruct (schema u), (user u), (prefixed sep_colon (password u)). }
  assert (Hz : 0%Z ∉ uri_text u p).
  { unfold uri_text. rewrite elem_of_app. intros [H1|H1]; [|by apply (text_absent u p 0 Hp ltac:(by left)) in H1].
    case_decide; [by apply elem_of_nil in H1|]. apply elem_of_app in H1 as [H1|H1]; [|unfold sep_schema in H1; set_solver].
    apply (part_absent _ _ (po_schema _ _ Hp)) in H1; [done|set_solver]. }
  split; [unfold TURI_encode; cbn [uri]; by rewrite decide_False by done|]. cbn [uri].
  split; [unfold TURI_decode, mbind, M_bind; rewrite (reads_str _ Hl), (uri_upto0_id _ Hz), (setUri_text u p _ Hp); reflexivity|].
  cbn [uri schema user password host port domain new_TURI]. destruct Hp as [_ _ _ _ [Hp _]]. rewrite Hp.
  split_and!; [done|by case_decide|done|by case_decide|done|by case_decide as Hc; [rewrite Hc|]|].
  unfold hostport, prefixed, num_text. destruct (decide (p = 0)%Z) as [->|Hp0]; [by rewrite decide_True by done|].
  rewrite (decide_False (P := dec p = [])) by exact (dec_nonempty p). split; [|done]. intros Hd%(f_equal length).
  rewrite !length_app in Hd. cbn in Hd. lia.
Qed.
(** [setDomain] clears the domain it was given before it uses it: whatever
    it is called with, host and domain are empty and the port is 0 afterwards. *)
Lemma uri_set_domain_loses (d : bytes) (u : TURI) :
  ∃ v, setDomain d u = Some v ∧ host v = [] ∧ domain v = [] ∧ port v = Some 0%Z ∧ schema v = schema u ∧ user v = user u.
Proof. eexists. split; [reflexivity|]. done. Qed.

Definition sample_uri : TURI := URI [] [115; 105; 112]%Z [98; 111; 98]%Z [] [] [49; 46; 50]%Z (Some 5060%Z).
Lemma sample_parts : parts_ok sample_uri 5060.
Proof.
  split; unfold part_ok; cbn [sample_uri schema user password host port]; [| | |split; [|done]|split; [done|unfold is_int; lia]];
    repeat first [apply Forall_nil_2 | apply Forall_cons_2; [lia|]].
Qed.
Lemma uri_roundtrip_witness :
  ∃ r w n v, resetUri sample_uri = Some r ∧ TURI_encode r = Some (w, r) ∧ TURI_decode new_TURI (w ++ []) = Some ((n, v), []) ∧
    uri v = uri r ∧ schema v = schema sample_uri ∧ user v = user sample_uri ∧ password v = [] ∧ host v = host sample_uri ∧
    port v = Some 5060%Z ∧ (domain v = domain r ↔ 5060%Z = 0%Z).
Proof. apply (uri_roundtrip sample_uri 5060 []); [exact sample_parts|vm_compute; reflexivity]. Defined.
