(* ===== verification/RscMsg.v ===== *)
(** * Resource messages ([include/msg/msgdef_rsc.h], [msg/msgdef_rsc.C])

    The messages that tasks of different hosts send each other: a [TUniNetMsg]
    with a header that names a resource and a URI with the other host, and a
    text.  Encoding, decoding and [size], with the codecs of MsgCodec.v and
    Uri.v.  [size] counts all parts of the URI, [encode] writes its text only:
    a message says that it is longer than it is. *)

From S2P Require Import Prelude VarChar CStr UniMsg MsgCodec Uri.

Definition RSC_REQUEST : Z := 120.
Definition RSC_RESPONSE : Z := 121.
Definition RSC_MESSAGE_TYPE : Z := 12.
Record TRscMsgHdr := RscHdr {
  rh_optionSet : Z; rh_orgAddr : TMsgAddress;
  code : Z; ruri : bytes; consumer : bytes; producer : bytes; rh_host : TURI; rid : bytes }.
Definition new_TRscMsgHdr : TRscMsgHdr := RscHdr 0 (Addr 0 0 0) 0 [] [] [] new_TURI [].
Definition set_rh_host (u : TURI) (h : TRscMsgHdr) : TRscMsgHdr :=
  RscHdr (rh_optionSet h) (rh_orgAddr h) (code h) (ruri h) (consumer h) (producer h) u (rid h).
(** [operator=]: neither the option set nor [orgAddr]; [clone] has both. *)
Definition TRscMsgHdr_assign (dst r : TRscMsgHdr) : TRscMsgHdr :=
  RscHdr (rh_optionSet dst) (rh_orgAddr dst) (code r) (ruri r) (consumer r) (producer r) (rh_host r) (rid r).
Definition TRscMsgHdr_clone (h : TRscMsgHdr) : TRscMsgHdr :=
  RscHdr (rh_optionSet h) (rh_orgAddr h) (code h) (ruri h) (consumer h) (producer h) (rh_host h) (rid h).

(** [TURI::size] *)
Definition TURI_size (u : TURI) : Z :=
  (CStr_size (uri u) + CStr_size (schema u) + CStr_size (user u) + CStr_size (password u) + CStr_size (domain u) + CStr_size (host u) + 4)%Z.
Definition TRscMsgHdr_size (h : TRscMsgHdr) : Z :=
  (4 + (if hdr_flag (rh_optionSet h) then TMsgAddress_size else 0) + 4 + CStr_size (ruri h) + CStr_size (consumer h) +
   CStr_size (producer h) + TURI_size (rh_host h) + CStr_size (rid h))%Z.
(** [encode] may complete the URI, before the size is taken: it returns the
    header as it is afterwards. *)
Definition TRscMsgHdr_encode (h : TRscMsgHdr) : option (TRscMsgHdr * cells) :=
  '(w, u) ← TURI_encode (rh_host h);
  Some (set_rh_host u h, encode_int (rh_optionSet h) ++ (if hdr_flag (rh_optionSet h) then TMsgAddress_encode (rh_orgAddr h) else []) ++
    encode_int (code h) ++ put_str (ruri h) ++ put_str (consumer h) ++ put_str (producer h) ++ w ++ put_str (rid h)).
Definition TRscMsgHdr_decode (h : TRscMsgHdr) : M cells (Z * TRscMsgHdr) :=
  o ← get_uint; a ← (if hdr_flag o then TMsgAddress_decode else mret (rh_orgAddr h));
  c ← get_uint; r ← get_str; co ← get_str; pr ← get_str; '(_, u) ← TURI_decode (rh_host h); i ← get_str;
  let h := RscHdr o a c r co pr u i in mret (TRscMsgHdr_size h, h).
Definition TRscMsgBody_size (rsc : bytes) : Z := CStr_size rsc.
Definition TRscMsgBody_decode : M cells (Z * bytes) := s ← get_str; mret (TRscMsgBody_size s, s).

(** A message with such a header and body; [r_uni] has its other members. *)
Record rsc_msg := RscMsg { r_uni : TUniNetMsg; r_hdr : TRscMsgHdr; r_body : bytes }.
Definition bare (u : TUniNetMsg) : TUniNetMsg := put_hdr None (put_body None u).
(** [TUniNetMsg::encode] of it: what it returns and what it writes. *)
Definition rsc_encode `{OtherParts} (m : rsc_msg) : option (Z * cells) :=
  '(n, w) ← TUniNetMsg_encode (bare (r_uni m)); '(h, v) ← TRscMsgHdr_encode (r_hdr m);
  Some (n + TRscMsgHdr_size h + TRscMsgBody_size (r_body m), w ++ v ++ put_str (r_body m))%Z.
(** The three [decode]s in a row, into new objects. *)
Definition rsc_decode : M cells rsc_msg :=
  '(_, u) ← TUniNetMsg_decode new_TUniNetMsg; '(_, h) ← TRscMsgHdr_decode new_TRscMsgHdr; '(_, b) ← TRscMsgBody_decode; mret (RscMsg u h b).

#[local] Arguments encode_int : simpl never.
#[local] Arguments put_str : simpl never.
#[local] Arguments TMsgAddress_encode : simpl never.

(** ** The round trip *)
(** A header as it can be sent: its URI [v] at the receiver. *)
Record rsc_hdr_ok (h : TRscMsgHdr) (v : TURI) : Prop := {
  rk_opt : is_uint (rh_optionSet h); rk_addr : addr_ok (rh_orgAddr h); rk_code : is_uint (code h);
  rk_strs : Forall str_ok [ruri h; consumer h; producer h; rid h];
  rk_uri : uri (rh_host h) ≠ [] ∧ 0%Z ∉ uri (rh_host h) ∧ str_ok (uri (rh_host h));
  rk_host : setUri (uri (rh_host h)) new_TURI = Some v }.
(** The members of a message other than its parts. *)
Record head_ok (u : TUniNetMsg) : Prop := {
  hk_opt : is_uint (optionSet u); hk_addrs : addr_ok (oAddr u) ∧ addr_ok (tAddr u);
  hk_kind : is_uint (msgName u) ∧ is_uint (msgType u);
  hk_cseq : hasCSeq u = true → ∃ n, cseq u = Some n ∧ is_uint n; hk_trans : str_ok (transID u) }.
Definition received_rsc (h : TRscMsgHdr) (v : TURI) : TRscMsgHdr :=
  RscHdr (rh_optionSet h) (if hdr_flag (rh_optionSet h) then rh_orgAddr h else Addr 0 0 0) (code h) (ruri h) (consumer h) (producer h) v (rid h).
Definition rsc_received (m : rsc_msg) (v : TURI) : rsc_msg := RscMsg (received_head (r_uni m)) (received_rsc (r_hdr m) v) (r_body m).

(** The head of a message does not depend on its parts. *)
Definition dummy (u : TUniNetMsg) : TUniNetMsg :=
  put_hdr (if hasCtrlMsgHdr u then Some (CtrlCom new_TComMsgHdr) else None) (put_body (if hasMsgBody u then Some (BodyCom []) else None) u).
Lemma dummy_ok u : head_ok u → wire_ok (dummy u).
Proof.
  intros [Ho Ha Hk Hc Ht]. assert (Hf : ∀ f, flagged f (dummy u) = flagged f u) by done. split; try done.
  - unfold dummy. cbn [put_hdr ctrlMsgHdr]. unfold hasCtrlMsgHdr in *. rewrite Hf. destruct (flagged _ u); [|done]. split; [done|].
    split; unfold addr_ok, is_uint, is_int; cbn; [lia..|done|]. repeat constructor.
  - unfold dummy. cbn [put_hdr put_body msgBody]. unfold hasMsgBody in *. rewrite Hf. by destruct (flagged _ u).
Qed.
Lemma reads_bare u : head_ok u → ∃ k, reads (TUniNetMsg_decode new_TUniNetMsg) (k, received_head u) (head_bytes u).
Proof. intros Hu. destruct (reads_head _ (dummy_ok u Hu)) as [k Hk]. by exists k. Qed.
Lemma encode_bare `{OtherParts} u : head_ok u → TUniNetMsg_encode (bare u) = Some (Z.of_nat (length (head_bytes u)), head_bytes u).
Proof.
  intros [_ _ _ Hc _]. unfold TUniNetMsg_encode. cbn [bare put_hdr put_body ctrlMsgHdr msgBody part cseq transID].
  change (hasCSeq (bare u)) with (hasCSeq u). change (hasTransId (bare u)) with (hasTransId u). unfold head_bytes.
  assert (Hcs : (if hasCSeq u then n ← cseq u; Some (4%Z, encode_int n) else Some (0%Z, [])) =
    Some (Z.of_nat (length (if hasCSeq u then from_option encode_int [] (cseq u) else [])), if hasCSeq u then from_option encode_int [] (cseq u) else [])).
  { destruct (hasCSeq u); [|done]. by destruct (Hc eq_refl) as (n & -> & _). }
  rewrite Hcs. cbn [mbind option_bind fst snd optionSet oAddr tAddr dialogType msgName msgType]. set (wc := if hasCSeq u then _ else _). rewrite !app_nil_r. do 2 f_equal; [|by destruct (hasTransId u)].
  rewrite !length_app, !length_int, !length_addr. cbn [length]. unfold fixed_size, TMsgAddress_size.
  destruct (hasTransId u); cbn [fst snd length]; unfold CStr_size, put_str; rewrite ?length_app, ?length_fmap, ?length_int; lia.
Qed.
Lemma encode_rsc_hdr h v : rsc_hdr_ok h v → ∃ w, TRscMsgHdr_encode h = Some (h, w) ∧ reads (TRscMsgHdr_decode new_TRscMsgHdr) (TRscMsgHdr_size (received_rsc h v), received_rsc h v) w ∧
  (TRscMsgHdr_size h = Z.of_nat (length w) + TURI_size (rh_host h) - CStr_size (uri (rh_host h)))%Z.
Proof.
  intros [Ho Ha Hc Hs (Hne & Hz & Hu) Hh]. repeat (apply Forall_cons in Hs as [? Hs]). destruct h as [o a c r co pr u i]. cbn in *.
  eexists. split; [unfold TRscMsgHdr_encode, TURI_encode; cbn; rewrite decide_False by done; reflexivity|]. split.
  - unfold TRscMsgHdr_decode. cbn. eapply reads_bind; [by apply reads_uint|]. eapply reads_bind; [apply reads_if; intros _; by apply reads_addr|].
    eapply reads_bind; [by apply reads_uint|]. do 3 (eapply reads_bind; [by apply reads_str|]).
    eapply reads_bind; [unfold TURI_decode; eapply reads_last; [by apply reads_str|]; rewrite (uri_upto0_id _ Hz), Hh; apply reads_ret|].
    cbv iota beta. eapply reads_last; [by apply reads_str|]. apply reads_ret.
  - unfold TRscMsgHdr_size. cbn. rewrite !length_app, !length_int. unfold CStr_size, put_str. destruct (hdr_flag o);
      rewrite ?length_addr, !length_app, !length_fmap, !length_int; unfold TMsgAddress_size; cbn [length]; lia.
Qed.
(** How much longer a message says it is than it is. *)
Definition surplus (u : TURI) : Z := (TURI_size u - CStr_size (uri u))%Z.
Lemma rsc_encode_ok `{OtherParts} m v : head_ok (r_uni m) → rsc_hdr_ok (r_hdr m) v → str_ok (r_body m) →
  ∃ w, rsc_encode m = Some (Z.of_nat (length w) + surplus (rh_host (r_hdr m)), w)%Z ∧ reads rsc_decode (rsc_received m v) w.
Proof.
  intros Hu Hh Hb. destruct (encode_rsc_hdr _ _ Hh) as (w & He & Hr & Hs). destruct (reads_bare _ Hu) as [k Hk].
  exists (head_bytes (r_uni m) ++ w ++ put_str (r_body m)). split.
  - unfold rsc_encode. rewrite (encode_bare _ Hu). cbn [mbind option_bind]. rewrite He. cbn [mbind option_bind]. do 2 f_equal. rewrite Hs.
    unfold surplus, TRscMsgBody_size, CStr_size, put_str. rewrite !length_app, length_fmap, length_int. lia.
  - unfold rsc_decode. eapply reads_bind; [exact Hk|]. cbv iota beta. eapply reads_bind; [exact Hr|]. cbv iota beta.
    eapply reads_last; [unfold TRscMsgBody_decode; eapply reads_last; [by apply reads_str|apply reads_ret]|]. apply reads_ret.
Qed.

(** ** Properties *)
(** C23: the round trip of a resource message: what [encode] writes decodes to
    the same header and text, with the URI that the receiver makes of the
    sender's text, and leaves the buffer at the next byte.  [encode] returns
    more than it writes: it counts the parts of the URI, at least 24 bytes,
    which are not written. *)
Theorem rsc_wire_roundtrip `{OtherParts} (m : rsc_msg) (v : TURI) (rest : cells) :
  head_ok (r_uni m) → rsc_hdr_ok (r_hdr m) v → str_ok (r_body m) →
  ∃ n w, rsc_encode m = Some (n, w) ∧ rsc_decode (w ++ rest) = Some (rsc_received m v, rest) ∧ (Z.of_nat (length w) + 24 ≤ n)%Z.
Proof.
  intros Hu Hh Hb. destruct (rsc_encode_ok m v Hu Hh Hb) as (w & He & Hr). eexists _, w. split; [exact He|]. split; [apply Hr|].
  unfold surplus, TURI_size, CStr_size. lia.
Qed.

(** *** Witness *)
Definition sample_host : bytes := [55; 95; 56; 95; 57; 58; 49; 64; 49; 48; 46; 48; 46; 48; 46; 50; 58; 53; 48; 48; 48]%Z.
Definition uri_of (s : bytes) : TURI := default new_TURI (TURI_of s).
Definition sample_rsc : rsc_msg :=
  RscMsg (UniNetMsg (Tuple 4 5 6) 15 (Addr 1 2 3) (Addr 7 0 0) 2 RSC_REQUEST RSC_MESSAGE_TYPE [49; 50]%Z (Some 9%Z) None None)
    (RscHdr 0 (Addr 0 0 0) 200 [47; 97]%Z [] [112]%Z (uri_of sample_host) [114]%Z) [111; 107]%Z.
Definition sample_seen : TURI := default new_TURI (setUri sample_host new_TURI).
Lemma sample_rsc_ok : head_ok (r_uni sample_rsc) ∧ rsc_hdr_ok (r_hdr sample_rsc) sample_seen.
Proof.
  split.
  - split; unfold addr_ok, is_uint, str_ok; cbn; unfold RSC_REQUEST, RSC_MESSAGE_TYPE; [lia..| |lia]. intros _. exists 9%Z. split; [done|unfold is_uint; lia].
  - split; try (unfold addr_ok, is_uint; cbn; lia); [by repeat constructor| |by vm_compute].
    change (uri (rh_host (r_hdr sample_rsc))) with sample_host. split; [done|]. split; [|by vm_compute].
    apply (bool_decide_unpack _). by vm_compute.
Qed.
Lemma rsc_wire_roundtrip_witness :
  ∃ n w, rsc_encode (H:=no_parts) sample_rsc = Some (n, w) ∧ rsc_decode (w ++ []) = Some (rsc_received sample_rsc sample_seen, []) ∧
    (Z.of_nat (length w) + 24 ≤ n)%Z.
Proof. apply (rsc_wire_roundtrip (H:=no_parts)); [apply sample_rsc_ok|apply sample_rsc_ok|vm_compute; reflexivity]. Defined.
