(* ===== verification/Regexp.v ===== *)
(** * Regular expressions ([comserv/cregexp.C], [comserv/cregexpele.C])

    A rule is a sequence of elements - a character, any character, a class -
    each with a number of repetitions: parsed from a text and matched against a
    whole string, by trying longer and longer runs of each element.  The lists
    of elements ([CList], of which only iterators are used) are lists.  Iterators
    into the rule are what is left of it, iterators into the object are
    positions; reading the position behind the object gives its terminating 0,
    reading further is undefined.  The parse errors of the source are all turned
    into [bad_rule]. *)

From S2P Require Import Prelude Command Uri.

(** ** Rules ([include/comserv/cregexpele.h]) *)
Inductive ele_body := Exact (c : Z) | AnyOne | Group (reversed : bool) (items : list (Z * Z)).
(** With the members of [m_modifier]. *)
Record element := Element { body : ele_body; minimum : Z; maximum : Z }.
Definition MAX_COUNT : Z := 10000.

(** [CGroupItem::match], [match_component]: [char]s are signed. *)
Definition item_match (object : Z) (i : Z * Z) : bool := bool_decide (i8 i.1 ≤ i8 object ≤ i8 i.2)%Z.
Definition match_component (reversed : bool) (items : list (Z * Z)) (object : Z) : bool :=
  xorb reversed (existsb (item_match object) items).

(** ** Matching *)
Inductive MResult := certain | certain_not | un_certain.
(** The loop of [CRegExpEleExact] and [CRegExpEleGroup]; [None] in the result is
    their [return certain_not]. *)
Fixpoint char_loop (fuel : nat) (ok : Z → bool) (s : bytes) (min max : Z) (target begin passed : nat) : option (option (nat * nat)) :=
  match fuel with
  | O => None
  | S fuel =>
      if decide (((begin < target)%nat ∨ Z.of_nat passed < min) ∧ Z.of_nat passed < max)%Z then
        c ← char_at s begin;
        if ok c then char_loop fuel ok s min max target (S begin) (S passed) else Some None
      else Some (Some (begin, passed))
  end.
Definition match_chars (ok : Z → bool) (min max : Z) (s : bytes) (begin target : nat) : option (MResult * nat) :=
  if decide (Z.of_nat target - Z.of_nat begin ≤ max ∧ min ≤ Z.of_nat (length s) - Z.of_nat begin)%Z then
    r ← char_loop (S (Nat.max (target - begin) (Z.to_nat min))) ok s min max target begin 0;
    match r with
    | None => Some (certain_not, begin)
    | Some (begin, passed) =>
        if decide (Z.of_nat passed = max ∧ begin < target) then Some (certain_not, begin)
        else if decide (Z.of_nat passed = max ∧ target = begin) then Some (certain, begin)
        else Some (un_certain, begin)
    end
  else Some (certain_not, begin).
(** [CRegExpEleAnyOne::match_front]: iterators are only moved. *)
Definition match_any (min max : Z) (s : bytes) (begin target : nat) : MResult * nat :=
  if decide (Z.of_nat target - Z.of_nat begin = max)%Z then (certain, target)
  else if decide (Z.of_nat target - Z.of_nat begin < max ∧ min ≤ Z.of_nat (length s) - Z.of_nat begin)%Z then
    (un_certain, if decide (Z.of_nat target < Z.of_nat begin + min)%Z then begin + Z.to_nat min else target)
  else (certain_not, begin).
Definition match_front (e : element) (s : bytes) (begin target : nat) : option (MResult * nat) :=
  match body e with
  | Exact c => match_chars (λ x, bool_decide (x = c)) (minimum e) (maximum e) s begin target
  | AnyOne => Some (match_any (minimum e) (maximum e) s begin target)
  | Group reversed items => match_chars (match_component reversed items) (minimum e) (maximum e) s begin target
  end.
(** The loop of [match_impl], with its variables; the recursive call is a loop
    that starts at [obj_it_temp] with the elements that follow. *)
Fixpoint match_loop (fuel : nat) (s : bytes) (obj_b_cur obj_it_temp target : nat) (ele : list element) : option bool :=
  match fuel with
  | O => None
  | S fuel =>
      match ele with
      | [] => Some (bool_decide (obj_b_cur = length s))
      | e :: next_ele =>
          '(result, obj_it_temp) ← match_front e s obj_it_temp target;
          match result with
          | certain => match_loop fuel s obj_it_temp obj_it_temp obj_it_temp next_ele
          | certain_not => Some false
          | un_certain =>
              found ← match_loop fuel s obj_it_temp obj_it_temp obj_it_temp next_ele;
              if (found : bool) then Some true else match_loop fuel s obj_b_cur obj_b_cur (S target) ele
          end
      end
  end.
(** The target of each element goes through at most [maximum + 1] positions. *)
Fixpoint match_depth (ele : list element) : nat :=
  match ele with [] => 1 | e :: ele => Z.to_nat (maximum e) + 1 + match_depth ele end.
Definition match_impl (s : bytes) (obj_b : nat) (ele : list element) : option bool :=
  match_loop (match_depth ele) s obj_b obj_b obj_b ele.
(** [CRegExpEleRoot::match] *)
Definition root_match (ele : list element) (object : bytes) : option bool := match_impl object 0 ele.

(** ** Parsing *)
(** A parsing function returns, throws, or is undefined. *)
Inductive outcome (A : Type) := Val (a : A) | Throws | Undef.
Arguments Val {A} _.
Arguments Throws {A}.
Arguments Undef {A}.
#[export] Instance outcome_ret : MRet outcome := λ A a, Val a.
#[export] Instance outcome_bind : MBind outcome := λ A B f m,
  match m with Val a => f a | Throws => Throws | Undef => Undef end.

Record general_char := GeneralChar { character : Z; escaped : bool }.
#[export] Instance general_char_eq_dec : EqDecision general_char.
Proof. solve_decision. Defined.
Definition get_next_char (obj : bytes) : outcome (general_char * bytes) :=
  match obj with
  | [] => Throws
  | c :: obj =>
      if decide (c = 92)%Z then match obj with [] => Throws | c :: obj => Val (GeneralChar c true, obj) end
      else Val (GeneralChar c false, obj)
  end.

(** [CRegExpEleGroup::parse]; [b_char] has a value only in two of the states. *)
Inductive group_status := search_reverse_tag | reading_begin_char | search_spliter (b_char : Z) | reading_end_char (b_char : Z).
Fixpoint group_loop (fuel : nat) (s : group_status) (reversed : bool) (items : list (Z * Z)) (it : bytes) : outcome (ele_body * bytes) :=
  match fuel with
  | O => Undef
  | S fuel =>
      '(gc, it) ← get_next_char it;
      if decide (gc = GeneralChar 93 false) then
        let items := match s with search_spliter b => items ++ [(b, b)] | _ => items end in
        match s with
        | search_spliter _ | reading_begin_char => if decide (items = []) then Throws else Val (Group reversed items, it)
        | _ => Throws
        end
      else
        match s with
        | search_reverse_tag =>
            if decide (gc = GeneralChar 94 false) then group_loop fuel reading_begin_char true items it
            else group_loop fuel (search_spliter (character gc)) reversed items it
        | reading_begin_char =>
            if decide (gc = GeneralChar 45 false) then Throws else group_loop fuel (search_spliter (character gc)) reversed items it
        | search_spliter b =>
            if decide (gc = GeneralChar 45 false) then group_loop fuel (reading_end_char b) reversed items it
            else group_loop fuel (search_spliter (character gc)) reversed (items ++ [(b, b)]) it
        | reading_end_char b =>
            if decide (gc = GeneralChar 45 false) then Throws
            else group_loop fuel reading_begin_char reversed (items ++ [(b, character gc)]) it
        end
  end.
Definition group_parse (begin : bytes) : outcome (ele_body * bytes) :=
  '(gc, it) ← get_next_char begin;
  if decide (gc = GeneralChar 91 false) then group_loop (S (length it)) search_reverse_tag false [] it else Throws.

Definition produce_element_body (begin : bytes) : outcome (ele_body * bytes) :=
  '(gc, it) ← get_next_char begin;
  if escaped gc then Val (Exact (character gc), it)
  else if decide (character gc = 46)%Z then Val (AnyOne, it)
  else if decide (character gc = 91)%Z then group_parse begin
  else Val (Exact (character gc), it).

(** [n *= 10; n += c - '0'] on an [int], whose overflow is undefined. *)
Definition next_digit (n c : Z) : outcome Z :=
  let n := (n * 10 + (c - 48))%Z in if decide (n < 2 ^ 31)%Z then Val n else Undef.
(** The loop of [produce_modifier_range]: [reading_max] is the state and
    [comma_read]; the result has [min], [max] and [max_read]. *)
Fixpoint range_loop (fuel : nat) (reading_max : bool) (min max : Z) (min_read max_read : bool) (it : bytes) : outcome (Z * Z * bool * bool * bytes) :=
  match fuel with
  | O => Undef
  | S fuel =>
      '(gc, it) ← get_next_char it;
      if escaped gc then if decide (character gc = 125)%Z then Val (min, max, reading_max, max_read, it) else Throws
      else if is_digit (character gc) then
        if reading_max then max ← next_digit max (character gc); range_loop fuel reading_max min max min_read true it
        else min ← next_digit min (character gc); range_loop fuel reading_max min max true max_read it
      else if reading_max then Throws
      else if decide (character gc = 44)%Z then
        if min_read then range_loop fuel true min max min_read max_read it else Throws
      else Throws
  end.
Definition produce_modifier_range (begin : bytes) : outcome (Z * Z * bytes) :=
  '(min, max, comma_read, max_read, it) ← range_loop (S (length begin)) false 0 0 false false begin;
  if (max_read : bool) then if decide (max < min)%Z then Throws else Val (min, max, it)
  else Val (min, if (comma_read : bool) then MAX_COUNT else min, it).
Definition produce_element_modifier (begin : bytes) : outcome (Z * Z * bytes) :=
  if decide (begin = []) then Val (1, 1, begin)%Z else
  '(gc, it) ← get_next_char begin;
  if escaped gc then
    if decide (character gc = 123)%Z then produce_modifier_range it else Val (1, 1, begin)%Z
  else if decide (character gc = 63)%Z then Val (0, 1, it)%Z
  else if decide (character gc = 43)%Z then Val (1%Z, MAX_COUNT, it)
  else if decide (character gc = 42)%Z then Val (0%Z, MAX_COUNT, it)
  else Val (1, 1, begin)%Z.
Definition produce_element (begin : bytes) : outcome (element * bytes) :=
  '(b, it) ← produce_element_body begin; '(min, max, it) ← produce_element_modifier it; Val (Element b min max, it).
(** [CRegExpEleRoot::parse]: [false] when it throws; the elements in front of
    the error stay in the list. *)
Fixpoint root_parse (fuel : nat) (begin : bytes) (m_element_list : list element) : option (bool * list element) :=
  match fuel with
  | O => None
  | S fuel =>
      if decide (begin = []) then Some (true, m_element_list) else
      match produce_element begin with
      | Val (e, begin) => root_parse fuel begin (m_element_list ++ [e])
      | Throws => Some (false, m_element_list)
      | Undef => None
      end
  end.

(** ** The class [CRegExp]; a result [None] or [false] is an exception *)
Record CRegExp := RegExp { m_rule : bytes; parsed : bool; root_element : list element }.
Definition new_CRegExp : CRegExp := RegExp [] false [].
Definition CRegExp_rule (rule : bytes) : option CRegExp :=
  if decide (rule = []) then None else Some (RegExp rule false []).
Definition initialize (rule : bytes) : M CRegExp bool := λ r,
  if decide (rule = []) then Some (false, r) else Some (true, RegExp rule (parsed r) (root_element r)).
Definition parse : M CRegExp bool := λ r,
  if decide (m_rule r = []) then Some (false, r) else
  '(ok, es) ← root_parse (S (length (m_rule r))) (m_rule r) (root_element r);
  Some (ok, RegExp (m_rule r) (parsed r) es).
Definition regexp_match (object : bytes) : M CRegExp (option bool) :=
  p ← gets parsed;
  ok ← (if (p : bool) then mret true else
        ok ← parse; (if (ok : bool) then modify (λ r, RegExp (m_rule r) true (root_element r)) else mret tt) ;; mret ok);
  if (ok : bool) then es ← gets root_element; b ← defined (root_match es object); mret (Some b) else mret None.

(** ** What a rule means *)
Definition accepts (b : ele_body) (c : Z) : bool :=
  match b with Exact x => bool_decide (c = x) | AnyOne => true | Group reversed items => match_component reversed items c end.
Inductive lang : list element → bytes → Prop :=
  | lang_nil : lang [] []
  | lang_cons e es u v : (minimum e ≤ Z.of_nat (length u) ≤ maximum e)%Z → Forall (λ c, accepts (body e) c = true) u →
      lang es v → lang (e :: es) (u ++ v).
(** Repetitions in order; a class does not take the 0 behind an object. *)
Definition bounded (e : element) : Prop := (0 ≤ minimum e ≤ maximum e)%Z.
Definition stops (b : ele_body) : bool :=
  match b with AnyOne => true | b => negb (accepts b 0) end.
Definition good (e : element) : Prop := bounded e ∧ stops (body e) = true.

(** ** Matching decides the language *)
Definition piece (ok : Z → bool) (s : bytes) (b c : nat) : bool := bool_decide (b + c ≤ length s) && forallb ok (take c (drop b s)).
Lemma piece_0 ok s b : piece ok s b 0 = bool_decide (b ≤ length s).
Proof. unfold piece. rewrite Nat.add_0_r. cbn. by rewrite andb_true_r. Qed.
Lemma piece_S ok s b c x : s !! b = Some x → piece ok s b (S c) = ok x && piece ok s (S b) c.
Proof.
  intros Hx. unfold piece. rewrite (drop_S s x b Hx). cbn [take forallb]. rewrite Nat.add_succ_r. cbn [Nat.add].
  destruct (bool_decide _); [done|]. by rewrite andb_false_r.
Qed.
Lemma piece_short ok s b c : length s < b + c → piece ok s b c = false.
Proof. intros. unfold piece. by rewrite bool_decide_eq_false_2 by lia. Qed.
Lemma piece_le ok s b c c' : c ≤ c' → piece ok s b c' = true → piece ok s b c = true.
Proof.
  intros Hc. unfold piece. rewrite !andb_true_iff, !bool_decide_eq_true, !forallb_forall. intros [Hl Hf]. split; [lia|].
  intros x Hx. apply Hf. rewrite <- list_elem_of_In in *. apply (elem_of_prefix (take c (drop b s)) _ _ Hx).
  replace c with (c `min` c') by lia. rewrite <- take_take. apply prefix_take.
Qed.

Lemma char_loop_ok ok s min max fuel target begin passed k : ok 0%Z = false → begin ≤ length s →
  k = Nat.max (target - begin) (Z.to_nat min - passed) → (Z.of_nat (passed + k) ≤ max)%Z → k < fuel →
  char_loop fuel ok s min max target begin passed = Some (if piece ok s begin k then Some (begin + k, passed + k) else None).
Proof.
  intros H0. revert begin passed fuel. induction k as [|k IH]; intros begin passed fuel Hb Hk Hm Hf; destruct fuel as [|fuel]; try lia; cbn [char_loop].
  - rewrite decide_False by lia. rewrite piece_0, bool_decide_true by done. by rewrite !Nat.add_0_r.
  - rewrite decide_True by lia. unfold char_at. destruct (decide (begin = length s)) as [->|Hne].
    { cbn [mbind option_bind]. by rewrite H0, piece_short by lia. }
    destruct (lookup_lt_is_Some_2 s begin) as [x Hx]; [lia|]. rewrite Hx. cbn [mbind option_bind]. rewrite (piece_S _ _ _ _ x Hx).
    destruct (ok x); [|done]. rewrite IH by lia. cbn [andb]. by rewrite !Nat.add_succ_r.
Qed.

(** What [match_front] finds with the target [k] characters ahead. *)
Definition found (ok : Z → bool) (max : Z) (s : bytes) (b k n : nat) (r : MResult) (b' : nat) : Prop :=
  match r with
  | certain_not => ∀ c, n ≤ c → piece ok s b c = false
  | certain => Z.of_nat k = max ∧ b' = b + n ∧ (b' ≤ length s → piece ok s b n = true)
  | un_certain => (Z.of_nat k < max)%Z ∧ b' = b + n ∧ (b' ≤ length s → piece ok s b n = true)
  end.
Lemma match_chars_ok ok min max s b k : ok 0%Z = false → (0 ≤ min ≤ max)%Z → (Z.of_nat k ≤ max)%Z →
  ∃ r b', match_chars ok min max s b (b + k) = Some (r, b') ∧ found ok max s b k (Nat.max k (Z.to_nat min)) r b'.
Proof.
  intros H0 Hmm Hk. unfold match_chars. case_decide as Hg.
  - rewrite (char_loop_ok _ _ _ _ _ _ _ _ (Nat.max k (Z.to_nat min))) by (done || lia). cbn [mbind option_bind].
    destruct (piece ok s b _) eqn:Hp.
    + rewrite decide_False by lia. case_decide; do 2 eexists; (split; [done|]); cbn; (split; [lia|done]).
    + do 2 eexists. split; [done|]. cbn. intros c Hc. destruct (piece ok s b c) eqn:Hpc; [|done]. apply (piece_le _ _ _ _ _ Hc) in Hpc. congruence.
  - do 2 eexists. split; [done|]. cbn. intros c Hc. apply piece_short. lia.
Qed.
Lemma front_ok e s b k : good e → (Z.of_nat k ≤ maximum e)%Z →
  ∃ r b', match_front e s b (b + k) = Some (r, b') ∧ found (accepts (body e)) (maximum e) s b k (Nat.max k (Z.to_nat (minimum e))) r b'.
Proof.
  intros [Hb Hs] Hk. unfold bounded in Hb. unfold match_front. destruct (body e) as [c| |rev items]; cbn [stops accepts] in *.
  - apply match_chars_ok; [|done|done]. by apply negb_true_iff in Hs.
  - destruct (match_any _ _ _ _ _) as [r b'] eqn:Hr. exists r, b'. split; [done|]. revert Hr. unfold match_any.
    assert (Hp : ∀ n, b + n ≤ length s → piece (λ _, true) s b n = true).
    { intros n Hn. unfold piece. rewrite bool_decide_true by done. by apply forallb_forall. }
    repeat case_decide; intros [= <- <-]; cbn; try (split; [lia|split; [lia|]]; intros; apply Hp; lia). intros c Hc. apply piece_short. lia.
  - apply match_chars_ok; [|done|done]. by apply negb_true_iff in Hs.
Qed.

Lemma forallb_Forall' {A} (f : A → bool) l : forallb f l = true ↔ Forall (λ x, f x = true) l.
Proof. rewrite forallb_forall, Forall_forall. by setoid_rewrite list_elem_of_In. Qed.
Lemma lang_piece e es s b : good e →
  b ≤ length s ∧ lang (e :: es) (drop b s) ↔
  ∃ c, Z.to_nat (minimum e) ≤ c ∧ (Z.of_nat c ≤ maximum e)%Z ∧ piece (accepts (body e)) s b c = true ∧ lang es (drop (b + c) s).
Proof.
  intros [Hb _]. unfold bounded in Hb. unfold piece. setoid_rewrite andb_true_iff. setoid_rewrite bool_decide_eq_true. setoid_rewrite forallb_Forall'. split.
  - intros [Hl Hin]. remember (drop b s) as t eqn:Ht. inversion Hin as [|? ? u v Hu Hall Hv]; simplify_eq.
    match goal with Hd : u ++ v = drop b s |- _ => rename Hd into Ht end. exists (length u).
    pose proof (f_equal length Ht) as Hlen. rewrite length_app, length_drop in Hlen. rewrite <- drop_drop, <- Ht, drop_app_length, take_app_length.
    split_and!; [lia|lia|lia|done|done].
  - intros (c & Hmin & Hmax & [Hl Hall] & Hin). split; [lia|]. rewrite <- (take_drop c (drop b s)). constructor; [|done|by rewrite drop_drop].
    rewrite length_take, length_drop. lia.
Qed.

Lemma lang_nil_inv t : lang [] t → t = [].
Proof. by inversion 1. Qed.
Lemma match_loop_ok es s : Forall good es → ∀ b fuel, match_depth es ≤ fuel →
  ∃ r, match_loop fuel s b b b es = Some r ∧ (r = true ↔ b ≤ length s ∧ lang es (drop b s)).
Proof.
  induction 1 as [|e es He Hes IH]; intros b fuel Hf; (destruct fuel as [|fuel]; [cbn in Hf; lia|]).
  { cbn [match_loop]. eexists. split; [done|]. rewrite bool_decide_eq_true. split; [intros ->; split; [done|]; rewrite drop_all; constructor|].
    intros [Hb Hl]. apply lang_nil_inv, (f_equal length) in Hl. rewrite length_drop in Hl. cbn in Hl. lia. }
  pose proof He as [Hbd _]. unfold bounded in Hbd.
  assert (Hk : ∀ d k fuel, (Z.of_nat k + Z.of_nat d = maximum e)%Z → d + 1 + match_depth es ≤ fuel →
    ∃ r, match_loop fuel s b b (b + k) (e :: es) = Some r ∧
      (r = true ↔ ∃ c, Nat.max k (Z.to_nat (minimum e)) ≤ c ∧ (Z.of_nat c ≤ maximum e)%Z ∧ piece (accepts (body e)) s b c = true ∧ lang es (drop (b + c) s))).
  { induction d as [|d IHd]; intros k fuel' Hkd Hf'; (destruct fuel' as [|fuel']; [lia|]); cbn [match_loop];
      destruct (front_ok e s b k He ltac:(lia)) as (r & b' & -> & Hr); cbn [mbind option_bind]; cbv beta iota; destruct r; cbn [found] in Hr.
    - destruct Hr as (Hkm & -> & Hp). destruct (IH (b + Nat.max k (Z.to_nat (minimum e))) fuel' ltac:(lia)) as (r & Hr & Hiff). exists r. split; [done|].
      rewrite Hiff. split; [intros [Hl Hin]; eexists; split_and!; [reflexivity|lia|by apply Hp|done]|].
      intros (c & Hc & Hcm & Hpc & Hin). assert (c = Nat.max k (Z.to_nat (minimum e))) as -> by lia. split; [|done].
      unfold piece in Hpc. by apply andb_true_iff in Hpc as [Hpc%bool_decide_eq_true _].
    - exists false. split; [done|]. split; [done|]. intros (c & Hc & _ & Hpc & _). by rewrite Hr in Hpc.
    - lia.
    - lia.
    - exists false. split; [done|]. split; [done|]. intros (c & Hc & _ & Hpc & _). by rewrite Hr in Hpc.
    - destruct Hr as (Hkm & -> & Hp). destruct (IH (b + Nat.max k (Z.to_nat (minimum e))) fuel' ltac:(lia)) as (r & -> & Hiff). cbn [mbind option_bind].
      destruct r.
      + exists true. split; [done|]. split; [|done]. intros _. destruct Hiff as [Hiff _]. destruct (Hiff eq_refl) as [Hl Hin].
        eexists. split_and!; [reflexivity|lia|by apply Hp|done].
      + destruct (IHd (S k) fuel' ltac:(lia) ltac:(lia)) as (r & Hr & Hiff'). rewrite Nat.add_succ_r in Hr. exists r. split; [done|]. rewrite Hiff'.
        split; intros (c & Hc & Hcm & Hpc & Hin); exists c; (split_and!; [|done..]); [lia|].
        destruct (decide (c = Nat.max k (Z.to_nat (minimum e)))) as [->|]; [|lia]. destruct Hiff as [_ Hiff]. assert (false = true); [|done]. apply Hiff. split; [|done].
        unfold piece in Hpc. by apply andb_true_iff in Hpc as [Hpc%bool_decide_eq_true _]. }
  destruct (Hk (Z.to_nat (maximum e)) 0 (S fuel) ltac:(lia)) as (r & Hr & Hiff); [cbn [match_depth] in Hf; lia|].
  rewrite Nat.add_0_r in Hr. exists r. split; [done|]. by rewrite Hiff, lang_piece.
Qed.
Lemma root_match_ok es s : Forall good es → ∃ r, root_match es s = Some r ∧ (r = true ↔ lang es s).
Proof.
  intros Hg. destruct (match_loop_ok es s Hg 0 (match_depth es) ltac:(done)) as (r & Hr & Hiff). exists r. split; [done|].
  rewrite Hiff, drop_0. split; [by intros []|]. intros Hl. split; [lia|done].
Qed.

(** ** Writing a rule down *)
Definition print_char (c : Z) : bytes := if decide (c = 123)%Z then [c] else [92; c]%Z.
Definition print_item (i : Z * Z) : bytes := [92; i.1; 45; 92; i.2]%Z.
Definition print_body (b : ele_body) : bytes :=
  match b with
  | Exact c => print_char c
  | AnyOne => [46]%Z
  | Group reversed items => [91]%Z ++ (if reversed then [94]%Z else []) ++ concat (print_item <$> items) ++ [93]%Z
  end.
Definition print_modifier (min max : Z) : bytes :=
  if decide (min = 1 ∧ max = 1)%Z then []
  else if decide (min = 0 ∧ max = 1)%Z then [63]%Z
  else if decide (min = 1 ∧ max = MAX_COUNT)%Z then [43]%Z
  else if decide (min = 0 ∧ max = MAX_COUNT)%Z then [42]%Z
  else [92; 123]%Z ++ dec min ++ [44]%Z ++ dec max ++ [92; 125]%Z.
Definition print_element (e : element) : bytes := print_body (body e) ++ print_modifier (minimum e) (maximum e).
Definition print_rule (es : list element) : bytes := concat (print_element <$> es).
Definition printable (e : element) : Prop :=
  (0 ≤ minimum e ≤ maximum e ∧ maximum e < 2 ^ 31)%Z ∧ match body e with Group _ [] => False | _ => True end.

Lemma get_escaped c t : get_next_char (92 :: c :: t)%Z = Val (GeneralChar c true, t).
Proof. done. Qed.
Lemma get_plain c t : c ≠ 92%Z → get_next_char (c :: t) = Val (GeneralChar c false, t).
Proof. intros. cbn. by rewrite decide_False. Qed.

(** The next character of the rule is known. *)
Ltac next_char := first [rewrite get_escaped | rewrite get_plain by done]; cbn [mbind outcome_bind character escaped]; cbv beta iota.
Lemma item_begins st b e x rev acc fuel : st = reading_begin_char ∨ st = search_reverse_tag →
  group_loop (3 + fuel) st rev acc (print_item (b, e) ++ x) = group_loop fuel reading_begin_char rev (acc ++ [(b, e)]) x.
Proof.
  intros Hst. unfold print_item. cbn [app fst snd Nat.add group_loop]. next_char. rewrite decide_False by done.
  destruct Hst as [-> | ->]; rewrite decide_False by done; next_char; rewrite decide_False by done; rewrite decide_True by done;
    next_char; by rewrite !decide_False by done.
Qed.
Lemma items_ok l rev acc t fuel : acc ++ l ≠ [] → 3 * length l < fuel →
  group_loop fuel reading_begin_char rev acc (concat (print_item <$> l) ++ 93%Z :: t) = Val (Group rev (acc ++ l), t).
Proof.
  revert acc fuel. induction l as [|[b e] l IH]; intros acc fuel Ha Hf.
  - destruct fuel; [cbn in Hf; lia|]. cbn [fmap list_fmap concat app group_loop]. next_char. rewrite decide_True by done.
    rewrite app_nil_r in *. by rewrite decide_False.
  - cbn [length] in Hf. destruct fuel as [|[|[|fuel]]]; try lia. cbn [fmap list_fmap concat]. rewrite <- app_assoc.
    rewrite (item_begins _ b e _ rev acc fuel) by by left. rewrite IH; [by rewrite <- app_assoc| |lia]. by destruct acc.
Qed.
Lemma group_ok rev l t : l ≠ [] → group_parse (print_body (Group rev l) ++ t) = Val (Group rev l, t).
Proof.
  intros Hl. cbn [print_body]. rewrite <- !app_assoc. cbn [app]. unfold group_parse. rewrite get_plain by done. cbn [mbind outcome_bind]. cbv beta iota.
  rewrite decide_True by done.
  assert (Hlen : ∀ x : bytes, 3 * length l < length (concat (print_item <$> l) ++ 93%Z :: x)).
  { intros x. rewrite length_app. cbn. assert (3 * length l ≤ length (concat (print_item <$> l))); [|lia]. clear.
    induction l as [|i l IH]; [done|]. cbn -[Nat.mul] in *. lia. }
  destruct rev; cbn [app].
  - cbn [length]. set (x := concat (print_item <$> l) ++ 93%Z :: t). assert (Hx : ∀ f, group_loop (S f) search_reverse_tag false [] (94%Z :: x) = group_loop f reading_begin_char true [] x) by done.
    rewrite Hx. apply items_ok; [done|]. specialize (Hlen t). fold x in Hlen. lia.
  - destruct l as [|[b e] l]; [done|]. specialize (Hlen t). remember (S (length _)) as n eqn:Hn. cbn [fmap list_fmap concat length] in *.
    destruct n as [|[|[|n]]]; try lia. rewrite <- app_assoc, (item_begins _ b e _ false [] n) by by right. apply items_ok; [done|]. rewrite <- app_assoc in Hlen. cbn [length print_item app] in *. lia.
Qed.

Lemma body_ok b t : match b with Group _ [] => False | _ => True end → produce_element_body (print_body b ++ t) = Val (b, t).
Proof.
  intros Hb. unfold produce_element_body. destruct b as [c| |rev items]; cbn [print_body app].
  - unfold print_char. case_decide as Hc; cbn [app]; [subst c|]; by next_char.
  - by next_char.
  - rewrite <- (group_ok rev items t) by by destruct items. cbn [print_body app]. by next_char.
Qed.
(** What follows an element is not taken for its repetitions. *)
Definition starts (t : bytes) : Prop := produce_element_modifier t = Val (1, 1, t)%Z.
Lemma body_starts b t : starts (print_body b ++ t).
Proof.
  unfold starts, produce_element_modifier. destruct b as [c| |rev items]; cbn [print_body app]; [|by next_char|by next_char].
  unfold print_char. destruct (decide (c = 123%Z)) as [->|Hc]; cbn [app]; rewrite decide_False by done; next_char; [done|]. by rewrite decide_False.
Qed.

Lemma digits_mono d acc : digit_text d → (0 ≤ acc)%Z → (acc ≤ digits acc d)%Z.
Proof.
  intros Hd. revert acc. induction Hd as [|c d Hc Hd IH]; intros acc Ha; [done|]. cbn [digits]. rewrite Hc. apply bool_decide_eq_true in Hc.
  specialize (IH (acc * 10 + (c - 48))%Z). lia.
Qed.
Lemma digits_cons d c acc : digit_text (c :: d) → (0 ≤ acc)%Z → (digits acc (c :: d) < 2 ^ 31)%Z →
  c ≠ 92%Z ∧ is_digit c = true ∧ next_digit acc c = Val (acc * 10 + (c - 48))%Z ∧ (0 ≤ acc * 10 + (c - 48))%Z ∧ digits acc (c :: d) = digits (acc * 10 + (c - 48)) d ∧ digit_text d.
Proof.
  intros Hd Ha Hb. inversion_clear Hd as [|? ? Hc Hd']. cbn [digits] in *. rewrite Hc in *. pose proof Hc as Hc'. apply bool_decide_eq_true in Hc'.
  pose proof (digits_mono d (acc * 10 + (c - 48)) Hd' ltac:(lia)). unfold next_digit. rewrite decide_True by lia. split_and!; done || lia.
Qed.
Lemma range_min d fuel min max mr xr t : digit_text d → (0 ≤ min)%Z → (digits min d < 2 ^ 31)%Z →
  range_loop (length d + fuel) false min max mr xr (d ++ t) = range_loop fuel false (digits min d) max (mr || negb (bool_decide (d = []))) xr t.
Proof.
  revert min mr. induction d as [|c d IH]; intros min mr Hd Hm Hb; [by rewrite orb_false_r|].
  destruct (digits_cons d c min Hd Hm Hb) as (H92 & Hc & Hn & Hm' & He & Hd'). cbn [length app Nat.add range_loop]. rewrite get_plain by done. cbn [mbind outcome_bind character escaped]. cbv beta iota.
  rewrite Hc, Hn. cbn [mbind outcome_bind]. rewrite He in *. rewrite IH by done. cbn. by rewrite orb_true_r.
Qed.
Lemma range_max d fuel min max mr xr t : digit_text d → (0 ≤ max)%Z → (digits max d < 2 ^ 31)%Z →
  range_loop (length d + fuel) true min max mr xr (d ++ t) = range_loop fuel true min (digits max d) mr (xr || negb (bool_decide (d = []))) t.
Proof.
  revert max xr. induction d as [|c d IH]; intros max xr Hd Hm Hb; [by rewrite orb_false_r|].
  destruct (digits_cons d c max Hd Hm Hb) as (H92 & Hc & Hn & Hm' & He & Hd'). cbn [length app Nat.add range_loop]. rewrite get_plain by done. cbn [mbind outcome_bind character escaped]. cbv beta iota.
  rewrite Hc, Hn. cbn [mbind outcome_bind]. rewrite He in *. rewrite IH by done. cbn. by rewrite orb_true_r.
Qed.
Lemma dec_text n : (0 ≤ n < 2 ^ 31)%Z → digit_text (dec n) ∧ digits 0 (dec n) = n ∧ dec n ≠ [].
Proof.
  intros Hn. unfold dec. rewrite decide_False by lia. split_and!; [apply dec_digits_text|apply dec_digits_ok; lia|]. by destruct (dec_digits_head 9 n) as (c & s & -> & _).
Qed.
Lemma range_ok min max t : (0 ≤ min ≤ max ∧ max < 2 ^ 31)%Z →
  produce_modifier_range (dec min ++ [44]%Z ++ dec max ++ [92; 125]%Z ++ t) = Val (min, max, t).
Proof.
  intros Hm. destruct (dec_text min ltac:(lia)) as (Ht & Hv & Hne), (dec_text max ltac:(lia)) as (Ht' & Hv' & Hne'). unfold produce_modifier_range.
  replace (S (length _)) with (length (dec min) + (1 + (length (dec max) + (3 + length t)))) by (rewrite !length_app; cbn; lia).
  rewrite range_min by (done || lia). rewrite Hv, bool_decide_false by done. cbn [orb negb].
  change (1 + ?f) with (S f). cbn [app range_loop]. next_char. change (is_digit 44) with false. cbv iota. rewrite decide_True by done.
  rewrite range_max by (done || lia). rewrite Hv', bool_decide_false by done. cbn [orb negb Nat.add range_loop]. next_char. rewrite decide_True by done.
  cbn [mbind outcome_bind]. cbv beta iota. by rewrite decide_False by lia.
Qed.
Lemma modifier_ok min max t : (0 ≤ min ≤ max ∧ max < 2 ^ 31)%Z → starts t → produce_element_modifier (print_modifier min max ++ t) = Val (min, max, t).
Proof.
  intros Hm Ht. unfold print_modifier. case_decide as H1; [destruct H1; subst; exact Ht|].
  case_decide as H2; [destruct H2; subst; by cbn|]. case_decide as H3; [destruct H3; subst; by cbn|]. case_decide as H4; [destruct H4; subst; by cbn|].
  rewrite <- !app_assoc. unfold produce_element_modifier. cbn [app]. rewrite decide_False by done. next_char. rewrite decide_True by done. by apply range_ok.
Qed.
Lemma element_ok e t : printable e → starts t → produce_element (print_element e ++ t) = Val (e, t).
Proof.
  intros [Hm Hb] Ht. unfold produce_element, print_element. rewrite <- app_assoc, body_ok by done. cbn [mbind outcome_bind]. cbv beta iota.
  rewrite modifier_ok by done. by destruct e.
Qed.
Lemma rule_starts es t : starts t → starts (print_rule es ++ t).
Proof. intros Ht. destruct es as [|e es]; [done|]. unfold print_rule. cbn [fmap list_fmap concat]. unfold print_element at 1. rewrite <- !app_assoc. apply body_starts. Qed.
Lemma element_cons e : ∃ c x, print_element e = c :: x.
Proof. unfold print_element. destruct (body e); cbn [print_body]; [unfold print_char; case_decide| |]; by do 2 eexists. Qed.
(** The rule in front of [t], which starts an element or ends it. *)
Lemma root_parse_ok es t acc fuel : Forall printable es → starts t →
  root_parse (length es + fuel) (print_rule es ++ t) acc = root_parse fuel t (acc ++ es).
Proof.
  intros Hes Ht. revert acc. induction Hes as [|e es He Hes IH]; intros acc; [by rewrite app_nil_r|].
  cbn [length Nat.add root_parse]. unfold print_rule. cbn [fmap list_fmap concat]. fold (print_rule es). rewrite decide_False.
  2: { destruct (element_cons e) as (c & x & ->). done. }
  rewrite <- app_assoc, element_ok by (done || by apply rule_starts). rewrite IH. by rewrite <- app_assoc.
Qed.
Lemma rule_length es : length es ≤ length (print_rule es).
Proof.
  induction es as [|e es IH]; [done|]. unfold print_rule. cbn [fmap list_fmap concat]. fold (print_rule es). rewrite length_app.
  destruct (element_cons e) as (c & x & ->). cbn. lia.
Qed.

(** ** An object of the class *)
Lemma parse_ok es acc : Forall printable es → root_parse (S (length (print_rule es))) (print_rule es) acc = Some (true, acc ++ es).
Proof.
  intros Hes. pose proof (rule_length es). replace (S (length (print_rule es))) with (length es + S (length (print_rule es) - length es)) by lia.
  rewrite <- (app_nil_r (print_rule es)) at 2. by rewrite root_parse_ok.
Qed.
Lemma rule_nonempty es : es ≠ [] → print_rule es ≠ [].
Proof. intros Hes Hr. pose proof (rule_length es) as Hl. rewrite Hr in Hl. destruct es; [done|cbn in Hl; lia]. Qed.
(** Matching with the rule parsed, and for the first time. *)
Lemma match_parsed r object : parsed r = true → Forall good (root_element r) →
  ∃ b, regexp_match object r = Some (Some b, r) ∧ (b = true ↔ lang (root_element r) object).
Proof.
  intros Hp Hg. destruct (root_match_ok (root_element r) object Hg) as (b & Hm & Hb). exists b. split; [|done].
  unfold regexp_match. erewrite bind_eq by reflexivity. rewrite Hp. erewrite bind_eq by reflexivity. cbv beta iota.
  erewrite bind_eq by reflexivity. rewrite Hm. by erewrite bind_eq by reflexivity.
Qed.
Lemma match_first es acc object : Forall printable es → es ≠ [] → Forall good (acc ++ es) →
  ∃ b, regexp_match object (RegExp (print_rule es) false acc) = Some (Some b, RegExp (print_rule es) true (acc ++ es)) ∧ (b = true ↔ lang (acc ++ es) object).
Proof.
  intros Hes Hne Hg. destruct (match_parsed (RegExp (print_rule es) true (acc ++ es)) object eq_refl Hg) as (b & Hm & Hb). exists b. split; [|exact Hb].
  rewrite <- Hm. unfold regexp_match. erewrite bind_eq by reflexivity. erewrite (bind_eq (gets parsed)) by reflexivity. cbv beta iota.
  assert (Hparse : parse (RegExp (print_rule es) false acc) = Some (true, RegExp (print_rule es) false (acc ++ es))).
  { unfold parse. cbn [m_rule root_element parsed]. rewrite decide_False by by apply rule_nonempty. by rewrite parse_ok. }
  cbn [parsed]. erewrite bind_eq; [|erewrite bind_eq by exact Hparse; reflexivity]. by erewrite bind_eq by reflexivity.
Qed.

(** The 0 behind the object is read as one more character. *)
Lemma char_loop_over ok s max fuel target begin passed : forallb ok s = true → ok 0%Z = true → begin ≤ target → begin ≤ S (length s) →
  (Z.of_nat (passed + (target - begin)) ≤ max)%Z → target - begin < fuel →
  char_loop fuel ok s 0 max target begin passed = if decide (target ≤ S (length s)) then Some (Some (target, passed + (target - begin))) else None.
Proof.
  intros Hs H0. remember (target - begin) as k eqn:Hk. revert begin passed fuel Hk. induction k as [|k IH]; intros begin passed fuel Hk Ht Hb Hm Hf;
    (destruct fuel as [|fuel]; [lia|]); cbn [char_loop].
  - rewrite !decide_False by lia. rewrite decide_True by lia. rewrite Nat.add_0_r. by replace target with begin by lia.
  - rewrite decide_True by lia. destruct (decide (begin = S (length s))) as [->|Hne].
    { unfold char_at. rewrite decide_False by lia. rewrite lookup_ge_None_2 by lia. by rewrite decide_False by lia. }
    assert (∃ c, char_at s begin = Some c ∧ ok c = true) as (c & Hc & Hok).
    { unfold char_at. destruct (decide (begin = length s)); [by exists 0%Z|]. destruct (lookup_lt_is_Some_2 s begin) as [c Hc]; [lia|]. exists c. split; [done|].
      rewrite forallb_forall in Hs. apply Hs, list_elem_of_In. by eapply list_elem_of_lookup_2. }
    rewrite Hc. cbn [mbind option_bind]. rewrite Hok, IH by lia. by rewrite Nat.add_succ_r.
Qed.
Lemma exact_absent b s p fuel : b ≠ 0%Z → b ∉ s → 3 ≤ fuel → match_loop fuel s p p p [Element (Exact b) 1 1] = Some false.
Proof.
  intros Hb Hs Hf. assert (Hg : good (Element (Exact b) 1 1)) by (split; [done|by cbn; rewrite bool_decide_false]).
  destruct (match_loop_ok [Element (Exact b) 1 1] s) with (b := p) (fuel := fuel) as (r & -> & Hiff); [by apply Forall_singleton|done|].
  destruct r; [|done]. destruct Hs. destruct Hiff as [Hl _]. specialize (Hl eq_refl). apply lang_piece in Hl as (c & Hc & Hc' & Hp & _); [|done].
  cbn in Hc, Hc'. assert (c = 1) as -> by lia. unfold piece in Hp. apply andb_true_iff in Hp as [Hl%bool_decide_eq_true Hp].
  destruct (lookup_lt_is_Some_2 s p) as [x Hx]; [lia|]. rewrite (drop_S s x p Hx) in Hp. cbn in Hp. rewrite andb_true_r in Hp. apply bool_decide_eq_true in Hp as ->.
  by eapply list_elem_of_lookup_2.
Qed.
Lemma class_over reversed items b s fuel k : match_component reversed items 0 = true → forallb (match_component reversed items) s = true →
  b ≠ 0%Z → b ∉ s → (Z.of_nat (length s) + 2 < MAX_COUNT)%Z → k ≤ length s + 2 → 4 + (length s + 2 - k) ≤ fuel →
  match_loop fuel s 0 0 k [Element (Group reversed items) 0 MAX_COUNT; Element (Exact b) 1 1] = None.
Proof.
  intros H0 Hs Hb Hbs Hl Hk Hf. remember (length s + 2 - k) as d eqn:Hd. revert k fuel Hk Hd Hf. induction d as [|d IH]; intros k fuel Hk Hd Hf;
    (destruct fuel as [|fuel]; [lia|]); cbn [match_loop]; unfold match_front; cbn [body minimum maximum]; unfold match_chars; rewrite decide_True by lia;
    rewrite char_loop_over by (done || lia); cbn [mbind option_bind].
  - by rewrite decide_False by lia.
  - rewrite decide_True by lia. cbn [mbind option_bind]. rewrite !decide_False by lia. cbn [mbind option_bind]. rewrite exact_absent by (done || lia). cbn [mbind option_bind].
    apply IH; lia.
Qed.

(** ** Properties *)

(** C21: a rule without excluding classes, empty classes and minima above their
    maxima ([good], [printable]: an excluding class takes the 0 behind the object,
    and a match may then read on behind it, [regexp_overreads]) that is written
    down is parsed back, and matching an object - the first time and every other
    time - ends, defined, with [true] exactly when the object is a concatenation
    of runs of characters, one for each element, each within its repetitions. *)
Theorem regexp_rule_matches es object : es ≠ [] → Forall printable es → Forall good es →
  ∃ r0 b r, CRegExp_rule (print_rule es) = Some r0 ∧ regexp_match object r0 = Some (Some b, r) ∧ (b = true ↔ lang es object) ∧ root_element r = es ∧
    ∀ object', ∃ b', regexp_match object' r = Some (Some b', r) ∧ (b' = true ↔ lang es object').
Proof.
  intros Hne Hp Hg. destruct (match_first es [] object Hp Hne Hg) as (b & Hm & Hb). exists (RegExp (print_rule es) false []), b, (RegExp (print_rule es) true es).
  split_and!; [|done..|]; [|intros object'; by apply match_parsed]. unfold CRegExp_rule. by rewrite decide_False by by apply rule_nonempty.
Qed.

(** C34: [[class]*c], where the class takes the 0 behind a string, as every
    excluding class does: on an object whose characters are all of the class and
    none is [c], the matcher does not answer but reads behind the string's 0. *)
Theorem regexp_overreads reversed items c s : match_component reversed items 0 = true → forallb (match_component reversed items) s = true →
  c ≠ 0%Z → c ∉ s → (Z.of_nat (length s) + 2 < MAX_COUNT)%Z →
  root_match [Element (Group reversed items) 0 MAX_COUNT; Element (Exact c) 1 1] s = None.
Proof.
  intros H0 Hs Hc Hcs Hl. unfold root_match, match_impl. apply class_over; try done; [lia|]. cbn [match_depth maximum]. lia.
Qed.

(** An object keeps its old rule.  After a match, [initialize] with another
    rule is accepted and has no effect; after a rule with an error at its end
    (here an unfinished class), the elements in front of the error stay, and
    with the next rule the object matches both in a row. *)
Theorem regexp_initialize_mixes es es' object object' : es ≠ [] → Forall printable es → Forall good es → es' ≠ [] → Forall printable es' → Forall good es' →
  (∃ b r b', regexp_match object (RegExp (print_rule es) false []) = Some (Some b, r) ∧
     (initialize (print_rule es') ;; regexp_match object') r = Some (Some b', RegExp (print_rule es') true es) ∧ (b' = true ↔ lang es object')) ∧
  (∃ r b r', regexp_match object (RegExp (print_rule es ++ [91]%Z) false []) = Some (None, r) ∧
     (initialize (print_rule es') ;; regexp_match object') r = Some (Some b, r') ∧ (b = true ↔ lang (es ++ es') object')).
Proof.
  intros Hne Hp Hg Hne' Hp' Hg'.
  assert (Hinit : ∀ p es, initialize (print_rule es') (RegExp p true es) = Some (true, RegExp (print_rule es') true es) ∧ initialize (print_rule es') (RegExp p false es) = Some (true, RegExp (print_rule es') false es)).
  { intros. unfold initialize. by rewrite !decide_False by by apply rule_nonempty. }
  split.
  - destruct (match_first es [] object Hp Hne Hg) as (b & Hm & _). destruct (match_parsed (RegExp (print_rule es') true es) object' eq_refl Hg) as (b' & Hm' & Hb').
    do 3 eexists. split; [exact Hm|]. split; [|exact Hb']. by erewrite bind_eq by apply Hinit.
  - destruct (match_first es' es object' Hp' Hne') as (b & Hm & Hb); [by apply Forall_app|].
    exists (RegExp (print_rule es ++ [91]%Z) false es), b. eexists. split; [|split; [|exact Hb]]; [|by erewrite bind_eq by apply Hinit].
    unfold regexp_match. erewrite bind_eq by reflexivity. cbv beta iota.
    assert (Hparse : parse (RegExp (print_rule es ++ [91]%Z) false []) = Some (false, RegExp (print_rule es ++ [91]%Z) false es)).
    { unfold parse. cbn [m_rule root_element parsed]. rewrite decide_False by (intros Hn; by apply app_nil in Hn as [_ Hn]).
      pose proof (rule_length es). rewrite length_app. cbn [length].
      replace (S (length (print_rule es) + 1)) with (length es + S (S (length (print_rule es) - length es))) by lia. by rewrite root_parse_ok. }
    cbn [parsed]. erewrite bind_eq; [|erewrite bind_eq by exact Hparse; reflexivity]. done.
Qed.

(** ** Witnesses *)
(** The rule [[\a-\c]+\-?.\{2,3\}]. *)
Definition demo_rule : list element := [Element (Group false [(97, 99)]) 1 MAX_COUNT; Element (Exact 45) 0 1; Element AnyOne 2 3]%Z.
Lemma demo_rule_good : Forall printable demo_rule ∧ Forall good demo_rule.
Proof.
  split; repeat apply Forall_cons_2; unfold printable, good, bounded, MAX_COUNT; cbn [minimum maximum body]; try (split; [lia|done]); constructor.
Qed.
Lemma regexp_rule_matches_witness :
  print_rule demo_rule = [91; 92; 97; 45; 92; 99; 93; 43; 92; 45; 63; 46; 92; 123; 50; 44; 51; 92; 125]%Z ∧
  ∃ r0 b r, CRegExp_rule (print_rule demo_rule) = Some r0 ∧ regexp_match [97; 98; 45; 120; 121]%Z r0 = Some (Some b, r) ∧ b = true.
Proof.
  split; [by vm_compute|]. destruct (regexp_rule_matches demo_rule [97; 98; 45; 120; 121]%Z ltac:(done) (proj1 demo_rule_good) (proj2 demo_rule_good))
    as (r0 & b & r & Hr & Hm & Hb & _). exists r0, b, r. split_and!; [done|done|]. apply Hb.
  apply (lang_cons _ _ [97; 98]%Z [45; 120; 121]%Z); [done|by repeat apply Forall_cons_2|].
  apply (lang_cons _ _ [45]%Z [120; 121]%Z); [done|by repeat apply Forall_cons_2|].
  apply (lang_cons _ _ [120; 121]%Z []); [done|by repeat apply Forall_cons_2|constructor].
Defined.
(** [[^,]*;] on a text without both. *)
Lemma regexp_overreads_witness : root_match [Element (Group true [(44, 44)]) 0 MAX_COUNT; Element (Exact 59) 1 1]%Z [97; 98; 99]%Z = None.
Proof. apply regexp_overreads; [done|done|done| |done]. by apply (bool_decide_unpack _). Defined.
Lemma regexp_initialize_mixes_witness :
  (∃ b r b', regexp_match [97]%Z (RegExp [92; 97]%Z false []) = Some (Some b, r) ∧
     (initialize [92; 98]%Z ;; regexp_match [98]%Z) r = Some (Some b', RegExp [92; 98]%Z true [Element (Exact 97) 1 1]%Z)).
Proof.
  destruct (regexp_initialize_mixes [Element (Exact 97) 1 1]%Z [Element (Exact 98) 1 1]%Z [97]%Z [98]%Z) as [(b & r & b' & Hm & Hi & _) _];
    [done|by apply Forall_singleton; split|by apply Forall_singleton; split|done|by apply Forall_singleton; split|by apply Forall_singleton; split|].
  by exists b, r, b'.
Defined.
