(* ===== verification/Table.v ===== *)
(** * Tables of pointers: what [CHashTable<UINT, T*>] promises its clients

    The kernel keeps its containers and its tasks in hash tables from an id to a
    pointer, which it only fills, looks up and iterates over with
    [reset]/[getNext].  [Table] has those calls, [TableLaws] what they do on the
    list of the entries; [htab] of HashTable.v is an instance. *)

From S2P Require Import Prelude HashTable.

(** Each call is undefined behaviour or returns with the table it leaves. *)
Class Table (V T : Type) := {
  tb_containsKey : Z → M T bool;
  tb_get : Z → M T (option V);
  tb_put : Z → V → M T unit;
  tb_reset : M T unit;
  tb_getNext : M T (option V);
}.

(** [tb_rep t al rem]: the entries in the order they were put, and the values
    [getNext] still returns. *)
Class TableLaws (V T : Type) `{Table V T} := {
  tb_rep : T → list (Z * V) → list V → Prop;
  tb_keys t al rem : tb_rep t al rem → NoDup al.*1;
  tb_containsKey_ok t al rem k : tb_rep t al rem →
    wp (tb_containsKey k) (λ b t', b = bool_decide (is_Some (assoc_get k al)) ∧ tb_rep t' al rem) t;
  tb_get_ok t al rem k : tb_rep t al rem → wp (tb_get k) (λ r t', r = assoc_get k al ∧ tb_rep t' al rem) t;
  tb_put_ok t al rem k v : tb_rep t al rem → assoc_get k al = None →
    wp (tb_put k v) (λ _ t', ∃ rem', tb_rep t' (al ++ [(k, v)]) rem') t;
  tb_reset_ok t al rem : tb_rep t al rem →
    wp tb_reset (λ _ t', ∃ ord, ord ≡ₚ al.*2 ∧ tb_rep t' al ord) t;
  tb_getNext_ok t al rem : tb_rep t al rem →
    wp tb_getNext (λ r t', r = head rem ∧ tb_rep t' al (tail rem)) t;
}.

(** ** The hash table ([UINT] keys are their own hash) *)
Section htab.
Context {V : Type}.
Implicit Types (t : htab Z V) (al : list (Z * V)).

#[export] Instance htab_table : Table V (htab Z V) := {
  tb_containsKey k := λ t, b ← containsKey Z.eqb id t k; Some (b, t);
  tb_get k := λ t, r ← get Z.eqb id t k; Some (r, t);
  tb_put k v := λ t, t ← put_v Z.eqb id t k v; Some (tt, t);
  tb_reset := λ t, '(_, t) ← reset t; Some (tt, t);
  tb_getNext := λ t, getNext t;
}.

Definition htab_rep t al (rem : list V) : Prop :=
  ∃ ks, rep (id : Z → Z) t (al, []) ks ∧ Forall2 (λ k v, assoc_get k al = Some v) ks rem.

Lemma rep_keys t al ks : rep (id : Z → Z) t (al, []) ks → NoDup al.*1.
Proof. intros (cs & L & R & L1 & S & Hi & _). apply (i_keys _ _ _ _ _ Hi). Qed.
(** The keys in another order, with their values. *)
Lemma values_of al ks : NoDup al.*1 → ks ≡ₚ al.*1 →
  ∃ vs, Forall2 (λ k v, assoc_get k al = Some v) ks vs ∧ vs ≡ₚ al.*2.
Proof.
  intros Hnd Hp.
  assert (H0 : Forall2 (λ k v, assoc_get k al = Some v) al.*1 al.*2).
  { apply Forall2_fmap, Forall_Forall2_diag, Forall_forall. intros [k v] Hin. cbn. by apply assoc_get_Some. }
  destruct (Permutation_Forall2 (Permutation_sym Hp) H0) as (vs & Hvs & Hf). exists vs. by split.
Qed.

#[export] Instance htab_laws : TableLaws V (htab Z V).
Proof.
  refine {| tb_rep := htab_rep |}.
  - intros t al rem (ks & Hr & _). by eapply rep_keys.
  - intros t al rem k (ks & Hr & Hf).
    destruct (hexec_ok Z.eqb id Z.eqb_eq (HContainsKey k) t (al, []) ks Hr eq_refl) as (r & t' & rem' & He & Ha & Hr').
    inversion Ha; subst. cbn [hexec] in He. unfold wp. cbn [tb_containsKey htab_table].
    destruct (containsKey _ _ _ _) as [b|]; [|done]. cbn [mbind option_bind] in *. injection He as -> ->.
    split; [done|]. by exists rem'.
  - intros t al rem k (ks & Hr & Hf).
    destruct (hexec_ok Z.eqb id Z.eqb_eq (HGet k) t (al, []) ks Hr eq_refl) as (r & t' & rem' & He & Ha & Hr').
    inversion Ha; subst. cbn [hexec] in He. unfold wp. cbn [tb_get htab_table].
    destruct (get _ _ _ _) as [b|]; [|done]. cbn [mbind option_bind] in *. injection He as -> ->.
    split; [done|]. by exists rem'.
  - intros t al rem k v (ks & Hr & Hf) Hk.
    destruct (hexec_ok Z.eqb id Z.eqb_eq (HPutV k v) t (al, []) ks Hr eq_refl) as (r & t' & rem' & He & Ha & Hr').
    inversion Ha; subst. cbn [hexec] in He. unfold wp. cbn [tb_put htab_table].
    destruct (put_v _ _ _ _ _) as [t1|]; [|done]. cbn [mbind option_bind] in *. injection He as ->.
    assert (Hfresh : fresh_key k al = true) by (unfold fresh_key; by rewrite Hk). cbn [dstep] in Hr'.
    rewrite Hfresh in Hr'. exists [], []. unfold assoc_put in Hr'. rewrite Hk in Hr'. split; [done|constructor].
  - intros t al rem (ks & Hr & Hf).
    destruct (hexec_ok Z.eqb id Z.eqb_eq HReset t (al, []) ks Hr eq_refl) as (r & t' & rem' & He & Ha & Hr').
    inversion Ha as [| | | | | | | | |? ? ? ? Hp| | | | | | |]; subst. cbn [hexec] in He. unfold wp. cbn [tb_reset htab_table].
    destruct (reset t) as [[b t1]|]; [|done]. cbn [mbind option_bind] in *. injection He as _ ->.
    destruct (values_of al rem' (rep_keys _ _ _ Hr) Hp) as (vs & Hvs & Hpv). exists vs. split; [done|]. by exists rem'.
  - intros t al rem (ks & Hr & Hf).
    destruct (hexec_ok Z.eqb id Z.eqb_eq HGetNextV t (al, []) ks Hr eq_refl) as (r & t' & rem' & He & Ha & Hr').
    cbn [hexec] in He. unfold wp. cbn [tb_getNext htab_table].
    destruct (getNext t) as [[o t1]|]; [|done]. cbn [mbind option_bind] in *. injection He as <- ->.
    inversion Ha; subst; inversion Hf; subst; cbn [head tail].
    + split; [done|]. by exists [].
    + split; [congruence|]. by exists rem'.
Defined.
End htab.

(** A table as the default constructor makes it. *)
Definition empty_table {V} : htab Z V :=
  HTab (HHeap ∅ ∅ ∅ ∅) (replicate 16 NULL) 16 0 0 DEFAULT_HASHTABLE_LOADFACTOR 12 NULL 0 NULL NULL NULL.
Lemma empty_table_new {V} : new_table = Some (empty_table (V:=V)).
Proof. by vm_compute. Qed.
Lemma empty_table_rep {V} : tb_rep (empty_table (V:=V)) [] [].
Proof.
  change (htab_rep empty_table [] ([] : list V)). exists []. split; [|constructor]. apply (rep_init id 16 DEFAULT_HASHTABLE_LOADFACTOR); [|by vm_compute].
  apply empty_table_new.
Qed.
