(* ===== verification/TaskSelector.v ===== *)
(** * Routing of messages to tasks ([TTaskSelector], [kernel/taskselector.C])

    The selector knows the task containers (threads) of the host by id, and for
    each task id the list of containers the task is registered in.  A message
    without a container goes to the registered containers in turn, skipping
    those a balance check found overloaded; a message with a container goes
    there; the answer to a dialog is meant to go where the dialog began.  The
    containers and tasks are in hash tables (through the interface of Table.v),
    the instances of a task in a [CList] (CList.v) and the dialogs in two
    [CExpireBuffer]s (ExpireBuffer.v).  The objects behind the pointers are in
    stores by address; nothing but messages is ever deleted.  Logging (except of
    a task id that is taken, which is undefined) and [getStatues] (a text) are
    not modelled; allocation does not fail. *)

From S2P Require Import Prelude UniMsg TransState Dll CList ExpireBuffer HashTable Table.

(** ** Data *)
Definition DIALOG_BEGIN : Z := 1.
Definition DIALOG_BROADCAST : Z := 4.
Definition DIALOG_MULTICAST : Z := 5.
Definition BalanceCountNumber : Z := 100.
Definition MAX_TASKCONTAINERID : Z := 4095.
Definition MAX_TASKCONTAINERID_BIT : Z := 12.
(** [parsePhyAddr], [genPhyAddr] *)
Definition parsePhyAddr (phyaddr : Z) : Z * Z :=
  (Z.shiftr phyaddr MAX_TASKCONTAINERID_BIT, Z.land phyaddr MAX_TASKCONTAINERID).
Definition genPhyAddr (hostid threadid : Z) : Z := u32 (Z.shiftl hostid MAX_TASKCONTAINERID_BIT + threadid).

Record TaskContainerState := TCState { c_tcid : Z; c_tc : ptr; c_waitCount : Z }.
Record InstState := IState { i_weight : Z; i_count : Z; i_shuttingDown : bool; i_tcid : Z; i_tcs : ptr }.
Record TaskState := TState { t_taskid : Z; t_inst : dlist ptr; t_instpos : Z; t_count : Z; t_balanceCount : Z }.
Record TaskKey := TKey { k_tcid : Z; k_tiid : Z }.

(** [TEventMsg]; [e_status] an [INT], [e_info] the [CStr]. *)
Record TEventMsg := EventMsg {
  e_sender : STuple; e_eventID : Z; e_transID : Z; e_status : Z; e_taskID : Z; e_instID : Z; e_info : bytes }.
(** A [TMsg] by its dynamic type. *)
Inductive tmsg := MUni (m : TUniNetMsg) | MEvent (e : TEventMsg) | MOther.

(** What the selector and the control thread use of a [TTaskContainer]: the
    tasks by id and the receive queue. *)
Record TTaskContainer := TContainer { mTasks : gmap Z ptr; mTaskRxFifo : list ptr }.

(** The containers by address, the messages that exist, and [mPostFifo]. *)
Record store := Store { boxes : gmap ptr TTaskContainer; msgs : gmap ptr tmsg; mPostFifo : list ptr }.

(** The members that only count, and the clock set by the control thread. *)
Record counters := Counters {
  registeredTaskAmount : Z; registeredInstAmount : Z;
  sendMsgToTaskCount : Z; multicastMsgCount : Z; broadcastMsgCount : Z; mCurrentTime : Z }.

(** The virtual functions of the control headers the selector asks for the
    session; the COM header inherits the defaults. *)
Class CtrlHeaders := {
  other_optionSet : N → bytes → Z;
  other_sessionId : N → bytes → Z;
  other_sessionStr : N → bytes → option bytes;
}.
Definition session_flag : Z := 2.
Section headers.
Context `{CtrlHeaders}.
Definition hasSessionId (c : TCtrlMsg) : bool :=
  bool_decide (Z.land (match c with CtrlCom h => h_optionSet h | CtrlOther k b => other_optionSet k b end) session_flag ≠ 0)%Z.
Definition getSessionId (c : TCtrlMsg) : Z := match c with CtrlCom _ => 0 | CtrlOther k b => other_sessionId k b end.
(** [getSessionId(CStr&)]: the string, unless it returns 0. *)
Definition getSessionStr (c : TCtrlMsg) : option bytes :=
  match c with CtrlCom _ => None | CtrlOther k b => other_sessionStr k b end.
End headers.

Definition put_tAddr (a : TMsgAddress) (m : TUniNetMsg) : TUniNetMsg :=
  UniNetMsg (sender m) (optionSet m) (oAddr m) a (dialogType m)
    (msgName m) (msgType m) (transID m) (cseq m) (ctrlMsgHdr m) (msgBody m).
Definition put_phyAddr (p : Z) (m : TUniNetMsg) : TUniNetMsg :=
  put_tAddr (Addr (logAddr (tAddr m)) p (taskInstID (tAddr m))) m.
Definition put_taskInstID (i : Z) (m : TUniNetMsg) : TUniNetMsg :=
  put_tAddr (Addr (logAddr (tAddr m)) (phyAddr (tAddr m)) i) m.
Definition put_event_addr (t i : Z) (e : TEventMsg) : TEventMsg :=
  EventMsg (e_sender e) (e_eventID e) (e_transID e) (e_status e) t i (e_info e).

(** ** Messages and containers *)
Definition read_msg (p : ptr) : M store tmsg := λ s, m ← msgs s !! p; Some (m, s).
(** The dynamic type is known. *)
Definition read_uni (p : ptr) : M store TUniNetMsg := λ s,
  match msgs s !! p with Some (MUni m) => Some (m, s) | _ => None end.
Definition read_event (p : ptr) : M store TEventMsg := λ s,
  match msgs s !! p with Some (MEvent e) => Some (e, s) | _ => None end.
Definition write_msg (p : ptr) (m : tmsg) : M store unit := λ s,
  match msgs s !! p with Some _ => Some (tt, Store (boxes s) (<[p := m]> (msgs s)) (mPostFifo s)) | None => None end.
Definition upd_uni (p : ptr) (f : TUniNetMsg → TUniNetMsg) : M store unit := m ← read_uni p; write_msg p (MUni (f m)).
Definition upd_event (p : ptr) (f : TEventMsg → TEventMsg) : M store unit := e ← read_event p; write_msg p (MEvent (f e)).
Definition new_msg (m : tmsg) : M store ptr := λ s,
  let p := fresh ({[NULL]} ∪ dom (msgs s) : gset ptr) in
  Some (p, Store (boxes s) (<[p := m]> (msgs s)) (mPostFifo s)).
(** [delete msg] *)
Definition delete_msg (p : ptr) : M store unit := λ s,
  match msgs s !! p with Some _ => Some (tt, Store (boxes s) (delete p (msgs s)) (mPostFifo s)) | None => None end.
(** [msg->clone()] of either class; [TUniNetMsg::clone] assigns the message to
    a new one. *)
Definition clone_uni (p : ptr) : M store ptr := m ← read_uni p; c ← defined (assign_msg m); new_msg (MUni c).
Definition clone_event (p : ptr) : M store ptr := e ← read_event p; new_msg (MEvent e).

Definition read_box (tc : ptr) : M store TTaskContainer := λ s, b ← boxes s !! tc; Some (b, s).
Definition write_box (tc : ptr) (b : TTaskContainer) : M store unit :=
  modify (λ s, Store (<[tc := b]> (boxes s)) (msgs s) (mPostFifo s)).
(** [TTaskContainer::add] *)
Definition tc_add (tc m : ptr) : M store unit :=
  b ← read_box tc; write_box tc (TContainer (mTasks b) (mTaskRxFifo b ++ [m])).
(** [TTaskContainer::genTaskInst]: a task that was initialised has the instance
    id 1, and no class overrides [TAbstractTask::genTaskInst]. *)
Definition mInstId : Z := 1.
Definition tc_genTaskInst (tc : ptr) (taskid : Z) : M store Z :=
  b ← read_box tc; mret (match mTasks b !! taskid with Some _ => mInstId | None => 0%Z end).
(** [TTaskContainer::registerTask].  For an id that is taken the code logs
    the id, an [UINT], with [%s] before it returns FALSE: undefined. *)
Definition tc_registerTask (tc : ptr) (taskid : Z) (task : ptr) : M store bool :=
  if decide (0 < taskid ∧ task ≠ NULL)%Z then
    b ← read_box tc;
    match mTasks b !! taskid with
    | Some _ => ub
    | None => write_box tc (TContainer (<[taskid := task]> (mTasks b)) (mTaskRxFifo b)) ;; mret true
    end
  else mret false.
(** [TFRAMEControl::post]; [objtype_Kernal] is a constant of the code. *)
Definition FRAMECONTROL_TASKID : Z := 2.
Definition objtype_Kernal : Z := 3.
Definition post (p : ptr) : M store unit :=
  m ← read_msg p;
  let s := Tuple objtype_Kernal FRAMECONTROL_TASKID 0 in
  (match m with
   | MUni m => write_msg p (MUni (UniNetMsg s (optionSet m) (oAddr m) (tAddr m) (dialogType m)
       (msgName m) (msgType m) (transID m) (cseq m) (ctrlMsgHdr m) (msgBody m)))
   | MEvent e => write_msg p (MEvent (EventMsg s (e_eventID e) (e_transID e) (e_status e) (e_taskID e) (e_instID e) (e_info e)))
   | MOther => mret tt
   end) ;;
  modify (λ s, Store (boxes s) (msgs s) (mPostFifo s ++ [p])).

(** The calls of the selector.  [EEnv] stands for the threads around it: it may
    take messages from the containers' queues and bring new ones. *)
Inductive event :=
  | ERegisterContainer (tcid : Z) (tc : ptr)
  | ERegisterTask (taskid tcid : Z) (task : ptr)
  | ESetCurrentTime (t : Z)
  | ESetRecycleTime (ct : Z)
  | EAdd (wc : ptr → option Z) (now : Z) (clock : nat → Z) (m : ptr)
  | EAddEvent (m : ptr)
  | EEnv (f : store → store).

(** ** The selector *)
Section selector.
Context {CT TT : Type} `{Table ptr CT} `{Table ptr TT} `{CtrlHeaders}.

Record selector := Selector {
  mContainerList : CT; mTaskList : TT;
  mIntDialog : xbuf Z TaskKey; mStrDialog : xbuf bytes TaskKey;
  tcstates : gmap ptr TaskContainerState; inststates : gmap ptr InstState; taskstates : gmap ptr TaskState;
  mem : store; cnt : counters }.
Local Abbreviation SEL := (M selector).

Definition on_ct {A} (m : M CT A) : SEL A :=
  zoom mContainerList (λ t s, Selector t (mTaskList s) (mIntDialog s) (mStrDialog s) (tcstates s) (inststates s) (taskstates s) (mem s) (cnt s)) m.
Definition on_tt {A} (m : M TT A) : SEL A :=
  zoom mTaskList (λ t s, Selector (mContainerList s) t (mIntDialog s) (mStrDialog s) (tcstates s) (inststates s) (taskstates s) (mem s) (cnt s)) m.
Definition on_int {A} (m : M (xbuf Z TaskKey) A) : SEL A :=
  zoom mIntDialog (λ d s, Selector (mContainerList s) (mTaskList s) d (mStrDialog s) (tcstates s) (inststates s) (taskstates s) (mem s) (cnt s)) m.
Definition on_str {A} (m : M (xbuf bytes TaskKey) A) : SEL A :=
  zoom mStrDialog (λ d s, Selector (mContainerList s) (mTaskList s) (mIntDialog s) d (tcstates s) (inststates s) (taskstates s) (mem s) (cnt s)) m.
Definition on_mem {A} (m : M store A) : SEL A :=
  zoom mem (λ h s, Selector (mContainerList s) (mTaskList s) (mIntDialog s) (mStrDialog s) (tcstates s) (inststates s) (taskstates s) h (cnt s)) m.
Definition counting (f : counters → counters) : SEL unit :=
  modify (λ s, Selector (mContainerList s) (mTaskList s) (mIntDialog s) (mStrDialog s) (tcstates s) (inststates s) (taskstates s) (mem s) (f (cnt s))).
Definition on_tcs {A} (m : M (gmap ptr TaskContainerState) A) : SEL A :=
  zoom tcstates (λ h s, Selector (mContainerList s) (mTaskList s) (mIntDialog s) (mStrDialog s) h (inststates s) (taskstates s) (mem s) (cnt s)) m.
Definition on_insts {A} (m : M (gmap ptr InstState) A) : SEL A :=
  zoom inststates (λ h s, Selector (mContainerList s) (mTaskList s) (mIntDialog s) (mStrDialog s) (tcstates s) h (taskstates s) (mem s) (cnt s)) m.
Definition on_tasks {A} (m : M (gmap ptr TaskState) A) : SEL A :=
  zoom taskstates (λ h s, Selector (mContainerList s) (mTaskList s) (mIntDialog s) (mStrDialog s) (tcstates s) (inststates s) h (mem s) (cnt s)) m.
(** A store of objects of one class: [new], and a member of the object at [p]. *)
Definition hnew {X} (x : X) : M (gmap ptr X) ptr := λ h,
  let p := fresh ({[NULL]} ∪ dom h : gset ptr) in Some (p, <[p := x]> h).
Definition hread {X} (p : ptr) : M (gmap ptr X) X := λ h, x ← h !! p; Some (x, h).
Definition hupd {X} (p : ptr) (f : X → X) : M (gmap ptr X) unit := λ h, x ← h !! p; Some (tt, <[p := f x]> h).
(** A call on [ts->inst]. *)
Definition on_inst {A} (q : ptr) (m : M (dlist ptr) A) : SEL A := on_tasks (λ h,
  ts ← h !! q; '(a, d) ← m (t_inst ts);
  Some (a, <[q := TState (t_taskid ts) d (t_instpos ts) (t_count ts) (t_balanceCount ts)]> h)).

Definition set_waitCount (n : Z) (c : TaskContainerState) := TCState (c_tcid c) (c_tc c) n.
Definition set_weight (n : Z) (i : InstState) := IState n (i_count i) (i_shuttingDown i) (i_tcid i) (i_tcs i).
Definition inst_count (i : InstState) := IState (i_weight i) (u32 (i_count i + 1)) (i_shuttingDown i) (i_tcid i) (i_tcs i).
Definition set_instpos (n : Z) (t : TaskState) := TState (t_taskid t) (t_inst t) n (t_count t) (t_balanceCount t).
Definition set_tcount (n : Z) (t : TaskState) := TState (t_taskid t) (t_inst t) (t_instpos t) n (t_balanceCount t).
Definition set_balanceCount (n : Z) (t : TaskState) := TState (t_taskid t) (t_inst t) (t_instpos t) (t_count t) n.

(** *** Registration *)
Definition registerContainer (tcid : Z) (ptc : ptr) : SEL bool :=
  if decide (tcid = 0 ∨ ptc = NULL)%Z then mret false else
  b ← on_ct (tb_containsKey tcid);
  if (b : bool) then mret false else
  p ← on_tcs (hnew (TCState tcid ptc 0));
  on_ct (tb_put tcid p) ;;
  counting (λ c, Counters (registeredTaskAmount c) (i32 (registeredInstAmount c + 1))
    (sendMsgToTaskCount c) (multicastMsgCount c) (broadcastMsgCount c) (mCurrentTime c)) ;;
  mret true.

Definition registerTask (taskid tcid : Z) (task : ptr) : SEL bool :=
  if decide (taskid ≤ 0 ∨ tcid ≤ 0 ∨ task = NULL)%Z then mret false else
  r ← on_ct (tb_get tcid);
  match r with
  | None => mret false
  | Some p =>
      if decide (p = NULL) then mret false else
      c ← on_tcs (hread p);
      b ← on_mem (tc_registerTask (c_tc c) taskid task);
      if negb b then mret false else
      i ← on_insts (hnew (IState 0 0 false tcid p));
      known ← on_tt (tb_containsKey taskid);
      if negb known then
        '(_, il) ← (λ s, match push_back_r i init with Some (n, d) => Some ((n, d), s) | None => None end);
        q ← on_tasks (hnew (TState taskid il 0 0 0));
        on_tt (tb_put taskid q) ;;
        counting (λ c, Counters (i32 (registeredTaskAmount c + 1)) (registeredInstAmount c)
          (sendMsgToTaskCount c) (multicastMsgCount c) (broadcastMsgCount c) (mCurrentTime c)) ;;
        mret true
      else
        r ← on_tt (tb_get taskid);
        match r with
        | Some q =>
            if decide (q = NULL) then mret false else
            lsize ← on_inst q (push_back_r i);
            on_tasks (hupd q (set_balanceCount (u32 (lsize * BalanceCountNumber)))) ;; mret true
        | None => mret false
        end
  end.

(** *** Choosing a container *)
(** [for(iter=begin(); iter!=end(); iter++)] over [ts->inst]; [acc] is what the
    body accumulates. *)
Fixpoint each_from {A} (fuel : nat) (q p : ptr) (acc : A) (body : ptr → A → SEL A) : SEL A :=
  match fuel with
  | O => ub
  | S fuel =>
      e ← on_inst q iter_end;
      if decide (p = e) then mret acc else
      i ← on_inst q (iter_deref p); acc ← body i acc;
      p ← on_inst q (iter_incr p); each_from fuel q p acc body
  end.
Definition each_inst {A} (q : ptr) (acc : A) (body : ptr → A → SEL A) : SEL A :=
  n ← on_inst q CList.count; b ← on_inst q iter_begin; each_from (S (Z.to_nat n)) q b acc body.

(** [is->tcs->tc->waitCount()] has no return statement, so that its call is
    undefined in C++: [wc tc] is [None].  A compiled function leaves something
    where its caller looks for the result, and in practice the queue's length:
    [wc tc] is [Some] of it.  Both are covered, [wc] is a parameter. *)
Definition balanceCheck (wc : ptr → option Z) (q : ptr) : SEL unit :=
  sum ← each_inst q 0%Z (λ i sum,
    if decide (i = NULL) then mret sum else
    ist ← on_insts (hread i); c ← on_tcs (hread (i_tcs ist));
    v ← defined (wc (c_tc c));
    on_tcs (hupd (i_tcs ist) (set_waitCount (u32 v))) ;; mret (u32 (sum + u32 v)));
  n ← on_inst q CList.count;
  if decide (n = 1)%Z then mret tt else
  if decide (n = 0)%Z then ub else
  let avg := (sum / n)%Z in
  each_inst q tt (λ i _,
    ist ← on_insts (hread i); c ← on_tcs (hread (i_tcs ist));
    on_insts (hupd i (set_weight (if decide (u32 (avg + BalanceCountNumber) < c_waitCount c)%Z then 1 else 0)))).

(** The instance whose turn it is, and a balance check from time to time. *)
Definition chosen (wc : ptr → option Z) (q i : ptr) (ts : TaskState) : SEL ptr :=
  let k := u32 (t_count ts + 1) in
  on_tasks (hupd q (set_tcount k)) ;; on_insts (hupd i inst_count) ;;
  (if decide (t_balanceCount ts < k)%Z then balanceCheck wc q ;; on_tasks (hupd q (set_tcount 0)) else mret tt) ;;
  ist ← on_insts (hread i); mret (i_tcs ist).
(** The turns of the loop of [getTask]; [last] is the instance seen last. *)
Fixpoint pick_loop (wc : ptr → option Z) (n : nat) (q last : ptr) : SEL ptr :=
  match n with
  | O => mret NULL
  | S n =>
      '(b, v) ← on_inst q next_d;
      let last := default last v in
      if decide ((b : bool) = true ∧ last ≠ NULL) then
        ts ← on_tasks (hread q); c ← on_inst q CList.count;
        on_tasks (hupd q (set_instpos (if decide (c ≤ u32 (t_instpos ts + 1))%Z then 0 else u32 (t_instpos ts + 1)))) ;;
        i ← on_insts (hread last);
        if decide (i_weight i = 0%Z ∧ i_shuttingDown i = false) then chosen wc q last ts
        else pick_loop wc n q last
      else pick_loop wc n q last
  end.
Definition getTask (wc : ptr → option Z) (taskid tcid : Z) : SEL ptr :=
  r ← (if decide (0 < taskid ∧ 0 < tcid)%Z then on_ct (tb_get tcid) else mret None);
  match r with
  | Some p => mret p
  | None =>
      r ← (if decide (0 < taskid ∧ tcid = 0)%Z then on_tt (tb_get taskid) else mret None);
      match r with
      | None => mret NULL
      | Some q =>
          if decide (q = NULL) then mret NULL else
          n ← on_inst q CList.count;
          if decide (n ≤ 0)%Z then mret NULL
          else if decide (n = 1)%Z then
            v ← on_inst q front_v;
            match v with Some i => ist ← on_insts (hread i); mret (i_tcs ist) | None => mret NULL end
          else
            ts ← on_tasks (hread q);
            b ← on_inst q (reset_pos (t_instpos ts));
            if (b : bool) then pick_loop wc (Z.to_nat n) q NULL else mret NULL
      end
  end.

(** *** Delivery *)
(** The container of the [TaskContainerState] at [p] gets the message. *)
Definition deliver (p m : ptr) : SEL unit := c ← on_tcs (hread p); on_mem (tc_add (c_tc c) m).

(** The session part of [sendMsgToTask]: the dialog a message belongs to.
    [now], [clock]: the readings of [time(0)] inside the buffers. *)
Definition follow_session (now : Z) (clock : nat → Z) (m : ptr) (c : TCtrlMsg) : SEL unit :=
  t ← gets (λ s, mCurrentTime (cnt s));
  let move (k : option TaskKey) (touch : SEL bool) : SEL unit :=
    match k with
    | Some k =>
        if decide (0 < k_tcid k ∧ 0 < k_tiid k)%Z then
          on_mem (upd_uni m (λ u, put_taskInstID (k_tiid k) (put_phyAddr (k_tcid k) u))) ;; touch ;; mret tt
        else mret tt
    | None => mret tt
    end in
  let sid := getSessionId c in
  (if decide (0 < sid)%Z then k ← on_int (find_v sid); move k (on_int (update now sid t))
   else match getSessionStr c with
        | Some ssid => if decide (ssid = []) then mret tt else
            k ← on_str (find_v (c_string ssid)); move k (on_str (update now (c_string ssid) t))
        | None => mret tt
        end) ;;
  on_int (pop_old clock t) ;; on_str (pop_old clock t) ;; mret tt.
(** A dialog begins: the instance is chosen and remembered under the session. *)
Definition begin_dialog (now : Z) (m item : ptr) (taskid containerid : Z) : SEL unit :=
  c ← on_tcs (hread item);
  iid ← on_mem (tc_genTaskInst (c_tc c) taskid);
  on_mem (upd_uni m (put_taskInstID iid)) ;;
  (if decide (containerid = 0)%Z then on_mem (upd_uni m (put_phyAddr (c_tcid c))) else mret tt) ;;
  u ← on_mem (read_uni m);
  if hasCtrlMsgHdr u then
    h ← defined (ctrlMsgHdr u);
    if hasSessionId h then
      let tk := TKey (c_tcid c) iid in
      if decide (0 < getSessionId h)%Z then on_int (push now (getSessionId h) tk) ;; mret tt
      else match getSessionStr h with
           | Some ssid => if decide (ssid = []) then mret tt else on_str (push now (c_string ssid) tk) ;; mret tt
           | None => mret tt
           end
    else mret tt
  else mret tt.
Definition sendMsgToTask (wc : ptr → option Z) (now : Z) (clock : nat → Z) (m : ptr) : SEL bool :=
  if decide (m = NULL) then mret false else
  u ← on_mem (read_uni m);
  let taskid := logAddr (tAddr u) in
  known ← on_tt (tb_containsKey taskid);
  if negb known then mret false else
  let containerid := if decide (0 < phyAddr (tAddr u))%Z then (parsePhyAddr (phyAddr (tAddr u))).2 else 0%Z in
  (if decide (0 < phyAddr (tAddr u))%Z then on_mem (upd_uni m (put_phyAddr containerid)) else mret tt) ;;
  (if decide (dialogType u ≠ DIALOG_BEGIN ∧ containerid = 0)%Z then
     if hasCtrlMsgHdr u then
       h ← defined (ctrlMsgHdr u); if hasSessionId h then follow_session now clock m h else mret tt
     else mret tt
   else mret tt) ;;
  item ← getTask wc taskid containerid;
  if decide (item ≠ NULL) then
    u ← on_mem (read_uni m);
    (if decide (dialogType u = DIALOG_BEGIN ∧ taskInstID (tAddr u) = 0)%Z
     then begin_dialog now m item taskid containerid else mret tt) ;;
    deliver item m ;;
    counting (λ c, Counters (registeredTaskAmount c) (registeredInstAmount c)
      (i32 (sendMsgToTaskCount c + 1)) (multicastMsgCount c) (broadcastMsgCount c) (mCurrentTime c)) ;;
    mret true
  else mret false.

Definition multicastMsgToTask (m : ptr) : SEL bool :=
  if decide (m = NULL) then mret false else
  u ← on_mem (read_uni m);
  known ← on_tt (tb_containsKey (logAddr (tAddr u)));
  if negb known then on_mem (delete_msg m) ;; mret false else
  r ← on_tt (tb_get (logAddr (tAddr u)));
  (match r with
   | Some q =>
       each_inst q tt (λ i _,
         if decide (i = NULL) then mret tt else
         ist ← on_insts (hread i);
         if decide (0 < i_tcid ist)%Z then
           n ← on_mem (clone_uni m); on_mem (upd_uni n (put_phyAddr (i_tcid ist))) ;;
           deliver (i_tcs ist) n ;; on_insts (hupd i inst_count)
         else mret tt) ;;
       counting (λ c, Counters (registeredTaskAmount c) (registeredInstAmount c)
         (sendMsgToTaskCount c) (i32 (multicastMsgCount c + 1)) (broadcastMsgCount c) (mCurrentTime c))
   | None => mret tt
   end) ;;
  on_mem (delete_msg m) ;; mret true.

(** [mContainerList.reset(); while(mContainerList.getNext(is)) body]; [fuel]
    bounds the turns: there are no more entries than container states. *)
Fixpoint containers_from {A} (fuel : nat) (acc : A) (body : ptr → A → SEL A) : SEL A :=
  match fuel with
  | O => ub
  | S fuel =>
      r ← on_ct tb_getNext;
      match r with None => mret acc | Some p => acc ← body p acc; containers_from fuel acc body end
  end.
Definition each_container {A} (acc : A) (body : ptr → A → SEL A) : SEL A :=
  on_ct tb_reset ;; fuel ← gets (λ s, S (base.size (tcstates s))); containers_from fuel acc body.
Definition broadcastMsgToTask (m : ptr) : SEL bool :=
  if decide (m = NULL) then mret false else
  each_container tt (λ p _,
    if decide (p = NULL) then mret tt else
    n ← on_mem (clone_uni m); c ← on_tcs (hread p);
    on_mem (upd_uni n (put_phyAddr (c_tcid c))) ;; deliver p n) ;;
  counting (λ c, Counters (registeredTaskAmount c) (registeredInstAmount c)
    (sendMsgToTaskCount c) (multicastMsgCount c) (i32 (broadcastMsgCount c + 1)) (mCurrentTime c)) ;;
  on_mem (delete_msg m) ;; mret true.

(** [add]: the kind of delivery is looked up in the message type. *)
Definition add (wc : ptr → option Z) (now : Z) (clock : nat → Z) (m : ptr) : SEL bool :=
  u ← on_mem (read_uni m);
  if decide (msgType u = DIALOG_BROADCAST) then broadcastMsgToTask m
  else if decide (msgType u = DIALOG_MULTICAST) then multicastMsgToTask m
  else sendMsgToTask wc now clock m.

(** The end of [addEvent]: the original is deleted once it was copied to
    somebody, and sent back otherwise. *)
Definition NOT_FOUND : bytes := lit "taskid or instid not found!".
Definition event_done (found : bool) (m : ptr) : SEL bool :=
  if found then on_mem (delete_msg m) ;; mret true
  else
    e ← on_mem (read_event m);
    on_mem (write_msg m (MEvent (EventMsg (e_sender e) (e_eventID e) (e_transID e) 2 (e_taskID e) (e_instID e) NOT_FOUND))) ;;
    on_mem (post m) ;; mret false.
Definition addEvent (m : ptr) : SEL bool :=
  e ← on_mem (read_event m);
  if decide (0 < e_instID e)%Z then
    r ← on_ct (tb_get (e_instID e));
    match r with
    | Some p =>
        if decide (p = NULL) then event_done false m else
        c ← on_tcs (hread p);
        if decide (c_tc c = NULL) then event_done false m else on_mem (tc_add (c_tc c) m) ;; mret true
    | None => event_done false m
    end
  else if decide (0 < e_taskID e)%Z then
    r ← on_tt (tb_get (e_taskID e));
    match r with
    | Some q =>
        if decide (q = NULL) then event_done false m else
        found ← each_inst q false (λ i found,
          ist ← on_insts (hread i);
          if decide ((e_instID e = 0 ∨ i_tcid ist = e_instID e)%Z ∧ i_tcs ist ≠ NULL) then
            n ← on_mem (clone_event m);
            on_mem (upd_event n (put_event_addr (e_taskID e) (i_tcid ist))) ;;
            deliver (i_tcs ist) n ;; mret true
          else mret found);
        event_done found m
    | None => event_done false m
    end
  else
    found ← each_container false (λ p found,
      if decide (p = NULL) then mret found else
      n ← on_mem (clone_event m); deliver p n ;; mret true);
    event_done found m.

(** [setCurrentTime], [setRecycleTime] *)
Definition setCurrentTime (t : Z) : SEL unit :=
  counting (λ c, Counters (registeredTaskAmount c) (registeredInstAmount c)
    (sendMsgToTaskCount c) (multicastMsgCount c) (broadcastMsgCount c) t).
Definition setRecycleTime (ct : Z) : SEL unit := on_int (setLivingTime ct) ;; on_str (setLivingTime ct).
Definition step (ev : event) : SEL bool :=
  match ev with
  | ERegisterContainer tcid tc => registerContainer tcid tc
  | ERegisterTask taskid tcid task => registerTask taskid tcid task
  | ESetCurrentTime t => setCurrentTime t ;; mret true
  | ESetRecycleTime ct => setRecycleTime ct ;; mret true
  | EAdd wc now clock m => add wc now clock m
  | EAddEvent m => addEvent m
  | EEnv f => on_mem (modify f) ;; mret true
  end.
Fixpoint run (evs : list event) : SEL (list bool) :=
  match evs with [] => mret [] | ev :: evs => r ← step ev; rs ← run evs; mret (r :: rs) end.
End selector.
(** A selector as the control thread makes it. *)
Definition no_key : TaskKey := TKey 0 0.
Definition initial (mx : Z) (dst : bool) (liv t : Z) (h : store) : @selector (htab Z ptr) (htab Z ptr) :=
  Selector empty_table empty_table (create no_key mx dst liv) (create no_key mx dst liv) ∅ ∅ ∅ h (Counters 0 0 0 0 0 t).

(** ** The specification: routing over lists *)
Record ainst := AInst { ai_tcid : Z; ai_weight : Z; ai_count : Z }.
Record atask := ATask { a_insts : list ainst; a_pos : nat; a_count : Z; a_balance : Z }.
Record acont := ACont { ac_tc : ptr; ac_wait : Z }.
(** Containers and tasks in the order they were registered. *)
Record asel := ASel {
  aconts : list (Z * acont); atasks : list (Z * atask);
  a_int : abuf Z TaskKey; a_str : abuf bytes TaskKey; a_mem : store; a_cnt : counters }.

Section spec.
Context `{CtrlHeaders}.
Local Abbreviation AS := (M asel).

Definition on_a_mem {A} (m : M store A) : AS A :=
  zoom a_mem (λ h a, ASel (aconts a) (atasks a) (a_int a) (a_str a) h (a_cnt a)) m.
Definition on_a_int {A} (m : abuf Z TaskKey → option (A * abuf Z TaskKey)) : AS A :=
  zoom a_int (λ d a, ASel (aconts a) (atasks a) d (a_str a) (a_mem a) (a_cnt a)) m.
Definition on_a_str {A} (m : abuf bytes TaskKey → option (A * abuf bytes TaskKey)) : AS A :=
  zoom a_str (λ d a, ASel (aconts a) (atasks a) (a_int a) d (a_mem a) (a_cnt a)) m.
Definition a_counting (f : counters → counters) : AS unit :=
  modify (λ a, ASel (aconts a) (atasks a) (a_int a) (a_str a) (a_mem a) (f (a_cnt a))).
Definition set_conts (l : list (Z * acont)) (a : asel) : asel := ASel l (atasks a) (a_int a) (a_str a) (a_mem a) (a_cnt a).
Definition set_tasks (l : list (Z * atask)) (a : asel) : asel := ASel (aconts a) l (a_int a) (a_str a) (a_mem a) (a_cnt a).
Definition cont_at (tcid : Z) : AS acont := λ a, c ← assoc_get tcid (aconts a); Some (c, a).

Definition a_registerContainer (tcid : Z) (ptc : ptr) : AS bool :=
  if decide (tcid = 0 ∨ ptc = NULL)%Z then mret false else
  known ← gets (λ a, assoc_get tcid (aconts a));
  match known with
  | Some _ => mret false
  | None =>
      modify (λ a, set_conts (aconts a ++ [(tcid, ACont ptc 0)]) a) ;;
      a_counting (λ c, Counters (registeredTaskAmount c) (i32 (registeredInstAmount c + 1))
        (sendMsgToTaskCount c) (multicastMsgCount c) (broadcastMsgCount c) (mCurrentTime c)) ;;
      mret true
  end.
Definition a_registerTask (taskid tcid : Z) (task : ptr) : AS bool :=
  if decide (taskid ≤ 0 ∨ tcid ≤ 0 ∨ task = NULL)%Z then mret false else
  r ← gets (λ a, assoc_get tcid (aconts a));
  match r with
  | None => mret false
  | Some c =>
      b ← on_a_mem (tc_registerTask (ac_tc c) taskid task);
      if negb b then mret false else
      t ← gets (λ a, assoc_get taskid (atasks a));
      match t with
      | None =>
          modify (λ a, set_tasks (atasks a ++ [(taskid, ATask [AInst tcid 0 0] 0 0 0)]) a) ;;
          a_counting (λ c, Counters (i32 (registeredTaskAmount c + 1)) (registeredInstAmount c)
            (sendMsgToTaskCount c) (multicastMsgCount c) (broadcastMsgCount c) (mCurrentTime c)) ;;
          mret true
      | Some t =>
          if decide (Z.of_nat (length (a_insts t)) + 1 < 2 ^ 31)%Z then
            modify (λ a, set_tasks (assoc_set taskid
              (ATask (a_insts t ++ [AInst tcid 0 0]) (a_pos t) (a_count t)
                (u32 ((Z.of_nat (length (a_insts t)) + 1) * BalanceCountNumber))) (atasks a)) a) ;;
            mret true
          else ub
      end
  end.

(** *** Whose turn it is *)
Definition eligible (i : ainst) : bool := bool_decide (ai_weight i = 0%Z).
(** The position of the first eligible instance after [pos], round the list. *)
Definition turn (l : list ainst) (pos : nat) : option nat :=
  j ← find_pos eligible (drop (S pos) l ++ take (S pos) l); Some ((S pos + j) mod length l).
(** Every container's queue length is read (each must have one), and the
    instances more than [BalanceCountNumber] above the average are left out
    until the next check. *)
Definition lengths (wc : ptr → option Z) (tc : ptr) : Z := default 0%Z (wc tc).
Definition set_wait (n : Z) (c : acont) : acont := ACont (ac_tc c) n.
Definition balance_sum (wc : ptr → Z) (cs : list acont) : Z :=
  foldl (λ s c, u32 (s + u32 (wc (ac_tc c)))) 0%Z cs.
Definition overloaded (wc : ptr → Z) (avg : Z) (c : acont) : Z :=
  if decide (u32 (avg + BalanceCountNumber) < u32 (wc (ac_tc c)))%Z then 1 else 0.
Definition measured (wc : ptr → Z) (al : list (Z * acont)) (i : ainst) : list (Z * acont) :=
  match assoc_get (ai_tcid i) al with
  | Some c => assoc_set (ai_tcid i) (set_wait (u32 (wc (ac_tc c))) c) al
  | None => al
  end.
Definition weigh (wc : ptr → Z) (avg : Z) (i : ainst) (c : acont) : ainst :=
  AInst (ai_tcid i) (overloaded wc avg c) (ai_count i).
Definition a_balanceCheck (wc : ptr → option Z) (l : list ainst) : AS (list ainst) :=
  cs ← (λ a, cs ← mapM (λ i, assoc_get (ai_tcid i) (aconts a)) l; Some (cs, a));
  (if decide (Forall (λ c, is_Some (wc (ac_tc c))) cs) then mret tt else ub) ;;
  modify (λ a, set_conts (foldl (measured (lengths wc)) (aconts a) l) a) ;;
  let avg := (balance_sum (lengths wc) cs / Z.of_nat (length l))%Z in
  mret (zip_with (weigh (lengths wc) avg) l cs).
Definition bump (i : ainst) : ainst := AInst (ai_tcid i) (ai_weight i) (u32 (ai_count i + 1)).
(** The task once the instance at [p] was chosen. *)
Definition spent (wc : ptr → option Z) (t : atask) (p : nat) (a : asel) : option (atask * asel) :=
  let k := u32 (a_count t + 1) in
  '(l', a') ← (if decide (a_balance t < k)%Z then a_balanceCheck wc (alter bump p (a_insts t)) a
               else Some (alter bump p (a_insts t), a));
  Some (ATask l' p (if decide (a_balance t < k)%Z then 0 else k) (a_balance t), a').
Definition a_getTask (wc : ptr → option Z) (taskid tcid : Z) : AS (option Z) :=
  c ← gets (λ a, if decide (0 < taskid ∧ 0 < tcid)%Z then assoc_get tcid (aconts a) else None);
  match c with
  | Some _ => mret (Some tcid)
  | None =>
      t ← gets (λ a, if decide (0 < taskid ∧ tcid = 0)%Z then assoc_get taskid (atasks a) else None);
      match t with
      | None => mret None
      | Some t =>
          match a_insts t with
          | [] => mret None
          | [i] => mret (Some (ai_tcid i))
          | l =>
              match turn l (a_pos t) with
              | None => mret None
              | Some p =>
                  t' ← spent wc t p;
                  modify (λ a, set_tasks (assoc_set taskid t' (atasks a)) a) ;;
                  mret (ai_tcid <$> a_insts t' !! p)
              end
          end
      end
  end.

(** *** Delivery *)
Definition a_deliver (tcid : Z) (m : ptr) : AS unit := c ← cont_at tcid; on_a_mem (tc_add (ac_tc c) m).
Definition a_follow_session (now : Z) (clock : nat → Z) (m : ptr) (c : TCtrlMsg) : AS unit :=
  t ← gets (λ a, mCurrentTime (a_cnt a));
  let move (k : option TaskKey) (touch : AS bool) : AS unit :=
    match k with
    | Some k =>
        if decide (0 < k_tcid k ∧ 0 < k_tiid k)%Z then
          on_a_mem (upd_uni m (λ u, put_taskInstID (k_tiid k) (put_phyAddr (k_tcid k) u))) ;; touch ;; mret tt
        else mret tt
    | None => mret tt
    end in
  let sid := getSessionId c in
  (if decide (0 < sid)%Z then k ← on_a_int (a_find_v sid); move k (on_a_int (a_update now sid t))
   else match getSessionStr c with
        | Some ssid => if decide (ssid = []) then mret tt else
            k ← on_a_str (a_find_v (c_string ssid)); move k (on_a_str (a_update now (c_string ssid) t))
        | None => mret tt
        end) ;;
  on_a_int (a_pop_old clock t) ;; on_a_str (a_pop_old clock t) ;; mret tt.
Definition a_begin_dialog (now : Z) (m : ptr) (item taskid containerid : Z) : AS unit :=
  c ← cont_at item;
  iid ← on_a_mem (tc_genTaskInst (ac_tc c) taskid);
  on_a_mem (upd_uni m (put_taskInstID iid)) ;;
  (if decide (containerid = 0)%Z then on_a_mem (upd_uni m (put_phyAddr item)) else mret tt) ;;
  u ← on_a_mem (read_uni m);
  if hasCtrlMsgHdr u then
    h ← defined (ctrlMsgHdr u);
    if hasSessionId h then
      let tk := TKey item iid in
      if decide (0 < getSessionId h)%Z then on_a_int (a_push now (getSessionId h) tk) ;; mret tt
      else match getSessionStr h with
           | Some ssid => if decide (ssid = []) then mret tt else on_a_str (a_push now (c_string ssid) tk) ;; mret tt
           | None => mret tt
           end
    else mret tt
  else mret tt.
Definition a_send (wc : ptr → option Z) (now : Z) (clock : nat → Z) (m : ptr) : AS bool :=
  if decide (m = NULL) then mret false else
  u ← on_a_mem (read_uni m);
  let taskid := logAddr (tAddr u) in
  known ← gets (λ a, assoc_get taskid (atasks a));
  match known with
  | None => mret false
  | Some _ =>
      let containerid := if decide (0 < phyAddr (tAddr u))%Z then (parsePhyAddr (phyAddr (tAddr u))).2 else 0%Z in
      (if decide (0 < phyAddr (tAddr u))%Z then on_a_mem (upd_uni m (put_phyAddr containerid)) else mret tt) ;;
      (if decide (dialogType u ≠ DIALOG_BEGIN ∧ containerid = 0)%Z then
         if hasCtrlMsgHdr u then
           h ← defined (ctrlMsgHdr u); if hasSessionId h then a_follow_session now clock m h else mret tt
         else mret tt
       else mret tt) ;;
      item ← a_getTask wc taskid containerid;
      match item with
      | Some item =>
          u ← on_a_mem (read_uni m);
          (if decide (dialogType u = DIALOG_BEGIN ∧ taskInstID (tAddr u) = 0)%Z
           then a_begin_dialog now m item taskid containerid else mret tt) ;;
          a_deliver item m ;;
          a_counting (λ c, Counters (registeredTaskAmount c) (registeredInstAmount c)
            (i32 (sendMsgToTaskCount c + 1)) (multicastMsgCount c) (broadcastMsgCount c) (mCurrentTime c)) ;;
          mret true
      | None => mret false
      end
  end.

(** One clone of the message for each container of a list. *)
Definition a_clone_to (m : ptr) (c : Z) : AS unit :=
  n ← on_a_mem (clone_uni m); on_a_mem (upd_uni n (put_phyAddr c)) ;; a_deliver c n.
Fixpoint a_each (f : Z → AS unit) (l : list Z) : AS unit :=
  match l with [] => mret tt | c :: l => f c ;; a_each f l end.
Definition a_clones (m : ptr) (l : list Z) : AS unit := a_each (a_clone_to m) l.
Definition a_multicast (m : ptr) : AS bool :=
  if decide (m = NULL) then mret false else
  u ← on_a_mem (read_uni m);
  t ← gets (λ a, assoc_get (logAddr (tAddr u)) (atasks a));
  match t with
  | None => on_a_mem (delete_msg m) ;; mret false
  | Some t =>
      a_clones m (ai_tcid <$> a_insts t) ;;
      modify (λ a, set_tasks (assoc_set (logAddr (tAddr u))
        (ATask (bump <$> a_insts t) (a_pos t) (a_count t) (a_balance t)) (atasks a)) a) ;;
      a_counting (λ c, Counters (registeredTaskAmount c) (registeredInstAmount c)
        (sendMsgToTaskCount c) (i32 (multicastMsgCount c + 1)) (broadcastMsgCount c) (mCurrentTime c)) ;;
      on_a_mem (delete_msg m) ;; mret true
  end.
(** [ord]: the containers in the order the table gives them. *)
Definition a_broadcast (ord : list Z) (m : ptr) : AS bool :=
  if decide (m = NULL) then mret false else
  a_clones m ord ;;
  a_counting (λ c, Counters (registeredTaskAmount c) (registeredInstAmount c)
    (sendMsgToTaskCount c) (multicastMsgCount c) (i32 (broadcastMsgCount c + 1)) (mCurrentTime c)) ;;
  on_a_mem (delete_msg m) ;; mret true.
Definition a_add (ord : list Z) (wc : ptr → option Z) (now : Z) (clock : nat → Z) (m : ptr) : AS bool :=
  u ← on_a_mem (read_uni m);
  if decide (msgType u = DIALOG_BROADCAST) then a_broadcast ord m
  else if decide (msgType u = DIALOG_MULTICAST) then a_multicast m
  else a_send wc now clock m.

Definition a_event_to (m : ptr) (f : Z → TEventMsg → TEventMsg) (c : Z) : AS unit :=
  e ← on_a_mem (read_event m); n ← on_a_mem (new_msg (MEvent (f c e))); a_deliver c n.
Definition a_event_clones (m : ptr) (f : Z → TEventMsg → TEventMsg) (l : list Z) : AS unit := a_each (a_event_to m f) l.
Definition a_event_done (found : bool) (m : ptr) : AS bool :=
  if found then on_a_mem (delete_msg m) ;; mret true
  else
    e ← on_a_mem (read_event m);
    on_a_mem (write_msg m (MEvent (EventMsg (e_sender e) (e_eventID e) (e_transID e) 2 (e_taskID e) (e_instID e) NOT_FOUND))) ;;
    on_a_mem (post m) ;; mret false.
Definition a_addEvent (ord : list Z) (m : ptr) : AS bool :=
  e ← on_a_mem (read_event m);
  if decide (0 < e_instID e)%Z then
    c ← gets (λ a, assoc_get (e_instID e) (aconts a));
    match c with
    | Some c => on_a_mem (tc_add (ac_tc c) m) ;; mret true
    | None => a_event_done false m
    end
  else if decide (0 < e_taskID e)%Z then
    t ← gets (λ a, assoc_get (e_taskID e) (atasks a));
    match t with
    | Some t =>
        let l := filter (λ c, e_instID e = 0 ∨ c = e_instID e)%Z (ai_tcid <$> a_insts t) in
        a_event_clones m (put_event_addr (e_taskID e)) l ;; a_event_done (bool_decide (l ≠ [])) m
    | None => a_event_done false m
    end
  else a_event_clones m (λ _ e, e) ord ;; a_event_done (bool_decide (ord ≠ [])) m.

Definition a_setLivingTime {K} (ct : Z) : abuf K TaskKey → option (unit * abuf K TaskKey) := λ s,
  Some (tt, ABuf (ExpireBuffer.ents s) (acur s) (a_tmp s) (a_max s) (a_destroy s) ct).
Definition a_step (ord : list Z) (ev : event) : AS bool :=
  match ev with
  | ERegisterContainer tcid tc => a_registerContainer tcid tc
  | ERegisterTask taskid tcid task => a_registerTask taskid tcid task
  | ESetCurrentTime t => a_counting (λ c, Counters (registeredTaskAmount c) (registeredInstAmount c)
      (sendMsgToTaskCount c) (multicastMsgCount c) (broadcastMsgCount c) t) ;; mret true
  | ESetRecycleTime ct => (on_a_int (a_setLivingTime ct) ;; on_a_str (a_setLivingTime ct)) ;; mret true
  | EAdd wc now clock m => a_add ord wc now clock m
  | EAddEvent m => a_addEvent ord m
  | EEnv f => on_a_mem (modify f) ;; mret true
  end.
(** [P] holds of the answers and the state after [evs], in whatever order the
    table gives the containers at each broadcast. *)
Fixpoint a_run (evs : list event) (P : list bool → asel → Prop) (a : asel) : Prop :=
  match evs with
  | [] => P [] a
  | ev :: evs => ∀ ord, ord ≡ₚ (aconts a).*1 → wp (a_step ord ev) (λ r, a_run evs (λ rs, P (r :: rs))) a
  end.
Definition a_initial (mx : Z) (dst : bool) (liv t : Z) (h : store) : asel :=
  ASel [] [] (ABuf [] (Some None) no_key mx dst liv) (ABuf [] (Some None) no_key mx dst liv) h (Counters 0 0 0 0 0 t).
End spec.
