(* ===== verification/SelectorRefinement.v ===== *)
(** * The task selector refines routing over lists

    [srepr]: a selector of TaskSelector.v represents the lists of containers
    and tasks of the specification.  Every call does on the tables, the lists of
    instances and the buffers what the specification does on the lists
    ([mref]: with equal results and in the same layout; [dref]: whatever order
    the table has; [sref]: the layout may grow), and so does a run. *)

From S2P Require Import Prelude Dll CList ExpireBuffer UniMsg HashTable Table TaskSelector.

(** ** Refinement *)
(** Where the objects are: containers by id; tasks by id, with their instances. *)
Record layout := Layout { l_c : list (Z * ptr); l_t : list (Z * (ptr * list ptr)) }.
Definition l_tab (y : layout) : list (Z * ptr) := (λ x, (x.1, x.2.1)) <$> l_t y.

Definition cont_of (h : gmap ptr TaskContainerState) (x : Z * ptr) (c : Z * acont) : Prop :=
  x.1 = c.1 ∧ x.2 ≠ NULL ∧ h !! x.2 = Some (TCState c.1 (ac_tc c.2) (ac_wait c.2)) ∧ ac_tc c.2 ≠ NULL.
Definition inst_of (lc : list (Z * ptr)) (h : gmap ptr InstState) (p : ptr) (i : ainst) : Prop :=
  p ≠ NULL ∧ ∃ q, h !! p = Some (IState (ai_weight i) (ai_count i) false (ai_tcid i) q) ∧ (ai_tcid i, q) ∈ lc ∧ (0 < ai_tcid i)%Z.
Definition task_of (lc : list (Z * ptr)) (ht : gmap ptr TaskState) (hi : gmap ptr InstState)
    (x : Z * (ptr * list ptr)) (t : Z * atask) : Prop :=
  x.1 = t.1 ∧ x.2.1 ≠ NULL ∧
  (∃ d cur, ht !! x.2.1 = Some (TState t.1 d (Z.of_nat (a_pos t.2)) (a_count t.2) (a_balance t.2)) ∧ crepr d (x.2.2, cur)) ∧
  Forall2 (inst_of lc hi) x.2.2 (a_insts t.2) ∧ a_pos t.2 < length (a_insts t.2).

Section refinement.
Context {CT TT : Type} `{TableLaws ptr CT} `{TableLaws ptr TT} `{CtrlHeaders}.
Implicit Types (s : @selector CT TT) (a : asel) (y : layout).

Record srepr_at y s a : Prop := {
  sr_ct : ∃ rem, tb_rep (mContainerList s) (l_c y) rem;
  sr_tt : ∃ rem, tb_rep (mTaskList s) (l_tab y) rem;
  sr_int : xrepr (mIntDialog s) (a_int a);
  sr_str : xrepr (mStrDialog s) (a_str a);
  sr_conts : Forall2 (cont_of (tcstates s)) (l_c y) (aconts a);
  sr_cptr : NoDup (l_c y).*2;
  sr_tasks : Forall2 (task_of (l_c y) (taskstates s) (inststates s)) (l_t y) (atasks a);
  sr_tptr : NoDup ((λ x, x.2.1) <$> l_t y);
  sr_iptr : NoDup (concat ((λ x, x.2.2) <$> l_t y));
  sr_mem : mem s = a_mem a;
  sr_cnt : cnt s = a_cnt a;
}.
Definition srepr s a : Prop := ∃ y, srepr_at y s a.

(** [m] does what [f] does, with results related by [R], and allocates none of
    the objects of the tables; with [keep] it leaves the tasks and the containers'
    table alone. *)
Definition mref (keep : bool) {A B} y (m : M selector A) (f : M asel B) (R : A → B → Prop) : Prop :=
  ∀ s a r a', srepr_at y s a → f a = Some (r, a') →
    wp m (λ r' s', R r' r ∧ srepr_at y s' a' ∧ (keep = true → taskstates s' = taskstates s ∧ mContainerList s' = mContainerList s)) s.

Lemma mref_bind {A B A' B'} (b : bool) y (m : M selector A) (f : M asel B) R (k : A → M selector A') (k' : B → M asel B') R' :
  mref b y m f R → (∀ x x', R x x' → mref b y (k x) (k' x') R') → mref b y (m ≫= k) (f ≫= k') R'.
Proof.
  intros Hm Hk s a r a' Hs Hf. unfold mbind, M_bind in Hf.
  destruct (f a) as [[x a1]|] eqn:Hfa; [|done]. apply wp_bind. eapply wp_mono; [by eapply Hm|].
  intros x' s1 (HR & Hs1 & Ht1). eapply wp_mono; [by eapply Hk|]. intros r' s2 (HR2 & Hs2 & Ht2).
  split_and!; [done|done|]. intros Hb. destruct (Ht1 Hb) as [<- <-]. auto.
Qed.
Lemma mref_ret {A B} (b : bool) y (x : A) (x' : B) (R : A → B → Prop) : R x x' → mref b y (mret x) (mret x') R.
Proof. intros HR s a r a' Hs Hf. injection Hf as <- <-. by apply wp_ret. Qed.
Lemma mref_intro {A B} y (m : M selector A) (f : M asel B) (R : A → B → Prop) :
  (∀ s a r a', srepr_at y s a → f a = Some (r, a') → wp m (λ r' s', R r' r ∧ srepr_at y s' a') s) → mref false y m f R.
Proof. intros Hm s a r a' Hs Hf. eapply wp_mono; [by eapply Hm|]. intros ? ? [? ?]. done. Qed.
Lemma mref_elim {A B} b y (m : M selector A) (f : M asel B) (R : A → B → Prop) s a r a' :
  mref b y m f R → srepr_at y s a → f a = Some (r, a') → wp m (λ r' s', R r' r ∧ srepr_at y s' a') s.
Proof. intros Hm Hs Hf. eapply wp_mono; [by eapply Hm|]. intros ? ? (? & ? & _). done. Qed.
Lemma mref_ub {A B} (b : bool) y (m : M selector A) (R : A → B → Prop) : mref b y m ub R.
Proof. by intros s a r a'. Qed.
Lemma mref_defined {A} (b : bool) y (o : option A) : mref b y (defined o) (defined o) eq.
Proof. destruct o; [by apply mref_ret|apply mref_ub]. Qed.
Lemma mref_mono {A B} (b : bool) y (m : M selector A) (f : M asel B) (R R' : A → B → Prop) :
  mref b y m f R → (∀ x x', R x x' → R' x x') → mref b y m f R'.
Proof. intros Hm HR s a r a' Hs Hf. eapply wp_mono; [by eapply Hm|]. intros x s' (Hx & Hs'). auto. Qed.
Lemma mref_weaken {A B} y (m : M selector A) (f : M asel B) R : mref true y m f R → mref false y m f R.
Proof. intros Hm s a r a' Hs Hf. eapply wp_mono; [by eapply Hm|]. intros x s' (Hx & Hs' & _). done. Qed.

Lemma mref_mem {A} (b : bool) y (m : M store A) : mref b y (on_mem m) (on_a_mem m) eq.
Proof.
  intros s a r a' Hs Hf. unfold on_a_mem, zoom in Hf. rewrite <- (sr_mem _ _ _ Hs) in Hf. unfold on_mem. apply wp_zoom.
  unfold wp. destruct (m (mem s)) as [[x h]|]; [|done]. injection Hf as <- <-. split_and!; [done| |done]. by destruct Hs.
Qed.
Lemma mref_int {A} (b : bool) y (m : M (xbuf Z TaskKey) A) f : xrefines m f → mref b y (on_int m) (on_a_int f) eq.
Proof.
  intros Hx s a r a' Hs Hf. unfold on_a_int, zoom in Hf. destruct (f (a_int a)) as [[x d]|] eqn:Hfa; [|done].
  injection Hf as <- <-. apply wp_zoom. eapply wp_mono; [eapply Hx; [apply Hs|done]|].
  intros ? d' [-> Hd]. split_and!; [done| |done]. by destruct Hs.
Qed.
Lemma mref_str {A} (b : bool) y (m : M (xbuf bytes TaskKey) A) f : xrefines m f → mref b y (on_str m) (on_a_str f) eq.
Proof.
  intros Hx s a r a' Hs Hf. unfold on_a_str, zoom in Hf. destruct (f (a_str a)) as [[x d]|] eqn:Hfa; [|done].
  injection Hf as <- <-. apply wp_zoom. eapply wp_mono; [eapply Hx; [apply Hs|done]|].
  intros ? d' [-> Hd]. split_and!; [done| |done]. by destruct Hs.
Qed.
Lemma mref_counting (b : bool) y f : mref b y (counting f) (a_counting f) eq.
Proof.
  intros s a r a' Hs [= <- <-]. apply wp_modify. split_and!; [done| |done]. destruct Hs. split; try done. cbn. by f_equal.
Qed.
Lemma mref_time (b : bool) y : mref b y (gets (λ s, mCurrentTime (cnt s))) (gets (λ a, mCurrentTime (a_cnt a))) eq.
Proof. intros s a r a' Hs [= <- <-]. apply wp_gets. split_and!; [by rewrite (sr_cnt _ _ _ Hs)|done|done]. Qed.

(** *** The tables *)
(** Entries with the same keys, position by position. *)
Lemma assoc_Forall2 {V W} (P : Z * V → Z * W → Prop) (l : list (Z * V)) (l' : list (Z * W)) k :
  Forall2 P l l' → (∀ u v, P u v → u.1 = v.1) →
  match assoc_get k l, assoc_get k l' with
  | Some v, Some w => ∃ i, l !! i = Some (k, v) ∧ l' !! i = Some (k, w) ∧ P (k, v) (k, w)
  | None, None => True
  | _, _ => False
  end.
Proof.
  intros HP Hk. induction HP as [|[j v] [j' w] l l' Hvw HP IH]; cbn; [done|].
  pose proof (Hk _ _ Hvw) as Hj. cbn in Hj. subst j'. case_decide as Hjk.
  - subst j. by exists 0.
  - destruct (assoc_get k l), (assoc_get k l'); try done. destruct IH as (i & ? & ? & ?). by exists (S i).
Qed.
Lemma assoc_set_insert {V} (l : list (Z * V)) i k v w : NoDup l.*1 → l !! i = Some (k, w) →
  assoc_set k v l = <[i := (k, v)]> l.
Proof.
  revert i. induction l as [|[j u] l IH]; intros i Hnd Hi; [done|]. cbn in Hnd. apply NoDup_cons in Hnd as [Hj Hnd].
  unfold assoc_set. cbn [fmap list_fmap fst]. destruct i as [|i]; cbn in Hi.
  - injection Hi as -> ->. rewrite decide_True by done. cbn. f_equal. clear - Hj.
    induction l as [|[j u] l IH]; [done|]. cbn in *. rewrite not_elem_of_cons in Hj. rewrite decide_False by naive_solver.
    f_equal. apply IH. naive_solver.
  - assert (j ≠ k). { intros ->. apply Hj. by apply list_elem_of_lookup_2, (list_elem_of_fmap_2 fst) in Hi. }
    rewrite decide_False by done. cbn. f_equal. by apply IH.
Qed.
Lemma assoc_fmap {V W} (f : V → W) (l : list (Z * V)) k :
  assoc_get k ((λ x, (x.1, f x.2)) <$> l) = f <$> assoc_get k l.
Proof. induction l as [|[j v] l IH]; cbn; [done|]. by case_decide. Qed.

Definition found_c y (k : Z) (p : option ptr) (c : option acont) : Prop :=
  match p, c with Some p, Some _ => (k, p) ∈ l_c y ∧ p ≠ NULL | None, None => True | _, _ => False end.
Lemma mref_get_c y k : mref false y (on_ct (tb_get k)) (gets (λ a, assoc_get k (aconts a))) (found_c y k).
Proof.
  intros s a r a' Hs [= <- <-]. destruct (sr_ct _ _ _ Hs) as [rem Hct]. apply wp_zoom.
  eapply wp_mono; [by eapply tb_get_ok|]. intros o t [-> Ht]. split.
  - pose proof (assoc_Forall2 _ _ _ k (sr_conts _ _ _ Hs) ltac:(by intros x z [? _])) as Ha. unfold found_c.
    destruct (assoc_get k (l_c y)), (assoc_get k (aconts a)); try done. destruct Ha as (i & Hi & _ & _ & Hp & _).
    split; [by eapply list_elem_of_lookup_2|done].
  - split; [|done]. destruct Hs. split; try done. by exists rem.
Qed.
Lemma mref_contains_c y k : mref false y (on_ct (tb_containsKey k)) (gets (λ a, assoc_get k (aconts a)))
  (λ x c, x = bool_decide (is_Some c)).
Proof.
  intros s a r a' Hs [= <- <-]. destruct (sr_ct _ _ _ Hs) as [rem Hct]. apply wp_zoom.
  eapply wp_mono; [by eapply tb_containsKey_ok|]. intros o t [-> Ht]. split.
  - pose proof (assoc_Forall2 _ _ _ k (sr_conts _ _ _ Hs) ltac:(by intros x z [? _])) as Ha.
    apply bool_decide_ext. destruct (assoc_get k (l_c y)), (assoc_get k (aconts a)); naive_solver.
  - split; [|done]. destruct Hs. split; try done. by exists rem.
Qed.
Definition found_t y (k : Z) (q : option ptr) (t : option atask) : Prop :=
  match q, t with Some q, Some _ => ∃ ips, (k, (q, ips)) ∈ l_t y ∧ q ≠ NULL | None, None => True | _, _ => False end.
Lemma tab_get y k : assoc_get k (l_tab y) = fst <$> assoc_get k (l_t y).
Proof. unfold l_tab. apply (assoc_fmap fst). Qed.
Lemma mref_get_t y k : mref false y (on_tt (tb_get k)) (gets (λ a, assoc_get k (atasks a))) (found_t y k).
Proof.
  intros s a r a' Hs [= <- <-]. destruct (sr_tt _ _ _ Hs) as [rem Htt]. apply wp_zoom.
  eapply wp_mono; [by eapply tb_get_ok|]. intros o t [-> Ht]. split.
  - pose proof (assoc_Forall2 _ _ _ k (sr_tasks _ _ _ Hs) ltac:(by intros x z [? _])) as Ha. rewrite tab_get.
    destruct (assoc_get k (l_t y)) as [[q ips]|], (assoc_get k (atasks a)); try done.
    destruct Ha as (i & Hi & _ & _ & Hp & _). exists ips. split; [by eapply list_elem_of_lookup_2|done].
  - split; [|done]. destruct Hs. split; try done. by exists rem.
Qed.
Lemma mref_contains_t y k : mref false y (on_tt (tb_containsKey k)) (gets (λ a, assoc_get k (atasks a)))
  (λ x c, x = bool_decide (is_Some c)).
Proof.
  intros s a r a' Hs [= <- <-]. destruct (sr_tt _ _ _ Hs) as [rem Htt]. apply wp_zoom.
  eapply wp_mono; [by eapply tb_containsKey_ok|]. intros o t [-> Ht]. split.
  - pose proof (assoc_Forall2 _ _ _ k (sr_tasks _ _ _ Hs) ltac:(by intros x z [? _])) as Ha. rewrite tab_get.
    apply bool_decide_ext. destruct (assoc_get k (l_t y)), (assoc_get k (atasks a)); naive_solver.
  - split; [|done]. destruct Hs. split; try done. by exists rem.
Qed.

(** *** Containers *)
Lemma conts_keys y s a : srepr_at y s a → NoDup (l_c y).*1.
Proof. intros Hs. destruct (sr_ct _ _ _ Hs) as [rem Hct]. exact (tb_keys _ _ _ Hct). Qed.
Lemma tasks_keys y s a : srepr_at y s a → NoDup (l_t y).*1.
Proof.
  intros Hs. destruct (sr_tt _ _ _ Hs) as [rem Htt]. apply tb_keys in Htt. unfold l_tab in Htt.
  rewrite <- list_fmap_compose in Htt. exact Htt.
Qed.
Lemma cont_lookup y s a k p : srepr_at y s a → (k, p) ∈ l_c y →
  ∃ i c, l_c y !! i = Some (k, p) ∧ aconts a !! i = Some (k, c) ∧ assoc_get k (aconts a) = Some c ∧
    p ≠ NULL ∧ tcstates s !! p = Some (TCState k (ac_tc c) (ac_wait c)).
Proof.
  intros Hs Hin. pose proof (assoc_Forall2 _ _ _ k (sr_conts _ _ _ Hs) ltac:(by intros u v [? _])) as Ha.
  rewrite (assoc_get_Some k p _ (conts_keys _ _ _ Hs) Hin) in Ha.
  destruct (assoc_get k (aconts a)) as [c|]; [|done]. destruct Ha as (i & Hi & Hi' & _ & Hp & Hl & _). by exists i, c.
Qed.
Lemma mref_cont (b : bool) y k p : (k, p) ∈ l_c y →
  mref b y (on_tcs (hread p)) (cont_at k) (λ c ac, c = TCState k (ac_tc ac) (ac_wait ac)).
Proof.
  intros Hin s a r a' Hs Hf. destruct (cont_lookup _ _ _ _ _ Hs Hin) as (i & c & _ & _ & Hc & _ & Hl).
  unfold cont_at in Hf. rewrite Hc in Hf. injection Hf as <- <-. apply wp_zoom. unfold wp, hread. rewrite Hl. cbn.
  split_and!; [done| |done]. by destruct Hs.
Qed.
Lemma mref_deliver (b : bool) y k p m : (k, p) ∈ l_c y → mref b y (deliver p m) (a_deliver k m) eq.
Proof.
  intros Hin. unfold deliver, a_deliver. eapply mref_bind; [by apply mref_cont|]. intros c ac ->. cbn [c_tc].
  apply mref_mem.
Qed.

(** *** The instances of a task *)
Definition put_ti (ht : gmap ptr TaskState) (hi : gmap ptr InstState) s : @selector CT TT :=
  Selector (mContainerList s) (mTaskList s) (mIntDialog s) (mStrDialog s) (tcstates s) hi ht (mem s) (cnt s).
Lemma wp_on_inst {A} q (m : M (dlist ptr) A) ts (Q : A → selector → Prop) s :
  taskstates s !! q = Some ts →
  wp m (λ x d, Q x (put_ti (<[q := TState (t_taskid ts) d (t_instpos ts) (t_count ts) (t_balanceCount ts)]> (taskstates s))
                     (inststates s) s)) (t_inst ts) →
  wp (on_inst q m) Q s.
Proof.
  intros Hq Hm. unfold on_inst, on_tasks. apply wp_zoom. unfold wp in *. rewrite Hq. cbn.
  destruct (m (t_inst ts)) as [[x d]|]; [exact Hm|done].
Qed.
Lemma put_ti_same s q ts : taskstates s !! q = Some ts → put_ti (<[q := ts]> (taskstates s)) (inststates s) s = s.
Proof. intros Hq. unfold put_ti. rewrite insert_id by done. by destruct s. Qed.
(** A call that only reads the list. *)
Lemma wp_on_inst_read {A} q (m : M (dlist ptr) A) ts (P : A → Prop) (Q : A → selector → Prop) s :
  taskstates s !! q = Some ts → wp m (λ x d, P x ∧ d = t_inst ts) (t_inst ts) → (∀ x, P x → Q x s) → wp (on_inst q m) Q s.
Proof.
  intros Hq Hm HQ. eapply wp_on_inst; [done|]. eapply wp_mono; [exact Hm|]. intros x d [Hx ->].
  destruct ts as [k d p c b]. cbn. rewrite put_ti_same by done. by apply HQ.
Qed.

Lemma ring_step (d : dlist ptr) ps l k p : ring d ps l → ps !! k = Some p →
  p ≠ m_pTag d ∧ (∃ v, l !! k = Some v ∧ wp (iter_deref p) (λ x d', x = v ∧ d' = d) d) ∧
  wp (iter_incr p) (λ q d', q = default (m_pTag d) (ps !! S k) ∧ d' = d) d.
Proof.
  intros Hr Hk. destruct (ring_split _ _ _ _ _ Hr Hk) as (ps1 & ps2 & l1 & v & l2 & Hps & Hl & Hl1 & Hl2 & Hv & Hn & _ & Hd).
  assert (Hp : p ∈ m_pTag d :: ps) by (right; by eapply list_elem_of_lookup_2). split_and!.
  - intros ->. by apply (ring_tag_nelem _ _ _ Hr), (list_elem_of_lookup_2 _ k).
  - exists v. split; [rewrite Hl, lookup_app_r by lia; by replace (k - length l1) with 0 by lia|].
    unfold iter_deref. by eapply wp_value_of.
  - unfold iter_incr. apply wp_if; [|].
    + intros _. eapply wp_next_of; [done|]. split; [|done].
      rewrite Hps, lookup_app_r by lia. replace (S k - length ps1) with 1 by lia. by destruct ps2.
    + intros Hne. exfalso. apply Hne. intros ->. apply (hr_null _ _ _ (rg_ring _ _ _ Hr)). done.
Qed.

(** The rule of [each_inst]; the body leaves the list of the task alone. *)
Lemma wp_each_inst {A} q d (ips : list ptr) cur (body : ptr → A → M selector A) (I : nat → A → selector → Prop) (Q : A → selector → Prop) acc s :
  crepr d (ips, cur) →
  (∀ k acc s, I k acc s → ∃ t p c b, taskstates s !! q = Some (TState t d p c b)) →
  (∀ k i acc s, ips !! k = Some i → I k acc s → wp (body i acc) (I (S k)) s) →
  I 0 acc s → (∀ acc s, I (length ips) acc s → Q acc s) → wp (each_inst q acc body) Q s.
Proof.
  intros (ps & Hr & _ & Hn & _) Hlist Hbody HI HQ. cbn [fst] in *. pose proof (ring_length _ _ _ Hr) as Hlen.
  unfold each_inst. destruct (Hlist _ _ _ HI) as (t & p & c & b & Hq). apply wp_bind.
  eapply (wp_on_inst_read _ _ _ (λ n, n = Z.of_nat (length ips))); [done|by apply wp_gets|]. intros n ->.
  apply wp_bind. eapply (wp_on_inst_read _ _ _ (λ p, p = default (m_pTag d) (ps !! 0))); [done| |].
  { apply wp_gets. split; [|done]. cbn [t_inst]. rewrite (rg_head _ _ _ Hr). by destruct ps. }
  intros p0 ->. rewrite Nat2Z.id. clear t p c b Hq.
  assert (∀ fuel k acc s, I k acc s → k ≤ length ips → length ips - k < fuel →
    wp (each_from fuel q (default (m_pTag d) (ps !! k)) acc body) Q s) as Hloop; [|by apply Hloop; [..|lia|lia]].
  clear acc s HI. induction fuel as [|fuel IH]; intros k acc s HI Hk Hf; [lia|]. cbn [each_from].
  destruct (Hlist _ _ _ HI) as (t & p & c & b & Hq). apply wp_bind.
  eapply (wp_on_inst_read _ _ _ (λ e, e = m_pTag d)); [done|by eapply iter_end_spec|]. intros e ->.
  destruct (ps !! k) as [pk|] eqn:Hpk; cbn [default from_option id].
  - destruct (ring_step _ _ _ _ _ Hr Hpk) as (Hne & (v & Hv & Hderef) & Hincr). rewrite decide_False by done.
    apply wp_bind. eapply (wp_on_inst_read _ _ _ (λ x, x = v)); [done|exact Hderef|]. intros ? ->.
    apply wp_bind. eapply wp_mono; [by eapply Hbody|]. intros acc' s' HI'.
    destruct (Hlist _ _ _ HI') as (t' & p' & c' & b' & Hq').
    apply wp_bind. eapply (wp_on_inst_read _ _ _ (λ x, x = default (m_pTag d) (ps !! S k))); [done|exact Hincr|].
    intros ? ->. apply lookup_lt_Some in Hv. apply IH; [done|lia|lia].
  - rewrite decide_True by done. apply wp_ret. apply lookup_ge_None in Hpk.
    replace k with (length ips) in HI by lia. by apply HQ.
Qed.

(** *** One task in view *)
(** Task [i] of the layout: id [k], object [q], instances [ips], with the list's
    cursor at [cur]. *)
Definition task_at y i k q ips (t : atask) cur s a : Prop :=
  srepr_at y s a ∧ l_t y !! i = Some (k, (q, ips)) ∧ atasks a !! i = Some (k, t) ∧
  ∃ d, taskstates s !! q = Some (TState k d (Z.of_nat (a_pos t)) (a_count t) (a_balance t)) ∧ crepr d (ips, cur).
Lemma task_focus y k q ips s a : srepr_at y s a → (k, (q, ips)) ∈ l_t y →
  ∃ i t cur, task_at y i k q ips t cur s a ∧ assoc_get k (atasks a) = Some t.
Proof.
  intros Hs Hin. pose proof (assoc_Forall2 _ _ _ k (sr_tasks _ _ _ Hs) ltac:(by intros u v [? _])) as Ha.
  rewrite (assoc_get_Some k _ _ (tasks_keys _ _ _ Hs) Hin) in Ha.
  destruct (assoc_get k (atasks a)) as [t|]; [|done].
  destruct Ha as (i & Hi & Hi' & _ & _ & (d & cur & Hq & Hd) & _). exists i, t, cur. split; [|done]. split; [done|].
  split; [done|]. split; [done|]. by exists d.
Qed.
Lemma task_insts y i k q ips t cur s a : task_at y i k q ips t cur s a →
  q ≠ NULL ∧ Forall2 (inst_of (l_c y) (inststates s)) ips (a_insts t) ∧ a_pos t < length (a_insts t).
Proof. intros (Hs & Hi & Ht & _). by destruct (Forall2_lookup_lr _ _ _ _ _ _ (sr_tasks _ _ _ Hs) Hi Ht) as (_ & ? & _ & ? & ?). Qed.
Lemma set_tasks_same i k t a : atasks a !! i = Some (k, t) → set_tasks (<[i := (k, t)]> (atasks a)) a = a.
Proof. intros Hi. rewrite list_insert_id by done. by destruct a. Qed.

Lemma fmap_unique {X Y} (f : X → Y) (l : list X) i j u v : NoDup (f <$> l) → l !! i = Some u → l !! j = Some v →
  f u = f v → i = j.
Proof.
  intros Hnd Hi Hj Hf. apply (NoDup_lookup _ _ _ (f u) Hnd); rewrite list_lookup_fmap; [by rewrite Hi|by rewrite Hj, Hf].
Qed.
(** The instances of another task are other objects. *)
Lemma sel_concat_disjoint {X} (ls : list (list X)) i j l1 l2 x : NoDup (concat ls) → ls !! i = Some l1 → ls !! j = Some l2 →
  x ∈ l1 → x ∈ l2 → i = j.
Proof.
  revert i j. induction ls as [|l ls IH]; intros i j Hnd Hi Hj H1' H2'; [done|]. cbn in Hnd.
  apply NoDup_app in Hnd as (_ & Hd & Hnd).
  assert (Hin : ∀ n l', ls !! n = Some l' → x ∈ l' → x ∈ concat ls).
  { clear -ls. intros n l' Hn Hx. revert n Hn. induction ls as [|l ls IH]; intros n Hn; [done|]. cbn. apply elem_of_app.
    destruct n as [|n]; [injection Hn as ->; by left|right; by eapply IH]. }
  destruct i as [|i], j as [|j]; cbn in Hi, Hj.
  - done.
  - injection Hi as ->. exfalso. by eapply Hd, Hin.
  - injection Hj as ->. exfalso. by eapply Hd, Hin.
  - f_equal. by eapply IH.
Qed.
Lemma task_update y i k q ips t cur s a t' cur' d hi' : task_at y i k q ips t cur s a →
  crepr d (ips, cur') → Forall2 (inst_of (l_c y) hi') ips (a_insts t') → a_pos t' < length (a_insts t') →
  (∀ p, p ∉ ips → hi' !! p = inststates s !! p) →
  task_at y i k q ips t' cur'
    (put_ti (<[q := TState k d (Z.of_nat (a_pos t')) (a_count t') (a_balance t')]> (taskstates s)) hi' s)
    (set_tasks (<[i := (k, t')]> (atasks a)) a).
Proof.
  intros (Hs & Hi & Ht & _) Hd Hins Hpos Hother. pose proof (lookup_lt_Some _ _ _ Ht) as Hlt. split.
  - destruct Hs as [Hct Htt Hint Hstr Hc Hcp Htasks Htp Hip Hm Hn]. split; try done. cbn [put_ti set_tasks atasks taskstates inststates].
    apply Forall2_same_length_lookup. split; [rewrite length_insert; by eapply Forall2_length|].
    intros j x x' Hj Hj'. destruct (decide (j = i)) as [->|Hne].
    + rewrite list_lookup_insert_eq in Hj' by done. injection Hj' as <-. rewrite Hi in Hj. injection Hj as <-.
      destruct (Forall2_lookup_lr _ _ _ _ _ _ Htasks Hi Ht) as (_ & Hq & _ & _). split_and!; [done|done| |done|done].
      exists d, cur'. cbn. by rewrite lookup_insert_eq.
    + rewrite list_lookup_insert_ne in Hj' by done. destruct x as [k2 [q2 ips2]].
      destruct (Forall2_lookup_lr _ _ _ _ _ _ Htasks Hj Hj') as (Hk & Hq & (d2 & cur2 & Hl2 & Hd2) & Hins2 & Hpos2).
      assert (q ≠ q2). { intros ->. apply Hne. by apply (fmap_unique _ _ _ _ _ _ Htp Hj Hi). }
      split_and!; [done|done| | |done].
      * exists d2, cur2. cbn [fst snd] in *. by rewrite lookup_insert_ne.
      * cbn [fst snd] in *. apply Forall2_same_length_lookup. split; [by eapply Forall2_length|]. intros n p x Hp Hx.
        destruct (Forall2_lookup_lr _ _ _ _ _ _ Hins2 Hp Hx) as (Hpn & q' & Hpl & Hql).
        apply list_elem_of_lookup_2 in Hp. split; [done|]. exists q'. rewrite Hother; [done|]. intros Hp'. apply Hne.
        eapply (sel_concat_disjoint ((λ x, x.2.2) <$> l_t y) _ _ ips2 ips p); [done| | |done|done];
          rewrite list_lookup_fmap; [by rewrite Hj|by rewrite Hi].
  - split; [done|]. split; [cbn; by rewrite list_lookup_insert_eq|]. exists d. cbn. by rewrite lookup_insert_eq.
Qed.

(** The steps of the members that work on a task. *)
Lemma wp_task_list {A} (m : M (dlist ptr) A) f x cur' y i k q ips t cur s a (Q : A → selector → Prop) :
  task_at y i k q ips t cur s a → refines m f → f (ips, cur) = Some (x, (ips, cur')) →
  (∀ s', task_at y i k q ips t cur' s' a → Q x s') → wp (on_inst q m) Q s.
Proof.
  intros Hat Hm Hf HQ. pose proof Hat as (_ & _ & Ht & d & Hq & Hd). eapply wp_on_inst; [done|]. cbn.
  eapply wp_mono; [by eapply Hm|]. intros ? d' [-> Hd']. apply HQ. rewrite <- (set_tasks_same i k t a Ht).
  eapply (task_update _ _ _ _ _ _ _ _ _ t); [exact Hat|done|by eapply task_insts|by eapply task_insts|done].
Qed.
Lemma wp_task_read y i k q ips t cur s a (Q : TaskState → selector → Prop) :
  task_at y i k q ips t cur s a →
  (∀ d, crepr d (ips, cur) → Q (TState k d (Z.of_nat (a_pos t)) (a_count t) (a_balance t)) s) →
  wp (on_tasks (hread q)) Q s.
Proof.
  intros (_ & _ & _ & d & Hq & Hd) HQ. apply wp_zoom. unfold wp, hread. rewrite Hq. cbn. destruct s. by apply HQ.
Qed.
Lemma wp_task_upd f t' y i k q ips t cur s a (Q : unit → selector → Prop) :
  task_at y i k q ips t cur s a → a_insts t' = a_insts t → a_pos t' < length (a_insts t) →
  (∀ d, f (TState k d (Z.of_nat (a_pos t)) (a_count t) (a_balance t)) =
        TState k d (Z.of_nat (a_pos t')) (a_count t') (a_balance t')) →
  (∀ s', task_at y i k q ips t' cur s' (set_tasks (<[i := (k, t')]> (atasks a)) a) → Q tt s') →
  wp (on_tasks (hupd q f)) Q s.
Proof.
  intros Hat Hins Hpos Hf HQ. pose proof Hat as (_ & _ & _ & d & Hq & Hd). apply wp_zoom. unfold wp, hupd. rewrite Hq. cbn.
  rewrite Hf. apply HQ. eapply (task_update _ _ _ _ _ _ _ _ _ t'); [exact Hat|done| |by rewrite Hins|done].
  rewrite Hins. by eapply task_insts.
Qed.
Lemma wp_inst_read j p x y i k q ips t cur s a (Q : InstState → selector → Prop) :
  task_at y i k q ips t cur s a → ips !! j = Some p → a_insts t !! j = Some x →
  (∀ c, (ai_tcid x, c) ∈ l_c y → Q (IState (ai_weight x) (ai_count x) false (ai_tcid x) c) s) →
  p ≠ NULL ∧ wp (on_insts (hread p)) Q s.
Proof.
  intros Hat Hj Hx HQ. destruct (Forall2_lookup_lr _ _ _ _ _ _ (proj1 (proj2 (task_insts _ _ _ _ _ _ _ _ _ Hat))) Hj Hx) as (Hp & c & Hl & Hc & _).
  split; [done|]. apply wp_zoom. unfold wp, hread. rewrite Hl. cbn. destruct s. by apply HQ.
Qed.
Lemma wp_inst_upd f j p x x' y i k q ips t cur s a (Q : unit → selector → Prop) :
  task_at y i k q ips t cur s a → ips !! j = Some p → a_insts t !! j = Some x →
  (∀ c, f (IState (ai_weight x) (ai_count x) false (ai_tcid x) c) =
        IState (ai_weight x') (ai_count x') false (ai_tcid x') c) → ai_tcid x' = ai_tcid x →
  let t' := ATask (<[j := x']> (a_insts t)) (a_pos t) (a_count t) (a_balance t) in
  (∀ s', task_at y i k q ips t' cur s' (set_tasks (<[i := (k, t')]> (atasks a)) a) →
     taskstates s' = taskstates s → Q tt s') →
  wp (on_insts (hupd p f)) Q s.
Proof.
  intros Hat Hj Hx Hf Htc t' HQ. pose proof (task_insts _ _ _ _ _ _ _ _ _ Hat) as (_ & Hins & Hpos).
  destruct (Forall2_lookup_lr _ _ _ _ _ _ Hins Hj Hx) as (Hp & c & Hl & Hc).
  apply wp_zoom. unfold wp, hupd. rewrite Hl. cbn. rewrite Hf. apply HQ; [|done].
  pose proof Hat as (Hs & Hi & _ & d & Hq & Hd).
  replace (Selector _ _ _ _ _ (<[p:=_]> _) (taskstates s) _ _) with
    (put_ti (<[q := TState k d (Z.of_nat (a_pos t')) (a_count t') (a_balance t')]> (taskstates s))
       (<[p := IState (ai_weight x') (ai_count x') false (ai_tcid x') c]> (inststates s)) s).
  2: { unfold put_ti. f_equal. by rewrite (insert_id (taskstates s)). }
  assert (Hnd : NoDup ips).
  { pose proof (sr_iptr _ _ _ Hs) as Hip. rewrite <- (take_drop_middle _ _ _ Hi), fmap_app, concat_app in Hip.
    apply NoDup_app in Hip as (_ & _ & Hip). cbn in Hip. by apply NoDup_app in Hip as (? & _). }
  eapply (task_update _ _ _ _ _ _ _ _ _ t'); [exact Hat|done| |cbn; by rewrite length_insert|].
  - cbn. apply Forall2_same_length_lookup. split; [rewrite length_insert; by eapply Forall2_length|].
    intros n p' z Hn Hz. destruct (decide (n = j)) as [->|Hne].
    + rewrite list_lookup_insert_eq in Hz by (by eapply lookup_lt_Some). simplify_eq. split; [done|].
      exists c. rewrite lookup_insert_eq. split; [done|congruence].
    + rewrite list_lookup_insert_ne in Hz by done.
      destruct (Forall2_lookup_lr _ _ _ _ _ _ Hins Hn Hz) as (Hp' & c' & Hl' & Hc'). split; [done|]. exists c'.
      rewrite lookup_insert_ne; [done|]. intros ->. apply Hne. by eapply NoDup_lookup.
  - intros p' Hp'. rewrite lookup_insert_ne; [done|]. intros ->. apply Hp'. by eapply list_elem_of_lookup_2.
Qed.

(** *** The balance check *)
Lemma assoc_get_set {V} (al : list (Z * V)) k j v :
  assoc_get j (assoc_set k v al) = if decide (j = k) then (λ _, v) <$> assoc_get k al else assoc_get j al.
Proof.
  induction al as [|[n w] al IH]; cbn; [by case_decide|]. unfold assoc_set in IH. rewrite IH.
  repeat (case_decide; simplify_eq/=); done.
Qed.
Lemma measured_get wc l al j : assoc_get j (foldl (measured wc) al l) =
  (λ c, if decide (j ∈ ai_tcid <$> l) then set_wait (u32 (wc (ac_tc c))) c else c) <$> assoc_get j al.
Proof.
  revert al. induction l as [|x l IH]; intros al; cbn [foldl fmap list_fmap].
  - destruct (assoc_get j al); [|done]. cbn. by rewrite decide_False by apply not_elem_of_nil.
  - rewrite IH. unfold measured at 1. destruct (assoc_get (ai_tcid x) al) as [c|] eqn:Hc.
    + rewrite assoc_get_set. destruct (decide (j = ai_tcid x)) as [->|Hj].
      * rewrite Hc. cbn. f_equal. rewrite (decide_True (P := _ ∈ _ :: _)) by left. by case_decide.
      * destruct (assoc_get j al); [|done]. cbn. f_equal. apply decide_ext. rewrite elem_of_cons. naive_solver.
    + destruct (decide (j = ai_tcid x)) as [->|Hj]; [by rewrite Hc|].
      destruct (assoc_get j al); [|done]. cbn. f_equal. apply decide_ext. rewrite elem_of_cons. naive_solver.
Qed.
Lemma Forall2_keys {V W} (P : Z * V → Z * W → Prop) (l : list (Z * V)) (l' : list (Z * W)) :
  Forall2 P l l' → (∀ u v, P u v → u.1 = v.1) → l.*1 = l'.*1.
Proof. intros HP Hk. induction HP as [|u v l l' Huv HP IH]; cbn; [done|]. f_equal; [by apply Hk|done]. Qed.
Lemma wp_cont_upd n kc p c y s a (Q : unit → selector → Prop) : srepr_at y s a → (kc, p) ∈ l_c y →
  assoc_get kc (aconts a) = Some c →
  (∀ s', srepr_at y s' (set_conts (assoc_set kc (set_wait n c) (aconts a)) a) → taskstates s' = taskstates s → Q tt s') →
  wp (on_tcs (hupd p (set_waitCount n))) Q s.
Proof.
  intros Hs Hin Hc HQ. destruct (cont_lookup _ _ _ _ _ Hs Hin) as (j & c' & Hj & Hj' & Hc' & Hp & Hl).
  rewrite Hc in Hc'. injection Hc' as <-. apply wp_zoom. unfold wp, hupd. rewrite Hl. cbn. apply HQ; [|done].
  pose proof (conts_keys _ _ _ Hs) as Hkeys. destruct Hs as [Hct Htt Hint Hstr Hcs Hcp Htasks Htp Hip Hm Hn].
  split; try done. cbn [tcstates aconts set_conts]. rewrite (assoc_set_insert _ j kc _ c); [|by rewrite <- (Forall2_keys _ _ _ Hcs ltac:(by intros u v [? _]))|done].
  apply Forall2_same_length_lookup. split; [rewrite length_insert; by eapply Forall2_length|]. intros m x x' Hx Hx'.
  destruct (decide (m = j)) as [->|Hne].
  - rewrite list_lookup_insert_eq in Hx' by (by eapply lookup_lt_Some). simplify_eq. split_and!; [done|done| |].
    + cbn. by rewrite lookup_insert_eq.
    + by destruct (Forall2_lookup_lr _ _ _ _ _ _ Hcs Hj Hj') as (_ & _ & _ & ?).
  - rewrite list_lookup_insert_ne in Hx' by done. destruct (Forall2_lookup_lr _ _ _ _ _ _ Hcs Hx Hx') as (H1' & H2' & H3' & H4').
    split_and!; [done|done| |done]. rewrite lookup_insert_ne; [done|]. intros ->. apply Hne.
    by apply (fmap_unique snd _ _ _ _ _ Hcp Hx Hj).
Qed.
Lemma task_keep y i k q ips t cur s a s' a' : task_at y i k q ips t cur s a → srepr_at y s' a' →
  taskstates s' = taskstates s → atasks a' = atasks a → task_at y i k q ips t cur s' a'.
Proof. intros (_ & Hi & Ht & Hd) Hs' Hts Ha. split; [done|]. split; [done|]. rewrite Hts, Ha. done. Qed.

(** A loop over the instances of one task. *)
Lemma wp_each_task {A} y i k q ips cur (body : ptr → A → M selector A)
    (I : nat → A → atask → asel → Prop) (Q : A → selector → Prop) acc t a s :
  task_at y i k q ips t cur s a → I 0 acc t a →
  (∀ j p x acc t a s, ips !! j = Some p → a_insts t !! j = Some x → task_at y i k q ips t cur s a → I j acc t a →
     wp (body p acc) (λ acc' s', (∃ t' a', task_at y i k q ips t' cur s' a' ∧ I (S j) acc' t' a') ∧
       taskstates s' = taskstates s) s) →
  (∀ acc t a s, task_at y i k q ips t cur s a → I (length ips) acc t a → Q acc s) →
  wp (each_inst q acc body) Q s.
Proof.
  intros Hat HI Hbody HQ. pose proof Hat as (_ & _ & _ & d & Hq & Hd).
  eapply (wp_each_inst _ _ _ _ _ (λ j acc s', (∃ t a, task_at y i k q ips t cur s' a ∧ I j acc t a) ∧
    taskstates s' = taskstates s)); [done| | | |].
  - intros j acc' s' [_ ->]. eauto.
  - intros j p acc' s' Hp [(t' & a' & Hat' & HI') Hts]. destruct (task_insts _ _ _ _ _ _ _ _ _ Hat') as (_ & Hins & _).
    destruct (Forall2_lookup_l _ _ _ _ _ Hins Hp) as (x & Hx & _).
    eapply wp_mono; [by eapply Hbody|]. intros acc'' s'' [Hex ->]. done.
  - eauto.
  - intros acc' s' [(t' & a' & Hat' & HI') _]. by eapply HQ.
Qed.

Lemma wp_cont_read y s a k p c (Q : TaskContainerState → selector → Prop) : srepr_at y s a → (k, p) ∈ l_c y →
  assoc_get k (aconts a) = Some c → Q (TCState k (ac_tc c) (ac_wait c)) s → wp (on_tcs (hread p)) Q s.
Proof.
  intros Hs Hin Hc HQ. destruct (cont_lookup _ _ _ _ _ Hs Hin) as (j & c' & _ & _ & Hc' & _ & Hl).
  rewrite Hc in Hc'. injection Hc' as <-. apply wp_zoom. unfold wp, hread. rewrite Hl. cbn. by destruct s.
Qed.
Lemma set_conts_same a l : aconts a = l → set_conts l a = a.
Proof. intros <-. by destruct a. Qed.
Lemma take_snoc {X} (l : list X) j x : l !! j = Some x → take (S j) l = take j l ++ [x].
Proof. apply take_S_r. Qed.

Lemma task_length y i k q ips t cur s a : task_at y i k q ips t cur s a → length ips = length (a_insts t).
Proof. intros Hat. pose proof (task_insts _ _ _ _ _ _ _ _ _ Hat) as (_ & Hins & _). by eapply Forall2_length. Qed.
Lemma inst_nonnull y i k q ips t cur s a j p : task_at y i k q ips t cur s a → ips !! j = Some p → p ≠ NULL.
Proof.
  intros Hat Hp. pose proof (task_insts _ _ _ _ _ _ _ _ _ Hat) as (_ & Hins & _).
  by destruct (Forall2_lookup_l _ _ _ _ _ Hins Hp) as (x & _ & ? & _).
Qed.
Lemma inst_positive y i k q ips t cur s a j x : task_at y i k q ips t cur s a → a_insts t !! j = Some x → (0 < ai_tcid x)%Z.
Proof.
  intros Hat Hx. pose proof (task_insts _ _ _ _ _ _ _ _ _ Hat) as (_ & Hins & _).
  by destruct (Forall2_lookup_r _ _ _ _ _ Hins Hx) as (p & _ & _ & q' & _ & _ & ?).
Qed.

(** The queue lengths are read and summed. *)
Lemma wp_measure wc y i k q ips t cur s a cs (Q : Z → selector → Prop) :
  task_at y i k q ips t cur s a → Forall2 (λ x c, assoc_get (ai_tcid x) (aconts a) = Some c) (a_insts t) cs →
  Forall (λ c, is_Some (wc (ac_tc c))) cs →
  (∀ s', task_at y i k q ips t cur s' (set_conts (foldl (measured (lengths wc)) (aconts a) (a_insts t)) a) →
    Q (balance_sum (lengths wc) cs) s') →
  wp (each_inst q 0%Z (λ i sum, if decide (i = NULL) then mret sum else
    ist ← on_insts (hread i); c ← on_tcs (hread (i_tcs ist));
    v ← defined (wc (c_tc c));
    on_tcs (hupd (i_tcs ist) (set_waitCount (u32 v))) ;; mret (u32 (sum + u32 v)))) Q s.
Proof.
  intros Hat Hcs Hwc HQ. pose proof (task_length _ _ _ _ _ _ _ _ _ Hat) as Hlen.
  eapply (wp_each_task _ _ _ _ _ _ _ (λ j sum t' a', t' = t ∧ sum = balance_sum (lengths wc) (take j cs) ∧
    a' = set_conts (foldl (measured (lengths wc)) (aconts a) (take j (a_insts t))) a)); [done| | |].
  - split_and!; [done|done|]. by rewrite set_conts_same.
  - clear s Hat. intros j p x sum t' a' s Hp Hx Hat (-> & -> & ->).
    rewrite decide_False by (by eapply inst_nonnull). apply wp_bind. eapply wp_inst_read; [exact Hat|done|done|]. intros pc Hpc.
    destruct (Forall2_lookup_l _ _ _ _ _ Hcs Hx) as (c & Hc & Hcx).
    pose proof Hat as (Hs & _). set (a1 := set_conts (foldl (measured (lengths wc)) (aconts a) (take j (a_insts t))) a) in *.
    assert (∃ c1, assoc_get (ai_tcid x) (aconts a1) = Some c1 ∧ ac_tc c1 = ac_tc c) as (c1 & Hc1 & Htc).
    { unfold a1. cbn [set_conts aconts]. rewrite measured_get, Hcx. cbn. eexists. split; [done|]. by case_decide. }
    cbn [i_tcs]. apply wp_bind. eapply wp_cont_read; [exact Hs|exact Hpc|exact Hc1|]. cbn [c_tc]. rewrite Htc. apply wp_bind.
    destruct (Forall_lookup_1 _ _ _ _ Hwc Hc) as [v Hv]. assert (lengths wc (ac_tc c) = v) as Hlv by (unfold lengths; by rewrite Hv).
    eapply wp_defined; [exact Hv|]. apply wp_bind.
    eapply wp_cont_upd; [exact Hs|exact Hpc|exact Hc1|]. intros s' Hs' Hts. apply wp_ret. split; [|done].
    eexists t, _. split; [by eapply task_keep|]. split_and!; [done| |].
    + rewrite (take_snoc _ _ _ Hc). unfold balance_sum. rewrite foldl_snoc. by rewrite Hlv.
    + rewrite (take_snoc _ _ _ Hx), foldl_snoc.
      change (foldl (measured (lengths wc)) (aconts a) (take j (a_insts t))) with (aconts a1).
      assert (measured (lengths wc) (aconts a1) x = assoc_set (ai_tcid x) (set_wait (u32 (lengths wc (ac_tc c1))) c1) (aconts a1)) as ->
        by (unfold measured; by rewrite Hc1). by rewrite Htc, Hlv.
  - clear s Hat. intros sum t' a' s Hat (-> & -> & ->). revert Hat.
    rewrite Hlen, firstn_all, (Forall2_length _ _ _ Hcs), firstn_all. apply HQ.
Qed.
(** The instances above the average are marked, the others unmarked. *)
Definition with_insts (l : list ainst) (t : atask) : atask := ATask l (a_pos t) (a_count t) (a_balance t).
Definition set_task (i : nat) (k : Z) (t : atask) (a : asel) : asel := set_tasks (<[i := (k, t)]> (atasks a)) a.
Lemma set_task_twice i k t t' a : set_task i k t' (set_task i k t a) = set_task i k t' a.
Proof. unfold set_task. cbn. by rewrite list_insert_insert_eq. Qed.
Lemma wp_weigh wc avg y i k q ips t cur s a cs (Q : unit → selector → Prop) :
  task_at y i k q ips t cur s a →
  Forall2 (λ x c, assoc_get (ai_tcid x) (aconts a) = Some (set_wait (u32 (wc (ac_tc c))) c)) (a_insts t) cs →
  (∀ s', let t' := with_insts (zip_with (weigh wc avg) (a_insts t) cs) t in
     task_at y i k q ips t' cur s' (set_task i k t' a) → Q tt s') →
  wp (each_inst q tt (λ i _,
    ist ← on_insts (hread i); c ← on_tcs (hread (i_tcs ist));
    on_insts (hupd i (set_weight (if decide (u32 (avg + BalanceCountNumber) < c_waitCount c)%Z then 1 else 0))))) Q s.
Proof.
  intros Hat Hcs HQ. pose proof (task_length _ _ _ _ _ _ _ _ _ Hat) as Hlen.
  pose proof (Forall2_length _ _ _ Hcs) as Hlen'.
  eapply (wp_each_task _ _ _ _ _ _ _ (λ j _ t' a',
    t' = with_insts (zip_with (weigh wc avg) (take j (a_insts t)) (take j cs) ++ drop j (a_insts t)) t ∧ a' = set_task i k t' a)); [done| | |].
  - cbn. destruct t as [l p c b]. split; [done|]. symmetry. apply set_tasks_same. by destruct Hat as (_ & _ & ? & _).
  - clear s Hat. intros j p x [] t' a' s Hp Hx Hat (-> & ->). cbn [with_insts a_insts] in Hx.
    assert (Hz : length (zip_with (weigh wc avg) (take j (a_insts t)) (take j cs)) = j).
    { apply lookup_lt_Some in Hp. rewrite length_zip_with, !length_take. lia. }
    assert (Hx0 : a_insts t !! j = Some x).
    { rewrite lookup_app_r in Hx by lia. rewrite Hz, Nat.sub_diag, lookup_drop, Nat.add_0_r in Hx. done. }
    destruct (Forall2_lookup_l _ _ _ _ _ Hcs Hx0) as (c & Hc & Hcx).
    apply wp_bind. eapply wp_inst_read; [exact Hat|done|done|]. intros pc Hpc. cbn [i_tcs]. apply wp_bind.
    eapply wp_cont_read; [by apply Hat|done|exact Hcx|]. cbn [c_waitCount ac_wait set_wait].
    eapply (wp_inst_upd _ j p x (weigh wc avg x c)); [exact Hat|done|done|done|done|].
    intros s' Hat' Hts. split; [|done]. eexists _, _. split; [exact Hat'|]. cbn [with_insts a_insts a_pos a_count a_balance].
    change (ATask (<[j := ?x]> ?l) (a_pos t) (a_count t) (a_balance t)) with (with_insts (<[j := x]> l) t).
    assert (<[j:=weigh wc avg x c]> (zip_with (weigh wc avg) (take j (a_insts t)) (take j cs) ++ drop j (a_insts t)) =
      zip_with (weigh wc avg) (take (S j) (a_insts t)) (take (S j) cs) ++ drop (S j) (a_insts t)) as ->.
    { rewrite (take_snoc _ _ _ Hx0), (take_snoc _ _ _ Hc), (drop_S _ _ _ Hx0).
      rewrite <- Hz at 1. rewrite insert_app_r_alt, Nat.sub_diag by lia. cbn [insert list_insert].
      rewrite zip_with_app; [by rewrite <- app_assoc|]. rewrite !length_take. lia. }
    split; [done|]. apply set_task_twice.
  - clear s Hat. intros [] t' a' s Hat (-> & ->). revert Hat.
    rewrite Hlen, firstn_all, Hlen', firstn_all, <- Hlen', drop_all, app_nil_r. apply HQ.
Qed.
Lemma wp_task_count y i k q ips t cur s a (Q : Z → selector → Prop) :
  task_at y i k q ips t cur s a → (∀ s', task_at y i k q ips t cur s' a → Q (Z.of_nat (length ips)) s') →
  wp (on_inst q CList.count) Q s.
Proof. intros Hat HQ. eapply wp_task_list; [exact Hat|apply count_refines|done|done]. Qed.
Lemma wp_balance wc y i k q ips t cur s a l' a' (Q : unit → selector → Prop) :
  task_at y i k q ips t cur s a → 2 ≤ length ips → a_balanceCheck wc (a_insts t) a = Some (l', a') →
  (∀ s', task_at y i k q ips (with_insts l' t) cur s' (set_task i k (with_insts l' t) a') → Q tt s') →
  wp (balanceCheck wc q) Q s.
Proof.
  intros Hat Hlen Hf HQ. unfold a_balanceCheck in Hf. unfold mbind, M_bind in Hf.
  destruct (mapM _ _) as [cs|] eqn:Hcs; [|done]. cbn in Hf.
  destruct (decide (Forall _ cs)) as [Hwc|]; [|done]. cbn in Hf. injection Hf as <- <-. apply mapM_Some in Hcs.
  pose proof (task_length _ _ _ _ _ _ _ _ _ Hat) as Hlen'.
  unfold balanceCheck. apply wp_bind. eapply wp_measure; [done|done|done|]. clear s Hat. intros s Hat.
  apply wp_bind. eapply wp_task_count; [done|]. clear s Hat. intros s Hat.
  rewrite decide_False by lia. rewrite decide_False by lia. rewrite Hlen'.
  eapply wp_weigh; [done| |exact HQ].
  apply Forall2_same_length_lookup. split; [by eapply Forall2_length|]. intros j x c Hx Hc.
  pose proof (Forall2_lookup_lr _ _ _ _ _ _ Hcs Hx Hc) as Hcx. cbn in Hcx |- *. rewrite measured_get, Hcx. cbn.
  rewrite decide_True; [done|]. apply list_elem_of_fmap_2. by eapply list_elem_of_lookup_2.
Qed.

(** *** The turn of an instance *)
Definition with_pos (p : nat) (t : atask) : atask := ATask (a_insts t) p (a_count t) (a_balance t).
Lemma turn_lookup {X} (l : list X) p m : p < length l → m < length l →
  (drop (S p) l ++ take (S p) l) !! m = l !! ((S p + m) mod length l).
Proof.
  intros Hp Hm. destruct (decide (m < length l - S p)).
  - rewrite lookup_app_l by (rewrite length_drop; lia). by rewrite lookup_drop, Nat.mod_small by lia.
  - rewrite lookup_app_r by (rewrite length_drop; lia). rewrite length_drop, lookup_take_lt by lia. f_equal.
    replace (S p + m) with (m - (length l - S p) + 1 * length l) by lia.
    by rewrite Nat.Div0.mod_add, Nat.mod_small by lia.
Qed.
Lemma next_d_turn (l : list ptr) c : c < length l → 2 ≤ length l →
  s_next_d (l, Some c) = Some ((true, l !! (S c mod length l)), (l, Some (S c mod length l))).
Proof.
  intros Hc Hl. unfold s_next_d, s_with_value, s_next. cbn [fst snd].
  destruct (decide (S c = length l)) as [He|He]; cbn.
  - unfold last_pos. rewrite <- He, Nat.Div0.mod_same. cbn. by rewrite decide_True by (split; [done|lia]).
  - rewrite Nat.mod_small by lia. destruct (lookup_lt_is_Some_2 l (S c)) as [v Hv]; [lia|]. by rewrite Hv.
Qed.
Lemma alter_insert {X} (f : X → X) (l : list X) j x : l !! j = Some x → alter f j l = <[j := f x]> l.
Proof. revert j. induction l as [|z l IH]; intros [|j] Hj; simplify_eq/=; [done|]. f_equal. by apply IH. Qed.
Lemma a_balance_frame wc l a l' a' : a_balanceCheck wc l a = Some (l', a') →
  ∃ C, a' = set_conts C a ∧ ∀ i k t, a_balanceCheck wc l (set_task i k t a) = Some (l', set_conts C (set_task i k t a)).
Proof.
  unfold a_balanceCheck, mbind, M_bind. intros Hf. cbn [aconts set_task set_tasks].
  destruct (mapM _ _) as [cs|] eqn:Hcs; [|done]. cbn in Hf |- *.
  destruct (decide (Forall _ cs)); [|done]. cbn in Hf. injection Hf as <- <-.
  eexists. split; [done|]. done.
Qed.
(** The instance was passed over: the position moves on. *)
Lemma wp_pass {A} y i k q ips t cur s a (K : TaskState → M selector A) (Q : A → selector → Prop) :
  task_at y i k q ips t cur s a →
  (∀ s', let t' := with_pos (S (a_pos t) mod length (a_insts t)) t in
     task_at y i k q ips t' cur s' (set_task i k t' a) → ∀ ts, t_count ts = a_count t → t_balanceCount ts = a_balance t → wp (K ts) Q s') →
  wp (ts ← on_tasks (hread q); c ← on_inst q CList.count;
      on_tasks (hupd q (set_instpos (if decide (c ≤ u32 (t_instpos ts + 1))%Z then 0 else u32 (t_instpos ts + 1)))) ;; K ts) Q s.
Proof.
  intros Hat HQ. pose proof (task_length _ _ _ _ _ _ _ _ _ Hat) as Hlen.
  pose proof (task_insts _ _ _ _ _ _ _ _ _ Hat) as (_ & _ & Hpos).
  apply wp_bind. eapply wp_task_read; [done|]. intros d Hd. apply count_bound in Hd. cbn [fst] in Hd. apply wp_bind.
  eapply wp_task_count; [done|]. clear s Hat. intros s Hat. cbn [t_instpos]. apply wp_bind.
  assert ((if decide (Z.of_nat (length ips) ≤ u32 (Z.of_nat (a_pos t) + 1))%Z then 0 else u32 (Z.of_nat (a_pos t) + 1))%Z =
    Z.of_nat (S (a_pos t) mod length (a_insts t))) as ->.
  { rewrite u32_small by lia. case_decide.
    - replace (S (a_pos t)) with (length (a_insts t)) by lia. by rewrite Nat.Div0.mod_same.
    - rewrite Nat.mod_small by lia. lia. }
  eapply (wp_task_upd _ (with_pos (S (a_pos t) mod length (a_insts t)) t)); [exact Hat|done| |done|intros s' Hat'; by apply HQ].
  apply Nat.mod_upper_bound. lia.
Qed.
Ltac fold_task H :=
  lazymatch type of H with
  | task_at ?y ?i ?k ?q ?ips ?t ?cur ?s (set_tasks _ (set_task _ _ ?t0 ?a)) =>
      change (task_at y i k q ips t cur s (set_task i k t (set_task i k t0 a))) in H; rewrite (set_task_twice i k t0 t a) in H
  end.
(** The instance was chosen. *)
Lemma wp_chosen wc y i k q ips t cur s a p px x t' a' (Q : ptr → selector → Prop) :
  let t0 := with_pos p t in
  task_at y i k q ips t0 cur s (set_task i k t0 a) → 2 ≤ length ips →
  ips !! p = Some px → a_insts t !! p = Some x → spent wc t p a = Some (t', a') →
  (∀ pc x' s', a_insts t' !! p = Some x' → (ai_tcid x', pc) ∈ l_c y → pc ≠ NULL →
     task_at y i k q ips t' cur s' (set_task i k t' a') → Q pc s') →
  ∀ ts, t_count ts = a_count t → t_balanceCount ts = a_balance t →
  wp (chosen wc q px ts) Q s.
Proof.
  intros t0 Hat Hlen Hpx Hx Hsp HQ ts Htc Htb. unfold chosen. rewrite Htc, Htb. pose proof (task_insts _ _ _ _ _ _ _ _ _ Hat) as (_ & _ & Hpos). cbn in Hpos.
  unfold spent in Hsp. set (n := u32 (a_count t + 1)) in *. apply wp_bind.
  eapply (wp_task_upd _ (ATask (a_insts t) p n (a_balance t))); [exact Hat|done|done|done|].
  clear s Hat. intros s Hat. fold_task Hat. apply wp_bind.
  eapply (wp_inst_upd _ p px x (bump x)); [exact Hat|done|done|done|done|]. intros s1 Hat1 _. clear s Hat. rename s1 into s, Hat1 into Hat.
  fold_task Hat. cbn [a_insts a_pos a_count a_balance] in Hat.
  rewrite <- (alter_insert bump _ _ _ Hx) in Hat.
  assert (Hend : ∀ t1 a1 s1, task_at y i k q ips t1 cur s1 (set_task i k t1 a1) → t1 = t' → a1 = a' →
    wp (i ← on_insts (hread px); mret (i_tcs i)) Q s1).
  { intros t1 a1 s1 Hat1 -> ->. pose proof (task_insts _ _ _ _ _ _ _ _ _ Hat1) as (_ & Hins1 & _).
    destruct (Forall2_lookup_l _ _ _ _ _ Hins1 Hpx) as (x1 & Hx1 & _).
    apply wp_bind. eapply wp_inst_read; [exact Hat1|done|done|]. intros pc Hpc. apply wp_ret.
    destruct (cont_lookup _ _ _ _ _ (proj1 Hat1) Hpc) as (? & ? & _ & _ & _ & Hn & _). by eapply HQ. }
  destruct (decide (a_balance t < n)%Z).
  - destruct (a_balanceCheck wc _ a) as [[l' a1]|] eqn:Hb; [|done]. cbn in Hsp. injection Hsp as <- <-.
    destruct (a_balance_frame _ _ _ _ _ Hb) as (C & -> & Hframe). apply wp_bind, wp_bind.
    eapply wp_balance; [exact Hat|done|by apply Hframe|]. clear s Hat. intros s Hat.
    change (set_conts C (set_task i k ?t a)) with (set_task i k t (set_conts C a)) in Hat. rewrite set_task_twice in Hat.
    eapply (wp_task_upd _ (ATask l' p 0 (a_balance t))); [exact Hat|done| |done|].
    { by apply (task_insts _ _ _ _ _ _ _ _ _ Hat). }
    clear s Hat. intros s Hat. fold_task Hat. by eapply Hend.
  - cbn in Hsp. injection Hsp as <- <-. apply wp_bind, wp_ret. by eapply Hend.
Qed.
Lemma wp_pick wc y i k q ips t a (Q : ptr → selector → Prop) n m last s :
  let R := drop (S (a_pos t)) (a_insts t) ++ take (S (a_pos t)) (a_insts t) in
  let p := (a_pos t + m) mod length (a_insts t) in
  m + n = length (a_insts t) → 2 ≤ length ips → a_pos t < length (a_insts t) → atasks a !! i = Some (k, t) →
  task_at y i k q ips (with_pos p t) (Some p) s (set_task i k (with_pos p t) a) →
  match find_pos eligible (drop m R) with
  | None => ∀ s', task_at y i k q ips t (Some (a_pos t)) s' a → Q NULL s'
  | Some j => ∃ t' a', spent wc t ((S (a_pos t) + (m + j)) mod length (a_insts t)) a = Some (t', a') ∧
      ∀ pc x' s', a_insts t' !! ((S (a_pos t) + (m + j)) mod length (a_insts t)) = Some x' → (ai_tcid x', pc) ∈ l_c y →
        pc ≠ NULL → task_at y i k q ips t' (Some ((S (a_pos t) + (m + j)) mod length (a_insts t))) s' (set_task i k t' a') → Q pc s'
  end → wp (pick_loop wc n q last) Q s.
Proof.
  intros R. revert m last s. induction n as [|n IH]; intros m last s p Hmn Hlen Hpos Hk Hat HQ.
  - assert (p = a_pos t) as Hp.
    { unfold p. replace m with (1 * length (a_insts t)) by lia. rewrite Nat.Div0.mod_add. by apply Nat.mod_small. }
    rewrite Hp in Hat. rewrite drop_ge in HQ by (unfold R; rewrite length_app, length_drop, length_take; lia). cbn in HQ.
    apply HQ. replace (with_pos (a_pos t) t) with t in Hat by (by destruct t). unfold set_task in Hat.
    by rewrite set_tasks_same in Hat.
  - cbn [pick_loop]. pose proof (task_length _ _ _ _ _ _ _ _ _ Hat) as Hl. cbn in Hl.
    assert (Hp : p < length ips) by (rewrite Hl; apply Nat.mod_upper_bound; lia).
    set (p1 := S p mod length ips).
    assert (Hp1 : p1 < length ips) by (apply Nat.mod_upper_bound; lia).
    assert (Hp1' : p1 = (S (a_pos t) + m) mod length (a_insts t)).
    { unfold p1, p. rewrite Hl, <- Nat.add_1_l, Nat.Div0.add_mod_idemp_r. done. }
    destruct (lookup_lt_is_Some_2 ips p1 Hp1) as [px Hpx].
    apply wp_bind. eapply wp_task_list; [exact Hat|apply next_d_refines|by apply next_d_turn|]. fold p1.
    clear s Hat. intros s Hat. rewrite Hpx. cbn [default from_option id]. pose proof (inst_nonnull _ _ _ _ _ _ _ _ _ _ _ Hat Hpx).
    rewrite decide_True by done. eapply (wp_pass _ _ _ _ _ _ _ _ _ (λ ts, i ← on_insts (hread px);
      if decide (i_weight i = 0%Z ∧ i_shuttingDown i = false) then chosen wc q px ts else pick_loop wc n q px)); [exact Hat|]. clear s Hat. cbn [with_pos a_insts a_pos]. rewrite <- Hl. fold p1.
    intros s Hat ts Hts Hbc. change (with_pos p1 (with_pos p t)) with (with_pos p1 t) in Hat. rewrite set_task_twice in Hat.
    destruct (lookup_lt_is_Some_2 (a_insts t) p1) as [x Hx]; [lia|].
    assert (HR : R !! m = Some x) by (unfold R; rewrite turn_lookup, <- Hp1' by lia; done).
    rewrite (drop_S _ _ _ HR) in HQ. cbn [find_pos] in HQ.
    apply wp_bind. eapply wp_inst_read; [exact Hat|done|done|]. intros pc Hpc. cbn [i_weight i_shuttingDown].
    unfold eligible at 1 in HQ. destruct (decide (ai_weight x = 0%Z)) as [Hw|Hw].
    + rewrite bool_decide_true in HQ by done. rewrite decide_True by done.
      destruct HQ as (t' & a' & Hsp & HQ). rewrite Nat.add_0_r, <- Hp1' in Hsp, HQ.
      eapply wp_chosen; [exact Hat|done|done|done|done| |done|done]. intros. by eapply HQ.
    + rewrite bool_decide_false in HQ by done. rewrite decide_False by naive_solver.
      rewrite Hp1' in Hat. apply (IH (S m) px s); [lia|done|done|done| |].
      * replace (a_pos t + S m) with (S (a_pos t) + m) by lia. done.
      * destruct (find_pos eligible (drop (S m) R)) as [j|]; cbn in HQ; [|done].
        replace (m + S j) with (S m + j) in HQ by lia. done.
Qed.
Lemma task_entry y i k q ips t cur s a : task_at y i k q ips t cur s a →
  assoc_get k (atasks a) = Some t ∧ ∀ t', assoc_set k t' (atasks a) = <[i := (k, t')]> (atasks a).
Proof.
  intros (Hs & _ & Ht & _). pose proof (tasks_keys _ _ _ Hs) as Hk.
  rewrite (Forall2_keys _ _ _ (sr_tasks _ _ _ Hs)) in Hk by (by intros u v [? _]). split.
  - apply assoc_get_Some; [done|]. by eapply list_elem_of_lookup_2.
  - intros t'. by eapply assoc_set_insert.
Qed.
(** A task is looked up and worked on. *)
Lemma mref_with_task {A B} y k (K : option ptr → M selector A) (K' : option atask → M asel B) R :
  mref false y (K None) (K' None) R →
  (∀ i q ips t cur s a r a', task_at y i k q ips t cur s a → q ≠ NULL → K' (Some t) a = Some (r, a') →
     wp (K (Some q)) (λ r' s', R r' r ∧ srepr_at y s' a') s) →
  mref false y (on_tt (tb_get k) ≫= K) (gets (λ a, assoc_get k (atasks a)) ≫= K') R.
Proof.
  intros HN HS s a r a' Hs Hf. unfold mbind at 1, M_bind, gets in Hf. apply wp_bind.
  eapply wp_mono; [eapply mref_get_t; [exact Hs|done]|]. intros o s1 (Ho & Hs1 & _).
  destruct o as [q|], (assoc_get k (atasks a)) as [t|] eqn:Hg; try done.
  - destruct Ho as (ips & Hin & Hq). destruct (task_focus _ _ _ _ _ _ Hs1 Hin) as (i & t1 & cur & Hat & Hg1).
    rewrite Hg in Hg1. injection Hg1 as <-. eapply wp_mono; [by eapply HS|]. intros r' s' [? ?]. done.
  - eapply wp_mono; [by eapply HN|]. intros r' s' (? & ? & _). done.
Qed.
Definition found_item y (p : ptr) (c : option Z) : Prop :=
  match c with Some k => (k, p) ∈ l_c y ∧ p ≠ NULL | None => p = NULL end.
Lemma mref_getTask wc y taskid tcid : mref false y (getTask wc taskid tcid) (a_getTask wc taskid tcid) (found_item y).
Proof.
  unfold getTask, a_getTask. eapply (mref_bind _ _ _ _ (found_c y tcid)).
  { case_decide; [apply mref_get_c|]. intros s ? ? ? Hs [= <- <-]. by apply wp_ret. }
  intros [p|] [c|] Hpc; try done; [by apply mref_ret|].
  destruct (decide (0 < taskid ∧ tcid = 0)%Z) as [Htc|Htc]; [|by apply mref_ret].
  apply mref_with_task; [by apply mref_ret|].
  intros i q ips t cur s a r a' Hat Hq Hf. rewrite decide_False by done.
  pose proof (task_length _ _ _ _ _ _ _ _ _ Hat) as Hlen.
  apply wp_bind. eapply wp_task_count; [done|]. clear s Hat. intros s Hat. rewrite Hlen.
  pose proof Hat as (Hs & _ & Hk & _). pose proof (task_insts _ _ _ _ _ _ _ _ _ Hat) as (_ & Hins & Hpos).
  destruct (a_insts t) as [|x1 [|x2 l]] eqn:Hl; [cbn in Hpos; lia| |].
  - injection Hf as <- <-. cbn [length]. rewrite decide_False by lia. rewrite decide_True by lia.
    destruct ips as [|p1 [|]]; [done| |done]. apply wp_bind. eapply wp_task_list; [exact Hat|apply front_v_refines|done|].
    clear s Hs Hins Hat. intros s Hat. apply wp_bind.
    eapply (wp_inst_read 0); [exact Hat|done|by rewrite Hl|]. intros pc Hpc'. apply wp_ret.
    destruct (cont_lookup _ _ _ _ _ (proj1 Hat) Hpc') as (? & ? & _ & _ & _ & Hn & _). by destruct Hat.
  - rewrite decide_False by (cbn; lia). rewrite decide_False by (cbn; lia).
    apply wp_bind. eapply wp_task_read; [exact Hat|]. intros d Hd. cbn [t_instpos].
    apply wp_bind. eapply wp_task_list; [exact Hat|apply reset_pos_refines| |].
    { pose proof (count_bound _ _ Hd) as Hb. unfold s_reset_pos, s_addr. cbn [fst snd]. rewrite !decide_True by (rewrite Hlen; lia). by rewrite Nat2Z.id. }
    clear s d Hd Hs Hins Hat. intros s Hat. rewrite Nat2Z.id. rewrite <- Hl in Hlen, Hpos, Hf.
    assert (Hlen2 : 2 ≤ length ips) by (rewrite Hlen, Hl; cbn; lia).
    rewrite <- Hl. eapply (wp_pick _ _ _ _ _ _ t a _ _ 0); [lia|done|done|done| |].
    { rewrite Nat.add_0_r, Nat.mod_small by done. unfold set_task.
      replace (with_pos (a_pos t) t) with t by (by destruct t). by rewrite set_tasks_same. }
    cbn [drop Nat.add]. unfold turn in Hf. destruct (find_pos eligible _) as [j|]; cbn [mbind option_bind] in Hf.
    + unfold mbind, M_bind in Hf. destruct (spent wc t _ a) as [[t' a1]|] eqn:Hsp; [|done]. cbn in Hf.
      injection Hf as <- <-. exists t', a1. split; [done|]. intros pc x' s' Hx' Hpc' Hn Hat'.
      cbn in Hx'. rewrite Hx'. split; [done|]. destruct Hat' as [Hs' _].
      destruct (task_entry _ _ _ _ _ _ _ _ _ Hat) as [_ Hset].
      assert (Ha1 : atasks a1 = atasks a).
      { unfold spent in Hsp. destruct (decide _); [|by injection Hsp as _ <-].
        destruct (a_balanceCheck _ _ a) as [[l' a2]|] eqn:Hb; [|done]. injection Hsp as _ <-.
        by destruct (a_balance_frame _ _ _ _ _ Hb) as (C & -> & _). }
      rewrite Ha1, Hset. unfold set_task in Hs'. by rewrite Ha1 in Hs'.
    + injection Hf as <- <-. intros s' Hat'. split; [done|]. by destruct Hat'.
Qed.

(** *** Delivery *)
(** One call with equal results, then the rest. *)
Ltac mcall :=
  first [ apply mref_mem | apply mref_counting | apply mref_time | apply mref_defined
        | apply mref_int; first [apply ExpireBuffer.find_v_refines | apply ExpireBuffer.update_refines | apply ExpireBuffer.push_refines | apply ExpireBuffer.pop_old_refines]
        | apply mref_str; first [apply ExpireBuffer.find_v_refines | apply ExpireBuffer.update_refines | apply ExpireBuffer.push_refines | apply ExpireBuffer.pop_old_refines]
        | apply mref_deliver; assumption ].
Ltac mstep := first
  [ apply mref_ret; reflexivity | mcall
  | eapply mref_bind; [mcall|]; let x := fresh "x" in intros x ? <- ].
Lemma mref_follow_session b y now clock m c : mref b y (follow_session now clock m c) (a_follow_session now clock m c) eq.
Proof.
  unfold follow_session, a_follow_session. mstep.
  assert (Hmove : ∀ (k : option TaskKey) (touch : M selector bool) (touch' : M asel bool), mref b y touch touch' eq → mref b y
    (match k with
     | Some k => if decide (0 < k_tcid k ∧ 0 < k_tiid k)%Z then
         on_mem (upd_uni m (λ u, put_taskInstID (k_tiid k) (put_phyAddr (k_tcid k) u))) ;; touch ;; mret tt else mret tt
     | None => mret tt end)
    (match k with
     | Some k => if decide (0 < k_tcid k ∧ 0 < k_tiid k)%Z then
         on_a_mem (upd_uni m (λ u, put_taskInstID (k_tiid k) (put_phyAddr (k_tcid k) u))) ;; touch' ;; mret tt else mret tt
     | None => mret tt end) eq).
  { intros [k|] touch touch' Ht; [|mstep]. case_decide; [|mstep]. mstep. eapply mref_bind; [exact Ht|]. intros ? ? <-. mstep. }
  eapply (mref_bind _ _ _ _ eq).
  - case_decide.
    + mstep. apply Hmove. mstep.
    + destruct (getSessionStr c); [|mstep]. case_decide; [mstep|]. mstep. apply Hmove. mstep.
  - intros ? ? <-. repeat mstep.
Qed.
Lemma mref_begin_dialog b y now m p item taskid containerid : (item, p) ∈ l_c y →
  mref b y (begin_dialog now m p taskid containerid) (a_begin_dialog now m item taskid containerid) eq.
Proof.
  intros Hp. unfold begin_dialog, a_begin_dialog. eapply mref_bind; [by apply mref_cont|]. intros c ac ->. cbn [c_tc c_tcid].
  mstep. mstep. eapply (mref_bind _ _ _ _ eq); [case_decide; mstep|]. intros ? ? <-. mstep.
  destruct (hasCtrlMsgHdr _); [|mstep]. mstep. destruct (hasSessionId _); [|mstep]. case_decide; [repeat mstep|].
  destruct (getSessionStr _); [|mstep]. case_decide; [mstep|]. repeat mstep.
Qed.
Lemma mref_send wc now clock y m : mref false y (sendMsgToTask wc now clock m) (a_send wc now clock m) eq.
Proof.
  unfold sendMsgToTask, a_send. case_decide; [mstep|]. mstep. eapply mref_bind; [apply mref_contains_t|].
  intros ? [t|] ->; [|mstep]. rewrite bool_decide_true by done. cbn [negb].
  eapply (mref_bind _ _ _ _ eq); [case_decide; mstep|]. intros ? ? <-.
  eapply (mref_bind _ _ _ _ eq).
  { case_decide; [|mstep]. destruct (hasCtrlMsgHdr _); [|mstep]. mstep. destruct (hasSessionId _); [|mstep]. apply mref_follow_session. }
  intros ? ? <-. eapply mref_bind; [apply mref_getTask|]. intros p [item|]; cbn [found_item].
  - intros [Hp Hn]. rewrite decide_True by done. mstep.
    eapply (mref_bind _ _ _ _ eq); [case_decide; [by apply mref_begin_dialog|mstep]|]. intros ? ? <-. repeat mstep.
  - intros ->. rewrite decide_False by naive_solver. mstep.
Qed.

(** *** Copies for several containers *)
(** A computation that does not look at the tasks. *)
Definition blind {A} (f : M asel A) : Prop := ∀ L a,
  f (set_tasks L a) = match f a with Some (x, a') => Some (x, set_tasks L a') | None => None end.
Lemma blind_ret {A} (x : A) : blind (mret x).
Proof. done. Qed.
Lemma blind_bind {A B} (f : M asel A) (g : A → M asel B) : blind f → (∀ x, blind (g x)) → blind (f ≫= g).
Proof. intros Hf Hg L a. unfold mbind, M_bind. rewrite Hf. destruct (f a) as [[x a']|]; [apply Hg|done]. Qed.
Lemma blind_mem {A} (m : M store A) : blind (on_a_mem m).
Proof. intros L a. unfold on_a_mem, zoom. cbn. by destruct (m (a_mem a)) as [[??]|]. Qed.
Lemma blind_cont k : blind (cont_at k).
Proof. intros L a. unfold cont_at. cbn. by destruct (assoc_get k (aconts a)). Qed.
Lemma blind_deliver k m : blind (a_deliver k m).
Proof. apply blind_bind; [apply blind_cont|]. intros. apply blind_mem. Qed.
Lemma blind_clone_to m c : blind (a_clone_to m c).
Proof. unfold a_clone_to. repeat (apply blind_bind; [|intros]); auto using blind_mem, blind_cont. Qed.
Lemma blind_clones m l : blind (a_clones m l).
Proof. induction l as [|c l IH]; [apply blind_ret|]. apply blind_bind; [apply blind_clone_to|done]. Qed.
Lemma blind_tasks {A} (f : M asel A) a x a' : blind f → f a = Some (x, a') → atasks a' = atasks a.
Proof.
  intros Hb Hf. pose proof (Hb (atasks a) a) as Ha. rewrite Hf in Ha.
  replace (set_tasks (atasks a) a) with a in Ha by (by destruct a). rewrite Hf in Ha. injection Ha as ->. done.
Qed.
Lemma wp_mref {A B} y (m : M selector A) (f : M asel B) R s a r a' (Q : A → selector → Prop) :
  mref true y m f R → srepr_at y s a → f a = Some (r, a') →
  (∀ r' s', R r' r → srepr_at y s' a' → taskstates s' = taskstates s → mContainerList s' = mContainerList s → Q r' s') →
  wp m Q s.
Proof.
  intros Hm Hs Hf HQ. eapply wp_mono; [by eapply Hm|]. intros r' s' (HR & Hs' & Hk). destruct (Hk eq_refl). by apply HQ.
Qed.
(** One copy, in continuation style. *)
Lemma wp_clone_to {A} y c p m s a x a' (K : M selector A) Q : srepr_at y s a → (c, p) ∈ l_c y → a_clone_to m c a = Some (x, a') →
  (∀ s', srepr_at y s' a' → taskstates s' = taskstates s → mContainerList s' = mContainerList s → wp K Q s') →
  wp (n ← on_mem (clone_uni m); on_mem (upd_uni n (put_phyAddr c)) ;; deliver p n ;; K) Q s.
Proof.
  intros Hs Hin Hf HK. unfold a_clone_to in Hf.
  apply bind_some in Hf as (n & a1 & H1' & Hf). apply bind_some in Hf as ([] & a2 & H2' & Hf).
  apply wp_bind. eapply wp_mref; [apply mref_mem|done..|]. intros ? s1 -> Hs1 Ht1 Hc1.
  apply wp_bind. eapply wp_mref; [apply mref_mem|done..|]. intros ? s2 -> Hs2 Ht2 Hc2.
  apply wp_bind. eapply wp_mref; [by apply mref_deliver|done..|]. intros ? s3 -> Hs3 Ht3 Hc3.
  apply HK; congruence.
Qed.

Lemma wp_get_task {A} y k t (K : option ptr → M selector A) Q s a : srepr_at y s a → assoc_get k (atasks a) = Some t →
  (∀ i q ips cur s', task_at y i k q ips t cur s' a → q ≠ NULL → wp (K (Some q)) Q s') →
  wp (on_tt (tb_get k) ≫= K) Q s.
Proof.
  intros Hs Hg HK. apply wp_bind. eapply wp_mono; [by eapply mref_get_t|]. intros o s1 (Ho & Hs1 & _).
  rewrite Hg in Ho. destruct o as [q|]; [|done]. destruct Ho as (ips & Hin & Hq).
  destruct (task_focus _ _ _ _ _ _ Hs1 Hin) as (i & t1 & cur & Hat & Hg1). simplify_eq. by eapply HK.
Qed.
Lemma set_task_blind {A} (f : M asel A) i k t a x a' : blind f → f a = Some (x, a') →
  f (set_task i k t a) = Some (x, set_task i k t a').
Proof. intros Hb Hf. unfold set_task. rewrite Hb, Hf. by rewrite (blind_tasks f a x a'). Qed.
Lemma wp_multicast_loop y i k q ips t cur s a m a' (Q : unit → selector → Prop) :
  task_at y i k q ips t cur s a → a_clones m (ai_tcid <$> a_insts t) a = Some (tt, a') →
  (∀ s', let t' := with_insts (bump <$> a_insts t) t in task_at y i k q ips t' cur s' (set_task i k t' a') → Q tt s') →
  wp (each_inst q tt (λ i _,
         if decide (i = NULL) then mret tt else
         ist ← on_insts (hread i);
         if decide (0 < i_tcid ist)%Z then
           n ← on_mem (clone_uni m); on_mem (upd_uni n (put_phyAddr (i_tcid ist))) ;;
           deliver (i_tcs ist) n ;; on_insts (hupd i inst_count)
         else mret tt)) Q s.
Proof.
  intros Hat Hf HQ. pose proof (task_length _ _ _ _ _ _ _ _ _ Hat) as Hlen.
  eapply (wp_each_task _ _ _ _ _ _ _ (λ j _ t1 a1, t1 = with_insts ((bump <$> take j (a_insts t)) ++ drop j (a_insts t)) t ∧
    ∃ b, a1 = set_task i k t1 b ∧ atasks b = atasks a ∧ a_clones m (ai_tcid <$> drop j (a_insts t)) b = Some (tt, a')));
    [done| | |].
  - cbn. destruct t as [l p c bc]. split; [done|]. exists a. split_and!; [|done|done]. symmetry. apply set_tasks_same.
    by destruct Hat as (_ & _ & ? & _).
  - clear s Hat. intros j p x [] t1 a1 s Hp Hx Hat (-> & b & -> & Hb & Hcl). cbn [with_insts a_insts] in Hx.
    assert (Hz : length (bump <$> take j (a_insts t)) = j).
    { apply lookup_lt_Some in Hp. rewrite length_fmap, length_take. lia. }
    assert (Hx0 : a_insts t !! j = Some x).
    { rewrite lookup_app_r in Hx by lia. rewrite Hz, Nat.sub_diag, lookup_drop, Nat.add_0_r in Hx. done. }
    rewrite (drop_S _ _ _ Hx0) in Hcl. cbn in Hcl. apply bind_some in Hcl as ([] & b1 & Hb1 & Hcl).
    rewrite decide_False by (by eapply inst_nonnull). apply wp_bind. eapply wp_inst_read; [exact Hat|done|done|].
    intros pc Hpc. cbn [i_tcid i_tcs].
    rewrite decide_True by (by eapply inst_positive).
    set (tj := with_insts ((bump <$> take j (a_insts t)) ++ drop j (a_insts t)) t) in *.
    pose proof (set_task_blind _ i k tj _ _ _ (blind_clone_to m (ai_tcid x)) Hb1) as Hb1'.
    eapply wp_clone_to; [apply Hat|done|exact Hb1'|]. intros s1 Hs1 Hts _.
    assert (Hat1 : task_at y i k q ips tj cur s1 (set_task i k tj b1)).
    { eapply task_keep; [exact Hat|done|done|]. cbn. by rewrite (blind_tasks _ _ _ _ (blind_clone_to m (ai_tcid x)) Hb1). }
    eapply (wp_inst_upd _ j p x (bump x)); [exact Hat1|done|done|done|done|].
    intros s2 Hat2 Hts2. split; [|congruence]. fold_task Hat2.
    assert (Hins : <[j:=bump x]> (a_insts tj) = (bump <$> take (S j) (a_insts t)) ++ drop (S j) (a_insts t)).
    { unfold tj. cbn [with_insts a_insts]. rewrite (take_snoc _ _ _ Hx0), (drop_S _ _ _ Hx0), fmap_app.
      rewrite <- Hz at 1. rewrite insert_app_r_alt, Nat.sub_diag by lia. cbn [insert list_insert]. by rewrite <- app_assoc. }
    rewrite Hins in Hat2. eexists _, _. split; [exact Hat2|]. split; [done|]. exists b1. split_and!; [done| |done].
    by rewrite (blind_tasks _ _ _ _ (blind_clone_to m (ai_tcid x)) Hb1).
  - clear s Hat. intros [] t1 a1 s Hat (-> & b & -> & Hb & Hcl). rewrite Hlen in Hat, Hcl.
    rewrite drop_all in Hat, Hcl. rewrite firstn_all, app_nil_r in Hat. injection Hcl as ->. by apply HQ.
Qed.
Lemma mref_multicast y m : mref false y (multicastMsgToTask m) (a_multicast m) eq.
Proof.
  unfold multicastMsgToTask, a_multicast. case_decide; [mstep|]. mstep. rename x into u. apply mref_intro.
  intros s a r a' Hs Hf. apply bind_some in Hf as (t & a1 & Hg & Hf). injection Hg as <- <-.
  apply wp_bind. eapply wp_mono; [by eapply mref_contains_t|]. intros ? s1 (-> & Hs1 & _).
  destruct (assoc_get _ (atasks a)) as [t|] eqn:Hg.
  - rewrite bool_decide_true by done. cbn [negb]. apply bind_some in Hf as ([] & a1 & Hcl & Hf).
    eapply wp_get_task; [done|done|]. intros i q ips cur s2 Hat Hq.
    apply wp_bind, wp_bind. eapply wp_multicast_loop; [done|done|]. intros s3 t3 Hat1.
    pose proof (blind_tasks _ _ _ _ (blind_clones _ _) Hcl) as Ha1.
    destruct (task_entry _ _ _ _ _ _ _ _ _ Hat) as [_ Hset].
    apply bind_some in Hf as ([] & a2 & Hm & Hf). injection Hm as <-. rewrite Ha1, Hset, <- Ha1 in Hf.
    destruct Hat1 as [Hs3 _]. apply bind_some in Hf as ([] & a2 & Hc & Hf).
    eapply wp_mono; [eapply (mref_elim false); [apply mref_counting|exact Hs3|exact Hc]|]. intros ? s4 [_ Hs4].
    eapply (mref_elim false); [|exact Hs4|exact Hf]. repeat mstep.
  - rewrite bool_decide_false by (by intros [? ?]). cbn [negb].
    eapply (mref_elim false); [|exact Hs1|exact Hf]. repeat mstep.
Qed.

(** *** Every container *)
Lemma conts_fit y s a : srepr_at y s a → length (l_c y) ≤ base.size (tcstates s).
Proof.
  intros Hs. rewrite <- size_dom, <- (length_fmap snd (l_c y)).
  rewrite <- (size_list_to_set (C := gset ptr) (l_c y).*2) by apply (sr_cptr _ _ _ Hs).
  apply subseteq_size. intros p Hp. apply elem_of_list_to_set, list_elem_of_fmap in Hp as ([k p'] & -> & Hin).
  destruct (cont_lookup _ _ _ _ _ Hs Hin) as (? & c & _ & _ & _ & _ & Hl). apply elem_of_dom. by eexists.
Qed.
Lemma wp_containers_from {A} y (body : ptr → A → M selector A) (f : Z → M asel unit) (upd : A → A) kord fuel acc s a a' (Q : A → selector → Prop) :
  (∀ k p acc s a x a', (k, p) ∈ l_c y → p ≠ NULL → srepr_at y s a → f k a = Some (x, a') →
     wp (body p acc) (λ acc' s', acc' = upd acc ∧ srepr_at y s' a' ∧ mContainerList s' = mContainerList s) s) →
  (∀ kp, kp ∈ kord → kp ∈ l_c y) → length kord < fuel → srepr_at y s a →
  tb_rep (mContainerList s) (l_c y) kord.*2 → a_each f kord.*1 a = Some (tt, a') →
  (∀ s', srepr_at y s' a' → Q (Nat.iter (length kord) upd acc) s') → wp (containers_from fuel acc body) Q s.
Proof.
  intros Hbody. revert kord acc s a. induction fuel as [|fuel IH]; intros kord acc s a Hin Hf Hs Ht Ha HQ; [lia|].
  cbn [containers_from]. apply wp_bind, wp_zoom. eapply wp_mono; [by eapply tb_getNext_ok|]. intros o t [-> Ht'].
  destruct kord as [|[k p] kord]; cbn [fmap list_fmap head tail fst snd] in *.
  - apply wp_ret. cbn in Ha. injection Ha as <-. apply HQ. destruct Hs. split; try done. by eexists.
  - apply bind_some in Ha as ([] & a1 & Hk & Ha). apply wp_bind.
    assert (Hkp : (k, p) ∈ l_c y) by (apply Hin; left).
    destruct (cont_lookup _ _ _ _ _ Hs Hkp) as (? & ? & _ & _ & _ & Hn & _).
    eapply wp_mono; [eapply Hbody; [done|done| |exact Hk]|].
    { destruct Hs. split; try done. by eexists. }
    intros acc' s1 (-> & Hs1 & Hc1). eapply (IH kord); [|cbn in Hf; lia|exact Hs1|by rewrite Hc1|exact Ha|].
    + intros kp Hkp'. apply Hin. by right.
    + intros s2 Hs2. specialize (HQ s2 Hs2). cbn [length] in HQ. by rewrite Nat.iter_succ_r in HQ.
Qed.
Lemma wp_each_container {A} (body : ptr → A → M selector A) y s a acc (f : Z → M asel unit) (upd : A → A) (Q : A → selector → Prop) :
  srepr_at y s a →
  (∀ k p acc s a x a', (k, p) ∈ l_c y → p ≠ NULL → srepr_at y s a → f k a = Some (x, a') →
     wp (body p acc) (λ acc' s', acc' = upd acc ∧ srepr_at y s' a' ∧ mContainerList s' = mContainerList s) s) →
  (∀ ord, ord ≡ₚ (aconts a).*1 → ∃ a', a_each f ord a = Some (tt, a') ∧
     ∀ s', srepr_at y s' a' → Q (Nat.iter (length ord) upd acc) s') →
  wp (each_container acc body) Q s.
Proof.
  intros Hs Hbody HQ. unfold each_container. destruct (sr_ct _ _ _ Hs) as [rem Hct].
  apply wp_bind, wp_zoom. eapply wp_mono; [by eapply tb_reset_ok|]. intros _ t (ord & Hord & Ht).
  destruct (Permutation_map_inv _ _ Hord) as (kord & -> & Hk).
  destruct (HQ kord.*1) as (a' & Ha & HQ').
  { rewrite <- Hk. apply reflexive_eq. apply (Forall2_keys _ _ _ (sr_conts _ _ _ Hs)). by intros ? ? [? _]. }
  set (s1 := Selector t _ _ _ _ _ _ _ _). assert (Hs1 : srepr_at y s1 a) by (destruct Hs; split; try done; by eexists).
  apply wp_bind, wp_gets. rewrite length_fmap in HQ'.
  eapply (wp_containers_from y body f upd kord); [done| |pose proof (conts_fit _ _ _ Hs1) as Hfit; rewrite Hk in Hfit; lia|exact Hs1|exact Ht|done|done].
  intros kp Hkp. by rewrite Hk.
Qed.
Lemma wp_broadcast y m s a (Q : bool → selector → Prop) : srepr_at y s a →
  (∀ ord, ord ≡ₚ (aconts a).*1 → ∃ r a', a_broadcast ord m a = Some (r, a') ∧ ∀ s', srepr_at y s' a' → Q r s') →
  wp (broadcastMsgToTask m) Q s.
Proof.
  intros Hs HQ. unfold broadcastMsgToTask, a_broadcast in *. case_decide.
  { destruct (HQ _ (Permutation_refl _)) as (r & a' & Hf & HQ'). injection Hf as <- <-. apply wp_ret. by apply HQ'. }
  apply wp_bind. eapply (wp_each_container _ y s a tt (a_clone_to m) id); [done| |].
  - clear s a Hs HQ. intros k p [] s a x a' Hin Hn Hs Hf. rewrite decide_False by done.
    unfold a_clone_to in Hf. apply bind_some in Hf as (n & a1 & H1' & Hf). apply bind_some in Hf as ([] & a2 & H2' & Hf).
    apply wp_bind. eapply wp_mref; [apply mref_mem|done..|]. intros ? s1 -> Hs1 _ Hc1.
    destruct (cont_lookup _ _ _ _ _ Hs1 Hin) as (? & c & _ & _ & Hc & _ & _).
    apply wp_bind. eapply wp_cont_read; [done|done|done|]. cbn [c_tcid].
    apply wp_bind. eapply wp_mref; [apply mref_mem|done..|]. intros ? s2 -> Hs2 _ Hc2.
    eapply wp_mref; [by apply mref_deliver|done..|]. intros [] s3 _ Hs3 _ Hc3. split_and!; [done|done|congruence].
  - intros ord Hord. destruct (HQ ord Hord) as (r & a' & Hf & HQ').
    apply bind_some in Hf as ([] & a1 & Hcl & Hf). exists a1. split; [done|]. intros s1 Hs1.
    eapply wp_mono; [eapply (mref_elim false _ _ _ eq); [|exact Hs1|exact Hf]; repeat mstep|].
    intros ? s2 [-> Hs2]. by apply HQ'.
Qed.

(** *** Events *)
Lemma wp_get_cont {A} y k (K : option ptr → M selector A) Q s a : srepr_at y s a →
  (∀ s', assoc_get k (aconts a) = None → srepr_at y s' a → wp (K None) Q s') →
  (∀ c p s', assoc_get k (aconts a) = Some c → (k, p) ∈ l_c y → p ≠ NULL → srepr_at y s' a → wp (K (Some p)) Q s') →
  wp (on_ct (tb_get k) ≫= K) Q s.
Proof.
  intros Hs HN HS. apply wp_bind. eapply wp_mono; [by eapply mref_get_c|]. intros o s1 (Ho & Hs1 & _).
  destruct o as [p|], (assoc_get k (aconts a)) as [c|] eqn:Hg; try done; [|by apply HN].
  destruct Ho. by eapply HS.
Qed.
Lemma cont_live y s a k p c : srepr_at y s a → (k, p) ∈ l_c y → assoc_get k (aconts a) = Some c → ac_tc c ≠ NULL.
Proof.
  intros Hs Hin Hc. pose proof (assoc_Forall2 _ _ _ k (sr_conts _ _ _ Hs) ltac:(by intros u v [? _])) as Ha.
  rewrite (assoc_get_Some k p _ (conts_keys _ _ _ Hs) Hin), Hc in Ha. by destruct Ha as (_ & _ & _ & _ & _ & _ & ?).
Qed.
Lemma mref_event_done b y found m : mref b y (event_done found m) (a_event_done found m) eq.
Proof. destruct found; unfold event_done, a_event_done; repeat mstep. Qed.
(** A clone whose members are then written is a new message. *)
Lemma clone_event_upd m (g : TEventMsg → TEventMsg) (h : store) n h' :
  (e ← read_event m; new_msg (MEvent (g e))) h = Some (n, h') →
  ∃ h1, clone_event m h = Some (n, h1) ∧ upd_event n g h1 = Some (tt, h').
Proof.
  unfold clone_event, upd_event, read_event, new_msg, write_msg, mbind, M_bind.
  destruct (msgs h !! m) as [[]|]; try done. intros [= <- <-]. eexists. split; [done|]. cbn.
  rewrite lookup_insert_eq. cbn. rewrite lookup_insert_eq. cbn. by rewrite insert_insert_eq.
Qed.
Lemma wp_event_to {A} y c p m f s a x a' (K : M selector A) Q : srepr_at y s a → (c, p) ∈ l_c y → a_event_to m f c a = Some (x, a') →
  (∀ s', srepr_at y s' a' → taskstates s' = taskstates s → mContainerList s' = mContainerList s → wp K Q s') →
  wp (n ← on_mem (clone_event m); on_mem (upd_event n (f c)) ;; deliver p n ;; K) Q s.
Proof.
  intros Hs Hin Hf HK. unfold a_event_to in Hf.
  apply bind_some in Hf as (e & a1 & H1' & Hf). apply bind_some in Hf as (n & a2 & H2' & Hf).
  assert (Hn : on_a_mem (e ← read_event m; new_msg (MEvent (f c e))) a = Some (n, a2)).
  { unfold on_a_mem, zoom, mbind, M_bind in *. destruct (read_event m (a_mem a)) as [[e' h]|]; [|done].
    injection H1' as -> <-. exact H2'. }
  unfold on_a_mem, zoom in Hn. destruct ((e ← read_event m; new_msg (MEvent (f c e))) (a_mem a)) as [[n' h2]|] eqn:Hh; [|done]. injection Hn as -> <-.
  apply clone_event_upd in Hh as (h1 & Hh1 & Hh2).
  apply wp_bind. eapply wp_mref; [apply (mref_mem true)|done| |].
  { unfold on_a_mem, zoom. by rewrite Hh1. }
  intros ? s1 -> Hs1 Ht1 Hc1. apply wp_bind. eapply wp_mref; [apply (mref_mem true)|done| |].
  { unfold on_a_mem, zoom. cbn. by rewrite Hh2. }
  intros ? s2 -> Hs2 Ht2 Hc2. apply wp_bind. eapply wp_mref; [by apply mref_deliver|done|exact Hf|]. intros ? s3 -> Hs3 Ht3 Hc3.
  apply HK; congruence.
Qed.
Lemma blind_event_to m f c : blind (a_event_to m f c).
Proof. unfold a_event_to. repeat (apply blind_bind; [|intros]); auto using blind_mem, blind_cont. Qed.
(** The containers of the task an event is for. *)
Definition event_insts (e : TEventMsg) (l : list Z) : list Z := filter (λ c, e_instID e = 0 ∨ c = e_instID e)%Z l.
Lemma wp_event_loop y i k q ips t cur s a m e f a' (Q : bool → selector → Prop) :
  task_at y i k q ips t cur s a → a_event_clones m f (event_insts e (ai_tcid <$> a_insts t)) a = Some (tt, a') →
  (∀ s', srepr_at y s' a' → Q (bool_decide (event_insts e (ai_tcid <$> a_insts t) ≠ [])) s') →
  wp (each_inst q false (λ i found,
          ist ← on_insts (hread i);
          if decide ((e_instID e = 0 ∨ i_tcid ist = e_instID e)%Z ∧ i_tcs ist ≠ NULL) then
            n ← on_mem (clone_event m); on_mem (upd_event n (f (i_tcid ist))) ;;
            deliver (i_tcs ist) n ;; mret true
          else mret found)) Q s.
Proof.
  intros Hat Hf HQ. pose proof (task_length _ _ _ _ _ _ _ _ _ Hat) as Hlen.
  eapply (wp_each_task _ _ _ _ _ _ _ (λ j found t1 a1, t1 = t ∧ atasks a1 = atasks a ∧
    found = bool_decide (event_insts e (ai_tcid <$> take j (a_insts t)) ≠ []) ∧
    a_event_clones m f (event_insts e (ai_tcid <$> drop j (a_insts t))) a1 = Some (tt, a'))); [done|done| |].
  - clear s Hat. intros j p x found t1 a1 s Hp Hx Hat (-> & Ha1 & -> & Hcl).
    rewrite (drop_S _ _ _ Hx) in Hcl. rewrite (take_snoc _ _ _ Hx), fmap_app. unfold event_insts in *.
    rewrite filter_app. cbn [fmap list_fmap] in *.
    apply wp_bind. eapply wp_inst_read; [exact Hat|done|done|]. intros pc Hpc. cbn [i_tcid i_tcs].
    destruct (cont_lookup _ _ _ _ _ (proj1 Hat) Hpc) as (? & ? & _ & _ & _ & Hn & _).
    destruct (decide (e_instID e = 0 ∨ ai_tcid x = e_instID e)%Z) as [Hc|Hc].
    + rewrite decide_True by done. rewrite filter_cons_True in Hcl by done. apply bind_some in Hcl as ([] & a2 & H2' & Hcl).
      eapply wp_event_to; [apply Hat|done|exact H2'|]. intros s1 Hs1 Hts _. apply wp_ret. split; [|done].
      pose proof (blind_tasks _ _ _ _ (blind_event_to m f (ai_tcid x)) H2') as Ha2.
      eexists t, a2. split; [by eapply task_keep|]. split_and!; [done|congruence| |done].
      rewrite filter_cons_True by done. rewrite bool_decide_true; [done|]. intros ?%app_nil. naive_solver.
    + rewrite decide_False by naive_solver. rewrite filter_cons_False in Hcl by done. apply wp_ret. split; [|done].
      eexists t, a1. split; [done|]. split_and!; [done|done| |done]. by rewrite filter_cons_False, app_nil_r.
  - clear s Hat. intros found t1 a1 s Hat (-> & Ha1 & -> & Hcl). rewrite Hlen in Hcl |- *. rewrite drop_all in Hcl.
    rewrite firstn_all. injection Hcl as ->. apply HQ. apply Hat.
Qed.
(** What the code does whatever the order of the table. *)
Definition dref {A} y (m : M selector A) (f : list Z → M asel A) : Prop := ∀ s a (P : A → asel → Prop),
  srepr_at y s a → (∀ ord, ord ≡ₚ (aconts a).*1 → wp (f ord) P a) → wp m (λ r s', ∃ a', srepr_at y s' a' ∧ P r a') s.
Lemma wp_some_inv {A} (f : M asel A) P a : wp f P a → ∃ r a', f a = Some (r, a') ∧ P r a'.
Proof. apply wp_elim. Qed.
Lemma dref_mref {A} b y (m : M selector A) f : mref b y m f eq → dref y m (λ _, f).
Proof.
  intros Hm s a P Hs Hf. destruct (wp_elim _ _ _ (Hf _ (Permutation_refl _))) as (r & a' & Ha & HP).
  eapply wp_mono; [by eapply mref_elim|]. intros r' s' [-> Hs']. by exists a'.
Qed.
Lemma dref_broadcast y m : dref y (broadcastMsgToTask m) (λ ord, a_broadcast ord m).
Proof.
  intros s a P Hs Hf. eapply wp_broadcast; [done|]. intros ord Hord.
  destruct (wp_elim _ _ _ (Hf ord Hord)) as (r & a' & Ha & HP). exists r, a'. split; [done|]. intros s' Hs'. by exists a'.
Qed.
(** A read of the messages first. *)
Lemma dref_read {A B} y (m : M store A) (k : A → M selector B) (f : list Z → A → M asel B) :
  (∀ x, dref y (k x) (λ ord, f ord x)) → dref y (x ← on_mem m; k x) (λ ord, x ← on_a_mem m; f ord x).
Proof.
  intros Hk s a P Hs Hf. pose proof (Hf _ (Permutation_refl _)) as Hf0.
  destruct (on_a_mem m a) as [[x a1]|] eqn:Hx; [|by unfold wp, mbind, M_bind in Hf0; rewrite Hx in Hf0].
  apply wp_bind. eapply wp_mono; [by eapply (mref_elim false), Hx; [apply mref_mem|]|]. intros x' s1 [-> Hs1].
  apply (Hk x s1 a1); [done|]. intros ord Hord. assert (aconts a1 = aconts a) as Heq.
  { unfold on_a_mem, zoom in Hx. destruct (m (a_mem a)) as [[??]|]; [|done]. by injection Hx as _ <-. }
  rewrite Heq in Hord. specialize (Hf ord Hord). unfold wp, mbind, M_bind in Hf. by rewrite Hx in Hf.
Qed.
Lemma dref_add y wc now clock m : dref y (add wc now clock m) (λ ord, a_add ord wc now clock m).
Proof.
  unfold add, a_add. apply dref_read. intros u. case_decide; [apply dref_broadcast|].
  case_decide; [eapply dref_mref, mref_multicast|eapply dref_mref, mref_send].
Qed.
Lemma iter_found n : Nat.iter n (λ _ : bool, true) false = bool_decide (n ≠ 0).
Proof. by destruct n. Qed.
Lemma wp_event_all y m s a (Q : bool → selector → Prop) : srepr_at y s a →
  (∀ ord, ord ≡ₚ (aconts a).*1 → ∃ a', a_event_clones m (λ _ e, e) ord a = Some (tt, a') ∧
     ∀ s', srepr_at y s' a' → Q (bool_decide (ord ≠ [])) s') →
  wp (each_container false (λ p found, if decide (p = NULL) then mret found else
      n ← on_mem (clone_event m); deliver p n ;; mret true)) Q s.
Proof.
  intros Hs HQ. eapply (wp_each_container _ y s a false (a_event_to m (λ _ e, e)) (λ _, true)); [done| |].
  - clear s a Hs HQ. intros k p acc s a x a' Hin Hn Hs Hf. rewrite decide_False by done.
    assert (Hf' : (n ← on_a_mem (clone_event m); a_deliver k n) a = Some (x, a')).
    { revert Hf. unfold a_event_to, clone_event, on_a_mem, zoom, mbind, M_bind.
      destruct (read_event m (a_mem a)) as [[e h]|] eqn:Hr; [|done]. done. }
    apply bind_some in Hf' as (n & a1 & H1' & Hf').
    apply wp_bind. eapply wp_mref; [apply mref_mem|done..|]. intros ? s1 -> Hs1 _ Hc1.
    apply wp_bind. eapply wp_mref; [by apply mref_deliver|done..|]. intros ? s2 _ Hs2 _ Hc2. apply wp_ret.
    split_and!; [done|done|congruence].
  - intros ord Hord. destruct (HQ ord Hord) as (a' & Hf & HQ'). exists a'. split; [done|]. intros s' Hs'.
    rewrite iter_found. destruct ord; by apply HQ'.
Qed.
Lemma dref_addEvent y m : dref y (addEvent m) (λ ord, a_addEvent ord m).
Proof.
  unfold addEvent, a_addEvent. apply dref_read. intros e. case_decide; [|case_decide].
  - eapply (dref_mref false). apply mref_intro. intros s a r a' Hs Hf.
    apply bind_some in Hf as (c & a1 & Hg & Hf). injection Hg as <- <-.
    eapply wp_get_cont; [done| |].
    + intros s1 Hg Hs1. rewrite Hg in Hf. eapply (mref_elim false); [apply mref_event_done|done|done].
    + intros c p s1 Hg Hin Hn Hs1. rewrite Hg in Hf. rewrite decide_False by done.
      apply wp_bind. eapply wp_cont_read; [done..|]. cbn [c_tc]. rewrite decide_False by (by eapply cont_live).
      eapply (mref_elim false); [|done|done]. repeat mstep.
  - eapply (dref_mref false). apply mref_intro. intros s a r a' Hs Hf.
    apply bind_some in Hf as (t & a1 & Hg & Hf). injection Hg as <- <-.
    destruct (assoc_get (e_taskID e) (atasks a)) as [t|] eqn:Hg.
    + eapply wp_get_task; [done|done|]. intros i q ips cur s1 Hat Hq. rewrite decide_False by done.
      apply bind_some in Hf as ([] & a1 & Hcl & Hf).
      apply wp_bind. eapply (wp_event_loop _ _ _ _ _ _ _ _ _ m e (put_event_addr (e_taskID e))); [done|done|].
      intros s2 Hs2. eapply (mref_elim false); [apply mref_event_done|done|done].
    + apply wp_bind. eapply wp_mono; [by eapply mref_get_t|]. intros o s1 (Ho & Hs1 & _). rewrite Hg in Ho.
      destruct o; [done|]. eapply (mref_elim false); [apply mref_event_done|done|done].
  - intros s a P Hs Hf. apply wp_bind. eapply wp_event_all; [done|]. intros ord Hord.
    destruct (wp_elim _ _ _ (Hf ord Hord)) as (r & a' & Ha & HP).
    apply bind_some in Ha as ([] & a1 & Hcl & Ha). exists a1. split; [done|]. intros s1 Hs1.
    eapply wp_mono; [eapply (mref_elim false); [apply mref_event_done|done|done]|]. intros ? s2 [-> Hs2]. by exists a'.
Qed.

(** *** Registration *)
Definition sref {A} (m : M selector A) (f : list Z → M asel A) : Prop := ∀ s a (P : A → asel → Prop),
  srepr s a → (∀ ord, ord ≡ₚ (aconts a).*1 → wp (f ord) P a) → wp m (λ r s', ∃ a', srepr s' a' ∧ P r a') s.
Lemma sref_dref {A} (m : M selector A) f : (∀ y, dref y m f) → sref m f.
Proof.
  intros Hm s a P [y Hs] Hf. eapply wp_mono; [by eapply Hm|]. intros r s' (a' & Hs' & HP). exists a'. split; [by exists y|done].
Qed.
Lemma sref_det {A} (m : M selector A) (f : M asel A) :
  (∀ y s a r a', srepr_at y s a → f a = Some (r, a') → wp m (λ r' s', r' = r ∧ srepr s' a') s) → sref m (λ _, f).
Proof.
  intros Hm s a P [y Hs] Hf. destruct (wp_elim _ _ _ (Hf _ (Permutation_refl _))) as (r & a' & Ha & HP).
  eapply wp_mono; [by eapply Hm|]. intros r' s' [-> Hs']. by exists a'.
Qed.
Lemma wp_hnew {X} (x : X) (Q : ptr → gmap ptr X → Prop) h :
  (∀ p, p ≠ NULL → h !! p = None → Q p (<[p := x]> h)) → wp (hnew x) Q h.
Proof.
  intros HQ. unfold wp, hnew. pose proof (is_fresh ({[NULL]} ∪ dom h : gset ptr)) as Hf. apply HQ; [set_solver|].
  apply not_elem_of_dom. set_solver.
Qed.
Lemma inst_of_mono lc lc' h h' p i : (∀ kp, kp ∈ lc → kp ∈ lc') → (∀ x, h !! p = Some x → h' !! p = Some x) →
  inst_of lc h p i → inst_of lc' h' p i.
Proof. intros Hlc Hh (Hp & q & Hl & Hq & Hpos). split; [done|]. exists q. eauto. Qed.
Lemma task_of_mono lc lc' ht ht' hi hi' x t : (∀ kp, kp ∈ lc → kp ∈ lc') →
  (∀ v, ht !! x.2.1 = Some v → ht' !! x.2.1 = Some v) → (∀ p v, hi !! p = Some v → hi' !! p = Some v) →
  task_of lc ht hi x t → task_of lc' ht' hi' x t.
Proof.
  intros Hlc Ht Hi (Hk & Hq & (d & cur & Hl & Hd) & Hins & Hpos). split_and!; [done|done| | |done].
  - exists d, cur. auto.
  - eapply Forall2_impl; [exact Hins|]. intros p i. apply inst_of_mono; [done|]. intros v. apply Hi.
Qed.
Lemma step_registerContainer tcid ptc : sref (registerContainer tcid ptc) (λ _, a_registerContainer tcid ptc).
Proof.
  apply sref_det. intros y s a r a' Hs Hf. unfold registerContainer, a_registerContainer in *.
  case_decide as Hc; [injection Hf as <- <-; apply wp_ret; split; [done|by exists y]|].
  apply bind_some in Hf as (c & a1 & Hg & Hf). injection Hg as <- <-.
  apply wp_bind. eapply wp_mono; [by eapply mref_contains_c|]. intros ? s1 (-> & Hs1 & _). clear s Hs.
  destruct (assoc_get tcid (aconts a)) as [c|] eqn:Hg.
  { rewrite bool_decide_true by done. injection Hf as <- <-. apply wp_ret. split; [done|by exists y]. }
  rewrite bool_decide_false by (by intros [? ?]). apply bind_some in Hf as ([] & a2 & Hm & Hf). injection Hm as <-.
  apply bind_some in Hf as ([] & a3 & Hm & Hf). injection Hm as <-. injection Hf as <- <-.
  pose proof (assoc_Forall2 _ _ _ tcid (sr_conts _ _ _ Hs1) ltac:(by intros u v [? _])) as Ha. rewrite Hg in Ha.
  destruct (assoc_get tcid (l_c y)) as [|] eqn:Hgy; [done|].
  assert (Hold : ∀ kp, kp ∈ l_c y → is_Some (tcstates s1 !! kp.2)).
  { intros [k p] Hin. destruct (cont_lookup _ _ _ _ _ Hs1 Hin) as (? & ? & _ & _ & _ & _ & ?). by eexists. }
  destruct Hs1 as [[rem Hct] [remt Htt] Hint Hstr Hcs Hcp Htasks Htp Hip Hm Hn].
  apply wp_bind. apply wp_zoom. apply wp_hnew. intros p Hp Hfresh. apply wp_bind, wp_zoom.
  eapply wp_mono; [by eapply tb_put_ok|]. intros _ t (rem' & Ht). apply wp_bind, wp_modify, wp_ret. split; [done|].
  exists (Layout (l_c y ++ [(tcid, p)]) (l_t y)). split; cbn; try done; [by eexists|by eexists| | | |by rewrite Hn].
  - apply Forall2_app; [|constructor; [|constructor]].
    + eapply Forall2_same_length_lookup. split; [by eapply Forall2_length|]. intros i x x' Hx Hx'.
      destruct (Forall2_lookup_lr _ _ _ _ _ _ Hcs Hx Hx') as (? & ? & Hl & ?). split_and!; [done|done| |done].
      rewrite lookup_insert_ne; [done|]. intros ->. congruence.
    + split_and!; cbn; [done|done|by rewrite lookup_insert_eq|naive_solver].
  - rewrite fmap_app. cbn. apply NoDup_app. split_and!; [done| |apply NoDup_singleton].
    intros q Hq ->%list_elem_of_singleton. apply list_elem_of_fmap in Hq as (kp & -> & Hin).
    apply Hold in Hin as [? Hin]. congruence.
  - eapply Forall2_impl; [exact Htasks|]. intros x x'. apply task_of_mono; [|done|done]. intros kp ?. apply elem_of_app. by left.
Qed.
Lemma Forall2_in_l {X Y} (P : X → Y → Prop) l k x : Forall2 P l k → x ∈ l → ∃ z, P x z.
Proof.
  intros HP [i Hi]%list_elem_of_lookup_1. destruct (Forall2_lookup_l _ _ _ _ _ HP Hi) as (z & _ & Hz). by exists z.
Qed.
Lemma srepr_new_inst y s a i v : srepr_at y s a → inststates s !! i = None →
  srepr_at y (put_ti (taskstates s) (<[i := v]> (inststates s)) s) a.
Proof.
  intros Hs Hi. destruct Hs as [Hct Htt Hint Hstr Hcs Hcp Htasks Htp Hip Hm Hn]. split; cbn; try done.
  eapply Forall2_impl; [exact Htasks|]. intros x x'. apply task_of_mono; [done|done|]. intros p w Hp.
  rewrite lookup_insert_ne; [done|]. intros ->. congruence.
Qed.
Lemma insts_alloc y s a x p : srepr_at y s a → x ∈ l_t y → p ∈ x.2.2 → is_Some (inststates s !! p).
Proof.
  intros Hs Hx Hp. destruct (Forall2_in_l _ _ _ _ (sr_tasks _ _ _ Hs) Hx) as (t & _ & _ & _ & Hins & _).
  destruct (Forall2_in_l _ _ _ _ Hins Hp) as (w & _ & q & Hl & _). by eexists.
Qed.
Lemma concat_fresh y s a i : srepr_at y s a → inststates s !! i = None → i ∉ concat ((λ x, x.2.2) <$> l_t y).
Proof.
  intros Hs Hi Hin. apply list_elem_of_In, in_concat in Hin as (ps & Hps & Hin).
  apply list_elem_of_In, list_elem_of_fmap in Hps as (x & -> & Hx). apply list_elem_of_In in Hin.
  destruct (insts_alloc _ _ _ _ _ Hs Hx Hin). congruence.
Qed.
Lemma push_back_new i : ∃ d : dlist ptr, push_back_r i init = Some (1%Z, d) ∧ crepr d ([i], Some 0).
Proof.
  assert (Hw : wp (push_back_r i) (λ r d, r = 1%Z ∧ crepr d ([i], Some 0)) init) by (eapply (push_back_refines i); [apply init_crepr|done]).
  apply wp_elim in Hw as (r & d & Hd & -> & Hc). by exists d.
Qed.
(** The new instance [i] of container [tcid] is the first of its task. *)
Lemma srepr_first_inst y s a i tcid p q d t rem taskid : srepr_at y s a → (tcid, p) ∈ l_c y → (0 < tcid)%Z → i ≠ NULL →
  inststates s !! i = Some (IState 0 0 false tcid p) → i ∉ concat ((λ x, x.2.2) <$> l_t y) →
  taskstates s !! q = None → q ≠ NULL → crepr d ([i], Some 0) → tb_rep t (l_tab y ++ [(taskid, q)]) rem →
  srepr_at (Layout (l_c y) (l_t y ++ [(taskid, (q, [i]))]))
    (Selector (mContainerList s) t (mIntDialog s) (mStrDialog s) (tcstates s) (inststates s)
       (<[q := TState taskid d 0 0 0]> (taskstates s)) (mem s) (cnt s))
    (set_tasks (atasks a ++ [(taskid, ATask [AInst tcid 0 0] 0 0 0)]) a).
Proof.
  intros Hs Hc Hpos Hi Hl Hfr Hq Hqn Hd Ht. pose proof (λ x, insts_alloc y s a x) as Hall.
  destruct Hs as [Hct Htt Hint Hstr Hcs Hcp Htasks Htp Hip Hm Hn]. split; cbn; try done.
  - exists rem. unfold l_tab. by rewrite fmap_app.
  - apply Forall2_app; [|constructor; [|constructor]].
    + eapply Forall2_same_length_lookup. split; [by eapply Forall2_length|]. intros j x x' Hx Hx'.
      eapply task_of_mono; [done| |done|by eapply Forall2_lookup_lr]. intros v Hv. rewrite lookup_insert_ne; [done|]. intros ->. congruence.
    + split_and!; cbn; [done|done| | |lia].
      * exists d, (Some 0). by rewrite lookup_insert_eq.
      * constructor; [|constructor]. split; [done|]. by exists p.
  - rewrite fmap_app. cbn. apply NoDup_app. split_and!; [done| |apply NoDup_singleton].
    intros q' Hq' ->%list_elem_of_singleton. apply list_elem_of_fmap in Hq' as (x & -> & Hx).
    destruct (Forall2_in_l _ _ _ _ Htasks Hx) as (w & _ & _ & (d' & cur & Hl' & _) & _). congruence.
  - rewrite fmap_app, concat_app. cbn. apply NoDup_app. split_and!; [done| |apply NoDup_singleton].
    by intros j Hj ->%list_elem_of_singleton.
Qed.
(** ... and another one of a task that has some. *)
Lemma srepr_next_inst y s a i tcid p j k q ips t cur cur' d b : task_at y j k q ips t cur s a → (tcid, p) ∈ l_c y → (0 < tcid)%Z →
  i ≠ NULL → inststates s !! i = Some (IState 0 0 false tcid p) → i ∉ concat ((λ x, x.2.2) <$> l_t y) →
  crepr d (ips ++ [i], cur') →
  let t' := ATask (a_insts t ++ [AInst tcid 0 0]) (a_pos t) (a_count t) b in
  srepr_at (Layout (l_c y) (<[j := (k, (q, ips ++ [i]))]> (l_t y)))
    (put_ti (<[q := TState k d (Z.of_nat (a_pos t)) (a_count t) b]> (taskstates s)) (inststates s) s)
    (set_task j k t' a).
Proof.
  intros Hat Hc Hpos Hi Hl Hfr Hd t'. pose proof Hat as (Hs & Hj & Ht & _).
  destruct Hs as [Hct Htt Hint Hstr Hcs Hcp Htasks Htp Hip Hm Hn].
  destruct (Forall2_lookup_lr _ _ _ _ _ _ Htasks Hj Ht) as (_ & Hq & _ & Hins & Hpos'). cbn in Hq, Hins, Hpos'.
  split; cbn; try done.
  - destruct Htt as [rem Htt]. exists rem. unfold l_tab. cbn. rewrite list_fmap_insert. cbn. rewrite list_insert_id; [done|].
    by rewrite list_lookup_fmap, Hj.
  - apply Forall2_same_length_lookup. split; [rewrite !length_insert; by eapply Forall2_length|].
    intros n x x' Hx Hx'. pose proof (lookup_lt_Some _ _ _ Ht). pose proof (lookup_lt_Some _ _ _ Hj). destruct (decide (n = j)) as [->|Hne].
    + rewrite list_lookup_insert_eq in Hx by done. rewrite list_lookup_insert_eq in Hx' by done. simplify_eq. split_and!; cbn; [done|done| | |rewrite length_app; cbn; lia].
      * exists d, cur'. by rewrite lookup_insert_eq.
      * apply Forall2_app; [done|]. constructor; [|constructor]. split; [done|]. by exists p.
    + rewrite list_lookup_insert_ne in Hx by done. rewrite list_lookup_insert_ne in Hx' by done. eapply task_of_mono; [done| |done|by eapply Forall2_lookup_lr].
      intros v Hv. rewrite lookup_insert_ne; [done|]. intros ->. apply Hne. by apply (fmap_unique _ _ _ _ _ _ Htp Hx Hj).
  - rewrite list_fmap_insert. cbn. rewrite list_insert_id; [done|]. by rewrite list_lookup_fmap, Hj.
  - rewrite list_fmap_insert. cbn. rewrite insert_take_drop by (rewrite length_fmap; by eapply lookup_lt_Some).
    rewrite concat_app. cbn [concat].
    rewrite <- (take_drop_middle ((λ x, x.2.2) <$> l_t y) j ips) in Hip, Hfr by (by rewrite list_lookup_fmap, Hj).
    rewrite concat_app in Hip, Hfr. cbn [concat] in Hip, Hfr.
    set (l1 := concat (take j _)) in *. set (l2 := concat (drop (S j) _)) in *.
    assert (Hp : l1 ++ (ips ++ [i]) ++ l2 ≡ₚ i :: (l1 ++ ips ++ l2)) by solve_Permutation.
    rewrite Hp. by constructor.
Qed.
Lemma wp_frame_contains y s a k : srepr_at y s a →
  wp (on_tt (tb_containsKey k)) (λ b s', b = bool_decide (is_Some (assoc_get k (atasks a))) ∧ srepr_at y s' a ∧
    inststates s' = inststates s) s.
Proof.
  intros Hs. pose proof (mref_contains_t y k s a _ _ Hs eq_refl) as Hw. revert Hw. unfold on_tt, zoom, wp.
  destruct (tb_containsKey k (mTaskList s)) as [[b t]|]; [|done]. by intros (-> & Hs' & _).
Qed.
Lemma wp_frame_get y k t s a : srepr_at y s a → assoc_get k (atasks a) = Some t →
  wp (on_tt (tb_get k)) (λ o s', ∃ i q ips cur, o = Some q ∧ q ≠ NULL ∧ task_at y i k q ips t cur s' a ∧
    inststates s' = inststates s) s.
Proof.
  intros Hs Hg. pose proof (mref_get_t y k s a _ _ Hs eq_refl) as Hw. revert Hw. unfold on_tt, zoom, wp.
  destruct (tb_get k (mTaskList s)) as [[o t']|]; [|done]. rewrite Hg. intros (Ho & Hs' & _).
  destruct o as [q|]; [|done]. destruct Ho as (ips & Hin & Hq).
  destruct (task_focus _ _ _ _ _ _ Hs' Hin) as (i & t1 & cur & Hat & Hg1). simplify_eq. by exists i, q, ips, cur.
Qed.
Lemma step_registerTask taskid tcid task : sref (registerTask taskid tcid task) (λ _, a_registerTask taskid tcid task).
Proof.
  apply sref_det. intros y s a r a' Hs Hf. unfold registerTask, a_registerTask in *.
  case_decide as Hc; [injection Hf as <- <-; apply wp_ret; split; [done|by exists y]|].
  apply bind_some in Hf as (c & a1 & Hg & Hf). injection Hg as <- <-.
  eapply wp_get_cont; [done| |].
  { intros s1 Hg Hs1. rewrite Hg in Hf. injection Hf as <- <-. apply wp_ret. split; [done|by exists y]. }
  clear s Hs. intros c p s Hg Hin Hpn Hs. rewrite Hg in Hf. rewrite decide_False by done.
  apply wp_bind. eapply wp_cont_read; [done..|]. cbn [c_tc].
  apply bind_some in Hf as (b & a1 & Hb & Hf). apply wp_bind. eapply wp_mono; [eapply (mref_elim false); [apply mref_mem|done|exact Hb]|].
  clear s Hs. intros ? s [-> Hs]. destruct b; cbn [negb] in *; [|injection Hf as <- <-; apply wp_ret; split; [done|by exists y]].
  apply bind_some in Hf as (t & a2 & Hg2 & Hf). injection Hg2 as <- <-.
  apply wp_bind, wp_zoom, wp_hnew. intros i Hi Hfresh. pose proof (concat_fresh _ _ _ _ Hs Hfresh) as Hfr.
  pose proof (srepr_new_inst _ _ _ _ (IState 0 0 false tcid p) Hs Hfresh) as Hs1.
  apply wp_bind. eapply wp_mono; [eapply wp_frame_contains, Hs1|]. intros ? s1 (-> & Hs2 & Hins1).
  assert (Hl : inststates s1 !! i = Some (IState 0 0 false tcid p)) by (rewrite Hins1; cbn; by rewrite lookup_insert_eq).
  clear s Hs Hs1 Hfresh Hins1. rename s1 into s, Hs2 into Hs.
  destruct (assoc_get taskid (atasks a1)) as [t|] eqn:Hgt.
  - rewrite bool_decide_true by done. cbn [negb].
    apply wp_bind. eapply wp_mono; [by eapply wp_frame_get|]. intros o s1 (j & q & ips & cur & -> & Hq & Hat & Hins1).
    rewrite decide_False by done. rewrite <- Hins1 in Hl. clear s Hs Hins1. rename s1 into s.
    pose proof (task_length _ _ _ _ _ _ _ _ _ Hat) as Hlen. destruct (decide _) as [Hfit|]; [|done].
    apply bind_some in Hf as ([] & a2 & Hm & Hf). injection Hm as <-. injection Hf as <- <-.
    pose proof Hat as (_ & _ & _ & d & Hqs & Hd). apply wp_bind. eapply wp_on_inst; [done|]. cbn [t_inst].
    eapply wp_mono; [eapply (push_back_refines i); [exact Hd|]|].
    { unfold s_push_back. cbn [fst]. by rewrite decide_True by (rewrite Hlen; done). }
    intros n d' [-> Hd']. apply wp_bind, wp_zoom. unfold wp, hupd. cbn. rewrite lookup_insert_eq. cbn. split; [done|].
    eexists. rewrite insert_insert_eq. destruct (task_entry _ _ _ _ _ _ _ _ _ Hat) as [_ Hset]. rewrite Hset, Hlen.
    eapply (srepr_next_inst _ _ _ i tcid p); [exact Hat|exact Hin|lia|exact Hi|exact Hl|exact Hfr|exact Hd'].
  - rewrite bool_decide_false by (by intros [? ?]). cbn [negb].
    apply bind_some in Hf as ([] & a2 & Hm & Hf). injection Hm as <-.
    apply bind_some in Hf as ([] & a2 & Hm & Hf). injection Hm as <-. injection Hf as <- <-.
    destruct (push_back_new i) as (d & Hd & Hdr). apply wp_bind. unfold wp at 1. rewrite Hd. apply wp_bind, wp_zoom, wp_hnew. intros q Hqn Hqf.
    pose proof (assoc_Forall2 _ _ _ taskid (sr_tasks _ _ _ Hs) ltac:(by intros u v [? _])) as Ha. rewrite Hgt in Ha.
    destruct (sr_tt _ _ _ Hs) as [rem Htt]. apply wp_bind, wp_zoom.
    eapply wp_mono; [eapply tb_put_ok; [exact Htt|rewrite tab_get; by destruct (assoc_get taskid (l_t y))]|].
    intros _ t' (rem' & Ht'). apply wp_bind, wp_modify, wp_ret. split; [done|].
    pose proof (srepr_first_inst y s a1 i tcid p q d t' rem' taskid Hs Hin ltac:(lia) Hi Hl Hfr Hqf Hqn Hdr Ht') as Hs'.
    eexists. destruct Hs'. split; try done. cbn. cbn in sr_cnt0. by rewrite sr_cnt0.
Qed.

(** *** Runs *)
Lemma sref_step ev : sref (step ev) (λ ord, a_step ord ev).
Proof.
  destruct ev as [tcid tc|taskid tcid task|t|ct|wc now clock m|m|f]; cbn [step a_step].
  - apply step_registerContainer.
  - apply step_registerTask.
  - apply sref_dref. intros y. eapply (dref_mref false). repeat mstep.
  - apply sref_dref. intros y. eapply (dref_mref false). unfold setRecycleTime.
    eapply (mref_bind _ _ _ (on_a_int (a_setLivingTime ct) ;; on_a_str (a_setLivingTime ct)) eq); [|intros ? ? _; mstep].
    eapply mref_bind; [apply mref_int, setLivingTime_refines|]. intros ? ? _.
    apply mref_str, setLivingTime_refines.
  - apply sref_dref. intros y. apply dref_add.
  - apply sref_dref. intros y. apply dref_addEvent.
  - apply sref_dref. intros y. eapply (dref_mref false). repeat mstep.
Qed.
Lemma sel_run_refines evs P s a : srepr s a → a_run evs P a → wp (run evs) (λ rs s', ∃ a', srepr s' a' ∧ P rs a') s.
Proof.
  revert P s a. induction evs as [|ev evs IH]; intros P s a Hs HP; cbn [run a_run] in *.
  - apply wp_ret. by exists a.
  - apply wp_bind. eapply wp_mono; [eapply sref_step; [exact Hs|exact HP]|]. intros r s1 (a1 & Hs1 & HP1).
    apply wp_bind. eapply wp_mono; [by eapply IH|]. intros rs s2 (a2 & Hs2 & HP2). apply wp_ret. by exists a2.
Qed.
End refinement.
