(* ===== verification/TaskRouting.v ===== *)
(** * What the routing of messages to tasks guarantees

    Theorems about the selector of TaskSelector.v over the hash tables of
    HashTable.v, the lists of CList.v and the buffers of ExpireBuffer.v: a run
    of calls is the run of the specification; the turns are fair; a task stays
    reachable as long as the queue lengths are sane, and can be lost for ever
    when they are not; a remembered session is not followed. *)

From S2P Require Import Prelude Dll CList ExpireBuffer UniMsg HashTable Table TaskSelector SelectorRefinement.

(** ** Calls in a row *)
(** [n] unaddressed messages to a task: the containers that get them. *)
Fixpoint getTasks {CT TT} `{Table ptr CT} `{Table ptr TT} (wc : ptr → option Z) (n : nat) (taskid : Z) : M (@selector CT TT) (list ptr) :=
  match n with O => mret [] | S n => p ← getTask wc taskid 0; ps ← getTasks wc n taskid; mret (p :: ps) end.
Fixpoint a_getTasks (wc : ptr → option Z) (n : nat) (taskid : Z) : M asel (list (option Z)) :=
  match n with O => mret [] | S n => p ← a_getTask wc taskid 0; ps ← a_getTasks wc n taskid; mret (p :: ps) end.

Section calls.
Context {CT TT : Type} `{TableLaws ptr CT} `{TableLaws ptr TT}.
Implicit Types (s : @selector CT TT) (a : asel).
Lemma mref_getTasks y wc n taskid :
  mref (CT:=CT) (TT:=TT) false y (getTasks wc n taskid) (a_getTasks wc n taskid) (Forall2 (found_item y)).
Proof.
  induction n as [|n IH]; cbn [getTasks a_getTasks]; [by apply mref_ret|].
  eapply mref_bind; [apply mref_getTask|]. intros p o Ho. eapply mref_bind; [exact IH|]. intros ps os Hos.
  apply mref_ret. by constructor.
Qed.
(** The container a pointer stands for, once it was found. *)
Lemma item_state y s a p k : srepr_at y s a → (k, p) ∈ l_c y →
  ∃ c, tcstates s !! p = Some c ∧ c_tcid c = k.
Proof. intros Hs Hin. destruct (cont_lookup _ _ _ _ _ Hs Hin) as (? & c & _ & _ & _ & _ & Hl). by eexists. Qed.
Lemma srepr_task y s a taskid t : srepr_at y s a → assoc_get taskid (atasks a) = Some t →
  (∃ i q ips cur, task_at y i taskid q ips t cur s a) ∧ a_pos t < length (a_insts t).
Proof.
  intros Hs Hg. pose proof (assoc_Forall2 _ _ _ taskid (sr_tasks _ _ _ Hs) ltac:(by intros u v [? _])) as Ha. rewrite Hg in Ha.
  destruct (assoc_get taskid (l_t y)) as [[q ips]|] eqn:Hy; [|done].
  destruct (task_focus _ _ _ _ _ _ Hs (assoc_get_elem _ _ _ Hy)) as (i & t' & cur & Hat & Hg'). simplify_eq.
  split; [by exists i, q, ips, cur|apply (task_insts _ _ _ _ _ _ _ _ _ Hat)].
Qed.
End calls.

(** ** Turns *)
Lemma find_pos_Some_le {A} (P : A → bool) l d x : l !! d = Some x → P x = true → ∃ j, find_pos P l = Some j ∧ j ≤ d.
Proof.
  revert d. induction l as [|z l IH]; intros [|d] Hd HP; simplify_eq/=.
  - rewrite HP. exists 0. split; [done|lia].
  - destruct (P z); [exists 0; split; [done|lia]|]. destruct (IH d Hd HP) as (j & -> & Hj). exists (S j). split; [done|lia].
Qed.
(** The turn comes no later than the next eligible instance, and brings it nearer. *)
Lemma turn_nearer l pos d x : pos < length l → d < length l → l !! ((S pos + d) mod length l) = Some x → eligible x = true →
  ∃ j, turn l pos = Some ((S pos + j) mod length l) ∧ j ≤ d.
Proof.
  intros Hpos Hd Hx He. unfold turn.
  destruct (find_pos_Some_le eligible (drop (S pos) l ++ take (S pos) l) d x) as (j & Hj & Hle); [by rewrite turn_lookup|done|].
  exists j. rewrite Hj. done.
Qed.
(** The instances without their counters. *)
Definition core (i : ainst) : Z * Z := (ai_tcid i, ai_weight i).
Lemma core_bump (p : nat) (l : list ainst) : core <$> alter bump p l = core <$> l.
Proof. revert p. induction l as [|x l IH]; intros [|p]; cbn; [done..|]. f_equal. apply IH. Qed.
Lemma core_lookup (l l' : list ainst) j x : core <$> l' = core <$> l → l !! j = Some x → ∃ x', l' !! j = Some x' ∧ core x' = core x.
Proof.
  intros Hc Hx. assert (Hj : (core <$> l') !! j = Some (core x)) by by rewrite Hc, list_lookup_fmap, Hx.
  rewrite list_lookup_fmap in Hj. destruct (l' !! j) as [x'|]; cbn in Hj; [|done].
  apply (inj Some) in Hj. by exists x'.
Qed.
Lemma a_getTask_turn wc taskid a t p x l : (0 < taskid)%Z → assoc_get taskid (atasks a) = Some t →
  2 ≤ length (a_insts t) → turn (a_insts t) (a_pos t) = Some p → a_insts t !! p = Some x → (a_count t + 1 ≤ a_balance t < 2 ^ 32)%Z →
  (0 ≤ a_count t)%Z → l = alter bump p (a_insts t) →
  a_getTask wc taskid 0 a = Some (Some (ai_tcid x), set_tasks (assoc_set taskid (ATask l p (a_count t + 1) (a_balance t)) (atasks a)) a).
Proof.
  intros Hid Hg Hlen Hturn Hx Hb Hc ->. unfold a_getTask, gets, mbind, M_bind. rewrite decide_False by lia.
  rewrite decide_True by lia. rewrite Hg. destruct (a_insts t) as [|x1 [|x2 l]] eqn:Hl; [cbn in Hlen; lia..|].
  rewrite <- Hl in Hturn, Hx |- *. rewrite Hturn.
  assert (Hsp : spent wc t p a = Some (ATask (alter bump p (a_insts t)) p (a_count t + 1) (a_balance t), a)).
  { unfold spent. rewrite u32_small by lia. by rewrite !decide_False by lia. }
  rewrite Hsp. cbn. by rewrite list_lookup_alter_eq, Hx.
Qed.
Lemma assoc_get_set_same {V} (al : list (Z * V)) k v w : assoc_get k al = Some w → assoc_get k (assoc_set k v al) = Some v.
Proof. intros Hk. rewrite assoc_get_set, decide_True by done. by rewrite Hk. Qed.
(** Every index is at some distance after the position. *)
Lemma distance pos j n : pos < n → j < n → ∃ d, d < n ∧ (S pos + d) mod n = j.
Proof.
  intros Hpos Hj. destruct (decide (S pos ≤ j)).
  - exists (j - S pos). split; [lia|]. replace (S pos + (j - S pos)) with j by lia. by apply Nat.mod_small.
  - exists (j + n - S pos). split; [lia|]. replace (S pos + (j + n - S pos)) with (j + 1 * n) by lia.
    by rewrite Nat.Div0.mod_add, Nat.mod_small.
Qed.
(** [n] more calls without a balance check. *)
Record ready (n : nat) (taskid : Z) (a : asel) (t : atask) : Prop := {
  rd_get : assoc_get taskid (atasks a) = Some t;
  rd_len : 2 ≤ length (a_insts t);
  rd_pos : a_pos t < length (a_insts t);
  rd_count : (0 ≤ a_count t)%Z;
  rd_balance : (a_count t + Z.of_nat n ≤ a_balance t < 2 ^ 32)%Z;
}.
Lemma ready_step wc n taskid a t d x : (0 < taskid)%Z → ready (S n) taskid a t → d < length (a_insts t) →
  a_insts t !! ((S (a_pos t) + d) mod length (a_insts t)) = Some x → eligible x = true →
  ∃ o a' t' j, a_getTask wc taskid 0 a = Some (o, a') ∧ ready n taskid a' t' ∧
    core <$> a_insts t' = core <$> a_insts t ∧ j ≤ d ∧ a_pos t' = (S (a_pos t) + j) mod length (a_insts t) ∧
    (j = d → o = Some (ai_tcid x)).
Proof.
  intros Hid [Hg Hlen Hpos Hc Hb] Hd Hx He.
  destruct (turn_nearer _ _ _ _ Hpos Hd Hx He) as (j & Hturn & Hj). set (p := _ mod _) in Hturn.
  assert (Hp : p < length (a_insts t)) by (apply Nat.mod_upper_bound; lia).
  destruct (lookup_lt_is_Some_2 _ _ Hp) as [z Hz].
  rewrite (a_getTask_turn wc taskid a t p z _ Hid Hg Hlen Hturn Hz ltac:(lia) Hc eq_refl).
  eexists _, _, (ATask (alter bump p (a_insts t)) p (a_count t + 1) (a_balance t)), j. split_and!; [done| |apply core_bump|done|done|].
  - split; cbn; [by eapply assoc_get_set_same|by rewrite length_alter|by rewrite length_alter|lia|lia].
  - intros ->. do 2 f_equal. unfold p in Hz. congruence.
Qed.
Lemma eligible_core x x' : core x' = core x → eligible x = true → eligible x' = true ∧ ai_tcid x' = ai_tcid x.
Proof. unfold core, eligible. intros [= -> ->]. done. Qed.
Lemma turns_fair wc n taskid a t d x : (0 < taskid)%Z → ready n taskid a t → d < length (a_insts t) →
  a_insts t !! ((S (a_pos t) + d) mod length (a_insts t)) = Some x → eligible x = true →
  ∃ os a', a_getTasks wc n taskid a = Some (os, a') ∧ (d < n → Some (ai_tcid x) ∈ os).
Proof.
  intros Hid. revert a t d x. induction n as [|n IH]; intros a t d x Hr Hd Hx He.
  { exists [], a. split; [done|lia]. }
  destruct (ready_step wc _ _ _ _ _ _ Hid Hr Hd Hx He) as (o & a1 & t1 & j & Ho & Hr1 & Hc1 & Hj & Hp1 & Heq).
  assert (Hlen : length (a_insts t1) = length (a_insts t)) by by rewrite <- (length_fmap core), Hc1, length_fmap.
  set (n0 := length (a_insts t)) in *.
  assert (∃ d1, d1 < n0 ∧ (S (a_pos t1) + d1) mod n0 = (S (a_pos t) + d) mod n0 ∧ (j ≠ d → d1 < d)) as (d1 & Hd1 & Hm & Hnear).
  { destruct (decide (j = d)) as [->|Hne].
    - destruct (distance (a_pos t1) ((S (a_pos t) + d) mod n0) n0) as (d1 & ? & ?); [rewrite Hp1; apply Nat.mod_upper_bound; lia|apply Nat.mod_upper_bound; lia|].
      exists d1. done.
    - exists (d - j - 1). split_and!; [lia| |lia]. rewrite Hp1.
      replace (S ((S (a_pos t) + j) mod n0) + (d - j - 1)) with ((S (a_pos t) + j) mod n0 + (d - j)) by lia.
      rewrite Nat.Div0.add_mod_idemp_l. f_equal. lia. }
  destruct (core_lookup _ _ _ _ Hc1 Hx) as (x1 & Hx1 & Hcx). destruct (eligible_core _ _ Hcx He) as [He1 Htc].
  destruct (IH a1 t1 d1 x1 Hr1) as (os & a2 & Hos & Hin); [by rewrite Hlen|by rewrite Hlen, Hm|done|].
  exists (o :: os), a2. split; [cbn; unfold mbind, M_bind; by rewrite Ho, Hos|]. intros Hdn.
  destruct (decide (j = d)) as [->|Hne]; [rewrite Heq by done; left|]. right. rewrite <- Htc. apply Hin.
  specialize (Hnear Hne). lia.
Qed.

(** ** Theorems *)
Lemma initial_repr `{CtrlHeaders} mx dst liv t h : srepr (initial mx dst liv t h) (a_initial mx dst liv t h).
Proof.
  exists (Layout [] []). split; cbn; try done; try apply create_xrepr; try constructor; exists []; apply empty_table_rep.
Qed.

(** C6: a run of calls on a fresh selector - registrations, messages, events,
    in any order and with other threads at work on the queues in between - to
    which the routing over plain lists gives a meaning answers what that routing
    answers, whatever order the hash table gives the containers at each
    broadcast; no call reads a pointer that is not there and every loop ends.
    The routing gives no meaning where the code is undefined: registering a task
    id that a container has already (its message is logged with the wrong
    format), a balance check where [waitCount()], which has no return statement,
    yields nothing ([wc] is [None]), a message or an object that is not there.
    Sessions named by a string are one when they agree as C strings. *)
Theorem selector_refinement `{CtrlHeaders} (evs : list event) (mx : Z) (dst : bool) (liv t : Z) (h : store)
    (P : list bool → asel → Prop) :
  a_run evs P (a_initial mx dst liv t h) →
  ∃ rs s a, run evs (initial mx dst liv t h) = Some (rs, s) ∧ srepr s a ∧ P rs a.
Proof.
  intros HP. eapply sel_run_refines in HP; [|apply initial_repr].
  apply wp_elim in HP as (rs & s & Hrun & a & Hs & HP). by exists rs, s, a.
Qed.

(** C17: while no balance check is due, as many unaddressed messages as a task
    has instances reach every instance that is not marked as overloaded. *)
Theorem selector_fair {CT TT} `{TableLaws ptr CT} `{TableLaws ptr TT} (wc : ptr → option Z) (n : nat) (taskid : Z)
    (s : @selector CT TT) (a : asel) (t : atask) (x : ainst) :
  srepr s a → (0 < taskid)%Z → assoc_get taskid (atasks a) = Some t → 2 ≤ length (a_insts t) ≤ n →
  (0 ≤ a_count t)%Z → (a_count t + Z.of_nat n ≤ a_balance t < 2 ^ 32)%Z → x ∈ a_insts t → eligible x = true →
  wp (getTasks wc n taskid) (λ ps s', ∃ p c, p ∈ ps ∧ tcstates s' !! p = Some c ∧ c_tcid c = ai_tcid x) s.
Proof.
  intros [y Hs] Hid Hg Hlen Hc Hb [j Hj]%list_elem_of_lookup_1 He.
  destruct (srepr_task _ _ _ _ _ Hs Hg) as [_ Hpos].
  destruct (distance (a_pos t) j (length (a_insts t))) as (d & Hd & Hm); [done|by eapply lookup_lt_Some|].
  destruct (turns_fair wc n taskid a t d x) as (os & a' & Hos & Hin); [done|split; [done|lia|done|done|lia]|done|by rewrite Hm|done|].
  eapply wp_mono; [eapply mref_elim; [apply mref_getTasks|done|done]|]. intros ps s' [Hps Hs'].
  specialize (Hin ltac:(lia)). apply list_elem_of_lookup_1 in Hin as [i Hi]. destruct (Forall2_lookup_r _ _ _ _ _ Hps Hi) as (p & Hp & Hk & _).
  destruct (item_state _ _ _ _ _ Hs' Hk) as (c & Hc' & Htc). exists p, c. split_and!; [by eapply list_elem_of_lookup_2|done|done].
Qed.

(** ** A selector with two containers *)
Definition demo_headers : CtrlHeaders := {|
  other_optionSet _ _ := session_flag; other_sessionId _ b := match b with x :: _ => x | [] => 0%Z end; other_sessionStr _ _ := None |}.
Definition demo_msg (taskid phyaddr type dialog : Z) : TUniNetMsg :=
  UniNetMsg (Tuple 0 0 0) 0 (Addr 0 0 0) (Addr taskid phyaddr 0) dialog 0 type [] None None None.
Definition demo_event (task inst : Z) : TEventMsg := EventMsg (Tuple 0 0 0) 0 0 0 task inst [].
Definition demo_store : store :=
  Store {[ 10%N := TContainer ∅ []; 11%N := TContainer ∅ [] ]}
    (list_to_map [(20%N, MUni (demo_msg 7 0 1 2)); (21%N, MUni (demo_msg 7 0 1 2)); (22%N, MUni (demo_msg 7 0 4 2));
                  (23%N, MEvent (demo_event 7 0)); (24%N, MUni (demo_msg 8 0 1 2)); (25%N, MUni (demo_msg 9 0 5 2))]) [].
Definition registered : list event :=
  [ERegisterContainer 1 10%N; ERegisterContainer 2 11%N; ERegisterTask 7 1 30%N; ERegisterTask 7 2 31%N].
Definition demo_run : list event :=
  registered ++ [EAdd (λ _, Some 0%Z) 5 (λ _, 5%Z) 20%N; EAdd (λ _, Some 0%Z) 5 (λ _, 5%Z) 21%N; EAdd (λ _, Some 0%Z) 5 (λ _, 5%Z) 24%N;
    EAdd (λ _, Some 0%Z) 5 (λ _, 5%Z) 22%N; EAddEvent 23%N].
(** The queue of a container. *)
Definition queue_of (a : asel) (p : ptr) : option (list ptr) := mTaskRxFifo <$> boxes (a_mem a) !! p.

(** ** A task stays reachable *)
(** Some instance is not marked; [N] bounds the instances. *)
Definition good (N : nat) (t : atask) : Prop :=
  length (a_insts t) ≤ N ∧ ∃ x, x ∈ a_insts t ∧ eligible x = true.
Definition all_good (N : nat) (a : asel) : Prop := Forall (λ kt, good N kt.2) (atasks a).
Definition keeps {A} (N : nat) (f : M asel A) (R : A → Prop) : Prop :=
  ∀ a r a', all_good N a → f a = Some (r, a') → all_good N a' ∧ R r.
(** The queue lengths a call reads are at most [W]. *)
Definition sane_wc (W : Z) (wc : ptr → option Z) : Prop := ∀ p v, wc p = Some v → (0 ≤ v ≤ W)%Z.
Definition at_most (W : Z) (wl : ptr → Z) : Prop := ∀ p, (0 ≤ wl p ≤ W)%Z.
Lemma sane_lengths W wc : sane_wc W wc → (0 ≤ W)%Z → at_most W (lengths wc).
Proof. intros Hwc HW p. unfold lengths. destruct (wc p) as [v|] eqn:Hv; cbn; [by apply (Hwc p)|lia]. Qed.
Definition sane (W : Z) (ev : event) : Prop := match ev with EAdd wc _ _ _ => sane_wc W wc | _ => True end.

Lemma keeps_bind {A B} N (f : M asel A) R (g : A → M asel B) R' :
  keeps N f R → (∀ x, R x → keeps N (g x) R') → keeps N (f ≫= g) R'.
Proof. intros Hf Hg a r a' Ha Hr. apply bind_some in Hr as (x & a1 & H1 & Hr). destruct (Hf _ _ _ Ha H1). by eapply Hg. Qed.
Lemma keeps_ret {A} N (x : A) : keeps N (mret x) (λ _, True).
Proof. by intros a r a' Ha [= <- <-]. Qed.
Lemma keeps_blind {A} N (f : M asel A) : blind f → keeps N f (λ _, True).
Proof. intros Hb a r a' Ha Hf. split; [|done]. unfold all_good. by rewrite (blind_tasks _ _ _ _ Hb Hf). Qed.
Lemma blind_int {A} (m : abuf Z TaskKey → option (A * abuf Z TaskKey)) : blind (on_a_int m).
Proof. intros L a. unfold on_a_int, zoom. cbn. by destruct (m (a_int a)) as [[??]|]. Qed.
Lemma blind_str {A} (m : abuf bytes TaskKey → option (A * abuf bytes TaskKey)) : blind (on_a_str m).
Proof. intros L a. unfold on_a_str, zoom. cbn. by destruct (m (a_str a)) as [[??]|]. Qed.
Lemma blind_counting f : blind (a_counting f).
Proof. done. Qed.
Lemma blind_defined {A} (o : option A) : blind (defined o).
Proof. by destruct o. Qed.
Lemma blind_time : blind (gets (λ a, mCurrentTime (a_cnt a))).
Proof. done. Qed.
Lemma blind_event_clones m f l : blind (a_event_clones m f l).
Proof. induction l as [|c l IH]; [apply blind_ret|]. apply blind_bind; [apply blind_event_to|done]. Qed.
(** A computation made of such parts. *)
Ltac blind1 := first
  [ apply blind_ret | apply blind_mem | apply blind_int | apply blind_str | apply blind_counting | apply blind_defined
  | apply blind_time | apply blind_deliver | apply blind_clones | apply blind_event_clones | apply blind_cont
  | apply blind_bind; [|intros]
  | match goal with |- blind (match ?x with _ => _ end) => destruct x end ].
Ltac blind := repeat blind1.
Lemma blind_follow_session `{CtrlHeaders} now clock m c : blind (a_follow_session now clock m c).
Proof. unfold a_follow_session. cbv zeta. blind. Qed.
Lemma blind_begin_dialog `{CtrlHeaders} now m item taskid containerid : blind (a_begin_dialog now m item taskid containerid).
Proof. unfold a_begin_dialog. cbv zeta. blind. Qed.
Lemma blind_event_done found m : blind (a_event_done found m).
Proof. unfold a_event_done. blind. Qed.

Lemma all_good_get N a taskid t : all_good N a → assoc_get taskid (atasks a) = Some t → good N t.
Proof. intros Ha Hg%assoc_get_elem. unfold all_good in Ha. rewrite Forall_forall in Ha. by apply (Ha (taskid, t)). Qed.
Lemma assoc_set_Forall {V} (P : Z * V → Prop) al k v : Forall P al → P (k, v) → Forall P (assoc_set k v al).
Proof. intros Hal HP. induction Hal as [|[j w] al Hw Hal IH]; cbn; [constructor|]. case_decide as Hj; constructor; first [done|by rewrite <- Hj|exact IH]. Qed.
Lemma good_core N t t' : core <$> a_insts t' = core <$> a_insts t → good N t → good N t'.
Proof.
  intros Hc [Hlen (x & [j Hj]%list_elem_of_lookup_1 & He)]. split; [by rewrite <- (length_fmap core), Hc, length_fmap|].
  destruct (core_lookup _ _ _ _ Hc Hj) as (x' & Hx' & Hcx). exists x'. split; [by eapply list_elem_of_lookup_2|].
  by eapply eligible_core.
Qed.

(** *** The balance check *)
Lemma balance_sum_ok W wl cs : at_most W wl → (W * Z.of_nat (length cs) < 2 ^ 32)%Z →
  balance_sum wl cs = foldr (λ c s, wl (ac_tc c) + s)%Z 0%Z cs ∧ (0 ≤ balance_sum wl cs ≤ W * Z.of_nat (length cs))%Z.
Proof.
  intros Hwl. unfold balance_sum. induction cs as [|c cs IH] using rev_ind; intros Hb; [cbn; lia|].
  rewrite length_app in Hb |- *. cbn [length] in *. pose proof (Hwl (ac_tc c)) as Hc.
  destruct IH as [IH1 IH2]; [nia|]. rewrite foldl_snoc, IH1, foldr_snoc in *. rewrite (u32_small (wl _)) by nia.
  rewrite u32_small by nia. split; [|nia]. clear. generalize (wl (ac_tc c)). intros z. induction cs as [|b cs IH]; cbn; lia.
Qed.
Lemma some_below wl cs k : (foldr (λ c s, wl (ac_tc c) + s)%Z 0%Z cs < Z.of_nat (length cs) * (k + 1))%Z →
  ∃ i c, cs !! i = Some c ∧ (wl (ac_tc c) ≤ k)%Z.
Proof.
  induction cs as [|c cs IH]; cbn [foldr length]; intros Hs; [lia|].
  destruct (decide (wl (ac_tc c) ≤ k)%Z); [by exists 0, c|]. destruct IH as (i & c' & Hi & Hc'); [lia|]. by exists (S i), c'.
Qed.
Lemma weigh_eligible W wl l cs : at_most W wl → l ≠ [] → length cs = length l → (W * Z.of_nat (length l) < 2 ^ 32 - 100)%Z →
  ∃ x, x ∈ zip_with (weigh wl (balance_sum wl cs / Z.of_nat (length l))) l cs ∧ eligible x = true.
Proof.
  intros Hwl Hl Hlen Hb. assert (0 < length l) by (destruct l; [done|cbn; lia]).
  destruct (balance_sum_ok W wl cs Hwl) as [Hsum Hr]; [lia|]. set (avg := (balance_sum wl cs / Z.of_nat (length l))%Z).
  destruct (some_below wl cs avg) as (i & c & Hi & Hc).
  { rewrite <- Hsum, Hlen, Z.add_1_r. apply Z.mul_succ_div_gt. lia. }
  destruct (lookup_lt_is_Some_2 l i) as [x Hx]; [rewrite <- Hlen; by eapply lookup_lt_Some|].
  exists (weigh wl avg x c). split.
  - apply (list_elem_of_lookup_2 _ i). by rewrite lookup_zip_with, Hx; cbn; rewrite Hi.
  - unfold eligible, weigh, overloaded. cbn. apply bool_decide_eq_true. rewrite decide_False; [done|].
    pose proof (Hwl (ac_tc c)). assert (0 ≤ avg)%Z by (apply Z.div_pos; lia).
    assert (avg ≤ W * Z.of_nat (length l))%Z by (unfold avg; apply Z.div_le_upper_bound; nia).
    unfold BalanceCountNumber. rewrite !u32_small by nia. lia.
Qed.

(** *** Every call keeps an instance *)
Lemma keeps_task N k : keeps N (gets (λ a, assoc_get k (atasks a))) (λ o, ∀ t, o = Some t → good N t).
Proof. intros a r a' Ha [= <- <-]. split; [done|]. intros t. by apply all_good_get. Qed.
Lemma keeps_set N k t : good N t → keeps N (modify (λ a, set_tasks (assoc_set k t (atasks a)) a)) (λ _, True).
Proof. intros Ht a r a' Ha [= <- <-]. split; [|done]. by apply assoc_set_Forall. Qed.
Lemma a_balanceCheck_insts wc l a l' a' : a_balanceCheck wc l a = Some (l', a') →
  ∃ cs, Forall2 (λ x c, assoc_get (ai_tcid x) (aconts a) = Some c) l cs ∧
    l' = zip_with (weigh (lengths wc) (balance_sum (lengths wc) cs / Z.of_nat (length l))) l cs ∧ atasks a' = atasks a.
Proof.
  intros Hf. unfold a_balanceCheck, mbind, M_bind in Hf. destruct (mapM _ _) as [cs|] eqn:Hcs; [|done].
  cbn in Hf. destruct (decide (Forall _ cs)); [|done]. cbn in Hf. injection Hf as <- <-. apply mapM_Some in Hcs. by exists cs.
Qed.
Lemma keeps_spent W N wc t p : sane_wc W wc → (W * Z.of_nat N < 2 ^ 32 - 100)%Z → (0 ≤ W)%Z → good N t →
  keeps N (λ a, spent wc t p a) (good N).
Proof.
  intros Hwc HW HW0 Ht a t' a' Ha Hf. unfold spent in Hf. case_decide.
  - destruct (a_balanceCheck _ _ a) as [[l' a1]|] eqn:Hb; [|done]. cbn in Hf. injection Hf as <- <-.
    apply a_balanceCheck_insts in Hb as (cs & Hcs & -> & Hat). apply Forall2_length in Hcs.
    set (l := alter bump p (a_insts t)) in *. assert (Hl : length l = length (a_insts t)) by apply length_alter.
    destruct Ht as [HtN (x0 & Hx0 & _)]. assert (length (a_insts t) ≠ 0) by by destruct (a_insts t); [by apply not_elem_of_nil in Hx0|].
    split; [unfold all_good; by rewrite Hat|]. split; [cbn; rewrite length_zip_with; lia|]. cbn.
    apply (weigh_eligible W); [by apply sane_lengths|by intros Hn; rewrite Hn in Hl|done|nia].
  - cbn in Hf. injection Hf as <- <-. split; [done|]. eapply good_core; [|exact Ht]. cbn. apply core_bump.
Qed.
Lemma keeps_getTask W N wc taskid tcid : sane_wc W wc → (W * Z.of_nat N < 2 ^ 32 - 100)%Z → (0 ≤ W)%Z →
  keeps N (a_getTask wc taskid tcid) (λ _, True).
Proof.
  intros Hwc HW HW0. unfold a_getTask. eapply (keeps_bind _ _ (λ _, True)).
  { intros a r a' Ha [= <- <-]. done. }
  intros [c|] _; [apply keeps_ret|]. eapply (keeps_bind _ _ (λ o, ∀ t, o = Some t → good N t)).
  { case_decide; [apply keeps_task|]. by intros a r a' Ha [= <- <-]. }
  intros [t|] Ht; [|apply keeps_ret]. specialize (Ht t eq_refl). destruct (a_insts t) as [|x1 [|x2 l]] eqn:Hl; [apply keeps_ret..|].
  destruct (turn _ _) as [p|]; [|apply keeps_ret]. eapply keeps_bind; [by eapply keeps_spent|]. intros t' Ht'.
  eapply keeps_bind; [by apply keeps_set|]. intros _ _. apply keeps_ret.
Qed.
Lemma good_mono N N' t : N ≤ N' → good N t → good N' t.
Proof. intros HN [??]. split; [lia|done]. Qed.
Ltac keeps_blind := eapply (keeps_bind _ _ (λ _, True)); [apply keeps_blind; blind|intros ? _].
Ltac calls := repeat first [apply blind_begin_dialog | apply blind_follow_session | apply blind_event_done | progress blind1].
Lemma keeps_send `{CtrlHeaders} W N wc now clock m : sane_wc W wc → (W * Z.of_nat N < 2 ^ 32 - 100)%Z → (0 ≤ W)%Z →
  keeps N (a_send wc now clock m) (λ _, True).
Proof.
  intros Hwc HW HW0. unfold a_send. case_decide; [apply keeps_ret|]. keeps_blind.
  eapply keeps_bind; [apply keeps_task|]. intros [t|] _; [|apply keeps_ret]. keeps_blind.
  eapply (keeps_bind _ _ (λ _, True)).
  { apply keeps_blind. calls. }
  intros ? _. eapply keeps_bind; [by eapply keeps_getTask|]. intros [item|] _; [|apply keeps_ret].
  apply keeps_blind. calls.
Qed.
Lemma keeps_multicast N m : keeps N (a_multicast m) (λ _, True).
Proof.
  unfold a_multicast. case_decide; [apply keeps_ret|]. keeps_blind. eapply keeps_bind; [apply keeps_task|].
  intros [t|] Ht; [|apply keeps_blind; blind]. keeps_blind. eapply keeps_bind; [apply keeps_set|].
  { eapply good_core; [|by apply Ht]. cbn. rewrite <- list_fmap_compose. done. }
  intros _ _. apply keeps_blind. blind.
Qed.
Lemma keeps_registerTask N taskid tcid task a r a' : all_good N a → a_registerTask taskid tcid task a = Some (r, a') → all_good (S N) a'.
Proof.
  intros Ha Hf. assert (Ha' : all_good (S N) a) by (eapply Forall_impl; [exact Ha|]; intros kt; apply good_mono; lia).
  unfold a_registerTask in Hf. case_decide; [by injection Hf as _ <-|].
  apply bind_some in Hf as (c & a1 & Hg & Hf). injection Hg as <- <-. destruct (assoc_get tcid _) as [c|]; [|by injection Hf as _ <-].
  apply bind_some in Hf as (b & a1 & Hb & Hf). pose proof (blind_tasks _ _ _ _ (blind_mem _) Hb) as Ha1.
  destruct b; cbn [negb] in Hf; [|injection Hf as _ <-; unfold all_good; by rewrite Ha1].
  apply bind_some in Hf as (t & a2 & Hg & Hf). injection Hg as <- <-. rewrite Ha1 in Hf.
  destruct (assoc_get taskid (atasks a)) as [t|] eqn:Ht.
  - case_decide; [|done]. injection Hf as _ <-. unfold all_good. cbn. rewrite Ha1. apply assoc_set_Forall; [done|].
    destruct (all_good_get _ _ _ _ Ha Ht) as [Hl (x & Hx & He)]. split; cbn; [rewrite length_app; cbn; lia|].
    exists x. split; [by apply elem_of_app; left|done].
  - injection Hf as _ <-. unfold all_good. cbn. rewrite Ha1. apply Forall_app. split; [done|]. constructor; [|constructor]. split; cbn; [lia|].
    eexists. split; [left|done].
Qed.
Lemma keeps_step `{CtrlHeaders} W N ord ev a r a' : sane W ev → (W * Z.of_nat N < 2 ^ 32 - 100)%Z → (0 ≤ W)%Z →
  all_good N a → a_step ord ev a = Some (r, a') → all_good (S N) a'.
Proof.
  intros Hev HW HW0 Ha Hf.
  assert (Hk : keeps N (a_step ord ev) (λ _, True) → all_good (S N) a').
  { intros Hk. destruct (Hk _ _ _ Ha Hf) as [Ha' _]. eapply Forall_impl; [exact Ha'|]. intros kt. apply good_mono. lia. }
  destruct ev as [tcid tc|taskid tcid task|t|ct|wc now clock m|m|f]; cbn [a_step sane] in *.
  - apply Hk. unfold a_registerContainer. case_decide; [apply keeps_ret|].
    eapply (keeps_bind _ _ (λ _, True)); [by intros ? ? ? ? [= <- <-]|]. intros [c|] _; [apply keeps_ret|].
    eapply (keeps_bind _ _ (λ _, True)); [by intros ? ? ? ? [= <- <-]|]. intros _ _. apply keeps_blind. blind.
  - by eapply keeps_registerTask.
  - apply Hk, keeps_blind. blind.
  - apply Hk, keeps_blind. blind.
  - apply Hk. unfold a_add. keeps_blind. case_decide; [|case_decide; [apply keeps_multicast|by eapply keeps_send]].
    apply keeps_blind. unfold a_broadcast. calls.
  - apply Hk. unfold a_addEvent. keeps_blind. case_decide; [|case_decide].
    + eapply (keeps_bind _ _ (λ _, True)); [by intros ? ? ? ? [= <- <-]|]. intros [c|] _; apply keeps_blind; calls.
    + eapply keeps_bind; [apply keeps_task|]. intros [t|] _; apply keeps_blind; calls.
    + apply keeps_blind; calls.
  - apply Hk, keeps_blind. blind.
Qed.
Lemma keeps_run `{CtrlHeaders} W N evs P a : Forall (sane W) evs → (W * Z.of_nat (N + length evs) < 2 ^ 32 - 100)%Z → (0 ≤ W)%Z →
  all_good N a → a_run evs P a → a_run evs (λ rs a, P rs a ∧ all_good (N + length evs) a) a.
Proof.
  intros Hev. revert N P a. induction Hev as [|ev evs Hev Hevs IH]; intros N P a HW HW0 Ha HP; cbn [a_run length] in *.
  - by rewrite Nat.add_0_r.
  - intros ord Hord. destruct (wp_elim _ _ _ (HP ord Hord)) as (r & a' & Hf & HP'). eapply wp_some; [exact Hf|].
    replace (N + S (length evs)) with (S N + length evs) in HW |- * by lia.
    apply (IH (S N)); [done|done| |done]. eapply keeps_step; [done| |done|done|done]. nia.
Qed.

(** ** Reachability of tasks *)
Lemma good_getTask {CT TT} `{TableLaws ptr CT} `{TableLaws ptr TT} wc N y (s : @selector CT TT) a taskid t :
  (∀ p, is_Some (wc p)) → srepr_at y s a → (0 < taskid)%Z → assoc_get taskid (atasks a) = Some t → good N t →
  ∃ o a', a_getTask wc taskid 0 a = Some (Some o, a').
Proof.
  intros Hwc Hs Hid Hg [_ (x & [j Hj]%list_elem_of_lookup_1 & He)].
  destruct (srepr_task _ _ _ _ _ Hs Hg) as [(i & q & ips & cur & Hat) Hpos].
  unfold a_getTask, gets, mbind, M_bind. rewrite decide_False by lia. rewrite decide_True by lia. rewrite Hg.
  destruct (a_insts t) as [|x1 [|x2 l]] eqn:Hl; [cbn in Hpos; lia|by eexists _, _|]. rewrite <- Hl in *.
  destruct (distance (a_pos t) j (length (a_insts t))) as (d & Hd & Hm); [done|by eapply lookup_lt_Some|].
  destruct (turn_nearer (a_insts t) (a_pos t) d x) as (n & Hturn & _); [done|done|by rewrite Hm|done|]. rewrite Hturn.
  set (p := _ mod _). assert (Hp : p < length (a_insts t)) by (apply Nat.mod_upper_bound; lia).
  assert (∃ t' a', spent wc t p a = Some (t', a') ∧ length (a_insts t') = length (a_insts t)) as (t' & a' & Hsp & Hlen).
  { unfold spent. case_decide; [|eexists _, _; split; [done|cbn; by rewrite length_alter]].
    set (l' := alter bump p (a_insts t)).
    assert (is_Some (mapM (λ i, assoc_get (ai_tcid i) (aconts a)) l')) as [cs Hcs].
    { apply mapM_is_Some_2. apply Forall_lookup. intros m z Hz. cbn. unfold l' in Hz.
      assert (∃ z0, a_insts t !! m = Some z0 ∧ ai_tcid z0 = ai_tcid z) as (z0 & Hz0 & <-).
      { destruct (core_lookup _ (a_insts t) _ _ (eq_sym (core_bump p (a_insts t))) Hz) as (z0 & Hz0 & Hc). injection Hc as ? ?. by exists z0. }
      pose proof (task_insts _ _ _ _ _ _ _ _ _ Hat) as (_ & Hins & _).
      destruct (Forall2_lookup_r _ _ _ _ _ Hins Hz0) as (pz & _ & _ & qz & _ & Hin & _).
      destruct (cont_lookup _ _ _ _ _ Hs Hin) as (? & c & _ & _ & Hc & _). by exists c. }
    unfold a_balanceCheck, mbind, M_bind. rewrite Hcs. cbn. rewrite decide_True by (by apply Forall_true).
    cbn. eexists _, _. split; [done|]. cbn.
    rewrite length_zip_with. apply mapM_Some, Forall2_length in Hcs. unfold l' in *. rewrite length_alter in *. lia. }
  rewrite Hsp. cbn. destruct (lookup_lt_is_Some_2 (a_insts t') p) as [z Hz]; [lia|]. rewrite Hz. by eexists _, _.
Qed.

(** C18: as long as the queue lengths that the balance checks read are sane
    (their sum stays below 2^32-100), no run of calls ever marks all instances of
    a task: a message to a registered task always finds a container.  The
    lengths are what [waitCount()], which has no return statement, leaves for
    its caller; where that is nothing, the check has no meaning. *)
Theorem selector_available `{CtrlHeaders} (evs : list event) (mx : Z) (dst : bool) (liv t : Z) (h : store)
    (P : list bool → asel → Prop) (W : Z) :
  a_run evs P (a_initial mx dst liv t h) → Forall (sane W) evs → (0 ≤ W)%Z → (W * Z.of_nat (length evs) < 2 ^ 32 - 100)%Z →
  ∃ rs s a, run evs (initial mx dst liv t h) = Some (rs, s) ∧ srepr s a ∧ P rs a ∧
    ∀ wc taskid t, (∀ p, is_Some (wc p)) → (0 < taskid)%Z → assoc_get taskid (atasks a) = Some t →
      wp (getTask wc taskid 0) (λ p _, p ≠ NULL) s.
Proof.
  intros HP Hev HW0 HW. apply (keeps_run W 0) in HP; [|done..|constructor].
  eapply sel_run_refines in HP; [|apply initial_repr]. apply wp_elim in HP as (rs & s & Hrun & a & [y Hs] & HP & Hgood).
  exists rs, s, a. split_and!; [done|by exists y|done|]. intros wc taskid t' Hwc Hid Hg.
  destruct (good_getTask wc _ _ _ _ _ _ Hwc Hs Hid Hg (all_good_get _ _ _ _ Hgood Hg)) as (o & a' & Ho).
  eapply wp_mono; [eapply mref_elim; [apply mref_getTask|done|done]|]. intros p s' [[_ Hp] _]. done.
Qed.

(** *** When all instances are marked *)
Lemma turn_none l pos : Forall (λ x, eligible x = false) l → turn l pos = None.
Proof.
  intros Hl. unfold turn. assert (Hr : Forall (λ x, eligible x = false) (drop (S pos) l ++ take (S pos) l)).
  { apply Forall_app. split; [by apply Forall_drop|by apply Forall_take]. }
  induction Hr as [|x r Hx Hr IH]; [done|]. cbn. rewrite Hx. by destruct (find_pos eligible r).
Qed.
(** Once a balance check has marked every instance of a task, which the
    undefined answer of [waitCount()] or a wrapped sum can do, every unaddressed
    message to the task is refused from then on: no later call counts, so no
    further check is ever due. *)
Theorem selector_starves {CT TT} `{TableLaws ptr CT} `{TableLaws ptr TT} (wc : ptr → option Z) (n : nat) (taskid : Z)
    (s : @selector CT TT) (a : asel) (t : atask) :
  srepr s a → (0 < taskid)%Z → assoc_get taskid (atasks a) = Some t → 2 ≤ length (a_insts t) →
  Forall (λ x, eligible x = false) (a_insts t) →
  wp (getTasks wc n taskid) (λ ps s', ps = replicate n NULL ∧ srepr s' a) s.
Proof.
  intros [y Hs] Hid Hg Hlen He.
  assert (Hnone : a_getTask wc taskid 0 a = Some (None, a)).
  { unfold a_getTask, gets, mbind, M_bind. rewrite decide_False by lia. rewrite decide_True by lia. rewrite Hg.
    destruct (a_insts t) as [|x1 [|x2 l]] eqn:Hl; [cbn in Hlen; lia..|]. by rewrite turn_none. }
  assert (Hall : a_getTasks wc n taskid a = Some (replicate n None, a)).
  { clear -Hnone. induction n as [|n IH]; [done|]. cbn. unfold mbind, M_bind. by rewrite Hnone, IH. }
  eapply wp_mono; [eapply mref_elim; [apply mref_getTasks|done|done]|]. intros ps s' [Hps Hs']. split; [|by exists y].
  clear -Hps. revert ps Hps. induction n as [|n IH]; intros ps Hps; inversion Hps as [|p o ps' os Hp Hps']; subst; [done|].
  cbn in Hp |- *. subst p. f_equal. by apply IH.
Qed.

(** ** Sessions *)
(** The choice of the instance looks at the containers and tasks only, and
    leaves the messages alone. *)
Lemma spent_frame wc t p a b t' a' : aconts b = aconts a → spent wc t p a = Some (t', a') →
  a_mem a' = a_mem a ∧ (∀ k, ac_tc <$> assoc_get k (aconts a') = ac_tc <$> assoc_get k (aconts a)) ∧
  ∃ b', spent wc t p b = Some (t', b').
Proof.
  intros Hc Hf. unfold spent in *. case_decide.
  - unfold a_balanceCheck, mbind, M_bind in *. rewrite Hc. destruct (mapM _ _) as [cs|]; [|done].
    cbn in *. destruct (decide (Forall _ cs)); [|done]. cbn in *. injection Hf as <- <-. split_and!; [done| |by eexists]. intros k. cbn. rewrite measured_get.
    destruct (assoc_get k (aconts a)); [|done]. cbn. by case_decide.
  - cbn in *. injection Hf as <- <-. split_and!; [done|done|by eexists].
Qed.
Lemma a_getTask_eq wc taskid a : a_getTask wc taskid 0 a =
  match (if decide (0 < taskid)%Z then assoc_get taskid (atasks a) else None) with
  | None => Some (None, a)
  | Some t =>
      match a_insts t with
      | [] => Some (None, a)
      | [i] => Some (Some (ai_tcid i), a)
      | l => match turn l (a_pos t) with
             | None => Some (None, a)
             | Some p => match spent wc t p a with
                         | Some (t', a') => Some (ai_tcid <$> a_insts t' !! p, set_tasks (assoc_set taskid t' (atasks a')) a')
                         | None => None
                         end
             end
      end
  end.
Proof.
  unfold a_getTask, gets, mbind, M_bind. rewrite decide_False by lia.
  rewrite (decide_ext _ (0 < taskid)%Z) by lia. destruct (if decide _ then _ else _) as [t|]; [|done].
  destruct (a_insts t) as [|x1 [|x2 l]]; [done..|]. destruct (turn _ _) as [p|]; [|done].
  by destruct (spent wc t p a) as [[]|].
Qed.
Lemma getTask_frame wc taskid a b o a' : aconts b = aconts a → atasks b = atasks a →
  a_getTask wc taskid 0 a = Some (o, a') →
  a_mem a' = a_mem a ∧ (∀ k, ac_tc <$> assoc_get k (aconts a') = ac_tc <$> assoc_get k (aconts a)) ∧
  ∃ b', a_getTask wc taskid 0 b = Some (o, b').
Proof.
  intros Hc Ht. rewrite !a_getTask_eq, Ht. intros Hf.
  destruct (if decide _ then _ else _) as [t|]; [|injection Hf as <- <-; split_and!; [done|done|by eexists]].
  destruct (a_insts t) as [|x1 [|x2 l]]; [injection Hf as <- <-; split_and!; [done|done|by eexists]..|].
  destruct (turn _ _) as [p|]; [|injection Hf as <- <-; split_and!; [done|done|by eexists]].
  destruct (spent wc t p a) as [[t' a1]|] eqn:Hsp; [|done].
  destruct (spent_frame _ _ _ _ b _ _ Hc Hsp) as (Hm & Htc & b' & ->). injection Hf as <- <-.
  split_and!; [done|done|by eexists].
Qed.
(** A part of [sendMsgToTask] that leaves containers and tasks alone. *)
Definition routes_kept {A} (f : M asel A) : Prop := ∀ a x a', f a = Some (x, a') → aconts a' = aconts a ∧ atasks a' = atasks a.
Lemma kept_bind {A B} (f : M asel A) (g : A → M asel B) : routes_kept f → (∀ x, routes_kept (g x)) → routes_kept (f ≫= g).
Proof. intros Hf Hg a x a' Hr. apply bind_some in Hr as (z & a1 & H1 & H2). destruct (Hf _ _ _ H1), (Hg _ _ _ _ H2). split; congruence. Qed.
Lemma kept_mem {A} (m : M store A) : routes_kept (on_a_mem m).
Proof. intros a x a'. unfold on_a_mem, zoom. destruct (m (a_mem a)) as [[??]|]; [|done]. by intros [= _ <-]. Qed.
Lemma kept_int {A} (m : abuf Z TaskKey → option (A * abuf Z TaskKey)) : routes_kept (on_a_int m).
Proof. intros a x a'. unfold on_a_int, zoom. destruct (m (a_int a)) as [[??]|]; [|done]. by intros [= _ <-]. Qed.
Lemma kept_str {A} (m : abuf bytes TaskKey → option (A * abuf bytes TaskKey)) : routes_kept (on_a_str m).
Proof. intros a x a'. unfold on_a_str, zoom. destruct (m (a_str a)) as [[??]|]; [|done]. by intros [= _ <-]. Qed.
Lemma kept_ret {A} (x : A) : routes_kept (mret x).
Proof. by intros a z a' [= _ <-]. Qed.
Lemma kept_time : routes_kept (gets (λ a, mCurrentTime (a_cnt a))).
Proof. by intros a x a' [= _ <-]. Qed.
Lemma kept_follow_session `{CtrlHeaders} now clock m c : routes_kept (a_follow_session now clock m c).
Proof.
  unfold a_follow_session. cbv zeta. repeat first [apply kept_mem | apply kept_int | apply kept_str | apply kept_ret | apply kept_time
    | apply kept_bind; [|intros] | match goal with |- routes_kept (match ?x with _ => _ end) => destruct x end].
Qed.
Lemma int_mem {A} (f : abuf Z TaskKey → option (A * abuf Z TaskKey)) a x a' : on_a_int f a = Some (x, a') → a_mem a' = a_mem a.
Proof. unfold on_a_int, zoom. destruct (f (a_int a)) as [[??]|]; [|done]. by intros [= _ <-]. Qed.
Lemma str_mem {A} (f : abuf bytes TaskKey → option (A * abuf bytes TaskKey)) a x a' : on_a_str f a = Some (x, a') → a_mem a' = a_mem a.
Proof. unfold on_a_str, zoom. destruct (f (a_str a)) as [[??]|]; [|done]. by intros [= _ <-]. Qed.
(** Following a session only writes the address fields. *)
Lemma follow_session_writes `{CtrlHeaders} now clock m c k ab u a a' : (0 < getSessionId c)%Z →
  a_find_v (getSessionId c) (a_int a) = Some (Some k, ab) → (0 < k_tcid k)%Z → (0 < k_tiid k)%Z →
  msgs (a_mem a) !! m = Some (MUni u) → a_follow_session now clock m c a = Some (tt, a') →
  a_mem a' = Store (boxes (a_mem a)) (<[m := MUni (put_taskInstID (k_tiid k) (put_phyAddr (k_tcid k) u))]> (msgs (a_mem a))) (mPostFifo (a_mem a)).
Proof.
  intros Hid Hk Hc Hi Hm Hf. unfold a_follow_session in Hf. cbv zeta in Hf.
  apply bind_some in Hf as (t & a1 & Ht & Hf). injection Ht as <- <-. rewrite decide_True in Hf by done.
  apply bind_some in Hf as ([] & a2 & H1 & Hf). apply bind_some in H1 as (k' & a3 & H1 & H2).
  unfold on_a_int, zoom in H1. rewrite Hk in H1. injection H1 as <- <-. rewrite decide_True in H2 by done.
  apply bind_some in H2 as ([] & a3 & H1 & H2).
  unfold on_a_mem, zoom, upd_uni, read_uni, write_msg, mbind, M_bind in H1. cbn in H1. rewrite Hm in H1. rewrite Hm in H1. cbn in H1.
  injection H1 as <-. apply bind_some in H2 as (b & a4 & H1 & H2). injection H2 as <-.
  apply bind_some in Hf as (z & a5 & H3 & Hf). apply bind_some in Hf as (z' & a6 & H4 & Hf). injection Hf as <-.
  by rewrite (str_mem _ _ _ _ H4), (int_mem _ _ _ _ H3), (int_mem _ _ _ _ H1).
Qed.
(** The message goes where [a_getTask] says, with the address of the session. *)
Lemma send_by_turn `{CtrlHeaders} wc now clock a a1 a2 ab m u h k item :
  m ≠ NULL → msgs (a_mem a) !! m = Some (MUni u) →
  phyAddr (tAddr u) = 0%Z → dialogType u ≠ DIALOG_BEGIN → hasCtrlMsgHdr u = true → ctrlMsgHdr u = Some h → hasSessionId h = true →
  (0 < getSessionId h)%Z → a_find_v (getSessionId h) (a_int a) = Some (Some k, ab) → (0 < k_tcid k)%Z → (0 < k_tiid k)%Z →
  a_getTask wc (logAddr (tAddr u)) 0 a = Some (Some item, a1) → a_send wc now clock m a = Some (true, a2) →
  ∃ c b u', assoc_get item (aconts a) = Some c ∧ boxes (a_mem a) !! ac_tc c = Some b ∧
    boxes (a_mem a2) !! ac_tc c = Some (TContainer (mTasks b) (mTaskRxFifo b ++ [m])) ∧
    msgs (a_mem a2) !! m = Some (MUni u') ∧ phyAddr (tAddr u') = k_tcid k.
Proof.
  intros Hm Hu Hphy Hdlg Hhdr Hh Hsid Hid Hk Hkc Hki Hget Hsend.
  unfold a_send in Hsend. rewrite decide_False in Hsend by done.
  apply bind_some in Hsend as (u0 & b1 & H1' & Hsend).
  unfold on_a_mem, zoom, read_uni in H1'. rewrite Hu in H1'. injection H1' as <- <-.
  set (b0 := ASel _ _ _ _ _ _) in Hsend. assert (Hb0 : a_mem b0 = a_mem a ∧ aconts b0 = aconts a ∧ atasks b0 = atasks a ∧ a_int b0 = a_int a) by done.
  clearbody b0. destruct Hb0 as (Hm0 & Hc0 & Ht0 & Hi0).
  apply bind_some in Hsend as (kt & b1 & H1' & Hsend). injection H1' as <- <-. rewrite Ht0 in Hsend.
  destruct (assoc_get _ (atasks a)) as [t|] eqn:Hg; [|done]. rewrite Hphy in Hsend. rewrite !decide_False in Hsend by lia.
  apply bind_some in Hsend as ([] & b1 & H1' & Hsend). injection H1' as <-.
  rewrite decide_True in Hsend by done. rewrite Hhdr, Hh in Hsend. cbn [defined] in Hsend.
  apply bind_some in Hsend as ([] & b1 & H1' & Hsend). apply bind_some in H1' as (h' & b2 & H2' & H1'). injection H2' as <- <-.
  rewrite Hsid in H1'. rewrite <- Hi0 in Hk. rewrite <- Hm0 in Hu.
  pose proof (follow_session_writes _ _ _ _ _ _ _ _ _ Hid Hk Hkc Hki Hu H1') as Hm1.
  destruct (kept_follow_session _ _ _ _ _ _ _ H1') as [Hc1 Ht1]. clear H1'.
  destruct (getTask_frame _ _ a b1 _ _ ltac:(congruence) ltac:(congruence) Hget) as (_ & _ & b2 & Hget1).
  destruct (getTask_frame _ _ b1 b1 _ _ eq_refl eq_refl Hget1) as (Hm2 & Htc2 & _).
  apply bind_some in Hsend as (item' & b2' & H1' & Hsend). rewrite Hget1 in H1'. injection H1' as <- <-.
  apply bind_some in Hsend as (u1 & b3 & H1' & Hsend). unfold on_a_mem at 1, zoom, read_uni in H1'.
  rewrite Hm2, Hm1 in H1'. cbn in H1'. rewrite lookup_insert_eq in H1'. injection H1' as <- <-.
  rewrite decide_False in Hsend by (cbn; by intros [? _]).
  apply bind_some in Hsend as ([] & b3 & H1' & Hsend). injection H1' as <-.
  apply bind_some in Hsend as ([] & b3 & H1' & Hsend). injection Hsend as <-. cbn [a_mem].
  apply bind_some in H1' as (c3 & b4 & H2' & H1'). unfold cont_at in H2'. cbn [aconts] in H2'.
  destruct (assoc_get item (aconts b2)) as [c'|] eqn:Hc3; [|done]. cbn in H2'. injection H2' as <- <-.
  specialize (Htc2 item). rewrite Hc3, Hc1, Hc0 in Htc2. destruct (assoc_get item (aconts a)) as [c|]; [|done].
  cbn in Htc2. injection Htc2 as Htc2. unfold on_a_mem, zoom, tc_add, read_box, write_box, mbind, M_bind in H1'. cbn in H1'.
  rewrite Htc2 in H1'. rewrite Hm0 in H1'. destruct (boxes (a_mem a) !! ac_tc c) as [b|] eqn:Hb; [|done]. cbn in H1'. injection H1' as <-. cbn.
  eexists c, b, _. rewrite !lookup_insert_eq. done.
Qed.

(** A message of a session that was remembered for container [k_tcid k] is
    not sent there: its address is changed to that container, but it is put into
    the queue of the container whose turn it is, like any other message. *)
Theorem session_not_followed {CT TT} `{TableLaws ptr CT} `{TableLaws ptr TT} `{CtrlHeaders}
    (wc : ptr → option Z) (now : Z) (clock : nat → Z) (s : @selector CT TT) (a a1 a2 : asel) (ab : abuf Z TaskKey)
    (m : ptr) (u : TUniNetMsg) (h : TCtrlMsg) (k : TaskKey) (item : Z) :
  srepr s a → m ≠ NULL → msgs (a_mem a) !! m = Some (MUni u) →
  phyAddr (tAddr u) = 0%Z → dialogType u ≠ DIALOG_BEGIN → hasCtrlMsgHdr u = true → ctrlMsgHdr u = Some h → hasSessionId h = true →
  (0 < getSessionId h)%Z → a_find_v (getSessionId h) (a_int a) = Some (Some k, ab) → (0 < k_tcid k)%Z → (0 < k_tiid k)%Z →
  a_getTask wc (logAddr (tAddr u)) 0 a = Some (Some item, a1) → a_send wc now clock m a = Some (true, a2) →
  ∃ s' c b u', sendMsgToTask wc now clock m s = Some (true, s') ∧ srepr s' a2 ∧
    assoc_get item (aconts a) = Some c ∧ boxes (mem s) !! ac_tc c = Some b ∧
    boxes (mem s') !! ac_tc c = Some (TContainer (mTasks b) (mTaskRxFifo b ++ [m])) ∧
    msgs (mem s') !! m = Some (MUni u') ∧ phyAddr (tAddr u') = k_tcid k.
Proof.
  intros [y Hs] Hm Hu Hphy Hdlg Hhdr Hh Hsid Hid Hk Hkc Hki Hget Hsend.
  pose proof (mref_elim _ _ _ _ _ _ _ _ _ (mref_send wc now clock y m) Hs Hsend) as Hw.
  apply wp_elim in Hw as (r & s' & Hrun & -> & Hs').
  destruct (send_by_turn wc now clock a a1 a2 ab m u h k item) as (c & b & u' & Hc & Hb & Hb' & Hu' & Hp); [done..|].
  exists s', c, b, u'. rewrite (sr_mem _ _ _ Hs), (sr_mem _ _ _ Hs'). split_and!; try done. by exists y.
Qed.

(** ** Witnesses *)
(** A step of a run on concrete events, whose outcome does not depend on the order. *)
Lemma a_run_step `{CtrlHeaders} ev evs P a r a' :
  (∀ ord, a_step ord ev a = Some (r, a')) → a_run evs (λ rs, P (r :: rs)) a' → a_run (ev :: evs) P a.
Proof. intros Hstep HP ord _. by eapply wp_some. Qed.
Definition demo_outcome (rs : list bool) (a : asel) : Prop :=
  rs = [true; true; true; true; true; true; false; true; true] ∧
  length <$> queue_of a 10%N = Some 3 ∧ length <$> queue_of a 11%N = Some 3.
Lemma demo_run_ok : a_run (H:=demo_headers) demo_run demo_outcome (a_initial 0 false 0 5 demo_store).
Proof.
  unfold demo_run, registered. cbn [app].
  do 7 (eapply a_run_step; [intros ord; vm_compute; reflexivity|]).
  intros ord Hord. change (ord ≡ₚ [1; 2]%Z) in Hord. apply Permutation_sym, Permutation_length_2_inv in Hord as [-> | ->];
    (eapply wp_some; [vm_compute; reflexivity|]; eapply a_run_step; [intros ord; vm_compute; reflexivity|]; by vm_compute).
Qed.
Lemma selector_refinement_witness : ∃ rs s a,
  run (H1:=demo_headers) demo_run (initial 0 false 0 5 demo_store) = Some (rs, s) ∧ srepr s a ∧ demo_outcome rs a.
Proof. apply (selector_refinement (H:=demo_headers)). exact demo_run_ok. Defined.
(** The selector with task 7 in both containers. *)
Definition demo_state : option (list bool * @selector (htab Z ptr) (htab Z ptr)) :=
  run (H1:=demo_headers) registered (initial 0 false 0 5 demo_store).
Definition demo_spec : asel :=
  ASel [(1%Z, ACont 10%N 0); (2%Z, ACont 11%N 0)] [(7%Z, ATask [AInst 1 0 0; AInst 2 0 0] 0 0 200)]
    (ABuf [] (Some None) no_key 0 false 0) (ABuf [] (Some None) no_key 0 false 0)
    (Store {[ 10%N := TContainer {[7%Z := 30%N]} []; 11%N := TContainer {[7%Z := 31%N]} [] ]} (msgs demo_store) [])
    (Counters 1 2 0 0 0 5).
Lemma demo_state_repr : ∃ s, demo_state = Some ([true; true; true; true], s) ∧ srepr s demo_spec.
Proof.
  pose proof (initial_repr (H:=demo_headers) 0 false 0 5 demo_store) as Hi.
  eapply (sel_run_refines registered (λ rs a, rs = [true; true; true; true] ∧ a = demo_spec)) in Hi.
  - apply wp_elim in Hi as (rs & s & Hr & a & Hs & -> & ->). exists s. split; [exact Hr|exact Hs].
  - unfold registered. do 4 (eapply a_run_step; [intros ord; vm_compute; reflexivity|]). split; [reflexivity|]. vm_compute. reflexivity.
Qed.
Lemma selector_fair_witness : ∃ s, demo_state = Some ([true; true; true; true], s) ∧
  wp (getTasks (λ _, Some 0%Z) 2 7) (λ ps s', ∃ p c, p ∈ ps ∧ tcstates s' !! p = Some c ∧ c_tcid c = 1%Z) s.
Proof.
  destruct demo_state_repr as (s & Hs & Hr). exists s. split; [exact Hs|].
  apply (selector_fair (λ _, Some 0%Z) 2 7 s demo_spec (ATask [AInst 1 0 0; AInst 2 0 0] 0 0 200) (AInst 1 0 0));
    [exact Hr|lia|reflexivity|cbn; lia|cbn; lia|cbn; lia|left|reflexivity].
Defined.

Lemma selector_available_witness : ∃ rs s a,
  run (H1:=demo_headers) demo_run (initial 0 false 0 5 demo_store) = Some (rs, s) ∧ srepr s a ∧ demo_outcome rs a ∧
  ∀ wc taskid t, (∀ p, is_Some (wc p)) → (0 < taskid)%Z → assoc_get taskid (atasks a) = Some t →
    wp (getTask wc taskid 0) (λ p _, p ≠ NULL) s.
Proof.
  apply (selector_available (H:=demo_headers) demo_run 0 false 0 5 demo_store demo_outcome 0); [exact demo_run_ok| |lia|cbn; lia].
  unfold demo_run, registered. cbn [app]. repeat (apply List.Forall_cons; [cbn; first [exact I|intros p v [= <-]; lia]|]). apply List.Forall_nil.
Defined.
(** 201 messages, the last of which reads 2^31+200 in both containers: the sum
    wraps to 400. *)
Definition garbage : ptr → option Z := λ _, Some (2 ^ 31 + 200)%Z.
Definition demo_marked : option asel := snd <$> a_getTasks garbage 201 7 demo_spec.
Lemma demo_marked_repr : ∃ (s s' : @selector (htab Z ptr) (htab Z ptr)) ps a, demo_state = Some ([true; true; true; true], s) ∧
  getTasks garbage 201 7 s = Some (ps, s') ∧ demo_marked = Some a ∧ srepr s' a.
Proof.
  destruct demo_state_repr as (s & Hs & [y Hr]). unfold demo_marked.
  destruct (a_getTasks garbage 201 7 demo_spec) as [[os a]|] eqn:Hos; [|by vm_compute in Hos].
  pose proof (mref_elim _ _ _ _ _ _ _ _ _ (mref_getTasks y garbage 201 7) Hr Hos) as Hw.
  apply wp_elim in Hw as (ps & s' & Hrun & _ & Hs'). exists s, s', ps, a. split_and!; [exact Hs|exact Hrun|reflexivity|by exists y].
Qed.
Lemma marked_task : ∃ a, demo_marked = Some a ∧
  assoc_get 7%Z (atasks a) = Some (ATask [AInst 1 1 100; AInst 2 1 101] 1 0 200).
Proof. eexists. split; vm_compute; reflexivity. Qed.
Lemma selector_starves_witness : ∃ (s s' : @selector (htab Z ptr) (htab Z ptr)) ps a, demo_state = Some ([true; true; true; true], s) ∧
  getTasks garbage 201 7 s = Some (ps, s') ∧
  wp (getTasks (λ _, Some 0%Z) 1000 7) (λ ps s'', ps = replicate 1000 NULL ∧ srepr s'' a) s'.
Proof.
  destruct demo_marked_repr as (s & s' & ps & a & Hs & Hrun & Ha & Hr). destruct marked_task as (a' & Ha' & Ht).
  rewrite Ha in Ha'. injection Ha' as <-. exists s, s', ps, a. split; [exact Hs|]. split; [exact Hrun|].
  apply (selector_starves (λ _, Some 0%Z) 1000 7 s' a _ Hr ltac:(lia) Ht ltac:(cbn; lia)). repeat constructor.
Defined.

(** A dialog is begun in container 2, its next message comes when it is
    container 1's turn. *)
Definition session_msg (dialog : Z) : TUniNetMsg :=
  setCtrlMsgHdr (Some (CtrlOther 0 [55%Z])) (demo_msg 7 0 1 dialog).
Definition session_store : store :=
  Store (boxes demo_store) (list_to_map [(26%N, MUni (session_msg 2)); (27%N, MUni (session_msg 1))]) [].
Definition session_run : list event := registered ++ [EAdd (λ _, Some 0%Z) 5 (λ _, 5%Z) 27%N].
Definition session_outcome (rs : list bool) (a : asel) : Prop :=
  rs = [true; true; true; true; true] ∧ msgs (a_mem a) !! 26%N = Some (MUni (session_msg 2)) ∧
  (∃ ab, a_find_v 55%Z (a_int a) = Some (Some (TKey 2 1), ab)) ∧
  (∃ a1, a_getTask (λ _, Some 0%Z) 7 0 a = Some (Some 1%Z, a1)) ∧
  ∃ a2, a_send (H:=demo_headers) (λ _, Some 0%Z) 5 (λ _, 5%Z) 26%N a = Some (true, a2).
Lemma session_run_ok : a_run (H:=demo_headers) session_run session_outcome (a_initial 0 false 0 5 session_store).
Proof.
  unfold session_run, registered. cbn [app]. do 5 (eapply a_run_step; [intros ord; vm_compute; reflexivity|]).
  split_and!; [reflexivity|vm_compute; reflexivity|eexists; vm_compute; reflexivity..].
Qed.
Lemma session_not_followed_witness : ∃ rs s s' c b u',
  run (H1:=demo_headers) session_run (initial 0 false 0 5 session_store) = Some (rs, s) ∧
  sendMsgToTask (H1:=demo_headers) (λ _, Some 0%Z) 5 (λ _, 5%Z) 26%N s = Some (true, s') ∧
  boxes (mem s') !! c = Some (TContainer (mTasks b) (mTaskRxFifo b ++ [26%N])) ∧
  msgs (mem s') !! 26%N = Some (MUni u') ∧ phyAddr (tAddr u') = 2%Z.
Proof.
  destruct (wp_elim _ _ _ (sel_run_refines _ _ _ _ (initial_repr (H:=demo_headers) 0 false 0 5 session_store) session_run_ok))
    as (rs & s & Hrun & a & Hs & _ & Hm & (ab & Hk) & (a1 & Hget) & (a2 & Hsend)).
  destruct (session_not_followed (H3:=demo_headers) (λ _, Some 0%Z) 5 (λ _, 5%Z) s a a1 a2 ab 26 (session_msg 2) (CtrlOther 0 [55%Z]) (TKey 2 1) 1)
    as (s' & c & b & u' & H1' & _ & _ & _ & Hq & Hu & Hp);
    [exact Hs|discriminate|exact Hm|reflexivity|discriminate|reflexivity|reflexivity|reflexivity|reflexivity|exact Hk|reflexivity|reflexivity|exact Hget|exact Hsend|].
  exists rs, s, s', (ac_tc c), b, u'. split; [exact Hrun|]. split; [exact H1'|]. split; [exact Hq|]. split; [exact Hu|exact Hp].
Defined.
