(* ===== verification/FrameCtrl.v ===== *)
(** * The control thread ([TFRAMEControl], [kernel/framectrl.C])

    One iteration of the kernel's main loop takes a message from the control
    queue and hands it to the task selector, answers the management events, or
    deletes it.  The loop is written against the interface [Routing] of a task
    selector; the selector of TaskSelector.v and its specification are
    instances.  The theorems are about who owns a message: each one is in
    exactly one queue until it is deleted, except that a multicast to an unknown
    task is deleted twice.  Logging and the text of the status answer (an
    argument here) are not modelled; waiting on an empty queue returns. *)

From S2P Require Import Prelude Dll CList ExpireBuffer UniMsg HashTable Table TaskSelector SelectorRefinement TaskRouting.

(** What the control thread asks of the selector, which shares its store of
    messages. *)
Class Routing (S : Type) := {
  r_mem : ∀ {A}, M store A → M S A;
  r_add : (ptr → option Z) → Z → (nat → Z) → ptr → M S bool;
  r_addEvent : ptr → M S bool;
  r_setCurrentTime : Z → M S unit;
}.

Definition TASKSELECTOR_TASKID : Z := 3.
Definition KERNAL_APP_HEATBEAT : Z := 11.
Definition KERNAL_APP_INIT : Z := 12.
Definition KERNAL_APP_STATUES : Z := 14.
Definition KERNAL_APP_RELOAD : Z := 15.
Definition KERNAL_APP_SHUTDOWN : Z := 16.

Record framectl (S : Type) := FrameControl {
  fc_selector : S; mFifo : list ptr; fc_shutdown : bool;
  loopCount : Z; uninetmsgCountS : Z; uninetmsgCountF : Z }.
Arguments FrameControl {S} _ _ _ _ _ _.
Arguments fc_selector {S} _.
Arguments mFifo {S} _.
Arguments fc_shutdown {S} _.
Arguments loopCount {S} _.
Arguments uninetmsgCountS {S} _.
Arguments uninetmsgCountF {S} _.

Section framectl.
Context {S : Type} `{Routing S}.
Local Abbreviation F := (M (framectl S)).

Definition on_sel {A} (m : M S A) : F A :=
  zoom fc_selector (λ s f, FrameControl s (mFifo f) (fc_shutdown f) (loopCount f) (uninetmsgCountS f) (uninetmsgCountF f)) m.
Definition set_fifo (l : list ptr) : F unit :=
  modify (λ f, FrameControl (fc_selector f) l (fc_shutdown f) (loopCount f) (uninetmsgCountS f) (uninetmsgCountF f)).
Definition set_shutdown (b : bool) : F unit :=
  modify (λ f, FrameControl (fc_selector f) (mFifo f) b (loopCount f) (uninetmsgCountS f) (uninetmsgCountF f)).
Definition count_loop : F unit :=
  modify (λ f, FrameControl (fc_selector f) (mFifo f) (fc_shutdown f) (u32 (loopCount f + 1)) (uninetmsgCountS f) (uninetmsgCountF f)).
Definition count_done (ok : bool) : F unit :=
  modify (λ f, FrameControl (fc_selector f) (mFifo f) (fc_shutdown f) (loopCount f)
    (if ok then u32 (uninetmsgCountS f + 1) else uninetmsgCountS f) (if ok then uninetmsgCountF f else u32 (uninetmsgCountF f + 1))).

(** [mFifo->getNext(1000)], [add] *)
Definition getNext_msg : F (option ptr) := λ f,
  match mFifo f with
  | [] => Some (None, f)
  | p :: l => '(_, f) ← set_fifo l f; Some (Some p, f)
  end.
Definition fc_add (p : ptr) : F unit := l ← gets mFifo; set_fifo (l ++ [p]).

(** [new TEventMsg()], its members, and [post]. *)
Definition answer (eventID transid : Z) (info : bytes) : F bool :=
  on_sel (r_mem (n ← new_msg (MEvent (EventMsg (Tuple 0 0 0) eventID transid 1 0 0 info)); post n)) ;; mret true.
Definition onInit (transid : Z) : F bool := set_shutdown false ;; answer KERNAL_APP_INIT transid [].
Definition onHeartBeat (transid : Z) : F bool := answer KERNAL_APP_HEATBEAT transid [].
Definition onReload (transid : Z) : F bool := answer KERNAL_APP_RELOAD transid [].
Definition onShutdown (transid : Z) : F bool := set_shutdown true ;; answer KERNAL_APP_SHUTDOWN transid [].
Definition onStatues (text : bytes) (transid : Z) : F bool := answer KERNAL_APP_STATUES transid text.

(** What [mainLoop] reads from outside: the clock, the answers of [waitCount()]
    - [None] where it has none, as the method has no [return] - and the text of the status. *)
Record outside := Outside { o_wc : ptr → option Z; o_now : Z; o_clock : nat → Z; o_text : bytes }.

Definition kernel_event (o : outside) (e : TEventMsg) : F unit :=
  if decide (e_eventID e = KERNAL_APP_INIT) then onInit (e_transID e) ;; mret tt
  else if decide (e_eventID e = KERNAL_APP_HEATBEAT) then onHeartBeat (e_transID e) ;; mret tt
  else if decide (e_eventID e = KERNAL_APP_RELOAD) then onReload (e_transID e) ;; mret tt
  else if decide (e_eventID e = KERNAL_APP_SHUTDOWN) then onShutdown (e_transID e) ;; mret tt
  else if decide (e_eventID e = KERNAL_APP_STATUES) then onStatues (o_text o) (e_transID e) ;; mret tt
  else mret tt.
(** [instID] is unsigned, [instID>=0] always holds. *)
Definition handle_event (o : outside) (p : ptr) (e : TEventMsg) : F unit :=
  (if decide (e_instID e = 0 ∧ (e_taskID e = FRAMECONTROL_TASKID ∨ e_taskID e = TASKSELECTOR_TASKID ∨ e_taskID e = 0))%Z
   then kernel_event o e else mret tt) ;;
  if decide (TASKSELECTOR_TASKID ≤ e_taskID e ∨ e_taskID e = 0)%Z
  then on_sel (r_addEvent p) ;; mret tt else on_sel (r_mem (delete_msg p)).
Definition handle_uninet (o : outside) (p : ptr) : F unit :=
  down ← gets fc_shutdown;
  b ← (if (down : bool) then mret false else on_sel (r_add (o_wc o) (o_now o) (o_clock o) p));
  count_done b ;; if (b : bool) then mret tt else on_sel (r_mem (delete_msg p)).
Definition mainLoop (o : outside) : F bool :=
  count_loop ;; on_sel (r_setCurrentTime (o_now o)) ;;
  r ← getNext_msg;
  match r with
  | None => mret true
  | Some p =>
      m ← on_sel (r_mem (read_msg p));
      (match m with
       | MUni _ => handle_uninet o p
       | MEvent e => handle_event o p e
       | MOther => on_sel (r_mem (delete_msg p))
       end) ;; mret true
  end.

(** The other threads: one brings a message, a container works one off. *)
Definition arrive (m : tmsg) : F unit := p ← on_sel (r_mem (new_msg m)); fc_add p.
Definition consume_msg (tc : ptr) : M store unit :=
  b ← read_box tc;
  match mTaskRxFifo b with
  | [] => mret tt
  | p :: l => write_box tc (TContainer (mTasks b) l) ;; delete_msg p
  end.
Inductive fevent := FLoop (o : outside) | FArrive (m : tmsg) | FConsume (tc : ptr).
Definition fstep (ev : fevent) : F unit :=
  match ev with
  | FLoop o => mainLoop o ;; mret tt
  | FArrive m => arrive m
  | FConsume tc => on_sel (r_mem (consume_msg tc))
  end.
Fixpoint frun (evs : list fevent) : F unit :=
  match evs with [] => mret tt | ev :: evs => fstep ev ;; frun evs end.
End framectl.

(** ** The two selectors *)
#[export] Instance selector_routing `{Table ptr CT} `{Table ptr TT} `{CtrlHeaders} : Routing (@selector CT TT) := {
  r_mem _ := on_mem; r_add := add; r_addEvent := addEvent; r_setCurrentTime := setCurrentTime }.
(** The specification, with the order of the table. *)
Definition spec_setCurrentTime (t : Z) : M asel unit :=
  a_counting (λ c, Counters (registeredTaskAmount c) (registeredInstAmount c)
    (sendMsgToTaskCount c) (multicastMsgCount c) (broadcastMsgCount c) t).
Definition spec_routing `{CtrlHeaders} (ord : list Z) : Routing asel := {|
  r_mem _ := on_a_mem; r_add := a_add ord; r_addEvent := a_addEvent ord; r_setCurrentTime := spec_setCurrentTime |}.
Definition a_fstep `{CtrlHeaders} (ord : list Z) (ev : fevent) : M (framectl asel) unit := fstep (H:=spec_routing ord) ev.
Fixpoint a_frun `{CtrlHeaders} (evs : list fevent) (P : framectl asel → Prop) (f : framectl asel) : Prop :=
  match evs with
  | [] => P f
  | ev :: evs => ∀ ord, ord ≡ₚ (aconts (fc_selector f)).*1 → wp (a_fstep ord ev) (λ _, a_frun evs P) f
  end.

(** ** Refinement *)
Section refinement.
Context {CT TT : Type} `{TableLaws ptr CT} `{TableLaws ptr TT} `{CtrlHeaders}.
Implicit Types (f : framectl (@selector CT TT)) (fa : framectl asel).

Definition frepr f fa : Prop :=
  srepr (fc_selector f) (fc_selector fa) ∧ mFifo f = mFifo fa ∧ fc_shutdown f = fc_shutdown fa ∧
  loopCount f = loopCount fa ∧ uninetmsgCountS f = uninetmsgCountS fa ∧ uninetmsgCountF f = uninetmsgCountF fa.
Definition keys_of fa : list Z := (aconts (fc_selector fa)).*1.
Definition fref {A} (m : M (framectl (@selector CT TT)) A) (g : list Z → M (framectl asel) A) : Prop :=
  ∀ f fa (P : A → framectl asel → Prop), frepr f fa → (∀ ord, ord ≡ₚ keys_of fa → wp (g ord) P fa) →
  wp m (λ r f', ∃ fa', frepr f' fa' ∧ P r fa') f.
Definition keeps_keys {A} (g : M (framectl asel) A) : Prop := ∀ fa x fa', g fa = Some (x, fa') → keys_of fa' = keys_of fa.

Lemma fref_bind {A B} (m : M _ A) g (k : A → M _ B) h :
  fref m g → (∀ x, fref (k x) (λ _, h x)) → fref (m ≫= k) (λ ord, g ord ≫= h).
Proof.
  intros Hm Hk f fa P Hf Hg. apply wp_bind. eapply wp_mono; [apply (Hm f fa (λ x fa', wp (h x) P fa')); [done|]|].
  { intros ord Hord. specialize (Hg ord Hord). unfold wp, mbind, M_bind in *. by destruct (g ord fa) as [[??]|]. }
  intros x f' (fa' & Hf' & HP). by eapply Hk.
Qed.
Lemma fref_seq {A B} (m : M _ A) g (k : A → M _ B) h :
  fref m (λ _, g) → keeps_keys g → (∀ x, fref (k x) (λ ord, h ord x)) → fref (m ≫= k) (λ ord, g ≫= h ord).
Proof.
  intros Hm Hkeys Hk f fa P Hf Hg. pose proof (Hg _ (Permutation_refl _)) as Hg0.
  destruct (g fa) as [[x fa1]|] eqn:Hx; [|by unfold wp, mbind, M_bind in Hg0; rewrite Hx in Hg0].
  apply wp_bind. eapply wp_mono; [apply (Hm f fa (λ x' fa', x' = x ∧ fa' = fa1)); [done|]|].
  { intros ord _. eapply wp_some; [exact Hx|done]. }
  intros ? f1 (fa' & Hf1 & -> & ->). apply (Hk x f1 fa1); [done|]. intros ord Hord. rewrite (Hkeys _ _ _ Hx) in Hord.
  specialize (Hg ord Hord). unfold wp, mbind, M_bind in Hg. by rewrite Hx in Hg.
Qed.
Lemma fref_det {A} (m : M _ A) g : (∀ f fa r fa', frepr f fa → g fa = Some (r, fa') → wp m (λ r' f', r' = r ∧ frepr f' fa') f) → fref m (λ _, g).
Proof.
  intros Hm f fa P Hf Hg. destruct (wp_elim _ _ _ (Hg _ (Permutation_refl _))) as (r & fa' & Ha & HP).
  eapply wp_mono; [by eapply Hm|]. intros ? f' [-> Hf']. by exists fa'.
Qed.
Lemma fref_ret {A} (x : A) : fref (mret x) (λ _, mret x).
Proof. apply fref_det. intros f fa r fa' Hf [= <- <-]. by apply wp_ret. Qed.
Lemma fref_sel {A} (m : M _ A) g : sref m g → fref (on_sel m) (λ ord, on_sel (g ord)).
Proof.
  intros Hm f fa P (Hs & Hrest) Hg. apply wp_zoom.
  eapply wp_mono; [apply (Hm _ (fc_selector fa) (λ r a', P r (FrameControl a' (mFifo fa) (fc_shutdown fa) (loopCount fa) (uninetmsgCountS fa) (uninetmsgCountF fa)))); [done|]|].
  { intros ord Hord. specialize (Hg ord Hord). unfold wp, on_sel, zoom in *. by destruct (g ord (fc_selector fa)) as [[??]|]. }
  intros r s' (a' & Hs' & HP). eexists. split; [|exact HP]. split; [exact Hs'|exact Hrest].
Qed.
Lemma fref_mem {A} (m : M store A) : fref (on_sel (on_mem m)) (λ _, on_sel (on_a_mem m)).
Proof. apply (fref_sel _ (λ _, on_a_mem m)). apply sref_dref. intros y. eapply (dref_mref false), mref_mem. Qed.
Lemma keys_bind {A B} (g : M (framectl asel) A) (h : A → M _ B) : keeps_keys g → (∀ x, keeps_keys (h x)) → keeps_keys (g ≫= h).
Proof.
  intros Hg Hh fa x fa' Hf. unfold mbind, M_bind in Hf. destruct (g fa) as [[z fa1]|] eqn:Hz; [|done].
  by rewrite (Hh _ _ _ _ Hf), (Hg _ _ _ Hz).
Qed.
Lemma keys_mem {A} (m : M store A) : keeps_keys (on_sel (on_a_mem m)).
Proof.
  intros fa x fa'. unfold on_sel, on_a_mem, zoom. destruct (m _) as [[??]|]; [|done]. by intros [= _ <-].
Qed.
Lemma keys_ret {A} (x : A) : keeps_keys (mret x).
Proof. by intros fa z fa' [= _ <-]. Qed.
(** The members of the control thread itself. *)
Ltac field := apply fref_det; intros f fa r fa' (Hs & Hq & Hd & Hl & Hcs & Hcf) [= <- <-]; apply wp_modify; unfold frepr;
  cbn [fc_selector mFifo fc_shutdown loopCount uninetmsgCountS uninetmsgCountF];
  rewrite ?Hq, ?Hd, ?Hl, ?Hcs, ?Hcf; split_and!; first [exact Hs|reflexivity].
Lemma fref_set_fifo l : fref (set_fifo l) (λ _, set_fifo l).
Proof. field. Qed.
Lemma fref_set_shutdown b : fref (set_shutdown b) (λ _, set_shutdown b).
Proof. field. Qed.
Lemma fref_count_loop : fref count_loop (λ _, count_loop).
Proof. field. Qed.
Lemma fref_count_done b : fref (count_done b) (λ _, count_done b).
Proof. field. Qed.
Lemma fref_gets {A} (g : ∀ S, framectl S → A) : (∀ f fa, frepr f fa → g _ f = g _ fa) → fref (gets (g _)) (λ _, gets (g _)).
Proof. intros Hg. apply fref_det. intros f fa r fa' Hf [= <- <-]. apply wp_gets. split; [by apply Hg|done]. Qed.
Lemma fref_down : fref (gets fc_shutdown) (λ _, gets fc_shutdown).
Proof. apply (fref_gets (λ S, @fc_shutdown S)). by intros f fa (_ & _ & -> & _). Qed.
Lemma fref_getNext : fref getNext_msg (λ _, getNext_msg).
Proof.
  apply fref_det. intros f fa r fa' (Hs & Hq & Hrest) Hf. unfold wp, getNext_msg in *. rewrite Hq.
  destruct (mFifo fa) eqn:Hfa; injection Hf as <- <-; (split; [done|]; split; [exact Hs|]; split; [cbn; congruence|exact Hrest]).
Qed.
Lemma fref_fc_add p : fref (fc_add p) (λ _, fc_add p).
Proof.
  unfold fc_add. apply fref_bind; [apply (fref_gets (λ S, @mFifo S)); by intros f fa (_ & -> & _)|]. intros l. apply fref_set_fifo.
Qed.
(** The management events. *)
Definition no_order : Routing asel := spec_routing [].
Lemma fref_answer id tr info : fref (answer id tr info) (λ _, answer (H:=no_order) id tr info).
Proof. unfold answer. apply fref_bind; [apply fref_mem|intros; apply fref_ret]. Qed.
Lemma fref_kernel_event o e : fref (kernel_event o e) (λ _, kernel_event (H:=no_order) o e).
Proof.
  unfold kernel_event, onInit, onHeartBeat, onReload, onShutdown, onStatues.
  repeat (case_decide; [apply fref_bind; [|intros; apply fref_ret];
    first [apply fref_answer | apply fref_bind; [apply fref_set_shutdown|intros; apply fref_answer]]|]). apply fref_ret.
Qed.
Lemma keys_answer id tr info : keeps_keys (answer (H:=no_order) id tr info).
Proof. apply keys_bind; [apply keys_mem|intros; apply keys_ret]. Qed.
Lemma keys_kernel_event o e : keeps_keys (kernel_event (H:=no_order) o e).
Proof.
  unfold kernel_event, onInit, onHeartBeat, onReload, onShutdown, onStatues.
  repeat (case_decide; [apply keys_bind; [|intros; apply keys_ret];
    first [apply keys_answer | apply keys_bind; [by intros fa x fa' [= _ <-]|intros; apply keys_answer]]|]). apply keys_ret.
Qed.
Lemma fref_handle_event o p e : fref (handle_event o p e) (λ ord, handle_event (H:=spec_routing ord) o p e).
Proof.
  unfold handle_event.
  apply (fref_seq _ (if decide (e_instID e = 0 ∧ (e_taskID e = FRAMECONTROL_TASKID ∨ e_taskID e = TASKSELECTOR_TASKID ∨ e_taskID e = 0))%Z
    then kernel_event (H:=no_order) o e else mret tt) _ (λ ord _, if decide (TASKSELECTOR_TASKID ≤ e_taskID e ∨ e_taskID e = 0)%Z
    then on_sel (a_addEvent ord p) ;; mret tt else on_sel (on_a_mem (delete_msg p)))).
  - case_decide; [apply fref_kernel_event|apply fref_ret].
  - case_decide; [apply keys_kernel_event|apply keys_ret].
  - intros _. case_decide; [|apply fref_mem]. apply (fref_bind _ (λ ord, on_sel (a_addEvent ord p))); [|intros; apply fref_ret].
    apply fref_sel, sref_dref. intros y. apply dref_addEvent.
Qed.
Lemma fref_handle_uninet o p : fref (handle_uninet o p) (λ ord, handle_uninet (H:=spec_routing ord) o p).
Proof.
  unfold handle_uninet. apply (fref_seq _ (gets fc_shutdown) _ (λ ord down,
    b ← (if (down : bool) then mret false else on_sel (a_add ord (o_wc o) (o_now o) (o_clock o) p));
    count_done b ;; if (b : bool) then mret tt else on_sel (on_a_mem (delete_msg p)))).
  - apply fref_down.
  - by intros fa x fa' [= _ <-].
  - intros down. apply (fref_bind _ (λ ord, if (down : bool) then mret false else on_sel (a_add ord (o_wc o) (o_now o) (o_clock o) p))
      _ (λ b, count_done b ;; if (b : bool) then mret tt else on_sel (on_a_mem (delete_msg p)))).
    + destruct down; [apply fref_ret|]. apply fref_sel, sref_dref. intros y. apply dref_add.
    + intros b. apply fref_bind; [apply fref_count_done|]. intros _. destruct b; [apply fref_ret|apply fref_mem].
Qed.
Lemma fref_mainLoop o : fref (mainLoop o) (λ ord, mainLoop (H:=spec_routing ord) o).
Proof.
  unfold mainLoop. apply (fref_seq _ count_loop _ (λ ord _, on_sel (spec_setCurrentTime (o_now o)) ;; _)); [apply fref_count_loop|by intros fa x fa' [= _ <-]|].
  intros _. apply (fref_seq _ (on_sel (spec_setCurrentTime (o_now o))) _ (λ ord _, getNext_msg ≫= _)).
  { apply (fref_sel _ (λ _, spec_setCurrentTime (o_now o))), sref_dref. intros y. eapply (dref_mref false), mref_counting. }
  { by intros fa x fa' [= _ <-]. }
  intros _. apply (fref_seq _ getNext_msg _ (λ ord r, match r with None => mret true | Some p => on_sel (on_a_mem (read_msg p)) ≫= _ end)).
  { apply fref_getNext. }
  { intros fa x fa'. unfold getNext_msg. destruct (mFifo fa); by intros [= _ <-]. }
  intros [p|]; [|apply fref_ret]. apply (fref_seq _ (on_sel (on_a_mem (read_msg p))) _ (λ ord m, _ ≫= λ _, mret true)); [apply fref_mem|apply keys_mem|].
  intros m. apply (fref_bind _ (λ ord, match m with
    | MUni _ => handle_uninet (H:=spec_routing ord) o p | MEvent e => handle_event (H:=spec_routing ord) o p e
    | MOther => on_sel (on_a_mem (delete_msg p)) end) _ (λ _, mret true)); [|intros; apply fref_ret].
  destruct m; [apply fref_handle_uninet|apply fref_handle_event|apply fref_mem].
Qed.
Lemma fref_fstep ev : fref (fstep ev) (λ ord, a_fstep ord ev).
Proof.
  destruct ev as [o|m|tc]; unfold a_fstep; cbn [fstep].
  - apply (fref_bind _ (λ ord, mainLoop (H:=spec_routing ord) o) _ (λ _, mret tt)); [apply fref_mainLoop|intros; apply fref_ret].
  - unfold arrive. apply (fref_bind _ (λ _, on_sel (on_a_mem (new_msg m))) _ fc_add); [apply fref_mem|apply fref_fc_add].
  - apply fref_mem.
Qed.
Lemma frun_refines evs P f fa : frepr f fa → a_frun evs P fa → wp (frun evs) (λ _ f', ∃ fa', frepr f' fa' ∧ P fa') f.
Proof.
  revert f fa. induction evs as [|ev evs IH]; intros f fa Hf HP; cbn [frun a_frun] in *; [apply wp_ret; by exists fa|].
  apply wp_bind. eapply wp_mono; [apply (fref_fstep ev f fa _ Hf HP)|]. intros [] f' (fa' & Hf' & HP'). by eapply IH.
Qed.
End refinement.

(** ** Who owns a message *)
(** The messages in the containers' queues and in the queue to the outside. *)
Definition queues (bx : gmap ptr TTaskContainer) : list ptr := concat (mTaskRxFifo <$> (map_to_list bx).*2).
Definition all_queues (h : store) : list ptr := mPostFifo h ++ queues (boxes h).
(** Every message that exists is exactly once in a queue or in [held]. *)
Definition owned (held : list ptr) (h : store) : Prop :=
  held ++ all_queues h ≡ₚ (map_to_list (msgs h)).*1 ∧ msgs h !! NULL = None.

Lemma keys_insert {V} (m : gmap ptr V) k v w : m !! k = Some v → (map_to_list (<[k := w]> m)).*1 ≡ₚ (map_to_list m).*1.
Proof.
  intros Hk. rewrite <- (map_to_list_delete m k v Hk). rewrite <- insert_delete_eq, map_to_list_insert by apply lookup_delete_eq. done.
Qed.
Lemma queues_insert bx tc b b' : bx !! tc = Some b →
  queues (<[tc := b']> bx) ++ mTaskRxFifo b ≡ₚ queues bx ++ mTaskRxFifo b'.
Proof.
  intros Hb. unfold queues. rewrite <- (map_to_list_delete bx tc b Hb).
  rewrite <- insert_delete_eq, map_to_list_insert by apply lookup_delete_eq. cbn. solve_Permutation.
Qed.
Definition owns {A} (pre : list ptr) (m : M store A) (post : A → list ptr) : Prop :=
  ∀ h x h', owned pre h → m h = Some (x, h') → owned (post x) h'.
Lemma owns_bind {A B} pre (m : M store A) mid (k : A → M store B) post :
  owns pre m mid → (∀ x, owns (mid x) (k x) post) → owns pre (m ≫= k) post.
Proof.
  intros Hm Hk h x h' Ho Hf. unfold mbind, M_bind in Hf. destruct (m h) as [[z h1]|] eqn:Hz; [|done]. by eapply Hk; [eapply Hm|].
Qed.
Lemma owns_ret {A} pre (x : A) : owns pre (mret x) (λ _, pre).
Proof. by intros h z h' Ho [= _ <-]. Qed.
Lemma owns_read_uni pre p : owns pre (read_uni p) (λ _, pre).
Proof. intros h x h' Ho. unfold read_uni. repeat case_match; by intros [= _ <-]. Qed.
Lemma owns_read_event pre p : owns pre (read_event p) (λ _, pre).
Proof. intros h x h' Ho. unfold read_event. repeat case_match; by intros [= _ <-]. Qed.
Lemma owns_read_msg pre p : owns pre (read_msg p) (λ _, pre).
Proof. intros h x h' Ho. unfold read_msg. destruct (msgs h !! p); by intros [= _ <-]. Qed.
Lemma owns_write pre p m : owns pre (write_msg p m) (λ _, pre).
Proof.
  intros h x h' [Ho Hn]. unfold write_msg. destruct (msgs h !! p) as [m0|] eqn:Hp; [|done]. intros [= _ <-]. split; cbn.
  - unfold all_queues in *. cbn. by rewrite (keys_insert _ _ _ _ Hp).
  - rewrite lookup_insert_ne; [done|]. intros ->. congruence.
Qed.
Lemma owns_upd_uni pre p g : owns pre (upd_uni p g) (λ _, pre).
Proof. eapply owns_bind; [apply owns_read_uni|]. intros. apply owns_write. Qed.
Lemma owns_new pre m : owns pre (new_msg m) (λ p, p :: pre).
Proof.
  intros h p h' [Ho Hn] [= <- <-]. set (p := fresh _). pose proof (is_fresh ({[NULL]} ∪ dom (msgs h) : gset ptr)) as Hf. fold p in Hf.
  assert (Hp : msgs h !! p = None) by (apply not_elem_of_dom; set_solver). split; cbn.
  - rewrite map_to_list_insert by done. cbn. unfold all_queues in *. cbn. by rewrite Ho.
  - rewrite lookup_insert_ne; [done|set_solver].
Qed.
Lemma owns_delete pre p : owns (p :: pre) (delete_msg p) (λ _, pre).
Proof.
  intros h x h' [Ho Hn]. unfold delete_msg. destruct (msgs h !! p) as [m|] eqn:Hp; [|done]. intros [= _ <-]. split; cbn.
  - unfold all_queues in *. cbn. rewrite <- (map_to_list_delete _ _ _ Hp) in Ho. cbn in Ho. by apply Permutation_cons_inv in Ho.
  - rewrite lookup_delete_ne; [done|]. intros ->. congruence.
Qed.
Lemma owns_tc_add pre tc p : owns (p :: pre) (tc_add tc p) (λ _, pre).
Proof.
  intros h x h' [Ho Hn]. unfold tc_add, read_box, write_box, modify, mbind, M_bind. cbn.
  destruct (boxes h !! tc) as [b|] eqn:Hb; [|done]. cbn. intros [= _ <-]. split; [|done]. cbn. unfold all_queues in *. cbn.
  rewrite <- Ho. pose proof (queues_insert _ _ _ (TContainer (mTasks b) (mTaskRxFifo b ++ [p])) Hb) as Hq. cbn in Hq.
  apply (Permutation_app_inv_r (mTaskRxFifo b)). rewrite <- !app_assoc, Hq. solve_Permutation.
Qed.
Lemma owns_post pre p : owns (p :: pre) (post p) (λ _, pre).
Proof.
  unfold post. eapply owns_bind; [apply owns_read_msg|]. intros m. eapply (owns_bind _ _ (λ _, p :: pre)).
  { destruct m; [apply owns_write|apply owns_write|apply owns_ret]. }
  intros _ h x h' [Ho Hn] [= _ <-]. split; [|done]. unfold all_queues in *. cbn. rewrite <- Ho. solve_Permutation.
Qed.
Lemma owns_clone_uni pre p : owns pre (clone_uni p) (λ q, q :: pre).
Proof.
  eapply owns_bind; [apply owns_read_uni|]. intros u. eapply (owns_bind _ _ (λ _, pre)); [|intros; apply owns_new].
  destruct (assign_msg u); [apply owns_ret|by intros h x h' _].
Qed.
Lemma owns_genTaskInst pre tc i : owns pre (tc_genTaskInst tc i) (λ _, pre).
Proof. intros h x h' Ho. unfold tc_genTaskInst, read_box, mbind, M_bind. destruct (boxes h !! tc); [|done]. cbn. by intros [= _ <-]. Qed.
Lemma owns_consume pre tc : owns pre (consume_msg tc) (λ _, pre).
Proof.
  intros h x h' [Ho Hn]. unfold consume_msg, read_box, write_box, modify, mbind, M_bind. cbn.
  destruct (boxes h !! tc) as [b|] eqn:Hb; [|done]. cbn. destruct (mTaskRxFifo b) as [|p l] eqn:Hl; [by intros [= _ <-]|]. cbn.
  intros Hd. eapply (owns_delete pre p); [|exact Hd]. split; [|done]. cbn. unfold all_queues in *. cbn. rewrite <- Ho.
  pose proof (queues_insert _ _ _ (TContainer (mTasks b) l) Hb) as Hq. rewrite Hl in Hq. cbn in Hq.
  apply (Permutation_app_inv_r l). rewrite <- !app_assoc, <- Hq. solve_Permutation.
Qed.

(** *** The calls of the selector *)
Section ownership.
Context `{CtrlHeaders}.
Definition aowns {A} (pre : list ptr) (f : M asel A) (Q : A → store → Prop) : Prop :=
  ∀ a x a', owned pre (a_mem a) → f a = Some (x, a') → Q x (a_mem a').
Definition quiet {A} (f : M asel A) : Prop := ∀ a x a', f a = Some (x, a') → a_mem a' = a_mem a.

Lemma aowns_bind {A B} pre (f : M asel A) mid (g : A → M asel B) Q :
  aowns pre f (λ x, owned (mid x)) → (∀ x, aowns (mid x) (g x) Q) → aowns pre (f ≫= g) Q.
Proof. intros Hf Hg a x a' Ho Hr. apply bind_some in Hr as (z & a1 & H1 & H2). by eapply Hg; [eapply Hf|]. Qed.
Lemma aowns_mem {A} pre (m : M store A) post : owns pre m post → aowns pre (on_a_mem m) (λ x, owned (post x)).
Proof.
  intros Hm a x a' Ho. unfold on_a_mem, zoom. destruct (m (a_mem a)) as [[z h]|] eqn:Hz; [|done]. intros [= <- <-]. cbn. by eapply Hm.
Qed.
Lemma aowns_quiet {A} pre (f : M asel A) : quiet f → aowns pre f (λ _, owned pre).
Proof. intros Hq a x a' Ho Hf. by rewrite (Hq _ _ _ Hf). Qed.
Lemma quiet_bind {A B} (f : M asel A) (g : A → M asel B) : quiet f → (∀ x, quiet (g x)) → quiet (f ≫= g).
Proof. intros Hf Hg a x a' Hr. apply bind_some in Hr as (z & a1 & H1 & H2). by rewrite (Hg _ _ _ _ H2), (Hf _ _ _ H1). Qed.
Lemma quiet_ret {A} (x : A) : quiet (mret x).
Proof. by intros a z a' [= _ <-]. Qed.
Lemma quiet_gets {A} (g : asel → A) : quiet (gets g).
Proof. by intros a z a' [= _ <-]. Qed.
Lemma quiet_int {A} (f : abuf Z TaskKey → option (A * abuf Z TaskKey)) : quiet (on_a_int f).
Proof. intros a x a'. apply int_mem. Qed.
Lemma quiet_str {A} (f : abuf bytes TaskKey → option (A * abuf bytes TaskKey)) : quiet (on_a_str f).
Proof. intros a x a'. apply str_mem. Qed.
Lemma quiet_counting f : quiet (a_counting f).
Proof. by intros a z a' [= _ <-]. Qed.
Lemma quiet_cont k : quiet (cont_at k).
Proof. intros a x a'. unfold cont_at. destruct (assoc_get k _); [|done]. by intros [= _ <-]. Qed.
Lemma quiet_tasks (g : asel → list (Z * atask)) : quiet (modify (λ a, set_tasks (g a) a)).
Proof. by intros a z a' [= _ <-]. Qed.
Lemma quiet_defined {A} (o : option A) : quiet (defined o).
Proof. destruct o; [apply quiet_ret|by intros a x a']. Qed.
Lemma quiet_spent wc t p : quiet (λ a, spent wc t p a).
Proof. intros a t' a' Hsp. by destruct (spent_frame _ _ _ a a _ _ eq_refl Hsp). Qed.
Ltac quiet := repeat first
  [ apply quiet_ret | apply quiet_gets | apply quiet_int | apply quiet_str | apply quiet_counting | apply quiet_cont
  | apply quiet_tasks | apply quiet_defined | apply quiet_spent | apply quiet_bind; [|intros]
  | match goal with |- quiet (match ?x with _ => _ end) => destruct x end ].
Lemma quiet_getTask wc taskid tcid : quiet (a_getTask wc taskid tcid).
Proof. unfold a_getTask. quiet. Qed.

(** The rules by the shape of a call. *)
Lemma aowns_then_quiet {A B} pre (f : M asel A) (g : A → M asel B) Q : quiet f → (∀ x, aowns pre (g x) Q) → aowns pre (f ≫= g) Q.
Proof. intros Hf Hg. apply (aowns_bind _ _ (λ _, pre)); [by apply aowns_quiet|done]. Qed.
Lemma aowns_then_mem {A B} pre (m : M store A) post (g : A → M asel B) Q :
  owns pre m post → (∀ x, aowns (post x) (g x) Q) → aowns pre (on_a_mem m ≫= g) Q.
Proof. intros Hm Hg. apply (aowns_bind _ _ post); [by apply aowns_mem|done]. Qed.
Ltac own_rule := first
  [ apply owns_read_uni | apply owns_read_event | apply owns_upd_uni | apply owns_write | apply owns_clone_uni
  | apply owns_new | apply owns_delete | apply owns_tc_add | apply owns_genTaskInst | apply owns_post ].
Ltac own := first
  [ eapply aowns_then_mem; [own_rule|intros]
  | eapply aowns_then_quiet; [first [apply quiet_getTask | solve [quiet]]|intros] ].
Lemma aowns_deliver pre item m : aowns (m :: pre) (a_deliver item m) (λ _, owned pre).
Proof. unfold a_deliver. own. apply (aowns_mem _ _ (λ _, pre)), owns_tc_add. Qed.
Lemma aowns_each (f : Z → M asel unit) l pre : (∀ c, aowns pre (f c) (λ _, owned pre)) → aowns pre (a_each f l) (λ _, owned pre).
Proof.
  intros Hf. induction l as [|c l IH]; cbn; [apply aowns_quiet, quiet_ret|]. eapply (aowns_bind _ _ (λ _, pre)); [apply Hf|]. intros _. exact IH.
Qed.
Lemma aowns_clone_to pre m c : aowns pre (a_clone_to m c) (λ _, owned pre).
Proof. unfold a_clone_to. own. own. apply aowns_deliver. Qed.
Lemma aowns_event_to pre m f c : aowns pre (a_event_to m f c) (λ _, owned pre).
Proof. unfold a_event_to. own. own. apply aowns_deliver. Qed.
Lemma aowns_follow_session pre now clock m c : aowns pre (a_follow_session now clock m c) (λ _, owned pre).
Proof.
  unfold a_follow_session. cbv zeta. own. eapply (aowns_bind _ _ (λ _, pre)); [|intros; apply aowns_quiet; quiet].
  assert (Hmove : ∀ (k : option TaskKey) (touch : M asel bool), quiet touch → aowns pre
    (match k with Some k => if decide (0 < k_tcid k ∧ 0 < k_tiid k)%Z then
       on_a_mem (upd_uni m (λ u, put_taskInstID (k_tiid k) (put_phyAddr (k_tcid k) u))) ;; touch ;; mret tt else mret tt
     | None => mret tt end) (λ _, owned pre)).
  { intros [k|] touch Ht; [|apply aowns_quiet; quiet]. case_decide; [|apply aowns_quiet; quiet]. own.
    apply aowns_quiet. apply quiet_bind; [exact Ht|intros; quiet]. }
  case_decide; [own; apply Hmove; quiet|]. destruct (getSessionStr c); [|apply aowns_quiet; quiet].
  case_decide; [apply aowns_quiet; quiet|]. own. apply Hmove; quiet.
Qed.
Lemma aowns_begin_dialog pre now m item taskid containerid : aowns pre (a_begin_dialog now m item taskid containerid) (λ _, owned pre).
Proof.
  unfold a_begin_dialog. cbv zeta. own. own. own.
  eapply (aowns_bind _ _ (λ _, pre)); [case_decide; [eapply aowns_mem, owns_upd_uni|apply aowns_quiet; quiet]|]. intros _.
  own. apply aowns_quiet. quiet.
Qed.
(** After [add]: TRUE, the message is in a queue or gone; FALSE, it is the
    caller's - unless [add] deleted it. *)
Definition given (m : ptr) (pre : list ptr) (b : bool) (h : store) : Prop :=
  if b then owned pre h else owned (m :: pre) h ∨ (owned pre h ∧ msgs h !! m = None).
Lemma aowns_weaken {A} pre (f : M asel A) (Q Q' : A → store → Prop) : aowns pre f Q → (∀ x h, Q x h → Q' x h) → aowns pre f Q'.
Proof. intros Hf HQ a x a' Ho Hr. eapply HQ, Hf; [exact Ho|exact Hr]. Qed.
Lemma aowns_keep m pre (f : M asel bool) : quiet f → (∀ a a', f a ≠ Some (true, a')) → aowns (m :: pre) f (given m pre).
Proof. intros Hq Hf a b a' Ho Hr. rewrite (Hq _ _ _ Hr). destruct b; [by destruct (Hf a a')|]. by left. Qed.
Lemma aowns_gave m pre (f : M asel bool) : quiet f → (∀ a a', f a ≠ Some (false, a')) → aowns pre f (given m pre).
Proof. intros Hq Hf a b a' Ho Hr. rewrite (Hq _ _ _ Hr). destruct b; [done|by destruct (Hf a a')]. Qed.
Lemma aowns_send m pre wc now clock : aowns (m :: pre) (a_send wc now clock m) (given m pre).
Proof.
  unfold a_send. case_decide; [apply aowns_keep; [quiet|done]|]. own. own. destruct x0 as [t|]; [|apply aowns_keep; [quiet|done]]. cbv zeta.
  eapply (aowns_bind _ _ (λ _, m :: pre)); [case_decide; [eapply aowns_mem, owns_upd_uni|apply aowns_quiet; quiet]|]. intros _.
  eapply (aowns_bind _ _ (λ _, m :: pre)).
  { case_decide; [|apply aowns_quiet; quiet]. destruct (hasCtrlMsgHdr _); [|apply aowns_quiet; quiet]. own.
    destruct (hasSessionId _); [apply aowns_follow_session|apply aowns_quiet; quiet]. }
  intros _. own. destruct x0 as [item|]; [|apply aowns_keep; [quiet|done]]. own.
  eapply (aowns_bind _ _ (λ _, m :: pre)); [case_decide; [apply aowns_begin_dialog|apply aowns_quiet; quiet]|]. intros _.
  eapply (aowns_bind _ _ (λ _, pre)); [apply aowns_deliver|]. intros _. apply aowns_gave; [quiet|done].
Qed.
Lemma aowns_multicast m pre : aowns (m :: pre) (a_multicast m) (given m pre).
Proof.
  unfold a_multicast. case_decide; [apply aowns_keep; [quiet|done]|]. own. own. destruct x0 as [t|].
  - eapply (aowns_bind _ _ (λ _, m :: pre)); [apply aowns_each; intros; apply aowns_clone_to|]. intros _. own. own. own.
    apply aowns_gave; [quiet|done].
  - intros a b a' Ho Hf. apply bind_some in Hf as ([] & a1 & Hd & Hf). injection Hf as <- <-. right.
    unfold on_a_mem, zoom in Hd. destruct (delete_msg m (a_mem a)) as [[u h]|] eqn:Hdel; [|done]. injection Hd as _ <-. cbn.
    split; [by eapply owns_delete|]. unfold delete_msg in Hdel. destruct (msgs (a_mem a) !! m); [|done]. injection Hdel as _ <-. apply lookup_delete_eq.
Qed.
Lemma aowns_broadcast ord m pre : aowns (m :: pre) (a_broadcast ord m) (given m pre).
Proof.
  unfold a_broadcast. case_decide; [apply aowns_keep; [quiet|done]|].
  eapply (aowns_bind _ _ (λ _, m :: pre)); [apply aowns_each; intros; apply aowns_clone_to|]. intros _. own. own.
  apply aowns_gave; [quiet|done].
Qed.
Lemma aowns_add ord m pre wc now clock : aowns (m :: pre) (a_add ord wc now clock m) (given m pre).
Proof.
  unfold a_add. own. case_decide; [apply aowns_broadcast|]. case_decide; [apply aowns_multicast|apply aowns_send].
Qed.
Lemma aowns_event_done found m pre : aowns (m :: pre) (a_event_done found m) (λ _, owned pre).
Proof. unfold a_event_done. destruct found; [own; apply aowns_quiet; quiet|]. own. own. own. apply aowns_quiet. quiet. Qed.
Lemma aowns_addEvent ord m pre : aowns (m :: pre) (a_addEvent ord m) (λ _, owned pre).
Proof.
  unfold a_addEvent. own. case_decide; [|case_decide].
  - own. destruct x0; [own; apply aowns_quiet; quiet|apply aowns_event_done].
  - own. destruct x0; [|apply aowns_event_done]. cbv zeta.
    eapply (aowns_bind _ _ (λ _, m :: pre)); [apply aowns_each; intros; apply aowns_event_to|]. intros _. apply aowns_event_done.
  - eapply (aowns_bind _ _ (λ _, m :: pre)); [apply aowns_each; intros; apply aowns_event_to|]. intros _. apply aowns_event_done.
Qed.
End ownership.

(** *** The control thread *)
Section fowns.
Context `{CtrlHeaders}.
Definition fheap (f : framectl asel) : store := a_mem (fc_selector f).
Definition fowned (held : list ptr) (f : framectl asel) : Prop := owned (held ++ mFifo f) (fheap f).
Definition fowns {A} (held : list ptr) (m : M (framectl asel) A) (post : A → list ptr) : Prop :=
  ∀ f x f', fowned held f → m f = Some (x, f') → fowned (post x) f'.

Lemma fowns_bind {A B} held (m : M _ A) mid (k : A → M _ B) post :
  fowns held m mid → (∀ x, fowns (mid x) (k x) post) → fowns held (m ≫= k) post.
Proof. intros Hm Hk f x f' Ho Hr. apply bind_some in Hr as (z & f1 & H1 & H2). by eapply Hk; [eapply Hm|]. Qed.
Lemma fowns_ret {A} held (x : A) : fowns held (mret x) (λ _, held).
Proof. by intros f z f' Ho [= _ <-]. Qed.
Lemma fowns_sel {A} held (m : M asel A) post :
  (∀ pre, aowns (held ++ pre) m (λ x, owned (post x ++ pre))) → fowns held (on_sel m) post.
Proof.
  intros Hm f x f' Ho. unfold on_sel, zoom. destruct (m (fc_selector f)) as [[z a]|] eqn:Ha; [|done]. intros [= <- <-].
  unfold fowned, fheap. cbn. by eapply Hm.
Qed.
Lemma fowns_mem {A} held (m : M store A) post : (∀ pre, owns (held ++ pre) m (λ x, post x ++ pre)) → fowns held (on_sel (on_a_mem m)) post.
Proof. intros Hm. apply fowns_sel. intros pre. apply (aowns_mem _ _ (λ x, post x ++ pre)), Hm. Qed.
Lemma fowns_delete held p : fowns (p :: held) (on_sel (on_a_mem (delete_msg p))) (λ _, held).
Proof. apply fowns_mem. intros pre. apply owns_delete. Qed.
(** The members of the control thread that hold no messages. *)
Lemma fowns_modify held g : (∀ f, fheap (g f) = fheap f ∧ mFifo (g f) = mFifo f) → fowns held (modify g) (λ _, held).
Proof. intros Hg f x f' Ho [= _ <-]. destruct (Hg f) as [Hh Hq]. unfold fowned. by rewrite Hh, Hq. Qed.
Lemma fowns_getNext held : fowns held getNext_msg (λ r, from_option (λ p, p :: held) held r).
Proof.
  intros f r f' Ho. unfold getNext_msg. destruct (mFifo f) as [|p l] eqn:Hq; intros [= <- <-]; [done|].
  unfold fowned, fheap in *. cbn in *. rewrite Hq in Ho. destruct Ho as [Ho Hn]. split; [|done]. rewrite <- Ho. solve_Permutation.
Qed.
Lemma fowns_fc_add held p : fowns (p :: held) (fc_add p) (λ _, held).
Proof.
  intros f [] f' [Ho Hn] [= <-]. split; [|done]. cbn. rewrite <- Ho. unfold fheap. cbn. solve_Permutation.
Qed.
Lemma fowns_answer held id tr info : fowns held (answer (H:=no_order) id tr info) (λ _, held).
Proof.
  unfold answer. eapply fowns_bind; [|intros; apply fowns_ret]. apply fowns_mem. intros pre.
  eapply owns_bind; [apply owns_new|]. intros p. apply owns_post.
Qed.
Lemma fowns_kernel_event held o e : fowns held (kernel_event (H:=no_order) o e) (λ _, held).
Proof.
  unfold kernel_event, onInit, onHeartBeat, onReload, onShutdown, onStatues.
  repeat (case_decide; [eapply fowns_bind; [|intros; apply fowns_ret];
    first [apply fowns_answer | eapply fowns_bind; [apply fowns_modify; done|intros; apply fowns_answer]]|]). apply fowns_ret.
Qed.
Lemma fowns_handle_event ord held o p e : fowns (p :: held) (handle_event (H:=spec_routing ord) o p e) (λ _, held).
Proof.
  unfold handle_event. apply (fowns_bind _ _ (λ _, p :: held)); [case_decide; [apply fowns_kernel_event|apply fowns_ret]|]. intros _.
  case_decide; [|apply fowns_delete]. apply (fowns_bind _ _ (λ _, held)); [|intros; apply fowns_ret].
  apply fowns_sel. intros pre. apply aowns_addEvent.
Qed.
(** Refused messages are the control thread's to delete - a multicast to an
    unknown task was deleted by the selector already. *)
Lemma fowns_refused held p (m : M asel bool) (k : bool → M _ ()) :
  (∀ pre, aowns (p :: pre) m (given p pre)) → (∀ b : bool, fowns (if b then held else p :: held) (k b) (λ _, held)) →
  (∀ f (x : ()) f', k false f = Some (x, f') → msgs (fheap f) !! p ≠ None) → fowns (p :: held) (on_sel m ≫= k) (λ _, held).
Proof.
  intros Hm Hk Hnot f x f' Ho Hr. apply bind_some in Hr as (b & f1 & H1 & H2). unfold on_sel, zoom in H1.
  destruct (m (fc_selector f)) as [[z a]|] eqn:Ha; [|done]. injection H1 as -> <-. pose proof (Hm _ _ _ _ Ho Ha) as Hg.
  destruct b; [by eapply (Hk true); [|exact H2]|]. destruct Hg as [Hg|[_ Hg]]; [by eapply (Hk false); [|exact H2]|]. by apply Hnot in H2.
Qed.
Lemma delete_existing p f x f' : on_sel (on_a_mem (delete_msg p)) f = Some (x, f') → msgs (fheap f) !! p ≠ None.
Proof.
  unfold on_sel, on_a_mem, zoom, delete_msg, fheap. intros Hr Hn. by rewrite Hn in Hr.
Qed.
Lemma fowns_handle_uninet ord held o p : fowns (p :: held) (handle_uninet (H:=spec_routing ord) o p) (λ _, held).
Proof.
  assert (Hdone : ∀ b : bool, fowns (if b then held else p :: held)
    (count_done b ;; if b : bool then mret tt else on_sel (on_a_mem (delete_msg p))) (λ _, held)).
  { intros b. apply (fowns_bind _ _ (λ _, if b then held else p :: held)); [by apply fowns_modify|]. intros _.
    destruct b; [apply fowns_ret|apply fowns_delete]. }
  unfold handle_uninet. apply (fowns_bind _ _ (λ _, p :: held)); [by intros f x f' Ho [= _ <-]|].
  intros [|].
  - apply (fowns_bind _ _ (λ b : bool, if b then held else p :: held)); [by intros f x f' Ho [= <- <-]|exact Hdone].
  - apply fowns_refused; [intros pre; apply aowns_add|exact Hdone|].
    intros f x f' Hr. apply bind_some in Hr as ([] & f1 & Hc & Hr). injection Hc as <-. by apply delete_existing in Hr.
Qed.
Lemma fowns_mainLoop ord held o : fowns held (mainLoop (H:=spec_routing ord) o) (λ _, held).
Proof.
  unfold mainLoop. apply (fowns_bind _ _ (λ _, held)); [by apply fowns_modify|]. intros _.
  apply (fowns_bind _ _ (λ _, held)); [by apply fowns_sel; intros pre; apply aowns_quiet, quiet_counting|]. intros _.
  eapply fowns_bind; [apply fowns_getNext|]. intros [p|]; [|apply fowns_ret]. cbn [from_option].
  apply (fowns_bind _ _ (λ _, p :: held)); [apply fowns_mem; intros pre; apply owns_read_msg|]. intros m.
  apply (fowns_bind _ _ (λ _, held)); [|intros; apply fowns_ret].
  destruct m; [apply fowns_handle_uninet|apply fowns_handle_event|apply fowns_delete].
Qed.
Lemma fowns_fstep ord held ev : fowns held (a_fstep ord ev) (λ _, held).
Proof.
  destruct ev as [o|m|tc]; unfold a_fstep; cbn [fstep].
  - eapply fowns_bind; [apply fowns_mainLoop|intros; apply fowns_ret].
  - unfold arrive. apply (fowns_bind _ _ (λ p, p :: held)); [|intros; apply fowns_fc_add]. apply fowns_mem. intros pre. apply owns_new.
  - apply fowns_mem. intros pre. apply owns_consume.
Qed.
Lemma a_frun_owned evs P f : fowned [] f → a_frun evs P f → a_frun evs (λ f', P f' ∧ fowned [] f') f.
Proof.
  revert f. induction evs as [|ev evs IH]; intros f Ho HP; cbn in *; [done|]. intros ord Hord.
  apply HP in Hord. destruct (a_fstep ord ev f) as [[[] f1]|] eqn:Hs; unfold wp in *; rewrite Hs in *; [|done].
  apply IH; [|done]. by eapply fowns_fstep.
Qed.
End fowns.

(** ** Properties *)
(** C7: while messages arrive, the control thread routes them and the
    containers work them off, every message that exists is in exactly one place:
    once in the control queue, in one container's queue or in the queue to the
    outside; nothing leaks and nothing is queued twice. *)
Theorem frame_ownership {CT TT} `{TableLaws ptr CT} `{TableLaws ptr TT} `{CtrlHeaders} (evs : list fevent)
    (P : framectl asel → Prop) (f : framectl (@selector CT TT)) (fa : framectl asel) :
  frepr f fa → mFifo f ++ all_queues (mem (fc_selector f)) ≡ₚ (map_to_list (msgs (mem (fc_selector f)))).*1 →
  msgs (mem (fc_selector f)) !! NULL = None → a_frun evs P fa →
  ∃ f' fa', frun evs f = Some (tt, f') ∧ frepr f' fa' ∧ P fa' ∧
    mFifo f' ++ all_queues (mem (fc_selector f')) ≡ₚ (map_to_list (msgs (mem (fc_selector f')))).*1 ∧
    NoDup (mFifo f' ++ all_queues (mem (fc_selector f'))).
Proof.
  intros Hf Ho Hn HP. assert (Hmem : ∀ (f : framectl (@selector CT TT)) fa, frepr (CT:=CT) (TT:=TT) f fa → mem (fc_selector f) = a_mem (fc_selector fa) ∧ mFifo f = mFifo fa).
  { by intros ? ? ([y Hs] & Hq & _); rewrite (sr_mem _ _ _ Hs). }
  destruct (Hmem _ _ Hf) as [Hm Hq]. rewrite Hm, Hq in Ho. rewrite Hm in Hn.
  apply a_frun_owned in HP; [|by split]. apply (frun_refines _ _ _ _ Hf), wp_elim in HP as ([] & f' & Hrun & fa' & Hf' & HP & Ho' & _).
  destruct (Hmem _ _ Hf') as [Hm' Hq']. exists f', fa'. rewrite Hm', Hq'. split_and!; try done.
  rewrite Ho'. apply NoDup_fst_map_to_list.
Qed.

(** The selector deletes such a message and answers FALSE. *)
Lemma add_unknown_multicast {CT TT} `{TableLaws ptr CT} `{TableLaws ptr TT} `{CtrlHeaders} wc now clock y
    (s : @selector CT TT) a p u :
  srepr_at y s a → p ≠ NULL → msgs (mem s) !! p = Some (MUni u) → msgType u = DIALOG_MULTICAST →
  assoc_get (logAddr (tAddr u)) (atasks a) = None → wp (add wc now clock p) (λ b s', b = false ∧ msgs (mem s') !! p = None) s.
Proof.
  intros Hs Hp Hu Ht Hg. rewrite (sr_mem _ _ _ Hs) in Hu. eapply wp_mono.
  - eapply (dref_add y wc now clock p s a (λ b a', b = false ∧ msgs (a_mem a') !! p = None)); [exact Hs|]. intros ord _. unfold a_add.
    apply wp_bind, wp_zoom. eapply wp_some; [unfold read_uni; by rewrite Hu|]. rewrite decide_False by (rewrite Ht; done).
    rewrite decide_True by done. unfold a_multicast. rewrite decide_False by done. apply wp_bind, wp_zoom.
    eapply wp_some; [unfold read_uni; cbn; by rewrite Hu|]. apply wp_bind, wp_gets. cbn. rewrite Hg.
    apply wp_bind, wp_zoom. eapply wp_some; [unfold delete_msg; cbn; by rewrite Hu|]. apply wp_ret. cbn. split; [done|apply lookup_delete_eq].
  - intros b s' (a' & Hs' & -> & Hn). by rewrite (sr_mem _ _ _ Hs').
Qed.
(** A multicast to a task that nobody registered, which the selector
    deletes and refuses, is deleted a second time by the control thread. *)
Theorem frame_multicast_double_delete {CT TT} `{TableLaws ptr CT} `{TableLaws ptr TT} `{CtrlHeaders} (o : outside)
    (f : framectl (@selector CT TT)) (a : asel) (p : ptr) (l : list ptr) (u : TUniNetMsg) :
  srepr (fc_selector f) a → fc_shutdown f = false → mFifo f = p :: l → p ≠ NULL →
  msgs (mem (fc_selector f)) !! p = Some (MUni u) → msgType u = DIALOG_MULTICAST →
  assoc_get (logAddr (tAddr u)) (atasks a) = None → mainLoop o f = None.
Proof.
  intros [y Hs] Hdown Hq Hp Hu Ht Hg. unfold mainLoop. apply ub_bind, wp_modify. apply ub_bind, wp_zoom, wp_modify.
  apply ub_bind. unfold wp, getNext_msg. cbn [mFifo]. rewrite Hq. cbn. apply ub_bind, wp_zoom.
  eapply wp_some; [unfold on_mem, zoom, read_msg; cbn; by rewrite Hu|]. cbn. apply ub_fail.
  unfold handle_uninet. apply ub_bind, wp_gets. cbn. rewrite Hdown. apply ub_bind, wp_zoom.
  pose proof (mref_counting false y (λ c, Counters (registeredTaskAmount c) (registeredInstAmount c)
    (sendMsgToTaskCount c) (multicastMsgCount c) (broadcastMsgCount c) (o_now o)) _ _ _ _ Hs eq_refl) as (_ & Hs1 & _).
  eapply wp_mono; [by eapply (add_unknown_multicast _ _ _ _ _ _ p u Hs1)|]. intros b s' [-> Hgone]. apply ub_bind, wp_modify.
  unfold on_sel, zoom, on_mem, zoom, delete_msg. cbn. by rewrite Hgone.
Qed.

(** *** Witnesses *)
(** A control thread over a selector with task 7 in two containers and no
    message yet. *)
Definition empty_store : store := Store (boxes demo_store) ∅ [].
Definition quiet_spec : asel :=
  ASel (aconts demo_spec) (atasks demo_spec) (a_int demo_spec) (a_str demo_spec) (Store (boxes (a_mem demo_spec)) ∅ []) (a_cnt demo_spec).
Lemma quiet_repr : ∃ s : @selector (htab Z ptr) (htab Z ptr), srepr s quiet_spec.
Proof.
  pose proof (initial_repr (H:=demo_headers) 0 false 0 5 empty_store) as Hi.
  eapply (sel_run_refines (H3:=demo_headers) registered (λ rs a, rs = [true; true; true; true] ∧ a = quiet_spec)) in Hi.
  - apply wp_elim in Hi as (rs & s & Hr & a & Hs & -> & ->). exists s. exact Hs.
  - unfold registered. do 4 (eapply a_run_step; [intros ord; vm_compute; reflexivity|]). split; [reflexivity|]. vm_compute. reflexivity.
Qed.
Definition fresh_frame {S} (s : S) : framectl S := FrameControl s [] false 0 0 0.
Lemma fresh_repr (s : @selector (htab Z ptr) (htab Z ptr)) a : srepr s a → frepr (fresh_frame s) (fresh_frame a).
Proof. intros Hs. split_and!; done. Qed.
Definition demo_outside : outside := Outside (λ _, Some 0%Z) 6 (λ _, 6%Z) [].
(** An INIT event to the control thread, a message to task 7, which container 2
    works off, and one to a task that is not there. *)
Definition demo_frun : list fevent :=
  [ FArrive (MEvent (EventMsg (Tuple 0 0 0) KERNAL_APP_INIT 0 0 2 0 [])); FArrive (MUni (demo_msg 7 0 1 2));
    FArrive (MUni (demo_msg 9 0 1 2)); FLoop demo_outside; FLoop demo_outside; FConsume 11%N; FLoop demo_outside; FLoop demo_outside;
    FArrive (MUni (demo_msg 7 0 1 2)); FLoop demo_outside ].
Definition demo_frame_outcome (f : framectl asel) : Prop :=
  length (mPostFifo (fheap f)) = 1 ∧ length <$> queue_of (fc_selector f) 10%N = Some 1 ∧
  length <$> queue_of (fc_selector f) 11%N = Some 0 ∧ (uninetmsgCountS f, uninetmsgCountF f) = (2, 1)%Z.
Lemma a_frun_step `{CtrlHeaders} ev evs P f f' :
  (∀ ord, a_fstep ord ev f = Some (tt, f')) → a_frun evs P f' → a_frun (ev :: evs) P f.
Proof. intros Hstep HP ord _. by eapply wp_some. Qed.
Lemma demo_frun_ok : a_frun (H:=demo_headers) demo_frun demo_frame_outcome (fresh_frame quiet_spec).
Proof.
  unfold demo_frun. do 10 (eapply a_frun_step; [intros ord; vm_compute; reflexivity|]). split_and!; vm_compute; reflexivity.
Qed.
Lemma frame_ownership_witness : ∃ (f f' : framectl (@selector (htab Z ptr) (htab Z ptr))) fa',
  frun (H:=selector_routing (H1:=demo_headers)) demo_frun f = Some (tt, f') ∧ frepr f' fa' ∧ demo_frame_outcome fa' ∧
  mFifo f' ++ all_queues (mem (fc_selector f')) ≡ₚ (map_to_list (msgs (mem (fc_selector f')))).*1 ∧
  NoDup (mFifo f' ++ all_queues (mem (fc_selector f'))).
Proof.
  destruct quiet_repr as [s Hs]. exists (fresh_frame s).
  assert (Hm : mem s = a_mem quiet_spec) by (destruct Hs as [y Hs]; exact (sr_mem _ _ _ Hs)).
  apply (frame_ownership (H3:=demo_headers) demo_frun demo_frame_outcome (fresh_frame s) (fresh_frame quiet_spec));
    [exact (fresh_repr _ _ Hs)| | |exact demo_frun_ok]; cbn [fresh_frame fc_selector mFifo]; rewrite Hm.
  - vm_compute. constructor.
  - vm_compute. reflexivity.
Defined.
(** Message 25 of the store is a multicast to task 9. *)
Lemma frame_multicast_double_delete_witness : ∃ s : @selector (htab Z ptr) (htab Z ptr),
  demo_state = Some ([true; true; true; true], s) ∧
  mainLoop (H:=selector_routing (H1:=demo_headers)) demo_outside (FrameControl s [25%N] false 0 0 0) = None.
Proof.
  destruct demo_state_repr as (s & Hs & Hr). exists s. split; [exact Hs|].
  assert (Hm : mem s = a_mem demo_spec) by (destruct Hr as [y Hr]; exact (sr_mem _ _ _ Hr)).
  apply (frame_multicast_double_delete (H3:=demo_headers) demo_outside (FrameControl s [25%N] false 0 0 0) demo_spec 25%N [] (demo_msg 9 0 5 2));
    [exact Hr|reflexivity|reflexivity|discriminate| |reflexivity|vm_compute; reflexivity].
  cbn [fc_selector]. rewrite Hm. vm_compute. reflexivity.
Defined.
