(* ===== verification/TaskContainer.v ===== *)
(** * Task containers and their tasks ([task/taskcontainer.C],
    [task/abstracttask.C], [task/psacontainer.C], [task/psatask.C])

    A container is a thread with a receive queue, timers and tasks.  Each turn of
    its loop ([TTaskContainer::process]) fires the timers that are due, waits for
    a message no longer than the next timer allows, and hands it to the task it
    is for: messages to [procMsg], timeouts to [onTimeOut], management events to
    the functions of [TAbstractTask], whose answer it posts.

    Tasks are code of the application: an instance of [TaskCode] has its virtual
    functions, as programs ([tprog]) over the calls a task may make.  A turn may
    have to wait, and other threads add messages meanwhile, so a run of the
    container ([crun]) is a sequence of starts of turns, additions and wake-ups,
    as in Fifo.v; the timers are those of TimerQueue.v.  Readings of clocks and
    of the configuration are arguments ([outside]).  Not modelled: logging, the
    database members, the configuration's contents. *)

From stdpp Require Import pretty.
From Stdlib Require Import Sorted.
From S2P Require Import Prelude Fifo Command UniMsg TransState TaskSelector TimerQueue.

(** ** Texts *)
(** [CStr::operator<<(int)], to which a [UINT] is converted. *)
Definition dec (n : Z) : bytes := lit (pretty (i32 n)).
(** [scmd[i]=="..."] *)
Definition word_is (b : bytes) (s : string) : bool := bool_decide (c_string b = lit s).

(** ** Messages in the receive queue *)
Inductive TMsg := RUni (m : TUniNetMsg) | RTimeOut (m : TTimeOutMsg) | REvent (e : TEventMsg) | ROther.

(** ** Tasks *)
(** The calls a task's code may make; a parameter of a timer is a buffer that
    the task allocates. *)
Inductive tprog (A : Type) :=
  | TRet (a : A)
  | TSendMsg (m : TUniNetMsg) (k : tprog A)
  | TPostEvent (e : TEventMsg) (k : tprog A)
  | TSendSelf (m : TMsg) (k : tprog A)
  | TSetTimer (mark delay : Z) (para : option bytes) (k : Z → tprog A)
  | TSetTimerId (mark : Z) (para : option bytes) (k : Z → tprog A)
  | TDelTimer (key : Z) (k : tprog A).
Arguments TRet {A} _.
Arguments TSendMsg {A} _ _.
Arguments TPostEvent {A} _ _.
Arguments TSendSelf {A} _ _.
Arguments TSetTimer {A} _ _ _ _.
Arguments TSetTimerId {A} _ _ _.
Arguments TDelTimer {A} _ _.

(** [TAbstractTask], with the members of the derived class; [mTME] has the
    identifier and the delay of each of the 32 timers. *)
Record TAbstractTask (T : Type) := AbstractTask {
  objectType : Z; objectName : bytes; buildInfo : bytes;
  mTaskId : Z; mHostId : Z; mContainerId : Z; mPhyAddr : Z; mInstId : Z;
  logType : Z; logLevel : Z; logToSyslog : Z; syslogTaskID : Z;
  mMsgProcCount : list Z; mTimerProcCount : Z; mTME : list (Z * Z); currentTime : Z; derived : T }.
Arguments AbstractTask {T} _ _ _ _ _ _ _ _ _ _ _ _ _ _ _ _ _.
Arguments objectType {T} _.
Arguments objectName {T} _.
Arguments buildInfo {T} _.
Arguments mTaskId {T} _.
Arguments mHostId {T} _.
Arguments mContainerId {T} _.
Arguments mPhyAddr {T} _.
Arguments mInstId {T} _.
Arguments logType {T} _.
Arguments logLevel {T} _.
Arguments logToSyslog {T} _.
Arguments syslogTaskID {T} _.
Arguments mMsgProcCount {T} _.
Arguments mTimerProcCount {T} _.
Arguments mTME {T} _.
Arguments currentTime {T} _.
Arguments derived {T} _.

(** The virtual functions: they see the task and leave the members of the
    derived class, with their result. *)
Class TaskCode (T : Type) := {
  onInit : TAbstractTask T → tprog (bool * T);
  preTaskStart : TAbstractTask T → tprog (bool * T);
  preTaskShutdown : TAbstractTask T → tprog (bool * T);
  reloadTaskEnv : bytes → TAbstractTask T → tprog (bool * T);
  getStatues : bytes → bytes → TAbstractTask T → tprog (bytes * T);
  procMsg : TUniNetMsg → TAbstractTask T → tprog (unit * T);
  onTimeOut : Z → Z → option bytes → TAbstractTask T → tprog (unit * T);
}.

(** What the configuration says for a task ([TTaskEnv]). *)
Record task_env := TaskEnv { env_logType : Z; env_logLevel : Z; env_logToSyslog : Z; env_syslogTaskID : Z;
  env_objectType : Z; env_objectName : bytes; env_timers : list (Z * Z) }.
(** Readings of a turn: the clock of new timers (ms), [time(0)], the two
    [gettimeofday]s (us), and the configuration by task. *)
Record outside := Outside { o_ms : Z; o_time : Z; o_last : Z; o_cur : Z; o_env : Z → task_env }.

(** ** Containers *)
(** The members that measure steps, of the container and of each task. *)
Record steps := Steps { msgStepTime : Z; msgStepTime_avg : Z; timerStepTime : Z; timerStepTime_avg : Z; msgLoop : Z; timerLoop : Z }.
Definition new_steps : steps := Steps 0 0 0 0 100 100.
Record TTaskInfo (T : Type) := TaskInfo { ti_taskType : Z; ti_taskId : Z; ti_task : TAbstractTask T; ti_steps : steps }.
Arguments TaskInfo {T} _ _ _ _.
Arguments ti_taskType {T} _.
Arguments ti_taskId {T} _.
Arguments ti_task {T} _.
Arguments ti_steps {T} _.

(** [ct_toKernel] and [ct_posted]: what was handed to the control thread
    ([mFrameCtrl->add], [postTo]); [ct_logLevel]: the level of the thread's
    environment, if it has one.  The timers' queue is the receive queue: their
    own [mFifo] is empty between two calls. *)
Record container (T : Type) := Container {
  ct_hostId : Z; ct_containerId : Z; mCheckStepTime : bool;
  ct_msgCount : Z; ct_timerCount : Z; mInnerProcCount : Z; ct_steps : steps;
  mTaskList : list (Z * TTaskInfo T); ct_rx : fifo TMsg; mWaitAtQueue : bool; mWaitMS : Z; mTTQ : kern;
  ct_logLevel : option Z; ct_toKernel : list TUniNetMsg; ct_posted : list TMsg }.
Arguments Container {T} _ _ _ _ _ _ _ _ _ _ _ _ _ _ _.
Arguments ct_hostId {T} _.
Arguments ct_containerId {T} _.
Arguments mCheckStepTime {T} _.
Arguments ct_msgCount {T} _.
Arguments ct_timerCount {T} _.
Arguments mInnerProcCount {T} _.
Arguments ct_steps {T} _.
Arguments mTaskList {T} _.
Arguments ct_rx {T} _.
Arguments mWaitAtQueue {T} _.
Arguments mWaitMS {T} _.
Arguments mTTQ {T} _.
Arguments ct_logLevel {T} _.
Arguments ct_toKernel {T} _.
Arguments ct_posted {T} _.

Definition Err : Z := 3.
Definition Info : Z := 6.
Definition Debug : Z := 7.
Definition objtype_Kernal : Z := 3.
Definition objtype_Task : Z := 5.
Definition TASKCONTAINER_TASKID : Z := 4.
Definition TASK_TIMER_NUM : Z := 32.
Definition KERNAL_APP_HEATBEAT : Z := 11.
Definition KERNAL_APP_INIT : Z := 12.
Definition KERNAL_APP_STATUES : Z := 14.
Definition KERNAL_APP_RELOAD : Z := 15.
Definition KERNAL_APP_SHUTDOWN : Z := 16.

Section container.
Context {T : Type} `{TaskCode T} `{MinTop}.
Implicit Types (t : TAbstractTask T) (c : container T) (o : outside).
Local Abbreviation C := (M (container T)).

(** *** Members *)
Definition with_check (b : bool) c : container T :=
  Container (ct_hostId c) (ct_containerId c) b (ct_msgCount c) (ct_timerCount c) (mInnerProcCount c) (ct_steps c) (mTaskList c) (ct_rx c) (mWaitAtQueue c) (mWaitMS c) (mTTQ c) (ct_logLevel c) (ct_toKernel c) (ct_posted c).
Definition with_steps (s : steps) c : container T :=
  Container (ct_hostId c) (ct_containerId c) (mCheckStepTime c) (ct_msgCount c) (ct_timerCount c) (mInnerProcCount c) s (mTaskList c) (ct_rx c) (mWaitAtQueue c) (mWaitMS c) (mTTQ c) (ct_logLevel c) (ct_toKernel c) (ct_posted c).
Definition with_tasks (l : list (Z * TTaskInfo T)) c : container T :=
  Container (ct_hostId c) (ct_containerId c) (mCheckStepTime c) (ct_msgCount c) (ct_timerCount c) (mInnerProcCount c) (ct_steps c) l (ct_rx c) (mWaitAtQueue c) (mWaitMS c) (mTTQ c) (ct_logLevel c) (ct_toKernel c) (ct_posted c).
Definition with_rx (q : fifo TMsg) c : container T :=
  Container (ct_hostId c) (ct_containerId c) (mCheckStepTime c) (ct_msgCount c) (ct_timerCount c) (mInnerProcCount c) (ct_steps c) (mTaskList c) q (mWaitAtQueue c) (mWaitMS c) (mTTQ c) (ct_logLevel c) (ct_toKernel c) (ct_posted c).
Definition with_ttq (s : kern) c : container T :=
  Container (ct_hostId c) (ct_containerId c) (mCheckStepTime c) (ct_msgCount c) (ct_timerCount c) (mInnerProcCount c) (ct_steps c) (mTaskList c) (ct_rx c) (mWaitAtQueue c) (mWaitMS c) s (ct_logLevel c) (ct_toKernel c) (ct_posted c).
Definition with_level (v : option Z) c : container T :=
  Container (ct_hostId c) (ct_containerId c) (mCheckStepTime c) (ct_msgCount c) (ct_timerCount c) (mInnerProcCount c) (ct_steps c) (mTaskList c) (ct_rx c) (mWaitAtQueue c) (mWaitMS c) (mTTQ c) v (ct_toKernel c) (ct_posted c).
Definition count_msg  c : container T :=
  Container (ct_hostId c) (ct_containerId c) (mCheckStepTime c) (u32 (ct_msgCount c + 1)) (ct_timerCount c) (mInnerProcCount c) (ct_steps c) (mTaskList c) (ct_rx c) (mWaitAtQueue c) (mWaitMS c) (mTTQ c) (ct_logLevel c) (ct_toKernel c) (ct_posted c).
Definition count_timer  c : container T :=
  Container (ct_hostId c) (ct_containerId c) (mCheckStepTime c) (ct_msgCount c) (u32 (ct_timerCount c + 1)) (mInnerProcCount c) (ct_steps c) (mTaskList c) (ct_rx c) (mWaitAtQueue c) (mWaitMS c) (mTTQ c) (ct_logLevel c) (ct_toKernel c) (ct_posted c).
Definition count_inner  c : container T :=
  Container (ct_hostId c) (ct_containerId c) (mCheckStepTime c) (ct_msgCount c) (ct_timerCount c) (u32 (mInnerProcCount c + 1)) (ct_steps c) (mTaskList c) (ct_rx c) (mWaitAtQueue c) (mWaitMS c) (mTTQ c) (ct_logLevel c) (ct_toKernel c) (ct_posted c).
Definition to_kernel (m : TUniNetMsg) c : container T :=
  Container (ct_hostId c) (ct_containerId c) (mCheckStepTime c) (ct_msgCount c) (ct_timerCount c) (mInnerProcCount c) (ct_steps c) (mTaskList c) (ct_rx c) (mWaitAtQueue c) (mWaitMS c) (mTTQ c) (ct_logLevel c) (ct_toKernel c ++ [m]) (ct_posted c).
Definition postTo (m : TMsg) c : container T :=
  Container (ct_hostId c) (ct_containerId c) (mCheckStepTime c) (ct_msgCount c) (ct_timerCount c) (mInnerProcCount c) (ct_steps c) (mTaskList c) (ct_rx c) (mWaitAtQueue c) (mWaitMS c) (mTTQ c) (ct_logLevel c) (ct_toKernel c) (ct_posted c ++ [m]).
Definition with_derived (d : T) t : TAbstractTask T :=
  AbstractTask (objectType t) (objectName t) (buildInfo t) (mTaskId t) (mHostId t) (mContainerId t) (mPhyAddr t) (mInstId t) (logType t) (logLevel t) (logToSyslog t) (syslogTaskID t) (mMsgProcCount t) (mTimerProcCount t) (mTME t) (currentTime t) d.
Definition with_time (n : Z) t : TAbstractTask T :=
  AbstractTask (objectType t) (objectName t) (buildInfo t) (mTaskId t) (mHostId t) (mContainerId t) (mPhyAddr t) (mInstId t) (logType t) (logLevel t) (logToSyslog t) (syslogTaskID t) (mMsgProcCount t) (mTimerProcCount t) (mTME t) n (derived t).
Definition with_log (ty lv : Z) t : TAbstractTask T :=
  AbstractTask (objectType t) (objectName t) (buildInfo t) (mTaskId t) (mHostId t) (mContainerId t) (mPhyAddr t) (mInstId t) ty lv (logToSyslog t) (syslogTaskID t) (mMsgProcCount t) (mTimerProcCount t) (mTME t) (currentTime t) (derived t).
Definition with_timers (l : list (Z * Z)) t : TAbstractTask T :=
  AbstractTask (objectType t) (objectName t) (buildInfo t) (mTaskId t) (mHostId t) (mContainerId t) (mPhyAddr t) (mInstId t) (logType t) (logLevel t) (logToSyslog t) (syslogTaskID t) (mMsgProcCount t) (mTimerProcCount t) l (currentTime t) (derived t).
Definition count_dialog (d : Z) t : TAbstractTask T :=
  AbstractTask (objectType t) (objectName t) (buildInfo t) (mTaskId t) (mHostId t) (mContainerId t) (mPhyAddr t) (mInstId t) (logType t) (logLevel t) (logToSyslog t) (syslogTaskID t) (alter (λ n, u32 (n + 1)) (Z.to_nat d) (mMsgProcCount t)) (mTimerProcCount t) (mTME t) (currentTime t) (derived t).
Definition count_timeout  t : TAbstractTask T :=
  AbstractTask (objectType t) (objectName t) (buildInfo t) (mTaskId t) (mHostId t) (mContainerId t) (mPhyAddr t) (mInstId t) (logType t) (logLevel t) (logToSyslog t) (syslogTaskID t) (mMsgProcCount t) (u32 (mTimerProcCount t + 1)) (mTME t) (currentTime t) (derived t).

(** [std::map<UINT, TTaskInfo*>]: entries in the order of the ids. *)
Fixpoint map_find {V} (k : Z) (l : list (Z * V)) : option V :=
  match l with [] => None | (k', v) :: l => if decide (k' = k) then Some v else map_find k l end.
Fixpoint map_insert {V} (k : Z) (v : V) (l : list (Z * V)) : list (Z * V) :=
  match l with
  | [] => [(k, v)]
  | (k', v') :: l' => if decide (k < k')%Z then (k, v) :: l else if decide (k = k') then l else (k', v') :: map_insert k v l'
  end.
Fixpoint map_update {V} (k : Z) (f : V → V) (l : list (Z * V)) : list (Z * V) :=
  match l with [] => [] | (k', v) :: l => if decide (k' = k) then (k', f v) :: l else (k', v) :: map_update k f l end.
Definition upd_info (id : Z) (f : TTaskInfo T → TTaskInfo T) : C unit :=
  modify (λ c, with_tasks (map_update id f (mTaskList c)) c).
Definition upd_task (id : Z) (f : TAbstractTask T → TAbstractTask T) : C unit :=
  upd_info id (λ i, TaskInfo (ti_taskType i) (ti_taskId i) (f (ti_task i)) (ti_steps i)).

(** *** What a task may do ([TAbstractTask::sendMsg], [post], [sendMsgSelf],
    [setTimer], [delTimer]) *)
Definition stamp t (m : TUniNetMsg) : TUniNetMsg :=
  UniNetMsg (Tuple (objectType t) (mTaskId t) (mContainerId t)) (optionSet m) (Addr (mTaskId t) (mPhyAddr t) (mInstId t)) (tAddr m)
    (dialogType m) (msgName m) (msgType m) (transID m) (cseq m) (ctrlMsgHdr m) (msgBody m).
Definition sendMsg t (m : TUniNetMsg) : C unit := modify (to_kernel (stamp t m)).
Definition stamp_event t (e : TEventMsg) : TEventMsg :=
  EventMsg (Tuple (objectType t) (mTaskId t) (mContainerId t)) (e_eventID e) (e_transID e) (e_status e) (e_taskID e) (e_instID e) (e_info e).
Definition postEvent t (e : TEventMsg) : C unit := modify (postTo (REvent (stamp_event t e))).
Definition on_rx {A} : M (fifo TMsg) A → C A := zoom ct_rx with_rx.
Definition on_ttq {A} : M kern A → C A := zoom mTTQ with_ttq.
Definition sendMsgSelf (m : TMsg) : C unit := on_rx (Fifo.add m).
(** The parameter is the task's buffer; without a delay nobody takes it over. *)
Definition task_setTimer o t (mark delay : Z) (para : option bytes) : C Z :=
  p ← on_ttq (λ s, Some (alloc_para para s));
  if decide (0 < delay)%Z then on_ttq (setTimer (o_ms o) mark delay (mTaskId t) 1 p) else mret 0%Z.
Definition task_setTimerId o t (mark : Z) (para : option bytes) : C Z :=
  if decide (0 ≤ mark < TASK_TIMER_NUM)%Z then
    let '(id, delay) := default (0%Z, 0%Z) (mTME t !! Z.to_nat mark) in task_setTimer o t id delay para
  else on_ttq (λ s, Some (alloc_para para s)) ;; mret 0%Z.
Definition task_delTimer (key : Z) : C bool := on_ttq (delTimer key).
Fixpoint exec {A} o t (p : tprog A) : C A :=
  match p with
  | TRet a => mret a
  | TSendMsg m k => sendMsg t m ;; exec o t k
  | TPostEvent e k => postEvent t e ;; exec o t k
  | TSendSelf m k => sendMsgSelf m ;; exec o t k
  | TSetTimer mark delay para k => n ← task_setTimer o t mark delay para; exec o t (k n)
  | TSetTimerId mark para k => n ← task_setTimerId o t mark para; exec o t (k n)
  | TDelTimer key k => task_delTimer key ;; exec o t k
  end.
(** [sysLog(...)] *)
Definition cLogLevel : list string :=
  ["[LOG_EMERG]"; "[LOG_ALERT]"; "[LOG_CRIT]"; "[LOG_ERR]"; "[LOG_WARNING]"; "[LOG_NOTICE]"; "[LOG_INFO]"; "[LOG_DEBUG]"]%string.
Definition sysLog_text t (id : option bytes) (level : Z) (info : bytes) : bytes :=
  (if decide (0 ≤ level ≤ 7)%Z then lit (default ""%string (cLogLevel !! Z.to_nat level)) else []) ++
  objectName t ++ lit " " ++ dec (mTaskId t) ++ lit " " ++ dec (mInstId t) ++ lit "/" ++
  (match id with Some id => lit "id=" ++ id ++ lit "/" | None => [] end) ++ info.
Definition sysLog {A} t (id : option bytes) (level : Z) (info : bytes) (ty : Z) (k : tprog A) : tprog A :=
  if decide (logToSyslog t = 0%Z) then k else
  let m := addCtrlMsgHdr (addMsgBody new_TUniNetMsg (sysLog_text t id level info)) 0 level ty in
  TSendMsg (UniNetMsg (sender m) (optionSet m) (oAddr m) (Addr (syslogTaskID t) (phyAddr (tAddr m)) (taskInstID (tAddr m)))
    0 (msgName m) (msgType m) (transID m) (cseq m) (ctrlMsgHdr m) (msgBody m)) k.

(** A virtual function of the task with this id. *)
Definition virtual {A} o (id : Z) (f : TAbstractTask T → tprog (A * T)) : C A :=
  l ← gets mTaskList; i ← defined (map_find id l);
  r ← exec o (ti_task i) (f (ti_task i)); upd_task id (with_derived r.2) ;; mret r.1.

(** *** Registration ([TTaskContainer::registerTask], [TAbstractTask::init])
    An id that is taken is logged with [%s], which is undefined. *)
Definition timer_table (l : list (Z * Z)) : list (Z * Z) := take 32 (l ++ replicate 32 (0%Z, 0%Z)).
Definition new_task (build : bytes) (d : T) : TAbstractTask T :=
  AbstractTask objtype_Task [] build 0 0 0 0 0 0 0 0 10 (replicate 6 0%Z) 0 (replicate 32 (0, 0)%Z) 0 d.
Definition task_init (hostid containerid taskid : Z) (env : task_env) t : TAbstractTask T :=
  AbstractTask (env_objectType env) (env_objectName env) (buildInfo t) taskid hostid containerid (genPhyAddr hostid containerid) 1
    (env_logType env) (env_logLevel env) (env_logToSyslog env) (env_syslogTaskID env)
    (mMsgProcCount t) (mTimerProcCount t) (timer_table (env_timers env)) (currentTime t) (derived t).
Definition registerTask o (taskid : Z) t : C bool :=
  if decide (0 < taskid)%Z then
    h ← gets ct_hostId; ct ← gets ct_containerId;
    let t := task_init h ct taskid (o_env o taskid) t in
    r ← exec o t (onInit t);
    let t := with_derived r.2 t in
    l ← gets mTaskList;
    match map_find taskid l with
    | Some _ => ub
    | None => modify (with_tasks (map_insert taskid (TaskInfo (objectType t) taskid t new_steps) l)) ;; mret true
    end
  else mret false.

(** *** Measuring steps (the [_CHECK_STEPTIME] macros) *)
Definition steptime o : Z := u32 (o_cur o - o_last o).
Definition step_msg (n : Z) (s : steps) : steps :=
  let sum := i32 (msgStepTime s + n) in let left := i32 (msgLoop s - 1) in
  if decide (left = 0%Z) then Steps 0 (Z.quot sum 100) (timerStepTime s) (timerStepTime_avg s) 100 (timerLoop s)
  else Steps sum (msgStepTime_avg s) (timerStepTime s) (timerStepTime_avg s) left (timerLoop s).
Definition step_timeout (n : Z) (s : steps) : steps :=
  let sum := i32 (timerStepTime s + n) in let left := i32 (timerLoop s - 1) in
  if decide (left = 0%Z) then Steps (msgStepTime s) (msgStepTime_avg s) 0 (Z.quot sum 100) (msgLoop s) 100
  else Steps (msgStepTime s) (msgStepTime_avg s) sum (timerStepTime_avg s) (msgLoop s) left.
Definition check_step (f : Z → steps → steps) o (id : Z) : C unit :=
  b ← gets mCheckStepTime;
  if (b : bool) then
    modify (λ c, with_steps (f (steptime o) (ct_steps c)) c) ;;
    upd_info id (λ i, TaskInfo (ti_taskType i) (ti_taskId i) (ti_task i) (f (steptime o) (ti_steps i)))
  else mret tt.

(** *** Messages *)
(** [TAbstractTask::process], with [setCurrentTime]. *)
Definition task_process o (id : Z) (m : TUniNetMsg) : C unit :=
  upd_task id (with_time (o_time o)) ;;
  (if decide (0 ≤ dialogType m ≤ 5)%Z then upd_task id (count_dialog (dialogType m)) else mret tt) ;;
  virtual o id (procMsg m).
Definition process_uni o (m : TUniNetMsg) : C unit :=
  if decide (logAddr (tAddr m) ≤ 0)%Z then mret tt else
  l ← gets mTaskList;
  match map_find (logAddr (tAddr m)) l with
  | None => mret tt
  | Some _ => task_process o (logAddr (tAddr m)) m ;; check_step step_msg o (logAddr (tAddr m)) ;; modify count_msg
  end.

(** *** Timeouts *)
(** What [timerPara] points at. *)
Definition para_content (p : ptr) : C (option bytes) :=
  if decide (p = NULL) then mret None else s ← gets mTTQ; b ← defined (bufs s !! p); mret (Some b).
(** [TAbstractTask::processTimeout], with [setCurrentTime]. *)
Definition task_processTimeout o (id key iid : Z) (para : option bytes) : C unit :=
  upd_task id (with_time (o_time o)) ;; upd_task id count_timeout ;; virtual o id (onTimeOut key iid para).
(** At the end the message and with it its parameter are deleted. *)
Definition process_timeout o (m : TTimeOutMsg) : C unit :=
  l ← gets mTaskList;
  (match map_find (timerTID m) l with
   | None => mret tt
   | Some _ =>
       para ← para_content (timerPara m);
       task_processTimeout o (timerTID m) (timerKey m) (timerIID m) para ;;
       check_step step_timeout o (timerTID m) ;; modify count_timer
   end) ;; on_ttq (delete_para (timerPara m)).

(** *** Events *)
Definition put_status (n : Z) (e : TEventMsg) : TEventMsg :=
  EventMsg (e_sender e) (e_eventID e) (e_transID e) n (e_taskID e) (e_instID e) (e_info e).
Definition put_info (b : bytes) (e : TEventMsg) : TEventMsg :=
  EventMsg (e_sender e) (e_eventID e) (e_transID e) (e_status e) (e_taskID e) (e_instID e) b.
Definition add_info (b : bytes) (e : TEventMsg) : TEventMsg := put_info (e_info e ++ b) e.
(** [genEventRsp], on a new message *)
Definition genEventRsp (e : TEventMsg) (who : option (Z * Z)) (ct : Z) : TEventMsg :=
  let '(ty, id) := default (objtype_Kernal, TASKCONTAINER_TASKID) who in
  EventMsg (Tuple ty id ct) (e_eventID e) (e_transID e) 1 (taskID (e_sender e)) (instID (e_sender e)) [].
Definition genStatus c (i : TTaskInfo T) : bytes :=
  lit "Status: HostID=" ++ dec (ct_hostId c) ++ lit ", ContainerID=" ++ dec (ct_containerId c) ++ lit ", TaskID=" ++ dec (ti_taskId i) ++ [13; 10]%Z ++
  lit " InstStatus: ProcMsgCount(" ++ dec (ct_msgCount c) ++ lit "), ProcTimerMsgCount(" ++ dec (ct_timerCount c) ++
  lit "), ProcEventMsgCount(" ++ dec (mInnerProcCount c) ++ lit ")" ++ [13; 10]%Z ++
  if mCheckStepTime c then
    lit "             AvgStepTime(UniMsg=" ++ dec (msgStepTime_avg (ct_steps c)) ++ lit "ms; TimerMsg=" ++ dec (timerStepTime_avg (ct_steps c)) ++ lit "ms)" ++ [13; 10]%Z ++
    lit " TaskStatus: AvgStepTime(UniMsg=" ++ dec (msgStepTime_avg (ti_steps i)) ++ lit "ms; TimerMsg=" ++ dec (timerStepTime_avg (ti_steps i)) ++ lit "ms)" ++ [13; 10]%Z
  else lit " TaskStatus:" ++ [13; 10]%Z.

(** [TAbstractTask::onStart] and the others, on the answer. *)
Definition onStart o (id : Z) (rsp : TEventMsg) : C TEventMsg :=
  b ← virtual o id preTaskStart; mret (put_status (if (b : bool) then 1 else 2)%Z rsp).
Definition onShutdown o (id : Z) (rsp : TEventMsg) : C TEventMsg :=
  b ← virtual o id preTaskShutdown; mret (put_status (if (b : bool) then 1 else 2)%Z rsp).
Definition onHeartBeat (rsp : TEventMsg) : C TEventMsg := mret (put_status 1 rsp).
Definition reload_words : list bytes := replicate 5 [].
Definition onReload o (id : Z) (rsp : TEventMsg) (cmd : bytes) : C TEventMsg :=
  r ← defined (cs_split cmd reload_words); let w0 := r.2 !!! 0 in let w1 := r.2 !!! 1 in
  (if word_is w0 "reload" then
     let env := o_env o id in
     (if word_is w1 "all" || word_is w1 "log" then
        upd_task id (with_log (env_logType env) (env_logLevel env)) ;;
        modify (λ c, match ct_logLevel c with Some _ => with_level (Some (env_logLevel env)) c | None => c end)
      else mret tt) ;;
     if word_is w1 "all" || word_is w1 "timer" then upd_task id (with_timers (timer_table (env_timers env))) else mret tt
   else mret tt) ;;
  b ← virtual o id (reloadTaskEnv cmd); mret (put_status (if (b : bool) then 1 else 2)%Z rsp).
Definition task_status t : bytes :=
  let n i := dec (mMsgProcCount t !!! i) in
  lit "             TaskName( " ++ objectName t ++ lit " v" ++ buildInfo t ++ lit "), " ++
  lit "msgCount: MESSAGE(" ++ n 0 ++ lit "),BEGIN(" ++ n 1 ++ lit "),CONTINUE(" ++ n 2 ++ lit "),END(" ++ n 3 ++
  lit "),BROADCAST(" ++ n 4 ++ lit "),MULTICAST(" ++ n 5 ++ lit "),TIMER(" ++ dec (mTimerProcCount t) ++ lit ")" ++ [13; 10]%Z.
Definition onStatues o (id : Z) (rsp : TEventMsg) (cmd : bytes) : C TEventMsg :=
  l ← gets mTaskList; i ← defined (map_find id l);
  st ← virtual o id (getStatues cmd (e_info rsp ++ task_status (ti_task i)));
  mret (put_status 1 (put_info st rsp)).

(** The switch over the event, and the answer of one task. *)
Definition handle_event o (e : TEventMsg) (id : Z) (rsp : TEventMsg) : C TEventMsg :=
  if decide (e_eventID e = KERNAL_APP_INIT) then onStart o id rsp
  else if decide (e_eventID e = KERNAL_APP_HEATBEAT) then onHeartBeat rsp
  else if decide (e_eventID e = KERNAL_APP_RELOAD) then onReload o id rsp (e_info e)
  else if decide (e_eventID e = KERNAL_APP_SHUTDOWN) then onShutdown o id rsp
  else if decide (e_eventID e = KERNAL_APP_STATUES) then
    l ← gets mTaskList; i ← defined (map_find id l);
    text ← gets (λ c, genStatus c i); onStatues o id (add_info text rsp) (e_info e)
  else mret rsp.
Definition answer_event o (e : TEventMsg) (id : Z) : C unit :=
  l ← gets mTaskList; i ← defined (map_find id l); ct ← gets ct_containerId;
  rsp ← handle_event o e id (genEventRsp e (Some (ti_taskType i, ti_taskId i)) ct);
  modify count_inner ;; modify (postTo (REvent rsp)).
Fixpoint answer_all o (e : TEventMsg) (ids : list Z) : C unit :=
  match ids with [] => mret tt | id :: ids => answer_event o e id ;; answer_all o e ids end.

(** "set stepcheck" and "set loglevel" are the container's: [true] if the event
    was one of them. *)
Definition answer_self (e : TEventMsg) (text : bytes) : C unit :=
  ct ← gets ct_containerId; modify (postTo (REvent (add_info text (genEventRsp e None ct)))).
Definition level_of (w : bytes) : Z :=
  if word_is w "DEBUG" then Debug else if word_is w "INFO" then Info else Err.
Definition container_command (e : TEventMsg) : C bool :=
  r ← defined (cs_split (e_info e) reload_words);
  let w0 := r.2 !!! 0 in let w1 := r.2 !!! 1 in let w2 := r.2 !!! 2 in
  if word_is w0 "set" then
    if word_is w1 "stepcheck" then
      modify (with_check (word_is w2 "on")) ;;
      answer_self e (lit "stepcheck=" ++ if word_is w2 "on" then lit "on" else lit "off") ;; mret true
    else if word_is w1 "loglevel" then
      modify (λ c, match ct_logLevel c with Some _ => with_level (Some (level_of w2)) c | None => c end) ;;
      answer_self e (lit "logLevel=" ++ if decide (w2 = []) then lit "ERROR" else w2) ;; mret true
    else mret false
  else mret false.
Definition process_event o (e : TEventMsg) : C unit :=
  done_ ← (if decide (e_eventID e = KERNAL_APP_RELOAD) then container_command e else mret false);
  if (done_ : bool) then mret tt else
  l ← gets mTaskList;
  if decide (0 < e_taskID e)%Z then
    match map_find (e_taskID e) l with None => mret tt | Some _ => answer_event o e (e_taskID e) end
  else if decide (e_taskID e = 0)%Z then answer_all o e l.*1 else mret tt.

(** *** One turn ([TTaskContainer::process]) *)
Definition dispatch o (m : TMsg) : C unit :=
  match m with RUni m => process_uni o m | RTimeOut m => process_timeout o m | REvent e => process_event o e | ROther => mret tt end.
(** [mTTQ->process()] adds the timeouts to the receive queue. *)
Fixpoint add_timeouts (l : list TTimeOutMsg) : M (fifo TMsg) unit :=
  match l with [] => mret tt | m :: l => Fifo.add (RTimeOut m) ;; add_timeouts l end.
Definition run_timers (now now' : Z) : C Z :=
  n ← on_ttq (TimerQueue.process now now');
  s ← gets mTTQ; on_rx (add_timeouts (TimerQueue.mFifo s)) ;;
  on_ttq (modify (λ s, Kern (mTimers s) (mTimerKey s) [] (mTimerStoped s) (bufs s))) ;; mret n.
Definition next_step (n : Z) : C Z :=
  w ← gets mWaitAtQueue; ms ← gets mWaitMS;
  if (w : bool) then mret (if decide (u32 ms < n)%Z then u32 ms else n) else mret 0%Z.
(** The readings of the clock at the start: by [process], [msTillNextTimer] and
    [getNext]. *)
Record clocks := Clocks { k_now : Z; k_next : Z; k_begin : Z; k_loop : Z }.
(** The call of [getNext] returned or waits; the message it returned. *)
Definition turn_end o (r : call TMsg) : C (option TMsg) :=
  match r with Got m => dispatch o m ;; mret (Some m) | _ => mret None end.
Definition turn_begin (k : clocks) : C (call TMsg) :=
  n ← run_timers (k_now k) (k_next k); n ← next_step n;
  on_rx (getNext_ms (i32 n) (k_begin k) (k_loop k)).

(** *** Runs *)
Inductive cevent :=
  | CTurn (k : clocks) (o : outside)
  | CAdd (m : TMsg)
  | CWake (signaled : bool) (now : Z) (o : outside).
(** The thread is waiting in [getNext] or between two turns. *)
Definition cstate : Type := container T * option waiting.
Definition after_call o (r : call TMsg) (c : container T) : option (option TMsg * cstate) :=
  '(m, c) ← turn_end o r c;
  Some (m, (c, match r with Waits w => Some w | _ => None end)).
Definition cstep (ev : cevent) : M cstate (option TMsg) := λ s,
  match ev, s.2 with
  | CTurn k o, None => '(r, c) ← turn_begin k s.1; after_call o r c
  | CAdd m, w => '(_, c) ← on_rx (Fifo.add m) s.1; Some (None, (c, w))
  | CWake b now o, Some w =>
      if no_timeout w b then Some (None, s)
      else '(r, c) ← on_rx (resume w b now) s.1; after_call o r c
  | _, _ => Some (None, s)
  end.
(** The messages that were handed out, in order. *)
Fixpoint crun (evs : list cevent) : M cstate (list TMsg) :=
  match evs with [] => mret [] | ev :: evs => r ← cstep ev; rs ← crun evs; mret (option_list r ++ rs) end.

Definition new_container (ctid hostid : Z) (level : option Z) : container T :=
  Container hostid ctid false 0 0 0 new_steps [] new_Fifo true 1000 new_kern level [] [].
(** [TPSAContainer()]: the thread waits in [select]. *)
Definition new_psa_container (ctid hostid : Z) (level : option Z) : container T :=
  Container hostid ctid false 0 0 0 new_steps [] new_Fifo false 0 new_kern level [] [].
End container.

(** [TPSAContainer::setMilliSeconds], [TPSATask::setMilliSeconds] on [mSelectMS]
    (seconds and microseconds). *)
Definition psa_setMilliSeconds (ms : Z) (tv : Z * Z) : Z * Z :=
  let sec := (ms / 1000)%Z in let usec := (ms mod 1000 * 1000)%Z in
  (if decide (sec < tv.1)%Z then sec else tv.1, if decide (usec < tv.2)%Z then usec else tv.2).
Definition psatask_setMilliSeconds (ms : Z) : Z * Z := (ms / 1000, ms mod 1000 * 1000)%Z.
