(* ===== verification/ContainerRun.v ===== *)
(** * Runs of a task container: what tasks cannot break, and what they get

    Proofs about TaskContainer.v.  A task's programs are bounded ([good]): they
    set finitely many timers, and what they send to themselves is well formed.
    Under that, whatever the tasks do, a turn of the container is defined, keeps
    the invariant [cinv] - the timers' ownership of their parameters, counting
    those of the timeouts in the receive queue, and the queue itself - and only
    appends to the queue; so messages are handed out in order, each message is
    reached, and timers reach their task. *)

From Stdlib Require Import Sorted.
From S2P Require Import Prelude Fifo Command UniMsg TransState TaskSelector TimerQueue TaskContainer.

(** ** Timer operations do not look at the queue of timeouts *)
Definition with_mfifo (l : list TTimeOutMsg) (s : kern) : kern :=
  Kern (mTimers s) (mTimerKey s) l (mTimerStoped s) (bufs s).
Definition behind (l : list TTimeOutMsg) (s : kern) : kern := with_mfifo (l ++ TimerQueue.mFifo s) s.
Definition framed {A} (m : M kern A) : Prop := ∀ l s,
  m (behind l s) = match m s with Some (a, s') => Some (a, behind l s') | None => None end.

Lemma framed_bind {A B} (m : M kern A) (f : A → M kern B) : framed m → (∀ a, framed (f a)) → framed (m ≫= f).
Proof. intros Hm Hf l s. unfold mbind, M_bind. rewrite Hm. destruct (m s) as [[a s']|]; [apply Hf|done]. Qed.
Lemma framed_ret {A} (a : A) : framed (mret a).
Proof. done. Qed.
Lemma framed_gets {A} (f : kern → A) : (∀ l s, f (with_mfifo l s) = f s) → framed (gets f).
Proof. intros Hf l s. unfold gets, behind. by rewrite Hf. Qed.
Lemma framed_modify f : (∀ l s, f (behind l s) = behind l (f s)) → framed (modify f).
Proof. intros Hf l s. unfold modify. by rewrite Hf. Qed.
Lemma framed_delete_para p : framed (delete_para p).
Proof. intros l s. unfold delete_para. case_decide; [done|]. cbn. by destruct (bufs s !! p). Qed.
Lemma framed_alloc para : framed (λ s, Some (alloc_para para s)).
Proof. intros l s. by destruct para. Qed.
Lemma framed_processTimer x : framed (processTimer x).
Proof.
  unfold processTimer. apply framed_bind; [by apply framed_gets|]. intros st.
  destruct (st !! tmKey x) as [[]|].
  - apply framed_bind; [|intros; by apply framed_modify]. apply framed_modify. intros l s. unfold behind, with_mfifo, TimerQueue.post. cbn. by rewrite app_assoc.
  - apply framed_bind; [done|intros; by apply framed_modify].
  - apply framed_delete_para.
Qed.
Section framed.
Context `{MinTop}.
Lemma framed_process_loop fuel now : framed (process_loop fuel now).
Proof.
  induction fuel as [|fuel IH]; cbn [process_loop]; [done|]. apply framed_bind; [by apply framed_gets|]. intros q.
  destruct (min_top q) as [x|]; [|apply framed_ret]. case_decide; [apply framed_ret|].
  apply framed_bind; [apply framed_processTimer|]. intros _. apply framed_bind; [by apply framed_modify|done].
Qed.
Lemma framed_process now now' : framed (TimerQueue.process now now').
Proof.
  unfold TimerQueue.process. apply framed_bind; [by apply framed_gets|]. intros n. apply framed_bind; [apply framed_process_loop|].
  intros _. by apply framed_gets.
Qed.
End framed.
Lemma framed_setTimer now mark delay tid iid p : framed (setTimer now mark delay tid iid p).
Proof. intros l s. unfold setTimer. by case_decide. Qed.
Lemma framed_delTimer key : framed (delTimer key).
Proof. by intros l s. Qed.

(** Setting a timer with a new parameter, as a task does. *)
Definition set_with_para (now mark delay tid : Z) (para : option bytes) : M kern Z :=
  p ← (λ s, Some (alloc_para para s)); if decide (0 < delay)%Z then setTimer now mark delay tid 1 p else mret 0%Z.
Lemma framed_set_with_para now mark delay tid para : framed (set_with_para now mark delay tid para).
Proof. apply framed_bind; [apply framed_alloc|]. intros p. case_decide; [apply framed_setTimer|apply framed_ret]. Qed.
Lemma set_with_para_ok `{MinTopLaws} now mark delay tid para s : kinv s → (mTimerKey s < 2 ^ 32 - 1)%N →
  ∃ k s', set_with_para now mark delay tid para s = Some (k, s') ∧ kinv s' ∧ TimerQueue.mFifo s' = TimerQueue.mFifo s ∧
    (mTimerKey s' ≤ mTimerKey s + 1)%N ∧ length (mTimers s') ≤ S (length (mTimers s)).
Proof.
  intros Hs Hb. pose proof (kexec_inv (KSet now mark delay tid 1 para) s Hs Hb) as Hk. unfold wp in Hk. cbn [kexec] in Hk.
  pose proof (alloc_para_spec para s Hs) as Ha. unfold set_with_para, mbind, M_bind in *.
  destruct (alloc_para para s) as [p s1]. destruct Ha as (Hq & Hkey & Hf & _).
  unfold setTimer in *. case_decide.
  - unfold add in *. cbn [mret] in *. do 2 eexists. split; [reflexivity|]. destruct Hk as (Hinv & Hb' & _). split; [exact Hinv|].
    cbn [TimerQueue.mFifo mTimerKey mTimers] in *. rewrite Hf, Hq, length_app. cbn in *. split_and!; [done|lia|lia].
  - unfold mret, M_ret in *. do 2 eexists. split; [reflexivity|]. destruct Hk as (Hinv & Hb' & _). split; [exact Hinv|].
    rewrite Hf, Hq, Hkey. split_and!; [done|lia|lia].
Qed.
(** Deleting a timeout message with its parameter. *)
Lemma owned_behind l s : owned (behind l s) = filter (λ p, p ≠ NULL) ((mPara <$> mTimers s) ++ (timerPara <$> (l ++ TimerQueue.mFifo s))).
Proof. done. Qed.
Lemma delete_held_ok m l s : kinv (behind (m :: l) s) →
  ∃ s', delete_para (timerPara m) s = Some (tt, s') ∧ kinv (behind l s') ∧ TimerQueue.mFifo s' = TimerQueue.mFifo s ∧
    mTimerKey s' = mTimerKey s ∧ mTimers s' = mTimers s.
Proof.
  intros [Hk Hr Ho Hl]. rewrite owned_behind in Ho. setoid_rewrite owned_behind in Hl.
  assert (Hp : (mPara <$> mTimers s) ++ (timerPara <$> (m :: l) ++ TimerQueue.mFifo s) ≡ₚ
    timerPara m :: (mPara <$> mTimers s) ++ (timerPara <$> (l ++ TimerQueue.mFifo s))).
  { cbn [app]. rewrite fmap_cons. by rewrite Permutation_middle. }
  unfold delete_para. case_decide as Hn.
  - exists s. split; [done|]. split; [|done]. split; [done|done| |].
    + rewrite owned_behind. rewrite Hp, filter_cons, decide_False in Ho by tauto. done.
    + rewrite owned_behind. intros p Hin. apply Hl. rewrite Hp, filter_cons, decide_False by tauto. done.
  - rewrite Hp, filter_cons, decide_True in Ho by done. apply NoDup_cons in Ho as [Hnot Ho].
    destruct (Hl (timerPara m)) as [b Hb]; [rewrite Hp, filter_cons, decide_True by done; by left|]. cbn [behind with_mfifo bufs] in Hb. rewrite Hb.
    eexists. split; [reflexivity|]. split; [|done]. split; [done|done| |].
    + rewrite owned_behind. done.
    + rewrite owned_behind. cbn [mTimers TimerQueue.mFifo]. intros p Hin. cbn [behind with_mfifo bufs]. rewrite lookup_delete_ne; [|by intros <-].
      apply Hl. rewrite Hp, filter_cons, decide_True by done. by right.
Qed.

(** ** What is asked of tasks and of messages *)
(** A command that [split] can take apart (see [split_overruns]). *)
Definition command_ok (e : TEventMsg) : Prop :=
  e_eventID e = KERNAL_APP_RELOAD → plain (e_info e) ∧ length (words (e_info e)) ≤ 5.
Definition queued_ok (m : TMsg) : Prop := match m with REvent e => command_ok e | _ => True end.
(** From outside come no timeouts with a parameter. *)
Definition msg_ok (m : TMsg) : Prop := queued_ok m ∧ match m with RTimeOut m => timerPara m = NULL | _ => True end.
(** At most [n] timers set and messages sent to itself, on every path. *)
Fixpoint good {A} (n : nat) (p : tprog A) : Prop :=
  match p with
  | TRet _ => True
  | TSendMsg _ k | TPostEvent _ k | TDelTimer _ k => good n k
  | TSendSelf m k => msg_ok m ∧ match n with O => False | S n => good n k end
  | TSetTimer _ _ _ k | TSetTimerId _ _ k => match n with O => False | S n => ∀ key, good n (k key) end
  end.
Class TaskLaws (T : Type) `{TaskCode T} (B : nat) : Prop := {
  good_preTaskStart t : good B (preTaskStart t);
  good_preTaskShutdown t : good B (preTaskShutdown t);
  good_reloadTaskEnv cmd t : good B (reloadTaskEnv cmd t);
  good_getStatues cmd st t : good B (getStatues cmd st t);
  good_procMsg m t : good B (procMsg m t);
  good_onTimeOut key iid para t : good B (onTimeOut key iid para t);
}.

(** ** Invariant *)
Definition timeouts (l : list TMsg) : list TTimeOutMsg := omap (λ m, match m with RTimeOut m => Some m | _ => None end) l.

Section safe.
Context {T : Type}.
Implicit Types (c : container T).

Definition kview (held : list TTimeOutMsg) c : kern := behind (held ++ timeouts (Fifo.mFifo (ct_rx c))) (mTTQ c).
(** The rows of the task list that do not change. *)
Definition rows c : list (Z * Z * Z) := (λ e : Z * TTaskInfo T, (e.1, ti_taskType e.2, ti_taskId e.2)) <$> mTaskList c.
Record cinv (held : list TTimeOutMsg) c : Prop := {
  ci_kern : kinv (kview held c);
  ci_empty : TimerQueue.mFifo (mTTQ c) = [];
  ci_fifo : fifo_ok (ct_rx c);
  ci_queued : Forall queued_ok (Fifo.mFifo (ct_rx c));
}.
(** What bounds keys, timers and the queue. *)
Definition load c : Z := Z.of_N (mTimerKey (mTTQ c)) + Z.of_nat (length (Fifo.mFifo (ct_rx c))) + Z.of_nat (length (mTimers (mTTQ c))).
Record grows (n : nat) c c' : Prop := {
  g_rows : rows c' = rows c;
  g_const : ct_hostId c' = ct_hostId c ∧ ct_containerId c' = ct_containerId c ∧ mWaitAtQueue c' = mWaitAtQueue c ∧ mWaitMS c' = mWaitMS c;
  g_rx : ∃ l, Fifo.mFifo (ct_rx c') = Fifo.mFifo (ct_rx c) ++ l;
  g_load : (load c' ≤ load c + 2 * Z.of_nat n)%Z;
  g_posted : ∃ l, ct_posted c' = ct_posted c ++ l;
}.
Lemma grows_refl n c : grows n c c.
Proof. split; try done; [by exists []; rewrite app_nil_r|lia|by exists []; rewrite app_nil_r]. Qed.
Lemma grows_trans n1 n2 c1 c2 c3 : grows n1 c1 c2 → grows n2 c2 c3 → grows (n1 + n2) c1 c3.
Proof.
  intros [R1 (h1 & i1 & w1 & m1) (l1 & L1) P1 (q1 & Q1)] [R2 (h2 & i2 & w2 & m2) (l2 & L2) P2 (q2 & Q2)]. split.
  - congruence.
  - split_and!; congruence.
  - exists (l1 ++ l2). by rewrite L2, L1, app_assoc.
  - lia.
  - exists (q1 ++ q2). by rewrite Q2, Q1, app_assoc.
Qed.
Lemma grows_weaken n n' c c' : n ≤ n' → grows n c c' → grows n' c c'.
Proof. intros Hn [? ? ? ? ?]. split; try done. lia. Qed.

(** A computation that, with [n] more timers and messages to itself, keeps the
    invariant; [held] are timeouts taken from the queue and not yet deleted. *)
Definition safe {A} (held : list TTimeOutMsg) (r : list (Z * Z * Z)) (n : nat) (m : M (container T) A) : Prop :=
  ∀ c, cinv held c → rows c = r → (load c + 2 * Z.of_nat n < 2 ^ 32 - 1)%Z →
  wp m (λ _ c', cinv held c' ∧ grows n c c') c.

Lemma safe_ret {A} held r n (a : A) : safe held r n (mret a).
Proof. intros c Hc _ _. apply wp_ret. split; [done|apply grows_refl]. Qed.
Lemma safe_bind {A B} held r n1 n2 (m : M _ A) (f : A → M _ B) :
  safe held r n1 m → (∀ a, safe held r n2 (f a)) → safe held r (n1 + n2) (m ≫= f).
Proof.
  intros Hm Hf c Hc Hr Hb. apply wp_bind. eapply wp_mono; [apply Hm; [done|done|lia]|]. intros a c1 [Hc1 Hg1].
  eapply wp_mono; [apply Hf; [done|rewrite (g_rows _ _ _ Hg1); done|pose proof (g_load _ _ _ Hg1); lia]|].
  intros b c2 [Hc2 Hg2]. split; [done|]. by eapply grows_trans.
Qed.
Lemma safe_weaken {A} held r n n' (m : M _ A) : n ≤ n' → safe held r n m → safe held r n' m.
Proof.
  intros Hn Hm c Hc Hr Hb. eapply wp_mono; [apply Hm; [done|done|lia]|]. intros a c' [Hc' Hg]. split; [done|]. by eapply grows_weaken.
Qed.
Lemma safe_gets {A B} held r n (g : container T → A) (f : A → M _ B) :
  (∀ c, cinv held c → rows c = r → safe held r n (f (g c))) → safe held r n (gets g ≫= f).
Proof. intros Hf c Hc Hr Hb. apply wp_bind, wp_gets. by apply Hf. Qed.
Lemma safe_modify held r f :
  (∀ c, mTTQ (f c) = mTTQ c ∧ ct_rx (f c) = ct_rx c ∧ rows (f c) = rows c ∧
    (ct_hostId (f c) = ct_hostId c ∧ ct_containerId (f c) = ct_containerId c ∧ mWaitAtQueue (f c) = mWaitAtQueue c ∧ mWaitMS (f c) = mWaitMS c) ∧
    ∃ l, ct_posted (f c) = ct_posted c ++ l) → safe held r 0 (modify f).
Proof.
  intros Hf c [Hk He Hq Hm] Hr Hb. apply wp_modify. destruct (Hf c) as (Ht & Hx & Hrows & Hconst & Hp). split.
  - split; unfold kview; rewrite ?Ht, ?Hx; done.
  - split; [done|done|rewrite Hx; by exists []; rewrite app_nil_r|unfold load; rewrite Ht, Hx; lia|done].
Qed.
(** An operation on the timers that keeps their invariant. *)
Lemma safe_ttq {A} held r n (m : M kern A) : framed m →
  (∀ s, kinv s → (mTimerKey s + N.of_nat n < 2 ^ 32 - 1)%N → ∃ a s', m s = Some (a, s') ∧ kinv s' ∧ TimerQueue.mFifo s' = TimerQueue.mFifo s ∧
    (mTimerKey s' ≤ mTimerKey s + N.of_nat n)%N ∧ length (mTimers s') ≤ n + length (mTimers s)) → safe held r n (on_ttq m).
Proof.
  intros Hfr Hm c [Hk He Hq Hms] Hr Hb. unfold load in Hb. destruct (Hm _ Hk) as (a & s' & Hrun & Hs' & Hf & Hkey & Hlen); [cbn; lia|].
  unfold kview in Hrun. rewrite Hfr in Hrun. unfold on_ttq, wp, zoom. destruct (m (mTTQ c)) as [[a1 s1]|] eqn:Hm1; [|done].
  injection Hrun as -> <-. cbn [behind with_mfifo TimerQueue.mFifo mTimerKey mTimers kview] in Hf, Hkey, Hlen. apply app_inv_head in Hf.
  split.
  - split; [exact Hs'|cbn; congruence|done|done].
  - split; [done|done|by exists []; rewrite app_nil_r| |by exists []; rewrite app_nil_r]. unfold load. cbn. lia.
Qed.
(** Appending to the receive queue. *)
Lemma safe_add held r m : msg_ok m → safe held r 1 (on_rx (Fifo.add m)).
Proof.
  intros [Hq0 Hpara] c [Hk He Hq Hms] Hr Hb. unfold load in Hb. destruct (push_ok m (ct_rx c) Hq) as (q' & Hp & Hl & Hq'); [lia|].
  unfold wp, on_rx, zoom, Fifo.add. rewrite Hp. split.
  - split; [|done|done|cbn; rewrite Hl; apply Forall_app_2; [done|by constructor]].
    unfold kview. cbn [with_rx ct_rx mTTQ]. rewrite Hl. unfold timeouts. rewrite omap_app.
    destruct m as [|x| |]; cbn [omap list_omap] in *; rewrite ?app_nil_r; try exact Hk.
    fold (timeouts (Fifo.mFifo (ct_rx c))). unfold kview in Hk. set (L := timeouts (Fifo.mFifo (ct_rx c))) in *. clearbody L.
    assert (Heq : owned (behind (held ++ L ++ [x]) (mTTQ c)) = owned (behind (held ++ L) (mTTQ c))).
    { rewrite !owned_behind, He, !app_nil_r, app_assoc, fmap_app, !filter_app. cbn [fmap list_fmap].
      rewrite Hpara, filter_cons, decide_False by tauto. by rewrite filter_nil, app_nil_r. }
    destruct Hk as [Hk1 Hr1 Ho1 Hl1]. split; [done|done|by rewrite Heq|]. intros p. rewrite Heq. apply Hl1.
  - split; [done|done|cbn; rewrite Hl; by eexists| |by exists []; rewrite app_nil_r]. unfold load. cbn. rewrite Hl, length_app. cbn. lia.
Qed.
End safe.

Lemma zoom_bind {S U A B} (get : U → S) (set : S → U → U) (m : M S A) (f : A → M S B) u :
  (∀ s u, get (set s u) = s) → (∀ s s' u, set s' (set s u) = set s' u) →
  zoom get set (m ≫= f) u = (zoom get set m ≫= λ a, zoom get set (f a)) u.
Proof.
  intros Hgs Hss. unfold zoom, mbind, M_bind. destruct (m (get u)) as [[a s]|]; [|done]. rewrite Hgs.
  destruct (f a s) as [[b s']|]; [|done]. by rewrite Hss.
Qed.
Lemma map_find_update {V} (k k' : Z) (f : V → V) l :
  map_find k (map_update k' f l) = if decide (k = k') then f <$> map_find k l else map_find k l.
Proof.
  induction l as [|[k1 v] l IH]; cbn [map_update map_find]; [by case_decide|].
  destruct (decide (k1 = k')) as [->|Hne]; cbn [map_find].
  - destruct (decide (k' = k)) as [->|Hk]; [by rewrite decide_True|]. by rewrite decide_False.
  - destruct (decide (k1 = k)) as [->|Hk]; [by rewrite decide_False|]. exact IH.
Qed.
Lemma wp_ext {S A} (m m' : M S A) Q s : m s = m' s → wp m' Q s → wp m Q s.
Proof. unfold wp. by intros ->. Qed.

Section exec.
Context {T : Type} `{TaskCode T} `{MinTopLaws}.
Implicit Types (c : container T) (t : TAbstractTask T).

Definition ids (r : list (Z * Z * Z)) : list Z := (λ x, x.1.1) <$> r.
Lemma ids_rows c : ids (rows c) = (mTaskList c).*1.
Proof. unfold ids, rows. by rewrite <- list_fmap_compose. Qed.
Lemma map_find_in {V} (l : list (Z * V)) k : k ∈ l.*1 → ∃ v, map_find k l = Some v.
Proof.
  induction l as [|[k' v] l IH]; cbn [map_find]; [by intros ?%elem_of_nil|]. rewrite fmap_cons. cbn [fst].
  intros [->|Hin]%elem_of_cons; [rewrite decide_True by done; by eexists|]. case_decide; [by eexists|by apply IH].
Qed.
Lemma map_find_elem {V} (l : list (Z * V)) k v : map_find k l = Some v → (k, v) ∈ l.
Proof.
  induction l as [|[k' v'] l IH]; cbn [map_find]; [done|]. case_decide as Hk; [subst; intros [= ->]; by left|]. intros ?. right. by apply IH.
Qed.
Lemma rows_find c r id : rows c = r → id ∈ ids r → ∃ i, map_find id (mTaskList c) = Some i ∧ (id, ti_taskType i, ti_taskId i) ∈ r.
Proof.
  intros <- Hin. rewrite ids_rows in Hin. destruct (map_find_in _ _ Hin) as [i Hi]. exists i. split; [done|].
  apply map_find_elem in Hi. unfold rows. apply list_elem_of_fmap. by exists (id, i).
Qed.
Lemma safe_ext {A} held r n (m m' : M (container T) A) : (∀ c, m c = m' c) → safe held r n m' → safe held r n m.
Proof. intros He Hm c Hc Hr Hb. by eapply wp_ext; [apply He|apply Hm]. Qed.

Lemma rows_update id f c : (∀ i, ti_taskType (f i) = ti_taskType i ∧ ti_taskId (f i) = ti_taskId i) →
  rows (with_tasks (map_update id f (mTaskList c)) c) = rows c.
Proof.
  intros Hf. unfold rows. cbn [with_tasks mTaskList]. induction (mTaskList c) as [|[k i] l IH]; cbn [map_update]; [done|].
  case_decide; cbn; [by destruct (Hf i) as [-> ->]|by rewrite IH].
Qed.
Lemma safe_upd_info held r id (f : TTaskInfo T → TTaskInfo T) : (∀ i, ti_taskType (f i) = ti_taskType i ∧ ti_taskId (f i) = ti_taskId i) → safe held r 0 (upd_info id f).
Proof. intros Hf. apply safe_modify. intros c. split_and!; try done; [by apply rows_update|by exists []; rewrite app_nil_r]. Qed.
Lemma safe_upd_task held r id (f : TAbstractTask T → TAbstractTask T) : safe held r 0 (upd_task id f).
Proof. by apply safe_upd_info. Qed.

Lemma safe_setTimer held r o t mark delay para : safe held r 1 (task_setTimer o t mark delay para).
Proof.
  eapply safe_ext; [|apply (safe_ttq held r 1 (set_with_para (o_ms o) mark delay (mTaskId t) para))].
  - intros c. unfold task_setTimer, set_with_para, on_ttq. rewrite zoom_bind by done. unfold mbind, M_bind.
    destruct (zoom _ _ (λ s, Some (alloc_para para s)) c) as [[p c1]|]; [|done]. case_decide; [done|by destruct c1].
  - apply framed_set_with_para.
  - intros s Hs Hb. destruct (set_with_para_ok (o_ms o) mark delay (mTaskId t) para s Hs) as (k & s' & Hr & Hs' & Hf & Hk & Hl); [lia|].
    exists k, s'. split_and!; (done || lia).
Qed.
Lemma safe_alloc held r para : safe held r 1 (on_ttq (T:=T) (λ s, Some (alloc_para para s))).
Proof.
  apply safe_ttq; [apply framed_alloc|]. intros s Hs Hb. pose proof (alloc_para_spec para s Hs) as Ha.
  destruct (alloc_para para s) as [p s1]. destruct Ha as (Hq & Hkey & Hf & Hst & _ & _ & Hmono). exists p, s1. split_and!; try done.
  - destruct Hs as [? ? Ho Hl]. unfold owned in *. split; rewrite ?Hq, ?Hkey; unfold owned; rewrite ?Hq, ?Hf; auto.
  - rewrite Hkey. lia.
  - rewrite Hq. lia.
Qed.
Lemma safe_setTimerId held r o t mark para : safe held r 1 (task_setTimerId o t mark para).
Proof.
  unfold task_setTimerId. case_decide.
  - destruct (default _ _) as [id delay]. apply safe_setTimer.
  - apply (safe_bind held r 1 0); [apply safe_alloc|intros; apply safe_ret].
Qed.
Lemma safe_delTimer held r key : safe held r 0 (task_delTimer key : M (container T) bool).
Proof.
  apply safe_ttq; [apply framed_delTimer|]. intros s Hs Hb. do 2 eexists. split; [reflexivity|].
  split_and!; [by apply kinv_stoped|done|cbn; lia|cbn; lia].
Qed.
Lemma safe_exec {A} held r o t n (p : tprog A) : good n p → safe held r n (exec o t p).
Proof.
  revert n. induction p as [a|m k IH|e k IH|m k IH|mark delay para k IH|mark para k IH|key k IH]; intros n Hg; cbn [exec good] in *.
  - apply safe_ret.
  - apply (safe_bind held r 0 n); [|intros _; by apply IH]. apply safe_modify. intros c. split_and!; try done. by exists []; rewrite app_nil_r.
  - apply (safe_bind held r 0 n); [|intros _; by apply IH]. apply safe_modify. intros c. split_and!; try done. by eexists.
  - destruct Hg as [Hm Hg]. destruct n as [|n]; [done|]. apply (safe_bind held r 1 n); [by apply safe_add|intros _; by apply IH].
  - destruct n as [|n]; [done|]. apply (safe_bind held r 1 n); [apply safe_setTimer|intros key; by apply IH].
  - destruct n as [|n]; [done|]. apply (safe_bind held r 1 n); [apply safe_setTimerId|intros key; by apply IH].
  - apply (safe_bind held r 0 n); [apply safe_delTimer|intros _; by apply IH].
Qed.
Lemma safe_find {A} held r n id (f : TTaskInfo T → M (container T) A) : id ∈ ids r →
  (∀ i, (id, ti_taskType i, ti_taskId i) ∈ r → safe held r n (f i)) →
  safe held r n (l ← gets mTaskList; i ← defined (map_find id l); f i).
Proof.
  intros Hin Hf. apply safe_gets. intros c Hc Hr. destruct (rows_find c r id Hr Hin) as (i & Hi & Hrow). rewrite Hi. cbn [defined].
  by apply (Hf i).
Qed.
Lemma safe_virtual {A} held r n o id (f : TAbstractTask T → tprog (A * T)) : id ∈ ids r → (∀ t, good n (f t)) → safe held r n (virtual o id f).
Proof.
  intros Hin Hf. unfold virtual. apply safe_find; [done|]. intros i Hi. rewrite <- (Nat.add_0_r n).
  apply safe_bind; [by apply safe_exec|]. intros x. apply (safe_bind held r 0 0); [apply safe_upd_task|intros; apply safe_ret].
Qed.
End exec.

(** ** Handing out a message *)
Lemma safe_seq {T A C} held r n (m : M (container T) A) (f : A → M (container T) C) :
  safe held r 0 m → (∀ a, safe held r n (f a)) → safe held r n (m ≫= f).
Proof. apply (safe_bind held r 0 n). Qed.
Lemma safe_last {T A C} held r n (m : M (container T) A) (f : A → M (container T) C) :
  safe held r n m → (∀ a, safe held r 0 (f a)) → safe held r n (m ≫= f).
Proof. intros Hm Hf. rewrite <- (Nat.add_0_r n). by apply safe_bind. Qed.

Section dispatch.
Context {T : Type} {B : nat} `{TaskLaws T B} `{MinTopLaws}.
Implicit Types (c : container T) (t : TAbstractTask T) (e : TEventMsg).

Ltac field := apply safe_modify; intros ?; split_and!; try done; by exists []; rewrite app_nil_r.
Lemma safe_check held r f o id : safe held r 0 (check_step f o id : M (container T) unit).
Proof.
  unfold check_step. apply safe_gets. intros c _ _. destruct (mCheckStepTime c); [|apply safe_ret].
  apply safe_seq; [field|]. intros _. by apply safe_upd_info.
Qed.
Lemma safe_task_process held r o id m : id ∈ ids r → safe held r B (task_process o id m : M (container T) unit).
Proof.
  intros Hin. unfold task_process. apply safe_seq; [apply safe_upd_task|]. intros _. apply safe_seq.
  - case_decide; [apply safe_upd_task|apply safe_ret].
  - intros _. apply safe_virtual; [done|apply good_procMsg].
Qed.
Lemma find_ids c r id i : rows c = r → map_find id (mTaskList c) = Some i → id ∈ ids r.
Proof. intros <- Hi%map_find_elem. rewrite ids_rows. apply list_elem_of_fmap. by exists (id, i). Qed.
Lemma safe_process_uni held r o m : safe held r B (process_uni o m : M (container T) unit).
Proof.
  unfold process_uni. case_decide; [apply safe_ret|]. apply safe_gets. intros c Hc Hr.
  destruct (map_find _ _) as [i|] eqn:Hi; [|apply safe_ret]. apply safe_last; [apply safe_task_process; by eapply find_ids|].
  intros _. apply safe_seq; [apply safe_check|]. intros _. field.
Qed.
(** *** Events *)
Lemma safe_split held r b : plain b → length (words b) ≤ 5 → ∀ {A} n (f : nat * list bytes → M (container T) A), (∀ x, safe held r n (f x)) →
  safe held r n (x ← defined (cs_split b reload_words); f x).
Proof.
  intros Hp Hw A n f Hf. unfold reload_words. pose proof (words_from_ok (S (length b)) [] b [] 5 Hp ltac:(lia) ltac:(unfold MaxArgC; cbn; lia)) as Hs.
  cbn [length app] in Hs. unfold cs_split. rewrite Hs, decide_True by done. cbn [defined]. apply safe_seq; [apply safe_ret|]. intros. apply Hf.
Qed.
Lemma safe_status held r n (m : M (container T) bool) (rsp : TEventMsg) : safe held r n m →
  safe held r n (b ← m; mret (put_status (if (b : bool) then 1 else 2)%Z rsp)).
Proof. intros Hm. apply safe_last; [done|]. intros. apply safe_ret. Qed.
Lemma safe_onReload held r o id rsp cmd : id ∈ ids r → plain cmd → length (words cmd) ≤ 5 →
  safe held r B (onReload o id rsp cmd : M (container T) _).
Proof.
  intros Hin Hp Hw. unfold onReload. apply safe_split; [done|done|]. intros x. apply safe_seq.
  - destruct (word_is _ _); [|apply safe_ret]. apply safe_seq.
    + destruct (_ || _); [|apply safe_ret]. apply safe_seq; [apply safe_upd_task|]. intros _. apply safe_modify. intros c.
      destruct (ct_logLevel c); split_and!; try done; by exists []; rewrite app_nil_r.
    + intros _. destruct (_ || _); [apply safe_upd_task|apply safe_ret].
  - intros _. apply safe_status, safe_virtual; [done|apply good_reloadTaskEnv].
Qed.
Lemma safe_handle_event held r o e id rsp : id ∈ ids r → command_ok e → safe held r B (handle_event o e id rsp : M (container T) _).
Proof.
  intros Hin He. unfold handle_event. case_decide; [apply safe_status, safe_virtual; [done|apply good_preTaskStart]|].
  case_decide; [apply safe_ret|]. case_decide as Hre; [destruct (He Hre); by apply safe_onReload|].
  case_decide; [apply safe_status, safe_virtual; [done|apply good_preTaskShutdown]|]. case_decide; [|apply safe_ret].
  apply safe_find; [done|]. intros i _. apply safe_gets. intros c _ _. unfold onStatues. apply safe_find; [done|]. intros j _.
  apply safe_last; [apply safe_virtual; [done|apply good_getStatues]|]. intros. apply safe_ret.
Qed.
Lemma safe_answer_event held r o e id : id ∈ ids r → command_ok e → safe held r B (answer_event o e id : M (container T) _).
Proof.
  intros Hin He. unfold answer_event. apply safe_find; [done|]. intros i _. apply safe_gets. intros c _ _.
  apply safe_last; [by apply safe_handle_event|]. intros rsp. apply safe_seq; [field|]. intros _. apply safe_modify. intros c'.
  split_and!; try done. by eexists.
Qed.
Lemma safe_answer_all held r o e l : l ⊆ ids r → command_ok e → safe held r (length l * B) (answer_all o e l : M (container T) _).
Proof.
  intros Hl He. induction l as [|id l IH]; cbn [answer_all length]; [apply safe_ret|].
  apply (safe_bind held r B (length l * B)); [apply safe_answer_event; [apply Hl; by left|done]|]. intros _. apply IH.
  intros x Hx. apply Hl. by right.
Qed.
Lemma safe_container_command held r e : command_ok e → e_eventID e = KERNAL_APP_RELOAD → safe held r 0 (container_command e : M (container T) _).
Proof.
  intros He Hre. destruct (He Hre) as [Hp Hw]. unfold container_command. apply safe_split; [done|done|]. intros x.
  assert (Hself : ∀ text, safe held r 0 (answer_self e text : M (container T) _)).
  { intros text. unfold answer_self. apply safe_gets. intros c _ _. apply safe_modify. intros c'. split_and!; try done. by eexists. }
  destruct (word_is _ _); [|apply safe_ret]. destruct (word_is _ _); [|destruct (word_is _ _); [|apply safe_ret]].
  - apply safe_seq; [field|]. intros _. apply safe_seq; [apply Hself|]. intros _. apply safe_ret.
  - apply safe_seq; [|intros _; apply safe_seq; [apply Hself|]; intros _; apply safe_ret]. apply safe_modify. intros c.
    destruct (ct_logLevel c); split_and!; try done; by exists []; rewrite app_nil_r.
Qed.
Definition turn_budget (r : list (Z * Z * Z)) : nat := S (length r) * B.
Lemma safe_process_event held r o e : command_ok e → safe held r (turn_budget r) (process_event o e : M (container T) _).
Proof.
  intros He. unfold process_event. apply safe_seq.
  { case_decide; [by apply safe_container_command|apply safe_ret]. }
  intros [|]; [apply safe_ret|]. apply safe_gets. intros c Hc Hr. case_decide.
  - destruct (map_find _ _) as [i|] eqn:Hi; [|apply safe_ret]. eapply safe_weaken, safe_answer_event; [unfold turn_budget; lia| |done]. by eapply find_ids.
  - case_decide; [|apply safe_ret]. rewrite <- ids_rows, Hr. eapply safe_weaken; [|by apply safe_answer_all]. unfold turn_budget, ids. rewrite length_fmap. lia.
Qed.
(** *** Timeouts *)
Lemma safe_para r m : safe [m] r 0 (para_content (timerPara m) : M (container T) _).
Proof.
  intros c Hc Hr Hb. unfold para_content. case_decide as Hn; [apply wp_ret; split; [done|apply grows_refl]|]. apply wp_bind, wp_gets.
  destruct (ki_live _ (ci_kern _ _ Hc) (timerPara m)) as [b Hp].
  { unfold kview. rewrite owned_behind. apply list_elem_of_filter. split; [done|]. apply elem_of_app. right. cbn [app]. rewrite fmap_cons. by left. }
  cbn [kview behind with_mfifo bufs] in Hp. rewrite Hp. cbn [defined]. apply wp_ret, wp_ret. split; [done|apply grows_refl].
Qed.
Lemma process_timeout_ok o m c : cinv [m] c → (load c + 2 * Z.of_nat B < 2 ^ 32 - 1)%Z →
  wp (process_timeout o m) (λ _ c', cinv [] c' ∧ grows B c c') c.
Proof.
  intros Hc Hb. unfold process_timeout. apply wp_bind, wp_gets, wp_bind.
  assert (Hh : safe [m] (rows c) B (match map_find (timerTID m) (mTaskList c) with
    | None => mret tt
    | Some _ => para ← para_content (timerPara m);
        task_processTimeout o (timerTID m) (timerKey m) (timerIID m) para ;;
        check_step step_timeout o (timerTID m) ;; modify count_timer end : M (container T) unit)).
  { destruct (map_find _ _) as [i|] eqn:Hi; [|apply safe_ret]. apply safe_seq; [apply safe_para|]. intros para. apply safe_last.
    - unfold task_processTimeout. apply safe_seq; [apply safe_upd_task|]. intros _. apply safe_seq; [apply safe_upd_task|]. intros _.
      apply safe_virtual; [by eapply find_ids|apply good_onTimeOut].
    - intros _. apply safe_seq; [apply safe_check|]. intros _. field. }
  eapply wp_mono; [by apply Hh|]. intros [] c1 [[Hk1 He1 Hq1 Hm1] Hg1].
  destruct (delete_held_ok m (timeouts (Fifo.mFifo (ct_rx c1))) (mTTQ c1) Hk1) as (s' & Hd & Hs' & Hf & Hkey & Htm).
  unfold wp, on_ttq, zoom. rewrite Hd. split.
  - split; [exact Hs'|cbn; congruence|done|done].
  - rewrite <- (Nat.add_0_r B). eapply grows_trans; [exact Hg1|]. split; try done; [by exists []; rewrite app_nil_r| |by exists []; rewrite app_nil_r].
    unfold load. cbn. rewrite Hkey, Htm. lia.
Qed.
Definition held_of (m : TMsg) : list TTimeOutMsg := timeouts [m].
Lemma dispatch_ok o m c : cinv (held_of m) c → queued_ok m → (load c + 2 * Z.of_nat (turn_budget (rows c)) < 2 ^ 32 - 1)%Z →
  wp (dispatch o m) (λ _ c', cinv [] c' ∧ grows (turn_budget (rows c)) c c') c.
Proof.
  assert (HB : B ≤ turn_budget (rows c)) by (unfold turn_budget; lia).
  intros Hc Hm Hb. destruct m as [m|m|e|]; cbn [dispatch].
  - eapply safe_weaken; [exact HB|apply safe_process_uni|exact Hc|done|done].
  - eapply wp_mono; [apply process_timeout_ok; [exact Hc|lia]|]. intros [] c' [Hc' Hg]. split; [done|by eapply grows_weaken].
  - apply safe_process_event; [exact Hm|exact Hc|done|done].
  - apply wp_ret. split; [done|apply grows_refl].
Qed.
End dispatch.

(** ** Turns and runs *)
Section runs.
Context {T : Type} {B : nat} `{TaskLaws T B} `{MinTopLaws}.
Implicit Types (c : container T).

Lemma add_timeouts_ok l q : fifo_ok q → (Z.of_nat (length (Fifo.mFifo q)) + Z.of_nat (length l) < 2 ^ 64)%Z →
  ∃ q', add_timeouts l q = Some (tt, q') ∧ fifo_ok q' ∧ Fifo.mFifo q' = Fifo.mFifo q ++ (RTimeOut <$> l).
Proof.
  revert q. induction l as [|m l IH]; intros q Hq Hb; cbn [add_timeouts fmap list_fmap].
  { exists q. rewrite app_nil_r. by split_and!. }
  cbn [length] in Hb. destruct (push_ok (RTimeOut m) q Hq) as (q1 & Hp & Hl1 & Hq1); [lia|].
  destruct (IH q1 Hq1) as (q2 & Hr & Hq2 & Hl2); [rewrite Hl1, length_app; cbn [length]; lia|].
  exists q2. erewrite bind_eq by exact Hp. cbv beta. split; [exact Hr|]. split; [done|]. by rewrite Hl2, Hl1, <- app_assoc.
Qed.
Lemma timeouts_app l l' : timeouts (l ++ l') = timeouts l ++ timeouts l'.
Proof. apply omap_app. Qed.
Lemma timeouts_all (l : list TTimeOutMsg) : timeouts (RTimeOut <$> l) = l.
Proof. unfold timeouts. induction l as [|x l IH]; cbn; [done|by rewrite IH]. Qed.
(** The timers' part of a turn: those that are due are in the queue. *)
Lemma run_timers_ok now now' c : cinv [] c → (load c < 2 ^ 32 - 1)%Z →
  ∃ n s' q' fired, run_timers now now' c = Some (n, with_ttq s' (with_rx q' c)) ∧ msTillNextTimer now' s' = Some (n, s') ∧
    cinv [] (with_ttq s' (with_rx q' c)) ∧ processed now (kview [] c) (kview [] (with_ttq s' (with_rx q' c))) fired ∧
    Fifo.mFifo q' = Fifo.mFifo (ct_rx c) ++ (RTimeOut <$> (msg_of <$> wanted (mTimerStoped (mTTQ c)) fired)) ∧
    (load (with_ttq s' (with_rx q' c)) ≤ load c)%Z.
Proof.
  intros [Hk He Hq Hms] Hb. unfold load in *. set (L := timeouts (Fifo.mFifo (ct_rx c))).
  destruct (wp_elim _ _ _ (process_loop_spec _ now (kview [] c) Hk (Nat.lt_succ_diag_r _))) as ([] & s1' & Hp & Hs1 & fired & Hpr).
  unfold kview in Hp. cbn [app] in Hp. fold L in Hp. rewrite framed_process_loop in Hp.
  cbn [behind with_mfifo mTimers] in Hp.
  destruct (process_loop _ now (mTTQ c)) as [[[] s1]|] eqn:Hrun; [|done]. injection Hp as <-.
  assert (Hms1 : ∃ n, msTillNextTimer now' s1 = Some (n, s1)) by (by eexists). destruct Hms1 as [n Hn].
  assert (Hpost : TimerQueue.mFifo s1 = msg_of <$> wanted (mTimerStoped (mTTQ c)) fired).
  { pose proof (pr_posted _ _ _ _ Hpr) as Hpp. cbn in Hpp. fold L in Hpp. rewrite He, app_nil_r in Hpp. by apply app_inv_head in Hpp. }
  assert (Hlen : length (TimerQueue.mFifo s1) + length (mTimers s1) ≤ length (mTimers (mTTQ c))).
  { pose proof (pr_split _ _ _ _ Hpr) as Hps%Permutation_length. cbn in Hps. rewrite length_app in Hps. rewrite Hpost, length_fmap.
    unfold wanted. pose proof (length_filter (λ t, mTimerStoped (mTTQ c) !! tmKey t = Some true) fired). lia. }
  destruct (add_timeouts_ok (TimerQueue.mFifo s1) (ct_rx c) Hq) as (q' & Ha & Hq' & Hl'); [lia|].
  set (s' := with_mfifo [] s1).
  assert (Hview : kview [] (with_ttq s' (with_rx q' c)) = behind L s1).
  { unfold kview. cbn [with_ttq with_rx ct_rx mTTQ app]. rewrite Hl', timeouts_app, timeouts_all. fold L. unfold behind, s', with_mfifo. cbn.
    by rewrite app_nil_r. }
  exists n, s', q', fired. split_and!.
  - unfold run_timers, on_ttq, on_rx. unfold TimerQueue.process, gets, modify, zoom, mbind, M_bind. rewrite Hrun, Hn. cbn [with_ttq mTTQ with_rx ct_rx].
    rewrite Ha. done.
  - unfold msTillNextTimer, gets in *. cbn [s' with_mfifo mTimers]. by injection Hn as ->.
  - split; [rewrite Hview; exact Hs1|done|done|]. cbn. rewrite Hl'. apply Forall_app_2; [done|]. apply Forall_fmap, Forall_true. done.
  - rewrite Hview. exact Hpr.
  - by rewrite Hl', Hpost.
  - cbn [with_ttq with_rx ct_rx mTTQ]. rewrite Hl', length_app, length_fmap. cbn [s' with_mfifo mTimers mTimerKey].
    pose proof (pr_next _ _ _ _ Hpr) as Hk'. cbn in Hk'. rewrite Hk'. lia.
Qed.

(** A call of [getNext] on the container's queue. *)
Definition taken (r : call TMsg) : option TMsg := match r with Got m => Some m | _ => None end.
Lemma rx_call_ok (m : M (fifo TMsg) (call TMsg)) c : cinv [] c → m = getNext ∨ (∃ e n, m = wait_loop e n) ∨ m = mret Nothing →
  ∃ r q', on_rx m c = Some (r, with_rx q' c) ∧ Fifo.mFifo (ct_rx c) = option_list (taken r) ++ Fifo.mFifo q' ∧
    cinv (timeouts (option_list (taken r))) (with_rx q' c) ∧ Forall queued_ok (option_list (taken r)).
Proof.
  intros [Hk He Hq Hms] Hm. destruct (call_ok m _ Hq Hm) as (r & q' & Hr & Hq' & Hl). exists r, q'.
  assert (Hl' : Fifo.mFifo (ct_rx c) = option_list (taken r) ++ Fifo.mFifo q') by (destruct r; cbn; subst; done).
  split; [unfold on_rx, zoom; by rewrite Hr|]. split; [exact Hl'|]. rewrite Hl' in Hms. apply Forall_app in Hms as [Hm1 Hm2].
  split; [|done]. split; [|done|done|done]. unfold kview in *. cbn [with_rx ct_rx mTTQ]. rewrite Hl', timeouts_app in Hk. done.
Qed.
Lemma after_call_ok o r c : cinv (timeouts (option_list (taken r))) c → Forall queued_ok (option_list (taken r)) →
  (load c + 2 * Z.of_nat (turn_budget (B:=B) (rows c)) < 2 ^ 32 - 1)%Z →
  ∃ c', after_call o r c = Some (taken r, (c', match r with Waits w => Some w | _ => None end)) ∧ cinv [] c' ∧ grows (turn_budget (B:=B) (rows c)) c c'.
Proof.
  intros Hc Hm Hb. unfold after_call. destruct r as [m| |w]; cbn [taken option_list turn_end] in *.
  - destruct (wp_elim _ _ _ (dispatch_ok o m c Hc (Forall_inv Hm) Hb)) as ([] & c' & Hd & Hc' & Hg).
    exists c'. erewrite bind_eq by exact Hd. done.
  - exists c. split; [done|]. split; [done|apply grows_refl].
  - exists c. split; [done|]. split; [done|apply grows_refl].
Qed.

Fixpoint cadds (evs : list cevent) : list TMsg :=
  match evs with [] => [] | CAdd m :: evs => m :: cadds evs | _ :: evs => cadds evs end.
Fixpoint turns (evs : list cevent) : nat :=
  match evs with [] => 0 | CTurn _ _ :: evs => S (turns evs) | _ :: evs => turns evs end.
Definition step_budget (r : list (Z * Z * Z)) : nat := S (turn_budget (B:=B) r).
(** What a step does to the container. *)
Record stepped (ev : cevent) (r : list TMsg) c c' : Prop := {
  st_inv : cinv [] c';
  st_rows : rows c' = rows c;
  st_load : (load c' ≤ load c + 2 * Z.of_nat (step_budget (rows c)))%Z;
  st_rx : ∃ arr, r ++ Fifo.mFifo (ct_rx c') = Fifo.mFifo (ct_rx c) ++ arr ∧ cadds [ev] `sublist_of` arr;
}.
(** The timeouts that a turn adds. *)
Definition due_in (now : Z) c (due : list TMsg) : Prop :=
  length due ≤ length (mTimers (mTTQ c)) ∧
  ∀ x, x ∈ mTimers (mTTQ c) → mTimerStoped (mTTQ c) !! tmKey x = Some true → (mWhen x ≤ now)%Z → RTimeOut (msg_of x) ∈ due.
Lemma due_ok now c c1 fired : processed now (kview [] c) (kview [] c1) fired →
  due_in now c (RTimeOut <$> (msg_of <$> wanted (mTimerStoped (mTTQ c)) fired)).
Proof.
  intros Hpr. pose proof (pr_split _ _ _ _ Hpr) as Hs. cbn in Hs. split.
  - rewrite !length_fmap. apply Permutation_length in Hs. rewrite length_app in Hs.
    unfold wanted. pose proof (length_filter (λ t, mTimerStoped (mTTQ c) !! tmKey t = Some true) fired). lia.
  - intros x Hx Hw Hd. rewrite <- Hs in Hx. apply elem_of_app in Hx as [Hx|Hx].
    + apply list_elem_of_fmap. exists (msg_of x). split; [done|]. apply list_elem_of_fmap. exists x. split; [done|]. by apply list_elem_of_filter.
    + pose proof (pr_rest _ _ _ _ Hpr) as Hrest. rewrite Forall_forall in Hrest. specialize (Hrest x Hx). cbn in Hrest. lia.
Qed.
Lemma cstep_ok ev c w : cinv [] c → Forall msg_ok (cadds [ev]) → (load c + 2 * Z.of_nat (step_budget (rows c)) < 2 ^ 32 - 1)%Z →
  ∃ r c' w', cstep ev (c, w) = Some (r, (c', w')) ∧ stepped ev (option_list r) c c' ∧ (w = None → w' = None ∨ Fifo.mFifo (ct_rx c') = []) ∧
    ∀ k o, ev = CTurn k o → w = None → (is_Some r ∨ Fifo.mFifo (ct_rx c') = []) ∧
      ∃ due l, option_list r ++ Fifo.mFifo (ct_rx c') = Fifo.mFifo (ct_rx c) ++ due ++ l ∧ due_in (k_now k) c due.
Proof.
  intros Hc Hm Hb. unfold step_budget in Hb.
  assert (Hid : cadds [ev] = [] → stepped ev [] c c).
  { intros Ha. split; [done|done|unfold step_budget; lia|]. exists []. rewrite Ha, app_nil_r. done. }
  assert (Hcall : ∀ (m : M (fifo TMsg) (call TMsg)) c1 o arr, m = getNext ∨ (∃ e n, m = wait_loop e n) ∨ m = mret Nothing → cinv [] c1 → rows c1 = rows c → (load c1 ≤ load c)%Z →
    Fifo.mFifo (ct_rx c1) = Fifo.mFifo (ct_rx c) ++ arr → cadds [ev] = [] →
    ∃ r c' w', (on_rx m c1 ≫= λ '(r, c), after_call o r c) = Some (r, (c', w')) ∧ stepped ev (option_list r) c c' ∧
      (∃ l, option_list r ++ Fifo.mFifo (ct_rx c') = Fifo.mFifo (ct_rx c) ++ arr ++ l) ∧
      (m = getNext ∨ (∃ e n, m = wait_loop e n) → (is_Some r ∧ w' = None) ∨ Fifo.mFifo (ct_rx c') = [])).
  { intros m c1 o arr Hf Hc1 Hr1 Hl1 Harr Ha. destruct (rx_call_ok m c1 Hc1 Hf) as (r & q' & Hrun & Hl & Hc2 & Hq2).
    rewrite Hrun. cbn [mbind option_bind].
    assert (Hl2 : (load (with_rx q' c1) ≤ load c1)%Z) by (unfold load; cbn; rewrite Hl, length_app; lia).
    assert (Hr2 : rows (with_rx q' c1) = rows c) by (by rewrite <- Hr1).
    destruct (after_call_ok o r (with_rx q' c1) Hc2 Hq2) as (c' & Hrun' & Hc' & [Hrows _ (l & Hrx) Hload _]); [rewrite Hr2; lia|].
    assert (Hall : option_list (taken r) ++ Fifo.mFifo (ct_rx c') = Fifo.mFifo (ct_rx c) ++ arr ++ l).
    { rewrite Hrx. cbn [with_rx ct_rx]. by rewrite app_assoc, <- Hl, Harr, <- app_assoc. }
    do 3 eexists. split; [exact Hrun'|]. split; [|split; [by exists l|]].
    - split; [done|congruence|unfold step_budget; rewrite Hr2 in Hload; lia|]. exists (arr ++ l). split; [done|]. rewrite Ha. apply sublist_nil_l.
    - intros Hne. unfold on_rx, zoom in Hrun. destruct Hc1 as [_ _ Hq1 _].
      destruct Hne as [->|(e & n & ->)]; [pose proof (fifo_getNext_ok _ Hq1) as Hg|pose proof (wait_loop_ok e n _ Hq1) as Hg];
        (destruct (Fifo.mFifo (ct_rx c1)) eqn:Hrx1; [rewrite Hg in Hrun; right|left]).
      1: injection Hrun as <- _. 3: case_decide; injection Hrun as <- _.
      1,3,4: unfold after_call in Hrun'; cbn in Hrun'; injection Hrun' as <-; cbn; cbn in Hl; by rewrite <- Hl.
      all: destruct Hg as (q2 & Hg & _); rewrite Hg in Hrun; injection Hrun as <- _; split; by try eexists. }
  destruct ev as [k o|m|b now o]; unfold cstep; cbn [fst snd cadds turns] in *.
  - destruct w as [w|]; [do 3 eexists; split; [reflexivity|]; split; [by apply Hid|]; split; intros; done|].
    destruct (run_timers_ok (k_now k) (k_next k) c Hc) as (n & s' & q' & fired & Hrun & _ & Hc1 & Hpr & Hl1 & Hload1); [lia|].
    unfold turn_begin. pose proof (due_ok _ _ _ _ Hpr) as Hdue. set (c1 := with_ttq s' (with_rx q' c)) in *.
    assert (Hturn : ∃ m, (run_timers (k_now k) (k_next k) ≫= λ n, next_step n ≫= λ n, on_rx (getNext_ms (i32 n) (k_begin k) (k_loop k))) c = on_rx m c1 ∧
      (m = getNext ∨ ∃ e n, m = wait_loop e n)).
    { erewrite bind_eq by exact Hrun. assert (Hns : ∃ n', next_step n c1 = Some (n', c1)).
      { unfold next_step. erewrite bind_eq by reflexivity. erewrite bind_eq by reflexivity. by destruct (mWaitAtQueue c1); eexists. }
      destruct Hns as [n' Hns]. erewrite bind_eq by exact Hns. eexists. split; [reflexivity|].
      unfold getNext_ms. case_decide; [by left|right; by do 2 eexists]. }
    destruct Hturn as (m & -> & Hf).
    destruct (Hcall m c1 o _ ltac:(tauto) Hc1 eq_refl Hload1 Hl1 eq_refl) as (r & c' & w' & Hr & Hst & (l & Hl) & Hne).
    exists r, c', w'. split; [exact Hr|]. split; [done|]. destruct (Hne Hf) as [[Hs ->]|Hx]; (split; [by auto|]);
      intros ? ? [= <- <-] _; (split; [by auto|]); by do 2 eexists.
  - destruct (wp_elim _ _ _ (safe_add [] (rows c) m (Forall_inv Hm) c Hc eq_refl ltac:(lia))) as ([] & c' & Ha & Hc' & [Hrows _ (l & Hrx) Hload _]).
    rewrite Ha. cbn [mbind option_bind]. do 3 eexists. split; [reflexivity|]. split; [|split; [by left|done]].
    split; [done|done|unfold step_budget; lia|]. exists [m]. split; [|done]. unfold on_rx, zoom, Fifo.add, push, modify in Ha. by injection Ha as <-.
  - destruct w as [w|]; [|do 3 eexists; split; [reflexivity|]; split; [by apply Hid|]; split; [by left|done]].
    destruct (no_timeout w b); [do 3 eexists; split; [reflexivity|]; split; [by apply Hid|]; done|].
    destruct (resume_form (A:=TMsg) w b now) as (m & Hrm & Hf).
    destruct (Hcall m c o [] Hf Hc eq_refl ltac:(lia) ltac:(by rewrite app_nil_r) eq_refl) as (r & c' & w' & Hr & Hst & _). rewrite Hrm.
    exists r, c', w'. split; [exact Hr|]. split; [done|]. done.
Qed.

Lemma cadds_cons ev evs : cadds (ev :: evs) = cadds [ev] ++ cadds evs.
Proof. by destruct ev. Qed.
Lemma crun_ok evs c w : cinv [] c → Forall msg_ok (cadds evs) →
  (load c + 2 * Z.of_nat (length evs * step_budget (rows c)) < 2 ^ 32 - 1)%Z →
  ∃ rs c' w', crun evs (c, w) = Some (rs, (c', w')) ∧ cinv [] c' ∧ rows c' = rows c ∧
    (∃ arr, rs ++ Fifo.mFifo (ct_rx c') = Fifo.mFifo (ct_rx c) ++ arr ∧ cadds evs `sublist_of` arr) ∧
    (w = None → turns evs `min` length (Fifo.mFifo (ct_rx c)) ≤ length rs).
Proof.
  revert c w. induction evs as [|ev evs IH]; intros c w Hc Hm Hb; cbn [crun].
  { do 3 eexists. split; [reflexivity|]. split; [done|]. split; [done|]. split; [exists []; by rewrite app_nil_r|]. cbn. lia. }
  rewrite cadds_cons in Hm. apply Forall_app in Hm as [Hm1 Hm2]. cbn [length] in Hb.
  destruct (cstep_ok ev c w Hc Hm1) as (r & c1 & w1 & Hs & [Hc1 Hr1 Hl1 (arr1 & Hx1 & Ha1)] & Hw1 & Ht1); [lia|].
  destruct (IH c1 w1 Hc1 Hm2) as (rs & c2 & w2 & Hrun & Hc2 & Hr2 & (arr2 & Hx2 & Ha2) & Ht2); [rewrite Hr1; lia|].
  erewrite bind_eq by exact Hs. cbv beta. erewrite bind_eq by exact Hrun. do 3 eexists. split; [reflexivity|].
  split; [done|]. split; [congruence|]. split.
  - exists (arr1 ++ arr2). rewrite <- app_assoc, Hx2, app_assoc, Hx1, <- app_assoc, cadds_cons. split; [done|by apply sublist_app].
  - intros ->. rewrite length_app. apply (f_equal length) in Hx1. rewrite !length_app in Hx1.
    destruct (Hw1 eq_refl) as [->|Hnil].
    + specialize (Ht2 eq_refl). destruct ev as [k o|m|b now o]; cbn [turns]; [|lia..].
      destruct (Ht1 k o eq_refl eq_refl) as [[[m Hm]|Hnil] _].
      * subst r. change (length (option_list (Some m))) with 1 in *. lia.
      * rewrite Hnil in Hx1. cbn [length] in Hx1. lia.
    + rewrite Hnil in Hx1. cbn [length] in Hx1. lia.
Qed.
End runs.

(** ** What a handler leaves alone, and what it posts *)
Section effects.
Context {T : Type} `{TaskCode T} `{MinTop}.
Implicit Types (c : container T) (t : TAbstractTask T) (e : TEventMsg).

Definition is_event (m : TMsg) : Prop := ∃ e, m = REvent e.
(** A computation that posts only events, and whose result satisfies [R]. *)
Definition posts {A} (R : A → Prop) (m : M (container T) A) : Prop := ∀ c a c', m c = Some (a, c') →
  R a ∧ mInnerProcCount c' = mInnerProcCount c ∧ ∃ l, ct_posted c' = ct_posted c ++ l ∧ Forall is_event l.
Definition any {A} (_ : A) : Prop := True.

Lemma posts_bind {A C} R (R' : C → Prop) (m : M _ A) (f : A → M _ C) : posts R m → (∀ a, R a → posts R' (f a)) → posts R' (m ≫= f).
Proof.
  intros Hm Hf c b c2 Hr. apply bind_some in Hr as (a & c1 & H1 & H2). destruct (Hm _ _ _ H1) as (Ra & I1 & l1 & L1 & F1).
  destruct (Hf a Ra _ _ _ H2) as (Rb & I2 & l2 & L2 & F2). split; [done|]. split; [congruence|].
  exists (l1 ++ l2). rewrite L2, L1, app_assoc. split; [done|by apply Forall_app_2].
Qed.
Lemma posts_ret {A} (R : A → Prop) a : R a → posts R (mret a).
Proof. intros Ra c x c' [= <- <-]. split; [done|]. split; [done|]. exists []. rewrite app_nil_r. by split. Qed.
Lemma posts_gets {A C} (R : C → Prop) (g : container T → A) (f : A → M _ C) : (∀ a, posts R (f a)) → posts R (gets g ≫= f).
Proof. intros Hf c x c' Hr. exact (Hf _ _ _ _ Hr). Qed.
Lemma posts_defined {A C} (R : C → Prop) (d : option A) (f : A → M _ C) : (∀ a, posts R (f a)) → posts R (defined d ≫= f).
Proof. intros Hf c x c' Hr. destruct d; [exact (Hf _ _ _ _ Hr)|done]. Qed.
Lemma posts_modify f : (∀ c, ct_posted (f c) = ct_posted c ∧ mInnerProcCount (f c) = mInnerProcCount c) → posts any (modify f).
Proof. intros Hf c x c' [= <- <-]. destruct (Hf c) as [-> ->]. split; [done|]. split; [done|]. exists []. rewrite app_nil_r. by split. Qed.
Lemma posts_ttq {A} (m : M kern A) : posts any (on_ttq m).
Proof.
  intros c x c' Hr. unfold on_ttq, zoom in Hr. destruct (m _) as [[a s]|]; [|done]. injection Hr as _ <-.
  split; [done|]. split; [done|]. exists []. rewrite app_nil_r. by split.
Qed.
Lemma posts_rx {A} (m : M (fifo TMsg) A) : posts any (on_rx m).
Proof.
  intros c x c' Hr. unfold on_rx, zoom in Hr. destruct (m _) as [[a s]|]; [|done]. injection Hr as _ <-.
  split; [done|]. split; [done|]. exists []. rewrite app_nil_r. by split.
Qed.
Lemma posts_weaken {A} (R R' : A → Prop) m : (∀ a, R a → R' a) → posts R m → posts R' m.
Proof. intros HR Hm c a c' Hr. destruct (Hm _ _ _ Hr) as (Ra & ?). split; [by apply HR|done]. Qed.
Lemma posts_upd_task id (f : TAbstractTask T → TAbstractTask T) : posts any (upd_task id f).
Proof. by apply posts_modify. Qed.
Lemma posts_setTimer o t mark delay para : posts any (task_setTimer o t mark delay para).
Proof. apply (posts_bind any); [apply posts_ttq|]. intros p _. case_decide; [apply posts_ttq|by apply posts_ret]. Qed.
Lemma posts_exec {A} o t (p : tprog A) : posts any (exec o t p).
Proof.
  induction p as [a|m k IH|e k IH|m k IH|mark delay para k IH|mark para k IH|key k IH]; cbn [exec]; [by apply posts_ret|..];
    apply (posts_bind any); try (intros ? _; apply IH).
  - by apply posts_modify.
  - intros c x c' [= <- <-]. split; [exact I|]. split; [done|]. eexists. split; [done|]. repeat constructor. by eexists.
  - apply posts_rx.
  - apply posts_setTimer.
  - unfold task_setTimerId. case_decide; [destruct (default _ _); apply posts_setTimer|].
    apply (posts_bind any); [apply posts_ttq|]. intros ? _. by apply posts_ret.
  - apply posts_ttq.
Qed.
Lemma posts_virtual {A} o id (f : TAbstractTask T → tprog (A * T)) : posts any (virtual o id f).
Proof.
  apply posts_gets. intros l. apply posts_defined. intros i. apply (posts_bind any); [apply posts_exec|]. intros r _.
  apply (posts_bind any); [apply posts_upd_task|]. intros ? _. by apply posts_ret.
Qed.
(** An answer to [e]: from the task of [row], with the requester's address. *)
Definition answers (e : TEventMsg) (row : Z * Z) (ct : Z) (rsp : TEventMsg) : Prop :=
  e_sender rsp = Tuple row.1 row.2 ct ∧ e_eventID rsp = e_eventID e ∧ e_transID rsp = e_transID e ∧
  e_taskID rsp = taskID (e_sender e) ∧ e_instID rsp = instID (e_sender e) ∧ (e_status rsp = 1 ∨ e_status rsp = 2)%Z.
Lemma posts_status (R : TEventMsg → Prop) (m : M (container T) bool) rsp :
  (∀ n, (n = 1 ∨ n = 2)%Z → R (put_status n rsp)) → posts any m → posts R (b ← m; mret (put_status (if (b : bool) then 1 else 2)%Z rsp)).
Proof. intros HR Hm. apply (posts_bind any); [exact Hm|]. intros b _. apply posts_ret, HR. destruct b; auto. Qed.
Lemma posts_onReload R o id rsp cmd : (∀ n, (n = 1 ∨ n = 2)%Z → R (put_status n rsp)) → posts R (onReload o id rsp cmd).
Proof.
  intros HR. unfold onReload. apply posts_defined. intros x. apply (posts_bind any); [|intros; apply posts_status; [done|apply posts_virtual]].
  destruct (word_is _ _); [|by apply posts_ret]. apply (posts_bind any); [|intros; destruct (_ || _); [apply posts_upd_task|by apply posts_ret]].
  destruct (_ || _); [|by apply posts_ret]. apply (posts_bind any); [apply posts_upd_task|]. intros _ _. apply posts_modify. intros c. by destruct (ct_logLevel c).
Qed.
Lemma posts_handle_event o e id row ct : posts (answers e row ct) (handle_event o e id (genEventRsp e (Some row) ct)).
Proof.
  assert (HR : ∀ n b, (n = 1 ∨ n = 2)%Z → answers e row ct (put_status n (put_info b (genEventRsp e (Some row) ct)))) by (intros; destruct row; by split_and!).
  assert (HR' : ∀ n, (n = 1 ∨ n = 2)%Z → answers e row ct (put_status n (genEventRsp e (Some row) ct))) by (intros n Hn; by apply (HR n (e_info (genEventRsp e (Some row) ct)))).
  unfold handle_event. case_decide; [apply posts_status; [done|apply posts_virtual]|]. case_decide; [by apply posts_ret, HR'; left|].
  case_decide; [by apply posts_onReload|]. case_decide; [apply posts_status; [done|apply posts_virtual]|]. case_decide.
  - apply posts_gets. intros l. apply posts_defined. intros i. apply posts_gets. intros text. unfold onStatues.
    apply posts_gets. intros l'. apply posts_defined. intros i'. apply (posts_bind any); [apply posts_virtual|]. intros st _.
    apply posts_ret. unfold put_info, add_info. cbn. destruct row; split_and!; cbn; auto.
  - apply posts_ret. destruct row. split_and!; cbn; auto.
Qed.
End effects.

Section answering.
Context {T : Type} {B : nat} `{TaskLaws T B} `{MinTopLaws}.
Implicit Types (c : container T) (e : TEventMsg).

Definition row_of (r : list (Z * Z * Z)) (id : Z) : option (Z * Z) := map_find id ((λ x, (x.1.1, (x.1.2, x.2))) <$> r).
Lemma row_of_find c id i : map_find id (mTaskList c) = Some i → row_of (rows c) id = Some (ti_taskType i, ti_taskId i).
Proof.
  unfold row_of, rows. induction (mTaskList c) as [|[k j] l IH]; cbn; [done|]. case_decide; [by intros [= ->]|exact IH].
Qed.
Lemma answer_event_ok o e id c : cinv [] c → id ∈ ids (rows c) → command_ok e → (load c + 2 * Z.of_nat B < 2 ^ 32 - 1)%Z →
  ∃ c' own rsp row, answer_event o e id c = Some (tt, c') ∧ cinv [] c' ∧ grows B c c' ∧
    ct_posted c' = ct_posted c ++ own ++ [REvent rsp] ∧ Forall is_event own ∧ row_of (rows c) id = Some row ∧ answers e row (ct_containerId c) rsp ∧
    mInnerProcCount c' = u32 (mInnerProcCount c + 1).
Proof.
  intros Hc Hin He Hb. destruct (wp_elim _ _ _ (safe_answer_event (B:=B) [] (rows c) o e id Hin He c Hc eq_refl Hb)) as ([] & c' & Hr & Hc' & Hg).
  destruct (rows_find c (rows c) id eq_refl Hin) as (i & Hi & _). pose proof (row_of_find c id i Hi) as Hrow.
  pose proof Hr as Hr'. unfold answer_event in Hr'. erewrite (bind_eq (gets mTaskList)) in Hr' by reflexivity. rewrite Hi in Hr'. cbn [defined] in Hr'.
  erewrite (bind_eq (mret i)) in Hr' by reflexivity. erewrite (bind_eq (gets ct_containerId)) in Hr' by reflexivity.
  apply bind_some in Hr' as (rsp & c1 & Hh1 & Hh2). destruct (posts_handle_event o e id _ _ _ _ _ Hh1) as (Ha & Hn & own & Ho & Hev).
  unfold modify, mbind, M_bind in Hh2. injection Hh2 as <-.
  eexists _, own, rsp, (ti_taskType i, ti_taskId i). split; [exact Hr|]. split; [done|]. split; [done|]. split_and!; try done.
  - cbn. by rewrite Ho, app_assoc.
  - cbn. by rewrite Hn.
Qed.
Lemma answer_all_ok o e l c : cinv [] c → l ⊆ ids (rows c) → command_ok e → (load c + 2 * Z.of_nat (length l * B) < 2 ^ 32 - 1)%Z →
  ∃ c' segs, answer_all o e l c = Some (tt, c') ∧ cinv [] c' ∧ ct_posted c' = ct_posted c ++ concat segs ∧
    Forall2 (λ id seg, ∃ own rsp row, seg = own ++ [REvent rsp] ∧ Forall is_event own ∧ row_of (rows c) id = Some row ∧ answers e row (ct_containerId c) rsp) l segs ∧
    mInnerProcCount c' = Nat.iter (length l) (λ n, u32 (n + 1)) (mInnerProcCount c).
Proof.
  revert c. induction l as [|id l IH]; intros c Hc Hl He Hb; cbn [answer_all].
  { exists c, []. cbn. rewrite app_nil_r. split_and!; done. }
  cbn [length] in Hb. destruct (answer_event_ok o e id c Hc) as (c1 & own & rsp & row & Hr & Hc1 & Hg & Hp & Hev & Hrow & Ha & Hn); [apply Hl; by left|done|lia|].
  pose proof (g_rows _ _ _ Hg) as Hrows. destruct (g_const _ _ _ Hg) as (_ & Hct & _). pose proof (g_load _ _ _ Hg) as Hload.
  destruct (IH c1 Hc1) as (c2 & segs & Hr2 & Hc2 & Hp2 & Hf2 & Hn2); [rewrite Hrows; intros x Hx; apply Hl; by right|done|lia|].
  exists c2, ((own ++ [REvent rsp]) :: segs). erewrite bind_eq by exact Hr. split; [exact Hr2|]. split; [done|]. split_and!.
  - cbn [concat]. by rewrite Hp2, Hp, <- app_assoc.
  - constructor; [by exists own, rsp, row|]. rewrite Hrows, Hct in Hf2. exact Hf2.
  - rewrite Hn2, Hn. cbn [length]. by rewrite Nat.iter_succ_r.
Qed.
End answering.

(** ** Registration *)
Section registration.
Context {T : Type} `{TaskCode T} `{MinTopLaws}.
Implicit Types (c : container T).

Lemma new_container_inv ctid hostid level : cinv [] (new_container ctid hostid level : container T) ∧ cinv [] (new_psa_container ctid hostid level : container T).
Proof. split; (split; [exact new_kern_inv|done|by split|constructor]). Qed.
Lemma map_insert_sorted {V} k (v : V) l : StronglySorted Z.lt l.*1 → StronglySorted Z.lt (map_insert k v l).*1.
Proof.
  induction l as [|[k1 v1] l IH]; intros Hs; cbn [map_insert]; [by repeat constructor|].
  rewrite fmap_cons in Hs. cbn [fst] in Hs. apply StronglySorted_inv in Hs as [Hs Hall].
  destruct (decide (k < k1)%Z) as [Hlt|Hlt]; [|destruct (decide (k = k1)) as [Heq|Heq]].
  - rewrite !fmap_cons. cbn [fst]. constructor; [by constructor|]. constructor; [lia|]. eapply Forall_impl; [exact Hall|]. cbn. lia.
  - rewrite fmap_cons. by constructor.
  - rewrite fmap_cons. cbn [fst]. constructor; [by apply IH|]. clear IH Hs. induction l as [|[k2 v2] l IH]; cbn [map_insert]; [repeat constructor; cbn; lia|].
    rewrite fmap_cons in Hall. cbn [fst] in Hall. apply Forall_cons in Hall as [H2' Hall].
    destruct (decide (k < k2)%Z); [|destruct (decide (k = k2))]; rewrite !fmap_cons; cbn [fst]; repeat apply Forall_cons_2; first [done|lia|by apply IH].
Qed.
(** What the calls of a task leave alone: any part [g] of the container but the
    timers, the queue and what was handed to the control thread. *)
Section frame.
Context {X : Type} (g : container T → X).
Hypothesis g_ttq : ∀ s c, g (with_ttq s c) = g c.
Hypothesis g_rx : ∀ q c, g (with_rx q c) = g c.
Hypothesis g_kernel : ∀ m c, g (to_kernel m c) = g c.
Hypothesis g_post : ∀ m c, g (postTo m c) = g c.
Lemma ttq_frame {A} (m : M kern A) c a c' : on_ttq m c = Some (a, c') → g c' = g c.
Proof. unfold on_ttq, zoom. destruct (m _) as [[x s]|]; [|done]. by intros [= _ <-]. Qed.
Lemma rx_frame {A} (m : M (fifo TMsg) A) c a c' : on_rx m c = Some (a, c') → g c' = g c.
Proof. unfold on_rx, zoom. destruct (m _) as [[x s]|]; [|done]. by intros [= _ <-]. Qed.
Lemma setTimer_frame o t mark delay para c a c' : task_setTimer o t mark delay para c = Some (a, c') → g c' = g c.
Proof.
  intros (p & c1 & Hr1%ttq_frame & Hr2)%bind_some.
  case_decide; [apply ttq_frame in Hr2; congruence|injection Hr2 as _ <-; done].
Qed.
Lemma exec_frame {A} o t (p : tprog A) c a c' : exec o t p c = Some (a, c') → g c' = g c.
Proof.
  revert c. induction p as [x|m k IH|e k IH|m k IH|mark delay para k IH|mark para k IH|key k IH]; intros c Hr; cbn [exec] in Hr;
    [by injection Hr as _ <-|..]; apply bind_some in Hr as (y & c1 & Hr1 & Hr2); apply IH in Hr2; rewrite Hr2; clear Hr2.
  - injection Hr1 as _ <-. apply g_kernel.
  - injection Hr1 as _ <-. apply g_post.
  - by eapply rx_frame.
  - by eapply setTimer_frame.
  - unfold task_setTimerId in Hr1. case_decide; [destruct (default _ _); by eapply setTimer_frame|].
    apply bind_some in Hr1 as (z & c2 & Hr1 & Hr2). injection Hr2 as _ <-. by eapply ttq_frame in Hr1.
  - by eapply ttq_frame in Hr1.
Qed.
End frame.
Lemma exec_tasks {A} o t (p : tprog A) c a c' : exec o t p c = Some (a, c') → mTaskList c' = mTaskList c.
Proof. by apply exec_frame. Qed.
Lemma map_find_insert {V} (k k' : Z) (v : V) l : map_find k l = None → StronglySorted Z.lt l.*1 →
  map_find k' (map_insert k v l) = if decide (k' = k) then Some v else map_find k' l.
Proof.
  induction l as [|[k1 v1] l IH]; intros Hn Hs; cbn [map_insert map_find] in *; [repeat case_decide; congruence|].
  rewrite fmap_cons in Hs. apply StronglySorted_inv in Hs as [Hs _]. destruct (decide (k1 = k)) as [|Hne]; [done|].
  destruct (decide (k < k1)%Z); [cbn [map_find]; repeat case_decide; congruence|]. rewrite decide_False by done. cbn [map_find].
  rewrite IH by done. repeat case_decide; congruence.
Qed.
(** A task is registered once under its id, and the order of the ids is kept;
    registering an id again is undefined. *)
Lemma registerTask_ok o id t n c : cinv [] c → (∀ t, good n (onInit t)) → (load c + 2 * Z.of_nat n < 2 ^ 32 - 1)%Z → (0 < id)%Z →
  StronglySorted Z.lt (mTaskList c).*1 →
  match map_find id (mTaskList c) with
  | Some _ => registerTask o id t c = None
  | None => ∃ c' i, registerTask o id t c = Some (true, c') ∧ cinv [] c' ∧ StronglySorted Z.lt (mTaskList c').*1 ∧
      mTaskId (ti_task i) = id ∧ ti_taskId i = id ∧
      ∀ id', map_find id' (mTaskList c') = if decide (id' = id) then Some i else map_find id' (mTaskList c)
  end.
Proof.
  intros Hc Hg Hb Hid Hs. unfold registerTask. rewrite decide_True by done.
  erewrite (bind_eq (gets ct_hostId)) by reflexivity. erewrite (bind_eq (gets ct_containerId)) by reflexivity.
  set (t1 := task_init _ _ _ _ _). destruct (wp_elim _ _ _ (safe_exec [] (rows c) o t1 n _ (Hg t1) c Hc eq_refl Hb)) as (r & c1 & Hr & Hc1 & Hg1).
  pose proof (exec_tasks _ _ _ _ _ _ Hr) as Ht. destruct (map_find id (mTaskList c)) as [i|] eqn:Hf.
  all: erewrite bind_eq by exact Hr; cbv zeta; erewrite (bind_eq (gets mTaskList)) by reflexivity; rewrite Ht, Hf.
  - done.
  - eexists _, _. split; [reflexivity|]. split; [|split].
    + destruct Hc1 as [Hk He Hq Hm]. by split.
    + by apply map_insert_sorted.
    + split; [|split; [|intros id'; cbn [with_tasks mTaskList]; by apply map_find_insert]]; done.
Qed.
End registration.

(** ** Properties *)
Section properties.
Context {T : Type} {B : nat} `{TaskLaws T B} `{MinTopLaws}.
Implicit Types (c : container T) (e : TEventMsg).

(** C11: a container's queue.  Provided that what
    other threads add is well formed ([msg_ok]: a reload command has at most five
    plain words - [container_command_overruns] is what a longer one does -, and
    no timeout comes with a parameter), each virtual function of a task sets at
    most [B] timers and sends itself at most [B] such messages, and fewer than
    2^32-1 messages and timers are made in all: however
    additions, turns, wake-ups and timeouts of the wait then alternate, no step
    is undefined, the invariant stays, and the messages handed out, followed by
    those queued, are those that were queued and those that came, in order: what
    other threads added is among them in their order, what tasks sent themselves
    and the timeouts are between. *)
Theorem container_in_order evs c w : cinv [] c → Forall msg_ok (cadds evs) →
  (load c + 2 * Z.of_nat (length evs * step_budget (B:=B) (rows c)) < 2 ^ 32 - 1)%Z →
  ∃ rs c' w' arr, crun evs (c, w) = Some (rs, (c', w')) ∧ cinv [] c' ∧
    rs ++ Fifo.mFifo (ct_rx c') = Fifo.mFifo (ct_rx c) ++ arr ∧ cadds evs `sublist_of` arr.
Proof.
  intros Hc Hm Hb. destruct (crun_ok evs c w Hc Hm Hb) as (rs & c' & w' & Hr & Hc' & _ & (arr & Ha & Hs) & _).
  by exists rs, c', w', arr.
Qed.

(** A position of a list that is within a prefix. *)
Lemma prefix_reaches {A} (rs rest pre post : list A) m : rs ++ rest = pre ++ m :: post → length pre < length rs → ∃ more, rs = pre ++ m :: more.
Proof.
  intros Heq Hlen. apply app_eq_inv in Heq as [(k & Hk & Hr)|(k & Hk & Hr)].
  - subst rs. rewrite length_app in Hlen. destruct k as [|x k]; [cbn in Hlen; lia|]. injection Hr as -> _. by exists k.
  - subst pre. rewrite length_app in Hlen. lia.
Qed.

(** C26: every queued message is handed out: of a container that is not
    waiting, after as many turns as there are messages up to it - whatever the
    tasks do meanwhile, and whatever well-formed messages come ([msg_ok]; the
    bounds are those of [container_in_order]). *)
Theorem container_reaches evs c pre m post : cinv [] c → Forall msg_ok (cadds evs) →
  (load c + 2 * Z.of_nat (length evs * step_budget (B:=B) (rows c)) < 2 ^ 32 - 1)%Z →
  Fifo.mFifo (ct_rx c) = pre ++ m :: post → length pre < turns evs →
  ∃ more c' w', crun evs (c, None) = Some (pre ++ m :: more, (c', w')).
Proof.
  intros Hc Hm Hb Hrx Ht. destruct (crun_ok evs c None Hc Hm Hb) as (rs & c' & w' & Hr & _ & _ & (arr & Ha & _) & Hlen).
  specialize (Hlen eq_refl). rewrite Hrx in Ha, Hlen. rewrite length_app in Hlen. cbn [length] in Hlen. rewrite <- app_assoc in Ha. cbn [app] in Ha.
  destruct (prefix_reaches rs _ pre _ m Ha) as [more ->]; [lia|]. by exists more, c', w'.
Qed.

(** C10: a timer reaches its task.  A timer that is still wanted when a turn
    starts at or after its time has its timeout handed out - in that turn or a
    later one, after at most as many turns as there were messages and timers -
    even if a task deletes it meanwhile.  What other threads add meanwhile must
    be well formed ([msg_ok]: reload commands of at most five plain words, no
    timeouts with a parameter; [container_command_overruns] is the other case),
    and the bounds are those of [container_in_order]. *)
Theorem container_timer_delivered k o evs c x : cinv [] c → Forall msg_ok (cadds evs) →
  (load c + 2 * Z.of_nat (S (length evs) * step_budget (B:=B) (rows c)) < 2 ^ 32 - 1)%Z →
  x ∈ mTimers (mTTQ c) → mTimerStoped (mTTQ c) !! tmKey x = Some true → (mWhen x ≤ k_now k)%Z →
  length (Fifo.mFifo (ct_rx c)) + length (mTimers (mTTQ c)) ≤ S (turns evs) →
  ∃ rs c' w', crun (CTurn k o :: evs) (c, None) = Some (rs, (c', w')) ∧ RTimeOut (msg_of x) ∈ rs.
Proof.
  intros Hc Hm Hb Hx Hw Hd Ht.
  destruct (cstep_ok (CTurn k o) c None Hc ltac:(constructor)) as (r & c1 & w1 & Hs & [Hc1 Hr1 Hl1 _] & Hw1 & Hturn); [lia|].
  destruct (Hturn k o eq_refl eq_refl) as [Hr (due & l & Hall & Hlen & Hdue)]. specialize (Hdue x Hx Hw Hd).
  apply list_elem_of_split in Hdue as (d1 & d2 & ->). rewrite length_app in Hlen. cbn [length] in Hlen.
  destruct (crun_ok evs c1 w1 Hc1 Hm) as (rs & c2 & w2 & Hrun & _ & _ & (arr & Ha & _) & Hmin); [rewrite Hr1; lia|].
  exists (option_list r ++ rs), c2, w2. split; [cbn [crun]; erewrite bind_eq by exact Hs; cbv beta; by erewrite bind_eq by exact Hrun|].
  assert (Hsome : is_Some r ∨ Fifo.mFifo (ct_rx c1) = []) by done.
  assert (Hrs : length (Fifo.mFifo (ct_rx c)) + length d1 < length (option_list r ++ rs)).
  { apply (f_equal length) in Hall. rewrite !length_app in Hall. cbn [length] in Hall. rewrite length_app.
    destruct (Hw1 eq_refl) as [->|Hnil]; [specialize (Hmin eq_refl)|rewrite Hnil in Hall; cbn [length] in Hall; lia].
    destruct Hsome as [[m ->]|Hnil]; [change (length (option_list (Some m))) with 1 in *; lia|rewrite Hnil in Hall; cbn [length] in Hall; lia]. }
  assert (Heq : (option_list r ++ rs) ++ Fifo.mFifo (ct_rx c2) = (Fifo.mFifo (ct_rx c) ++ d1) ++ RTimeOut (msg_of x) :: (d2 ++ l) ++ arr).
  { rewrite <- app_assoc, Ha, app_assoc, Hall. repeat (rewrite <- app_assoc; cbn [app]). done. }
  destruct (prefix_reaches _ _ _ _ _ Heq) as [more ->]; [rewrite length_app; lia|]. apply elem_of_app. right. by left.
Qed.

(** C20: a management event for all tasks ([taskID] 0) is answered once by each
    registered task, in the order of the ids: after what the task itself posts
    meanwhile comes an answer with the task's type and id as the sender and the
    requester's address, event and transaction; nothing else is posted.  This
    excludes the reload commands the container takes for itself ("set stepcheck"
    and "set loglevel", which [container_command] answers once, for the
    container, and no task sees), and reload commands of more than five words or with
    anything but plain ones, which are undefined ([command_ok]). *)
Theorem container_event_answered o e c : cinv [] c → command_ok e → e_taskID e = 0%Z →
  (e_eventID e = KERNAL_APP_RELOAD → container_command e c = Some (false, c)) →
  (load c + 2 * Z.of_nat (length (mTaskList c) * B) < 2 ^ 32 - 1)%Z →
  ∃ c' segs, dispatch o (REvent e) c = Some (tt, c') ∧ cinv [] c' ∧ ct_posted c' = ct_posted c ++ concat segs ∧
    Forall2 (λ id seg, ∃ own rsp row, seg = own ++ [REvent rsp] ∧ Forall is_event own ∧ row_of (rows c) id = Some row ∧ answers e row (ct_containerId c) rsp)
      (mTaskList c).*1 segs.
Proof.
  intros Hc He Hid Hcmd Hb. cbn [dispatch]. unfold process_event.
  assert (Hd : (if decide (e_eventID e = KERNAL_APP_RELOAD) then container_command e else mret false) c = Some (false, c)) by (case_decide; auto).
  erewrite bind_eq by exact Hd. cbv beta iota. erewrite (bind_eq (gets mTaskList)) by reflexivity. rewrite Hid.
  rewrite (decide_False (P := (0 < 0)%Z)) by lia. rewrite decide_True by done.
  destruct (answer_all_ok o e (mTaskList c).*1 c Hc) as (c' & segs & Hr & Hc' & Hp & Hf & _);
    [by rewrite <- ids_rows|done|by rewrite length_fmap|]. by exists c', segs.
Qed.

(** C28: a message for a registered task: [procMsg] of that task, and of no
    other, runs on it, with the counters and the time set before; the message
    for another id, or for none, is dropped.  Stated for a container that does
    not measure its steps ([mCheckStepTime] is FALSE, as constructed). *)
Theorem container_message o m c : cinv [] c → (load c + 2 * Z.of_nat B < 2 ^ 32 - 1)%Z → mCheckStepTime c = false →
  let id := logAddr (tAddr m) in
  match (if decide (id ≤ 0)%Z then None else map_find id (mTaskList c)) with
  | None => dispatch o (RUni m) c = Some (tt, c)
  | Some i => ∃ c0 c1 c' d,
      let t := with_time (o_time o) (ti_task i) in
      let t := if decide (0 ≤ dialogType m ≤ 5)%Z then count_dialog (dialogType m) t else t in
      (∀ id', map_find id' (mTaskList c0) = if decide (id' = id) then Some (TaskInfo (ti_taskType i) (ti_taskId i) t (ti_steps i)) else map_find id' (mTaskList c)) ∧
      exec o t (procMsg m t) c0 = Some ((tt, d), c1) ∧ dispatch o (RUni m) c = Some (tt, c') ∧ ct_msgCount c' = u32 (ct_msgCount c1 + 1) ∧
      ∀ id', map_find id' (mTaskList c') = if decide (id' = id) then Some (TaskInfo (ti_taskType i) (ti_taskId i) (with_derived d t) (ti_steps i)) else map_find id' (mTaskList c)
  end.
Proof.
  cbv zeta. intros Hc Hb Hck. cbn [dispatch]. unfold process_uni. destruct (decide (logAddr (tAddr m) ≤ 0)%Z); [done|].
  set (id := logAddr (tAddr m)). erewrite (bind_eq (gets mTaskList)) by reflexivity. destruct (map_find id (mTaskList c)) as [i|] eqn:Hi; [|done].
  set (t0 := with_time (o_time o) (ti_task i)). set (t := if decide _ then count_dialog _ t0 else t0).
  set (upd f c := with_tasks (map_update id (λ i : TTaskInfo T, TaskInfo (ti_taskType i) (ti_taskId i) (f (ti_task i)) (ti_steps i)) (mTaskList c)) c : container T).
  assert (Hpre : ∃ c0, (∀ A (k : M (container T) A), (upd_task id (with_time (o_time o)) ;;
      (if decide (0 ≤ dialogType m ≤ 5)%Z then upd_task id (count_dialog (dialogType m)) else mret tt) ;; k) c = k c0) ∧
    (∀ id', map_find id' (mTaskList c0) = if decide (id' = id) then Some (TaskInfo (ti_taskType i) (ti_taskId i) t (ti_steps i)) else map_find id' (mTaskList c)) ∧
    cinv [] c0 ∧ load c0 = load c ∧ mCheckStepTime c0 = mCheckStepTime c).
  { subst t. destruct (decide (0 ≤ dialogType m ≤ 5)%Z).
    - exists (upd (count_dialog (dialogType m)) (upd (with_time (o_time o)) c)). split; [done|]. split; [|by destruct Hc; split_and!].
      intros id'. cbn [upd with_tasks mTaskList]. rewrite !map_find_update. case_decide; [subst; by rewrite Hi|done].
    - exists (upd (with_time (o_time o)) c). split; [done|]. split; [|by destruct Hc; split_and!].
      intros id'. cbn [upd with_tasks mTaskList]. rewrite !map_find_update. case_decide; [subst; by rewrite Hi|done]. }
  destruct Hpre as (c0 & Hrun & Hfind & Hc0 & Hl0 & Hck0).
  destruct (wp_elim _ _ _ (safe_exec [] (rows c0) o t B _ (good_procMsg m t) c0 Hc0 eq_refl ltac:(lia))) as ([[] d] & c1 & Hx & _).
  assert (Hck1 : mCheckStepTime c1 = false) by (rewrite (exec_frame mCheckStepTime) with (1 := λ _ _, eq_refl) (2 := λ _ _, eq_refl) (3 := λ _ _, eq_refl) (4 := λ _ _, eq_refl) (5 := Hx); congruence).
  pose proof (exec_tasks _ _ _ _ _ _ Hx) as Ht1.
  exists c0, c1, (count_msg (upd (with_derived d) c1)), d. split; [done|]. split; [exact Hx|]. split; [|split; [done|]].
  - unfold task_process. erewrite (bind_eq _ _ c tt (upd (with_derived d) c1)).
    + unfold check_step. erewrite (bind_eq (gets _ ≫= _) _ _ tt (upd (with_derived d) c1)); [done|].
      erewrite (bind_eq (gets mCheckStepTime)) by reflexivity. cbn [upd with_tasks mCheckStepTime]. by rewrite Hck1.
    + rewrite Hrun. unfold virtual. erewrite (bind_eq (gets mTaskList)) by reflexivity. rewrite Hfind, decide_True by done. cbn [defined].
      erewrite (bind_eq (mret _)) by reflexivity. cbn [ti_task]. erewrite bind_eq by exact Hx. done.
  - intros id'. cbn [count_msg upd with_tasks mTaskList]. rewrite map_find_update, Ht1, Hfind. by destruct (decide (id' = id)).
Qed.

(** A turn without messages and without timers that are due goes to wait. *)
Lemma idle_turn k o c : cinv [] c → (load c < 2 ^ 32 - 1)%Z → Fifo.mFifo (ct_rx c) = [] → (∀ x, x ∈ mTimers (mTTQ c) → k_now k < mWhen x)%Z →
  ∃ n c', msTillNextTimer (k_next k) (mTTQ c') = Some (n, mTTQ c') ∧ mTimers (mTTQ c') ≡ₚ mTimers (mTTQ c) ∧ Fifo.mFifo (ct_rx c') = [] ∧ cinv [] c' ∧
    cstep (CTurn k o) (c, None) = (on_rx (getNext_ms (i32 (if mWaitAtQueue c then if decide (u32 (mWaitMS c) < n)%Z then u32 (mWaitMS c) else n else 0)) (k_begin k) (k_loop k)) c' ≫= λ '(r, c), after_call o r c).
Proof.
  intros Hc Hb Hrx Hall. destruct (run_timers_ok (k_now k) (k_next k) c Hc Hb) as (n & s' & q' & fired & Hrun & Hn & Hc' & Hpr & Hl & _).
  assert (Hfired : fired = []).
  { destruct fired as [|x fired]; [done|]. pose proof (pr_split _ _ _ _ Hpr) as Hs. cbn in Hs. pose proof (pr_due _ _ _ _ Hpr) as Hd.
    apply Forall_inv in Hd. cbn in Hd. specialize (Hall x). rewrite <- Hs in Hall. specialize (Hall ltac:(by left)). lia. }
  subst fired. pose proof (pr_split _ _ _ _ Hpr) as Hs. cbn in Hs. rewrite Hrx in Hl. cbn in Hl.
  exists n, (with_ttq s' (with_rx q' c)). split_and!; [exact Hn|exact Hs|done|done|].
  unfold cstep. cbn [fst snd]. unfold turn_begin. erewrite bind_eq by exact Hrun. unfold next_step.
  erewrite (bind_eq (gets mWaitAtQueue ≫= _)); [reflexivity|]. erewrite (bind_eq (gets mWaitAtQueue)) by reflexivity.
  erewrite (bind_eq (gets mWaitMS)) by reflexivity. cbn [with_ttq with_rx mWaitAtQueue mWaitMS]. by destruct (mWaitAtQueue c).
Qed.

(** C22: a container sleeps past its timers.  With nothing in the queue and no
    timer due at the start of the turn, a container whose next timer is due by
    the second reading of the clock - and a container of sockets, which is not
    to wait at the queue at all - asks for a wait of 0 ms, and that is a wait
    without limit: no time that passes and no wake-up ends it, the timers stay
    where they are, until another thread adds a message. *)
Theorem container_oversleeps k o c : cinv [] c → (load c < 2 ^ 32 - 1)%Z → Fifo.mFifo (ct_rx c) = [] → (0 ≤ k_next k)%Z →
  (∀ x, x ∈ mTimers (mTTQ c) → k_now k < mWhen x ∧ 0 ≤ mWhen x < 2 ^ 64)%Z →
  mWaitAtQueue c = false ∨ (∃ x, x ∈ mTimers (mTTQ c) ∧ mWhen x ≤ k_next k)%Z →
  ∃ c', cstep (CTurn k o) (c, None) = Some (None, (c', Some WaitAny)) ∧ mTimers (mTTQ c') ≡ₚ mTimers (mTTQ c) ∧
    ∀ evs, cadds evs = [] → crun evs (c', Some WaitAny) = Some ([], (c', Some WaitAny)).
Proof.
  intros Hc Hb Hrx Hnext Hall Hsleep.
  destruct (idle_turn k o c Hc Hb Hrx ltac:(intros; by apply Hall)) as (n & c' & Hn & Hp & Hrx' & Hc' & Hstep).
  destruct (msTillNextTimer_spec (k_next k) (mTTQ c') Hnext) as (n' & Hn' & Hrange & Hmin); [intros x Hx; rewrite Hp in Hx; by apply Hall|].
  assert (n' = n) as -> by congruence.
  assert (Hzero : (if mWaitAtQueue c then if decide (u32 (mWaitMS c) < n)%Z then u32 (mWaitMS c) else n else 0%Z) = 0%Z).
  { pose proof (u32_range (mWaitMS c)) as Hms. destruct Hsleep as [->|(x & Hx & Hxn)]; [done|]. destruct (mWaitAtQueue c); [|done].
    rewrite <- Hp in Hx. specialize (Hmin x Hx). destruct (decide (u32 (mWaitMS c) < n)%Z); lia. }
  rewrite Hzero in Hstep. assert (Hget : getNext_ms (i32 0) (k_begin k) (k_loop k) (ct_rx c') = Some (Waits WaitAny, ct_rx c')).
  { change (i32 0) with 0%Z. unfold getNext_ms. rewrite decide_True by done. pose proof (fifo_getNext_ok _ (ci_fifo _ _ Hc')) as Hg. by rewrite Hrx' in Hg. }
  assert (Hid : with_rx (ct_rx c') c' = c') by by destruct c'.
  exists c'. split; [|split; [done|]].
  - rewrite Hstep. unfold on_rx, zoom. rewrite Hget. cbn [mbind option_bind]. by rewrite Hid.
  - assert (Hwake : on_rx getNext c' = Some (Waits WaitAny, c')).
    { unfold on_rx, zoom. pose proof (fifo_getNext_ok _ (ci_fifo _ _ Hc')) as Hg. rewrite Hrx' in Hg. by rewrite Hg, Hid. }
    induction evs as [|ev evs IH]; intros Ha; [done|]. rewrite cadds_cons in Ha. apply app_eq_nil in Ha as [Ha1 Ha2]. cbn [crun].
    erewrite (bind_eq _ _ _ None); [cbv beta; by erewrite bind_eq by (by apply IH)|].
    destruct ev as [k' o'|m|[] now o']; try done. unfold cstep. cbn [snd fst no_timeout negb andb resume]. by rewrite Hwake.
Qed.

(** C29: otherwise a waiting container wakes up in time: with the next timer
    later than the second reading of the clock, an idle turn waits at least a
    millisecond, at most [mWaitMS], and no longer than until the next timer; and
    the end of that wait ends the turn. *)
Theorem container_wakes_in_time k o c : cinv [] c → (load c < 2 ^ 32 - 1)%Z → Fifo.mFifo (ct_rx c) = [] → mWaitAtQueue c = true →
  (0 < mWaitMS c < 2 ^ 31)%Z → (0 ≤ k_next k)%Z → (0 ≤ k_begin k ≤ k_loop k)%Z → (k_begin k < 2 ^ 64 - 2 ^ 31)%Z →
  (∀ x, x ∈ mTimers (mTTQ c) → k_now k < mWhen x ∧ k_next k < mWhen x < 2 ^ 64)%Z →
  ∃ n c', (0 < n ≤ mWaitMS c)%Z ∧ (∀ x, x ∈ mTimers (mTTQ c) → n ≤ mWhen x - k_next k)%Z ∧
    (cstep (CTurn k o) (c, None) = Some (None, (c', None)) ∨
     ∃ t, cstep (CTurn k o) (c, None) = Some (None, (c', Some (WaitUntil (k_begin k + n) t))) ∧
       ∀ now o', cstep (CWake false now o') (c', Some (WaitUntil (k_begin k + n) t)) = Some (None, (c', None))).
Proof.
  intros Hc Hb Hrx Hw Hms Hnext Hbegin Hb64 Hall.
  destruct (idle_turn k o c Hc Hb Hrx ltac:(intros; by apply Hall)) as (n & c' & Hn & Hp & Hrx' & Hc' & Hstep).
  destruct (msTillNextTimer_spec (k_next k) (mTTQ c') Hnext) as (n' & Hn' & Hrange & Hmin); [intros x Hx; rewrite Hp in Hx; destruct (Hall x Hx); lia|].
  assert (n' = n) as -> by congruence.
  assert (Hpos : (0 < n)%Z).
  { unfold msTillNextTimer, gets in Hn. injection Hn as <-. unfold XFRAME_TIMER_STEP_MAX. destruct (min_top _) as [x|] eqn:Hx; [|lia].
    apply min_top_some in Hx as [Hx _]. rewrite Hp in Hx. destruct (Hall x Hx). rewrite decide_False by lia. destruct (decide (INT_MAX < u64 (mWhen x - k_next k))%Z); [lia|].
    unfold u64. rewrite Z.mod_small by lia. lia. }
  rewrite Hw, (u32_small (mWaitMS c)) in Hstep by lia. set (n0 := if decide (mWaitMS c < n)%Z then mWaitMS c else n) in *.
  assert (Hn0 : (0 < n0 ≤ mWaitMS c ∧ n0 ≤ n)%Z) by (subst n0; case_decide; lia). clearbody n0.
  exists n0, c'. split; [lia|]. split.
  { intros x Hx. specialize (Hmin x). rewrite Hp in Hmin. specialize (Hmin Hx). destruct (Hall x Hx). lia. }
  assert (Hid : with_rx (ct_rx c') c' = c') by by destruct c'.
  rewrite i32_small in Hstep by lia. unfold getNext_ms in Hstep. rewrite decide_False in Hstep by lia. rewrite (u32_small n0) in Hstep by lia.
  assert (He : u64 (k_begin k + n0) = (k_begin k + n0)%Z) by (unfold u64; rewrite Z.mod_small; lia). rewrite He in Hstep.
  pose proof (wait_loop_ok (k_begin k + n0) (k_loop k) _ (ci_fifo _ _ Hc')) as Hg. rewrite Hrx' in Hg.
  unfold on_rx, zoom in Hstep. rewrite Hg in Hstep. cbn [mbind option_bind] in Hstep. rewrite Hid in Hstep.
  case_decide; [left; exact Hstep|right]. eexists. split; [exact Hstep|]. intros now o'. unfold cstep. cbn [fst snd no_timeout negb andb].
  rewrite u32_small by lia. rewrite bool_decide_false by lia. cbn [resume]. unfold on_rx, zoom, mret, M_ret. cbn [mbind option_bind]. rewrite Hid. done.
Qed.
End properties.

(** ** Commands *)
Section commands.
Context {T : Type} `{TaskCode T} `{MinTop}.
Implicit Types (c : container T) (e : TEventMsg).

(** A reload command of six words or more writes past the container's array. *)
Lemma container_command_overruns o e c : e_eventID e = KERNAL_APP_RELOAD → plain (e_info e) → 5 < length (words (e_info e)) →
  dispatch o (REvent e) c = None.
Proof.
  intros Hre Hp Hw. cbn [dispatch]. unfold process_event. rewrite decide_True by done. apply ub_fail. unfold container_command. apply ub_fail.
  unfold reload_words. pose proof (words_from_ok (S (length (e_info e))) [] (e_info e) [] 5 Hp ltac:(lia) ltac:(unfold MaxArgC; cbn; lia)) as Hs.
  cbn [length app] in Hs. unfold cs_split. by rewrite Hs, decide_False by lia.
Qed.
(** "set logLevel", as the comments write it, is not a command of the container
    and changes nothing; "set loglevel" is, and it sets the level. *)
Lemma container_loglevel e c : 
  (e_info e = lit "set logLevel DEBUG" → container_command e c = Some (false, c)) ∧
  (e_info e = lit "set loglevel DEBUG" → ∃ c', container_command e c = Some (true, c') ∧ ct_logLevel c' = (λ _, Debug) <$> ct_logLevel c) ∧
  (e_info e = lit "set loglevel default" → ∃ c', container_command e c = Some (true, c') ∧ ct_logLevel c' = (λ _, Err) <$> ct_logLevel c).
Proof.
  unfold container_command. split_and!; intros ->.
  - by vm_compute.
  - destruct c as [? ? ? ? ? ? ? ? ? ? ? ? [v|] ? ?]; (erewrite bind_eq by (vm_compute; reflexivity)); eexists; (split; [vm_compute; reflexivity|done]).
  - destruct c as [? ? ? ? ? ? ? ? ? ? ? ? [v|] ? ?]; (erewrite bind_eq by (vm_compute; reflexivity)); eexists; (split; [vm_compute; reflexivity|done]).
Qed.
(** The time to wait for sockets only shrinks, member by member: after asking
    for 1200 ms it is 200 ms, which is neither that nor the 500 ms before. *)
Lemma psa_wait_shrinks : psa_setMilliSeconds 1200 (0, 500000)%Z = (0, 200000)%Z ∧ psatask_setMilliSeconds 1200 = (1, 200000)%Z.
Proof. by vm_compute. Qed.
End commands.

(** ** Witnesses: tasks that echo messages and set a timer for each *)
#[export] Instance echo_code : TaskCode Z := {
  onInit t := TRet (true, derived t);
  preTaskStart t := TRet (true, derived t);
  preTaskShutdown t := TRet (false, derived t);
  reloadTaskEnv cmd t := TRet (true, derived t);
  getStatues cmd st t := TRet (st, derived t);
  procMsg m t := TSetTimer 1 50 (Some [65%Z]) (λ _, TSendMsg m (TRet (tt, (derived t + 1)%Z)));
  onTimeOut key iid para t := TRet (tt, (derived t + 100)%Z) }.
#[export] Instance echo_laws : TaskLaws Z 1.
Proof. by split. Qed.
Definition demo_min : MinTop := first_min.
#[local] Existing Instance demo_min.
#[local] Instance demo_min_laws : MinTopLaws (H:=demo_min) := first_min_laws.
Definition demo_env : task_env := TaskEnv 0 3 0 10 5 (lit "echo") [].
Definition demo_out : outside := Outside 1000 1 0 0 (λ _, demo_env).
Definition demo_info (id : Z) : TTaskInfo Z := TaskInfo 5 id (task_init 1 2 id demo_env (new_task [] 0%Z)) new_steps.
Definition demo_ttq : kern := match krun [KSet 100 1 50 101 1 (Some [65])]%Z new_kern with Some (_, s) => s | None => new_kern end.
Definition demo_to (id : Z) : TUniNetMsg := UniNetMsg (Tuple 0 0 0) 0 (Addr 0 0 0) (Addr id 0 0) 0 0 1 [] None None None.
Definition demo_event : TEventMsg := EventMsg (Tuple 3 0 9) KERNAL_APP_INIT 77 0 0 0 [].
Definition demo_with (rx : list TMsg) (wait : bool) : container Z :=
  Container 1 2 false 0 0 0 new_steps [(101, demo_info 101); (102, demo_info 102)]%Z (AbstractFifo rx (Z.of_nat (length rx)) 0) wait
    (if wait then 1000 else 0) demo_ttq (Some 3%Z) [] [].
Definition demo_rx : list TMsg := [RUni (demo_to 102); REvent demo_event].
Lemma demo_ttq_inv : kinv demo_ttq.
Proof.
  destruct (wp_elim _ _ _ (krun_inv [KSet 100 1 50 101 1 (Some [65])]%Z new_kern new_kern_inv ltac:(by vm_compute))) as ([] & s & Hr & Hs & _).
  unfold demo_ttq. by rewrite Hr.
Qed.
Lemma demo_inv rx wait : timeouts rx = [] → Forall queued_ok rx → (Z.of_nat (length rx) < 2 ^ 64)%Z → cinv [] (demo_with rx wait).
Proof.
  intros Ht Hq Hl. split; [|done|split; [done|exact Hl]|exact Hq]. unfold kview. cbn [demo_with mTTQ ct_rx Fifo.mFifo app]. rewrite Ht. exact demo_ttq_inv.
Qed.
Lemma demo_rx_inv wait : cinv [] (demo_with demo_rx wait).
Proof. by apply demo_inv; [|repeat constructor|]. Qed.
Lemma demo_empty_inv wait : cinv [] (demo_with [] wait).
Proof. by apply demo_inv. Qed.
Definition demo_clocks (n : Z) : clocks := Clocks n n n n.
Definition demo_run : list cevent :=
  [CTurn (demo_clocks 100) demo_out; CAdd (RUni (demo_to 101)); CTurn (demo_clocks 160) demo_out; CTurn (demo_clocks 170) demo_out; CWake true 180 demo_out]%Z.
Lemma demo_crun_ok : Forall msg_ok (cadds demo_run).
Proof. by repeat constructor. Qed.

Lemma container_in_order_witness :
  ∃ rs c' w' arr, crun demo_run (demo_with demo_rx true, None) = Some (rs, (c', w')) ∧ cinv [] c' ∧
    rs ++ Fifo.mFifo (ct_rx c') = demo_rx ++ arr ∧ cadds demo_run `sublist_of` arr.
Proof. apply (container_in_order (B:=1) demo_run (demo_with demo_rx true) None (demo_rx_inv true) demo_crun_ok). by vm_compute. Defined.
Lemma container_reaches_witness :
  ∃ more c' w', crun demo_run (demo_with demo_rx true, None) = Some ([RUni (demo_to 102)] ++ REvent demo_event :: more, (c', w')).
Proof.
  apply (container_reaches (B:=1) demo_run (demo_with demo_rx true) [RUni (demo_to 102)] (REvent demo_event) [] (demo_rx_inv true) demo_crun_ok);
    [by vm_compute|done|cbn; lia].
Defined.
Definition demo_timer : TTimer := new_TTimer 100 1 1 50 101 1 1%N.
Lemma container_timer_delivered_witness :
  ∃ rs c' w', crun (CTurn (demo_clocks 150) demo_out :: demo_run) (demo_with demo_rx true, None) = Some (rs, (c', w')) ∧ RTimeOut (msg_of demo_timer) ∈ rs.
Proof.
  assert (Ht : mTimers demo_ttq = [demo_timer]) by (by vm_compute).
  apply (container_timer_delivered (B:=1) (demo_clocks 150) demo_out demo_run (demo_with demo_rx true) demo_timer (demo_rx_inv true) demo_crun_ok).
  - by vm_compute.
  - change (demo_timer ∈ mTimers demo_ttq). rewrite Ht. by left.
  - by vm_compute.
  - by vm_compute.
  - change (2 + length (mTimers demo_ttq) ≤ S (turns demo_run)). rewrite Ht. cbn. lia.
Defined.
Lemma container_event_answered_witness :
  ∃ c' segs, dispatch demo_out (REvent demo_event) (demo_with [] true) = Some (tt, c') ∧ ct_posted c' = concat segs ∧ length segs = 2.
Proof.
  destruct (container_event_answered (B:=1) demo_out demo_event (demo_with [] true) (demo_empty_inv true)) as (c' & segs & Hd & _ & Hp & Hf);
    [done|done|done|by vm_compute|]. exists c', segs. split; [done|]. split; [done|]. by apply Forall2_length in Hf.
Defined.
Lemma container_message_witness :
  ∃ c', dispatch demo_out (RUni (demo_to 102)) (demo_with [] true) = Some (tt, c') ∧ map_find 101 (mTaskList c') = Some (demo_info 101).
Proof.
  destruct (container_message (B:=1) demo_out (demo_to 102) (demo_with [] true) (demo_empty_inv true) ltac:(by vm_compute) eq_refl)
    as (c0 & c1 & c' & d & _ & _ & Hd & _ & Hf). exists c'. split; [exact Hd|]. by rewrite Hf.
Defined.
Lemma container_oversleeps_witness :
  (∃ c', cstep (CTurn (Clocks 149 150 150 150) demo_out) (demo_with [] true, None) = Some (None, (c', Some WaitAny))) ∧
  ∃ c', cstep (CTurn (Clocks 100 100 100 100) demo_out) (demo_with [] false, None) = Some (None, (c', Some WaitAny)).
Proof.
  assert (Ht : mTimers demo_ttq = [demo_timer]) by (by vm_compute). split.
  - destruct (container_oversleeps (Clocks 149 150 150 150) demo_out (demo_with [] true) (demo_empty_inv true)) as (c' & Hs & _); [by vm_compute|done|done| | |by exists c'].
    + intros x Hx. change (x ∈ mTimers demo_ttq) in Hx. rewrite Ht in Hx. apply list_elem_of_singleton in Hx as ->. by vm_compute.
    + right. exists demo_timer. split; [change (demo_timer ∈ mTimers demo_ttq); rewrite Ht; by left|by vm_compute].
  - destruct (container_oversleeps (Clocks 100 100 100 100) demo_out (demo_with [] false) (demo_empty_inv false)) as (c' & Hs & _); [by vm_compute|done|done| |by left|by exists c'].
    intros x Hx. change (x ∈ mTimers demo_ttq) in Hx. rewrite Ht in Hx. apply list_elem_of_singleton in Hx as ->. by vm_compute.
Defined.
Lemma container_wakes_in_time_witness :
  ∃ n c', (0 < n ≤ 1000)%Z ∧ (∀ x, x ∈ mTimers (mTTQ (demo_with [] true)) → n ≤ mWhen x - 120)%Z ∧
    (cstep (CTurn (demo_clocks 120) demo_out) (demo_with [] true, None) = Some (None, (c', None)) ∨
     ∃ t, cstep (CTurn (demo_clocks 120) demo_out) (demo_with [] true, None) = Some (None, (c', Some (WaitUntil (120 + n) t))) ∧
       ∀ now o', cstep (CWake false now o') (c', Some (WaitUntil (120 + n) t)) = Some (None, (c', None))).
Proof.
  assert (Ht : mTimers demo_ttq = [demo_timer]) by (by vm_compute).
  apply (container_wakes_in_time (demo_clocks 120) demo_out (demo_with [] true) (demo_empty_inv true)); try done.
  intros x Hx. change (x ∈ mTimers demo_ttq) in Hx. rewrite Ht in Hx. apply list_elem_of_singleton in Hx as ->. by vm_compute.
Defined.
