(* ===== verification/Transport.v ===== *)
(** * Messages over UDP ([transport/transport.C], [transport/transportudp.C])

    A transport task sends and receives COM messages in datagrams: a frame
    ([TTransMsg]: a mark, the cseq, the transaction id and a length) and the
    encoded body.  The socket is the sequence of datagrams waiting at it, the
    log of the datagrams handed to [sendto], and what [sendto] returns; a
    datagram is cut at the size given to [recvfrom].  One buffer serves all
    sockets: its cells keep what earlier datagrams left there.  [CList] is used
    through the list it implements (CList.v); logging and the file descriptor
    sets are not modelled. *)

From S2P Require Import Prelude VarChar CStr UniMsg MsgCodec Uri TaskSelector FrameCtrl.

(** ** The frame *)
(** [split] as three bytes, [cseq] and [length] INTs. *)
Record TTransMsg := TransMsg { split : bytes; tm_transid : bytes; tm_cseq : Z; tm_length : Z }.
Definition new_TTransMsg : TTransMsg := TransMsg [0; 255; 0]%Z [] 0 0.
Definition TTransMsg_encode (t : TTransMsg) : cells :=
  det (split t) ++ encode_int (tm_cseq t) ++ put_str (tm_transid t) ++ encode_int (tm_length t).
Definition TTransMsg_decode : M cells TTransMsg :=
  a ← get_byte; b ← get_byte; c ← get_byte; s ← get_int; t ← get_str; l ← get_int; mret (TransMsg [a; b; c] t s l).
Definition TTransMsg_size (t : TTransMsg) : Z := (3 + 4 + CStr_size (tm_transid t) + 4)%Z.
(** [split] is of type [char], which is signed. *)
Definition TTransMsg_check (t : TTransMsg) : bool :=
  match split t with
  | [a; b; c] => bool_decide (a = 0 ∧ Z.lxor 255 (i8 b) ≠ 0 ∧ c = 0 ∧ 0 < tm_length t)%Z
  | _ => false
  end.

(** ** The link *)
Definition SocketBufferSize : Z := 8193.
Definition MaxRecvBufSize : Z := 8096.
Definition COM_MESSAGE_TYPE : Z := 10.
Definition DIALOG_MESSAGE : Z := 0.

(** The peer of a socket: the four bytes of the address, and the port. *)
Record sockaddr_in := SockAddr { sin_addr : Z * Z * Z * Z; sin_port : Z }.
Definition inet_ntoa (a : Z * Z * Z * Z) : bytes :=
  let '(a, b, c, d) := a in dec a ++ [46%Z] ++ dec b ++ [46%Z] ++ dec c ++ [46%Z] ++ dec d.
(** [CStr::operator=(struct sockaddr_in)] *)
Definition addr_text (a : sockaddr_in) : bytes := inet_ntoa (sin_addr a) ++ [58%Z] ++ dec (sin_port a).

Record TBind := Bind { mBindID : Z; mSendBuffer : list ptr; pending : list (cells * sockaddr_in) }.
(** [mBinds]: a [std::map], in the order of the keys; the pointers may be NULL.
    [u_log]: what was handed to [sendto], newest last.  The constructor leaves
    the three counters as they are: [None] is an indeterminate one, which
    counting leaves indeterminate; nothing else reads them. *)
Record udp := Udp {
  mBinds : list (Z * option TBind); sock_buf : cells; u_mem : store; u_log : list (bytes * Z * cells);
  mRecvCount : option Z; mSendCount : option Z; mSendFaile : option Z }.
(** [n++] on an [UINT] that may be indeterminate. *)
Definition incr (n : option Z) : option Z := (λ n, u32 (n + 1)) <$> n.
Abbreviation UDP := (M udp).

Definition on_store {A} (m : M store A) : UDP A :=
  zoom u_mem (λ h u, Udp (mBinds u) (sock_buf u) h (u_log u) (mRecvCount u) (mSendCount u) (mSendFaile u)) m.
Definition set_buf (b : cells) : UDP unit :=
  modify (λ u, Udp (mBinds u) b (u_mem u) (u_log u) (mRecvCount u) (mSendCount u) (mSendFaile u)).
Definition set_binds (l : list (Z * option TBind)) : UDP unit :=
  modify (λ u, Udp l (sock_buf u) (u_mem u) (u_log u) (mRecvCount u) (mSendCount u) (mSendFaile u)).
Definition log_send (x : bytes * Z * cells) (ok : bool) : UDP unit :=
  modify (λ u, Udp (mBinds u) (sock_buf u) (u_mem u) (u_log u ++ [x]) (mRecvCount u)
    (if ok then incr (mSendCount u) else mSendCount u) (if ok then mSendFaile u else incr (mSendFaile u))).
Definition count_recv : UDP unit :=
  modify (λ u, Udp (mBinds u) (sock_buf u) (u_mem u) (u_log u) (incr (mRecvCount u)) (mSendCount u) (mSendFaile u)).

(** [std::map]: the entry of a key, and [operator[]], which makes one with a
    NULL pointer. *)
Fixpoint map_find (k : Z) (l : list (Z * option TBind)) : option (option TBind) :=
  match l with [] => None | (k', b) :: l => if decide (k = k') then Some b else map_find k l end.
Fixpoint map_set (k : Z) (b : option TBind) (l : list (Z * option TBind)) : list (Z * option TBind) :=
  match l with
  | [] => [(k, b)]
  | (k', b') :: l => if decide (k = k') then (k, b) :: l else if decide (k < k')%Z then (k, b) :: (k', b') :: l else (k', b') :: map_set k b l
  end.
(** The bind behind the (valid) pointer of key [k]. *)
Definition get_bind (k : Z) : UDP TBind := λ u, b ← map_find k (mBinds u); b ← b; Some (b, u).
Definition put_bind (k : Z) (b : TBind) : UDP unit := l ← gets mBinds; set_binds (map_set k (Some b) l).

(** [mSockBuffer.clear()]: the first character is set. *)
Definition clear_buf : UDP unit := b ← gets sock_buf; b ← defined (poke b 0 0); set_buf b.
(** Writing [w] at offset [off]. *)
Definition write_buf (off : Z) (w : cells) : UDP unit :=
  b ← gets sock_buf; b ← defined (blit b off w (Z.of_nat (length w))); set_buf b.

(** [TTransport::postMsg]: the parent's container gets the message. *)
Record parent := Parent { p_tc : ptr; p_addr : TMsgAddress }.
Definition posted (pa : parent) (u : TUniNetMsg) : TUniNetMsg :=
  UniNetMsg (Tuple 0 0 0) (optionSet u) (Addr 0 0 0) (p_addr pa) (dialogType u)
    (msgName u) (msgType u) (transID u) (cseq u) (ctrlMsgHdr u) (msgBody u).
Definition postMsg (pa : parent) (m : ptr) : UDP unit :=
  on_store (upd_uni m (posted pa)) ;; on_store (tc_add (p_tc pa) m).

(** The dynamic casts of header and body; by their flags. *)
Definition com_hdr (m : TUniNetMsg) : option TComMsgHdr :=
  match getCtrlMsgHdr m with Some (CtrlCom h) => Some h | _ => None end.
Definition com_body (m : TUniNetMsg) : option bytes := match getMsgBody m with Some (BodyCom i) => Some i | _ => None end.

Definition onRecvSendMsg (p : ptr) : UDP unit :=
  if decide (p = NULL) then mret tt else
  m ← on_store (read_uni p);
  match com_hdr m with
  | None => mret tt
  | Some h =>
      l ← gets mBinds;
      if decide (0 < facility h)%Z then
        match map_find (facility h) l with
        | Some (Some b) => put_bind (facility h) (Bind (mBindID b) (mSendBuffer b ++ [p]) (pending b))
        | Some None => mret tt
        | None => set_binds (map_set (facility h) None l)
        end
      else
        match l with
        | [] => ub
        | (k, Some b) :: _ => put_bind k (Bind (mBindID b) (mSendBuffer b ++ [p]) (pending b))
        | (_, None) :: _ => mret tt
        end
  end.
(** [onBuildFDSet]: the socket of every entry is asked for its descriptor. *)
Definition onBuildFDSet : UDP unit :=
  l ← gets mBinds; if decide (Forall (λ kb : Z * option TBind, is_Some kb.2) l) then mret tt else ub.

(** ** Sending *)
(** One message: [rt] is what [sendto] returns for the n-th datagram. *)
Definition send_one (rt : nat → Z) (p : ptr) : UDP unit :=
  m ← on_store (read_uni p);
  match com_hdr m, com_body m with
  | Some h, Some info =>
      clear_buf ;;
      c ← (if hasCSeq m then n ← defined (getCSeq m); mret (i32 n) else mret 0%Z);
      let tm := TransMsg (split new_TTransMsg) (if hasTransId m then transID m else []) c (CStr_size info) in
      write_buf 0 (TTransMsg_encode tm) ;;
      write_buf (TTransMsg_size tm) (put_str info) ;;
      arg ← defined (argv h !! 0);
      u ← defined (TURI_of (upto0 arg)); pt ← defined (port u);
      b ← gets sock_buf; n ← gets (λ s, length (u_log s));
      log_send (upto0 (host u), pt, take (Z.to_nat (TTransMsg_size tm + tm_length tm)) b) (bool_decide (0 < rt n)%Z) ;;
      on_store (delete_msg p)
  | _, _ => on_store (delete_msg p)
  end.
Fixpoint send_all (rt : nat → Z) (l : list ptr) : UDP unit :=
  match l with
  | [] => mret tt
  | p :: l => (if decide (p = NULL) then mret tt else send_one rt p) ;; send_all rt l
  end.
(** [Send]: the buffer is emptied from the front. *)
Definition Send (rt : nat → Z) (k : Z) : UDP unit :=
  b ← get_bind k; put_bind k (Bind (mBindID b) [] (pending b)) ;; send_all rt (mSendBuffer b).

(** ** Receiving *)
(** [recvfrom]: a datagram is written to the front of the buffer. *)
Definition recvCode (k : Z) : UDP (option (Z * sockaddr_in)) :=
  b ← get_bind k;
  match pending b with
  | [] => mret None
  | (d, a) :: l =>
      put_bind k (Bind (mBindID b) (mSendBuffer b) l) ;;
      let d := take (Z.to_nat MaxRecvBufSize) d in
      write_buf 0 d ;; mret (Some (Z.of_nat (length d), a))
  end.
Definition incoming (b : Z) (t : TTransMsg) (a : sockaddr_in) (info : bytes) : TUniNetMsg :=
  let m := UniNetMsg (Tuple 0 0 0) 0 (Addr 0 0 0) (Addr 0 0 0) DIALOG_MESSAGE COM_MESSAGE_REQ COM_MESSAGE_TYPE [] None None None in
  let m := if decide (tm_cseq t = 0)%Z then m else setCSeq (u32 (tm_cseq t)) m in
  let m := if decide (tm_transid t = []) then m else setTransId (tm_transid t) m in
  let h := ComHdr 0 (Addr 0 0 0) 0 0 b 1 (addr_text a :: replicate 4 []) in
  setMsgBody (Some (BodyCom info)) (setCtrlMsgHdr (Some (CtrlCom h)) m).
(** A datagram of [n] bytes in the buffer; [true] when it counts. *)
Definition recv_one (pa : parent) (k n : Z) (a : sockaddr_in) : UDP bool :=
  buf ← gets sock_buf;
  '(t, rest) ← defined (TTransMsg_decode buf);
  if negb (TTransMsg_check t) then mret false else
  if decide (n - TTransMsg_size t < tm_length t)%Z then mret false else
  b ← get_bind k;
  '(info, _) ← defined (get_str rest);
  p ← on_store (new_msg (MUni (incoming (mBindID b) t a info)));
  postMsg pa p ;; count_recv ;; mret true.
(** [Recv]: up to ten messages; [fuel] bounds the datagrams looked at. *)
Fixpoint recv_loop (fuel : nat) (pa : parent) (k : Z) (loop : nat) : UDP unit :=
  match fuel, loop with
  | _, O => mret tt
  | O, _ => ub
  | S fuel, S loop' =>
      clear_buf ;; r ← recvCode k;
      match r with
      | None => mret tt
      | Some (n, a) =>
          if decide (n = 0)%Z then mret tt else
          ok ← recv_one pa k n a; recv_loop fuel pa k (if (ok : bool) then loop' else loop)
      end
  end.
Definition Recv (pa : parent) (k : Z) : UDP unit :=
  b ← get_bind k; recv_loop (S (length (pending b))) pa k 10.

(** [onCheckFDSet]: what is ready to read and to write, by socket. *)
Fixpoint check_binds (pa : parent) (rt : nat → Z) (ready : Z → bool * bool) (ks : list Z) : UDP unit :=
  match ks with
  | [] => mret tt
  | k :: ks =>
      get_bind k ;;
      (if (ready k).1 then Recv pa k else mret tt) ;; (if (ready k).2 then Send rt k else mret tt) ;;
      check_binds pa rt ready ks
  end.
Definition onCheckFDSet (pa : parent) (rt : nat → Z) (ready : Z → bool * bool) : UDP unit :=
  l ← gets mBinds; check_binds pa rt ready l.*1.
(** [addTransport]: [mBinds.insert] keeps an entry that is there. *)
Definition addTransport (opened : bool) (bindid : Z) : UDP bool :=
  if opened then
    l ← gets mBinds;
    (match map_find bindid l with Some _ => mret tt | None => set_binds (map_set bindid (Some (Bind bindid [] [])) l) end) ;; mret true
  else mret false.

(** ** The transport task *)
Record transport := Transport { t_udp : udp; t_fifo : list ptr; t_shutdown : bool; t_shutdownmsg : ptr }.
Abbreviation TR := (M transport).
Definition on_udp {A} (m : UDP A) : TR A := zoom t_udp (λ u t, Transport u (t_fifo t) (t_shutdown t) (t_shutdownmsg t)) m.
Definition RELOADED : bytes := [116; 114; 97; 110; 115; 112; 111; 114; 116; 32; 114; 101; 108; 111; 97; 100]%Z.
Definition STOPPED : bytes := [116; 114; 97; 110; 115; 112; 111; 114; 116; 32; 115; 104; 117; 116; 100; 111; 119; 110]%Z.
Definition put_info (i : bytes) (e : TEventMsg) : TEventMsg :=
  EventMsg (e_sender e) (e_eventID e) (e_transID e) (e_status e) (e_taskID e) (e_instID e) i.
Definition postEvent (pa : parent) (p : ptr) : UDP unit :=
  on_store (upd_event p (λ e, EventMsg (Tuple 0 0 0) (e_eventID e) (e_transID e) (e_status e) (e_taskID e) (e_instID e) (e_info e))) ;;
  on_store (tc_add (p_tc pa) p).
Definition on_event (pa : parent) (p : ptr) (e : TEventMsg) : TR unit :=
  if decide (e_eventID e = KERNAL_APP_RELOAD) then on_udp (on_store (upd_event p (put_info RELOADED)) ;; postEvent pa p)
  else if decide (e_eventID e = KERNAL_APP_SHUTDOWN) then
    on_udp (on_store (upd_event p (put_info STOPPED))) ;; modify (λ t, Transport (t_udp t) (t_fifo t) true p)
  else on_udp (on_store (delete_msg p)).
(** Messages of other classes are taken off the queue and left. *)
Fixpoint process_loop (pa : parent) (loop : nat) : TR unit :=
  match loop with
  | O => mret tt
  | S loop =>
      q ← gets t_fifo;
      match q with
      | [] => mret tt
      | p :: q =>
          modify (λ t, Transport (t_udp t) q (t_shutdown t) (t_shutdownmsg t)) ;;
          m ← on_udp (on_store (read_msg p));
          (match m with MUni _ => on_udp (onRecvSendMsg p) | MEvent e => on_event pa p e | MOther => mret tt end) ;;
          process_loop pa loop
      end
  end.
Definition process (pa : parent) : TR bool :=
  b ← gets t_shutdown;
  if (b : bool) then p ← gets t_shutdownmsg; on_udp (postEvent pa p) ;; mret false
  else process_loop pa 20 ;; mret true.

#[local] Arguments encode_int : simpl never.
#[local] Arguments put_str : simpl never.

(** ** The frame on the wire *)
Record frame_ok (t : TTransMsg) : Prop := {
  fo_split : length (split t) = 3; fo_cseq : is_int (tm_cseq t); fo_trans : str_ok (tm_transid t); fo_length : is_int (tm_length t) }.
Lemma reads_frame t : frame_ok t → reads TTransMsg_decode t (TTransMsg_encode t).
Proof.
  intros [Hs Hc Ht Hl]. destruct t as [[|a [|b [|c [|? ?]]]] tr cs ln]; try done. unfold TTransMsg_decode, TTransMsg_encode.
  cbn [split tm_cseq tm_transid tm_length fmap list_fmap] in *. change [Some a; Some b; Some c] with ([Some a] ++ [Some b] ++ [Some c]).
  rewrite <- !app_assoc. do 3 (eapply reads_bind; [apply reads_byte|]). eapply reads_bind; [by apply reads_int|].
  eapply reads_bind; [by apply reads_str|]. eapply reads_last; [by apply reads_int|apply reads_ret].
Qed.
Lemma length_str s : Z.of_nat (length (put_str s)) = CStr_size s.
Proof. unfold put_str, CStr_size. rewrite length_app, length_fmap, length_int. lia. Qed.
Lemma frame_size t : length (split t) = 3 → Z.of_nat (length (TTransMsg_encode t)) = TTransMsg_size t.
Proof.
  intros Hs. unfold TTransMsg_encode, TTransMsg_size. rewrite !length_app, length_fmap, Hs, !length_int. rewrite <- length_str. lia.
Qed.
(** A string is read exactly when its length is there. *)
Lemma get_str_defined n rest x : is_int n → get_str (encode_int n ++ rest) = Some x →
  n = Z.of_nat (length x.1) ∧ det x.1 `prefix_of` rest.
Proof.
  intros Hi. unfold get_str, cs_decode. rewrite decode_encode_int by done. cbn [mbind option_bind].
  destruct (room_ok cs_new [] n cs_new_holds) as (s1 & -> & _ & _). cbn [mbind option_bind].
  unfold blit. case_decide as Hb; [|done]. destruct Hb as (_ & Hn & _ & Hr). cbn [mbind option_bind]. change (Z.to_nat 0) with 0. rewrite Z.add_0_l, take_0.
  unfold cs_end, poke. cbn [with_buf sbuf app]. case_decide as Hb2; [|done]. cbn [mbind option_bind].
  unfold cs_content. cbn [slen sbuf]. rewrite take_insert_ge, take_app_length' by (rewrite ?length_take; lia).
  destruct (mapM id (take (Z.to_nat n) rest)) as [info|] eqn:Hm; [|done]. cbn. intros [= <-]. cbn [fst].
  apply mapM_Some in Hm. assert (Hd : take (Z.to_nat n) rest = det info).
  { clear -Hm. induction Hm as [|c y l k Hc Hm IH]; [done|]. cbn in Hc |- *. by rewrite IH, Hc. }
  pose proof (f_equal length Hd) as Hl. rewrite length_take, length_fmap in Hl. split; [lia|].
  exists (drop (Z.to_nat n) rest). by rewrite <- Hd, take_drop.
Qed.

Lemma alter_insert_key {V} (f : V → V) (m : gmap ptr V) k x : m !! k = Some x → alter f k m = <[k := f x]> m.
Proof.
  intros Hk. apply map_eq. intros i. destruct (decide (i = k)) as [->|Hi].
  - by rewrite lookup_alter_eq, lookup_insert_eq, Hk.
  - by rewrite lookup_alter_ne, lookup_insert_ne.
Qed.
(** ** What a container has received *)
Definition inbox (h : store) (tc : ptr) : option (list tmsg) := b ← boxes h !! tc; mapM (λ p, msgs h !! p) (mTaskRxFifo b).
(** The store with one more message at the parent. *)
Definition put_in (pa : parent) (m : TUniNetMsg) (h : store) : store :=
  let p := fresh ({[NULL]} ∪ dom (msgs h) : gset ptr) in
  Store (alter (λ b, TContainer (mTasks b) (mTaskRxFifo b ++ [p])) (p_tc pa) (boxes h)) (<[p := MUni (posted pa m)]> (msgs h)) (mPostFifo h).
Lemma fresh_msg h : msgs h !! fresh ({[NULL]} ∪ dom (msgs h) : gset ptr) = None.
Proof. apply not_elem_of_dom. pose proof (is_fresh ({[NULL]} ∪ dom (msgs h) : gset ptr)). set_solver. Qed.
Lemma inbox_put_in pa m h l : inbox h (p_tc pa) = Some l → inbox (put_in pa m h) (p_tc pa) = Some (l ++ [MUni (posted pa m)]).
Proof.
  unfold inbox, put_in. cbn [boxes msgs]. pose proof (fresh_msg h) as Hf. set (p := fresh _) in *. rewrite lookup_alter_eq.
  destruct (boxes h !! p_tc pa) as [b|]; [|done]. cbn. intros Hm%mapM_Some. apply mapM_Some, Forall2_app.
  - eapply Forall2_impl; [exact Hm|]. intros q x Hq. cbn in Hq |- *. rewrite lookup_insert_ne; [done|]. intros ->. congruence.
  - constructor; [|constructor]. apply lookup_insert_eq.
Qed.
Definition with_store (h : store) (u : udp) : udp := Udp (mBinds u) (sock_buf u) h (u_log u) (mRecvCount u) (mSendCount u) (mSendFaile u).
Lemma post_new pa m u l : inbox (u_mem u) (p_tc pa) = Some l →
  (p ← on_store (new_msg (MUni m)); postMsg pa p) u = Some (tt, with_store (put_in pa m (u_mem u)) u).
Proof.
  unfold inbox. intros Hl. destruct (boxes (u_mem u) !! p_tc pa) as [b|] eqn:Hb; [|done].
  unfold postMsg, on_store, zoom, new_msg, upd_uni, read_uni, write_msg, tc_add, read_box, write_box, modify, mbind, M_bind, option_bind. cbn.
  rewrite lookup_insert_eq. cbn. rewrite lookup_insert_eq. cbn. rewrite Hb. cbn. rewrite insert_insert_eq.
  unfold with_store, put_in. cbv zeta. by rewrite (alter_insert_key _ _ _ _ Hb).
Qed.

(** ** One datagram *)
Definition arrived (pa : parent) (m : TUniNetMsg) (u : udp) : udp :=
  Udp (mBinds u) (sock_buf u) (put_in pa m (u_mem u)) (u_log u) (incr (mRecvCount u)) (mSendCount u) (mSendFaile u).
Lemma recv_one_body pa k n a u t b l rest : frame_ok t → TTransMsg_check t = true → (tm_length t ≤ n - TTransMsg_size t)%Z →
  sock_buf u = TTransMsg_encode t ++ rest → map_find k (mBinds u) = Some (Some b) → inbox (u_mem u) (p_tc pa) = Some l →
  recv_one pa k n a u = match get_str rest with
    | Some (info, _) => Some (true, arrived pa (incoming (mBindID b) t a info) u) | None => None end.
Proof.
  intros Ht Hc Hn Hs Hb Hl. unfold recv_one. erewrite bind_eq by reflexivity. rewrite Hs, (reads_frame t Ht rest).
  erewrite bind_eq by reflexivity. cbv beta iota. rewrite Hc. cbn [negb]. rewrite decide_False by lia.
  erewrite bind_eq by (unfold get_bind; rewrite Hb; reflexivity). destruct (get_str rest) as [[info r]|]; [|done].
  erewrite bind_eq by reflexivity. cbv beta iota. rewrite <- bind_assoc_eq. erewrite bind_eq by (by eapply post_new). reflexivity.
Qed.
Lemma recv_one_ok pa k n a u t b l info rest : frame_ok t → TTransMsg_check t = true → (tm_length t ≤ n - TTransMsg_size t)%Z →
  sock_buf u = TTransMsg_encode t ++ put_str info ++ rest → str_ok info → map_find k (mBinds u) = Some (Some b) →
  inbox (u_mem u) (p_tc pa) = Some l → recv_one pa k n a u = Some (true, arrived pa (incoming (mBindID b) t a info) u).
Proof. intros. rewrite (recv_one_body pa k n a u t b l (put_str info ++ rest)) by done. by rewrite (reads_str info) by done. Qed.

(** ** Datagrams that were sent by this code *)
(** What a sent message holds, and what is made of it. *)
Definition frame_of (m : TUniNetMsg) (info : bytes) : option TTransMsg :=
  c ← (if hasCSeq m then i32 <$> getCSeq m else Some 0%Z);
  Some (TransMsg (split new_TTransMsg) (if hasTransId m then transID m else []) c (CStr_size info)).
Definition datagram (t : TTransMsg) (info : bytes) : cells := TTransMsg_encode t ++ put_str info.
Definition fits (t : TTransMsg) (info : bytes) : Prop := (TTransMsg_size t + CStr_size info ≤ MaxRecvBufSize)%Z.

(** The frame of a message: [cseq] goes through an [int]. *)
Lemma frame_of_ok m info t : frame_of m info = Some t → fits t info → frame_ok t ∧ TTransMsg_check t = true ∧ tm_length t = CStr_size info ∧ str_ok info.
Proof.
  unfold frame_of, fits, MaxRecvBufSize, TTransMsg_size, CStr_size. destruct (if hasCSeq m then _ else _) as [c|] eqn:Hc; [|done]. cbn. intros [= <-] Hf. cbn [tm_transid] in Hf.
  assert (Hi : is_int c).
  { destruct (hasCSeq m); [|injection Hc as <-; unfold is_int; lia]. apply fmap_Some in Hc as (x & _ & ->).
    unfold is_int, i32. pose proof (Z.mod_pos_bound (x + 2 ^ 31) (2 ^ 32)). lia. }
  split; [split; cbn [split tm_cseq tm_transid tm_length new_TTransMsg length]; unfold str_ok, is_int, CStr_size; [done|done|lia|lia]|].
  split; [unfold TTransMsg_check; cbn [split new_TTransMsg tm_length]; apply bool_decide_eq_true_2; unfold CStr_size; split_and!; [done| |done|lia]|].
  { vm_compute. done. }
  split; [done|]. unfold str_ok. lia.
Qed.
Lemma length_datagram t info : length (split t) = 3 → Z.of_nat (length (datagram t info)) = (TTransMsg_size t + CStr_size info)%Z.
Proof. intros Hs. unfold datagram. rewrite length_app, Nat2Z.inj_add, length_str. by rewrite frame_size. Qed.

(** ** The receiving loop *)
Lemma map_find_set k b l : map_find k (map_set k b l) = Some b.
Proof.
  induction l as [|[k' b'] l IH]; cbn; [by rewrite decide_True|]. repeat case_decide; cbn; repeat case_decide; done.
Qed.
Record packet := Packet { pk_frame : TTransMsg; pk_info : bytes; pk_from : sockaddr_in }.
Definition wire (d : packet) : cells * sockaddr_in := (datagram (pk_frame d) (pk_info d), pk_from d).
Record good (d : packet) : Prop := {
  gd_frame : frame_ok (pk_frame d); gd_check : TTransMsg_check (pk_frame d) = true;
  gd_length : tm_length (pk_frame d) = CStr_size (pk_info d); gd_fits : fits (pk_frame d) (pk_info d); gd_str : str_ok (pk_info d) }.
Definition taken (pa : parent) (id : Z) (d : packet) : TUniNetMsg := posted pa (incoming id (pk_frame d) (pk_from d) (pk_info d)).
Definition ready_buf (b : cells) : Prop := (MaxRecvBufSize < Z.of_nat (length b))%Z.

Definition put_buf (b : cells) (u : udp) : udp := Udp (mBinds u) b (u_mem u) (u_log u) (mRecvCount u) (mSendCount u) (mSendFaile u).
Lemma udp_clear_ok u : ready_buf (sock_buf u) → ∃ b, length b = length (sock_buf u) ∧ clear_buf u = Some (tt, put_buf b u).
Proof.
  unfold ready_buf, MaxRecvBufSize. intros Hl. exists (<[0 := Some 0%Z]> (sock_buf u)). split; [apply length_insert|].
  unfold clear_buf. erewrite bind_eq by reflexivity. unfold poke. rewrite decide_True by lia. reflexivity.
Qed.
Lemma udp_write_ok u off w : (0 ≤ off)%Z → (off + Z.of_nat (length w) ≤ Z.of_nat (length (sock_buf u)))%Z →
  write_buf off w u = Some (tt, put_buf (take (Z.to_nat off) (sock_buf u) ++ w ++ drop (Z.to_nat off + length w) (sock_buf u)) u).
Proof.
  intros Ho Hw. unfold write_buf. erewrite bind_eq by reflexivity. unfold blit. rewrite decide_True by lia.
  rewrite Nat2Z.id, (take_ge w) by lia. replace (Z.to_nat (off + Z.of_nat (length w))) with (Z.to_nat off + length w) by lia. reflexivity.
Qed.
(** One turn of the loop. *)
Lemma recvCode_ok k u b w a l : map_find k (mBinds u) = Some (Some b) → pending b = (w, a) :: l → (Z.of_nat (length w) ≤ MaxRecvBufSize)%Z →
  ready_buf (sock_buf u) → recvCode k u = Some (Some (Z.of_nat (length w), a),
    put_buf (w ++ drop (length w) (sock_buf u)) (Udp (map_set k (Some (Bind (mBindID b) (mSendBuffer b) l)) (mBinds u)) (sock_buf u) (u_mem u) (u_log u) (mRecvCount u) (mSendCount u) (mSendFaile u))).
Proof.
  unfold ready_buf. intros Hb Hp Hw Hl. unfold recvCode. erewrite bind_eq by (unfold get_bind; rewrite Hb; reflexivity). rewrite Hp.
  erewrite bind_eq by reflexivity. cbv zeta. rewrite (take_ge w) by lia.
  erewrite bind_eq by (rewrite udp_write_ok by (cbn; lia); reflexivity). reflexivity.
Qed.
Lemma recv_loop_ok pa k ds more fuel loop u b l : map_find k (mBinds u) = Some (Some b) → pending b = (wire <$> ds) ++ more →
  ready_buf (sock_buf u) → Forall good ds → loop = length ds ∨ (more = [] ∧ length ds < loop) → length ds < fuel →
  inbox (u_mem u) (p_tc pa) = Some l →
  wp (recv_loop fuel pa k loop) (λ _ u', inbox (u_mem u') (p_tc pa) = Some (l ++ (MUni <$> (taken pa (mBindID b) <$> ds))) ∧
    map_find k (mBinds u') = Some (Some (Bind (mBindID b) (mSendBuffer b) more)) ∧ length (sock_buf u') = length (sock_buf u) ∧ u_log u' = u_log u) u.
Proof.
  intros Hb Hp Hl Hg. revert fuel loop u b l Hb Hp Hl. induction Hg as [|d ds Hd Hg IH]; intros fuel loop u b l Hb Hp Hl Hloop Hf Hi;
    (destruct fuel as [|fuel]; [cbn in Hf; lia|]).
  - rewrite app_nil_r. destruct b as [id sb pd]. cbn in Hp, Hb |- *. destruct loop as [|loop]; [apply wp_ret; by rewrite Hb, Hp|].
    destruct Hloop as [Hn|[-> _]]; [done|]. subst pd. apply wp_bind. destruct (udp_clear_ok u Hl) as (x & Hx & Hc). eapply wp_some; [exact Hc|].
    apply wp_bind. eapply wp_some; [unfold recvCode, mbind, M_bind, get_bind; cbn; rewrite Hb; reflexivity|].
    apply wp_ret. cbn. done.
  - destruct loop as [|loop]; [cbn in Hloop; lia|]. cbn [recv_loop].
    apply wp_bind. destruct (udp_clear_ok u Hl) as (x & Hx & Hc). eapply wp_some; [exact Hc|]. pose proof Hd as [Hfr Hck Hln Hft Hst].
    pose proof (length_datagram (pk_frame d) (pk_info d) (fo_split _ Hfr)) as Hw.
    apply wp_bind. eapply wp_some.
    { eapply recvCode_ok; [exact Hb|exact Hp|rewrite Hw; exact Hft|]. unfold ready_buf in *. cbn. lia. }
    assert (Hpos : (0 < TTransMsg_size (pk_frame d) ∧ 0 < CStr_size (pk_info d))%Z) by (unfold TTransMsg_size, CStr_size; lia).
    cbv beta iota. rewrite decide_False by lia. apply wp_bind. cbn [put_buf sock_buf mBinds u_mem u_log mRecvCount mSendCount mSendFaile].
    eapply wp_some.
    { eapply recv_one_ok with (l := l) (info := pk_info d); [exact Hfr|exact Hck|rewrite Hln; lia| |exact Hst|apply map_find_set|exact Hi].
      cbn [put_buf sock_buf]. unfold datagram. by rewrite <- app_assoc. }
    cbn [mBindID]. eapply wp_mono; [eapply (IH fuel loop)|].
    + cbn [arrived mBinds]. apply map_find_set.
    + done.
    + unfold ready_buf in *. cbn [arrived sock_buf put_buf]. rewrite length_app, length_drop. lia.
    + cbn in Hloop. destruct Hloop as [Hn|[Hm Hn]]; [left; lia|right; split; [done|lia]].
    + cbn in Hf. lia.
    + cbn [arrived u_mem]. apply inbox_put_in, Hi.
    + intros [] u' (H1 & H2 & H3 & H4). cbn [mBindID mSendBuffer] in *. rewrite H1, H2, H3, H4. cbn [fmap list_fmap]. rewrite <- app_assoc. split_and!; [done|done| |done].
      cbn [arrived sock_buf put_buf]. rewrite length_app, length_drop. unfold ready_buf, fits in *. lia.
Qed.
Lemma Recv_ok pa k ds more u b l : map_find k (mBinds u) = Some (Some b) → pending b = (wire <$> ds) ++ more →
  ready_buf (sock_buf u) → Forall good ds → length ds = 10 ∨ (more = [] ∧ length ds < 10) → inbox (u_mem u) (p_tc pa) = Some l →
  wp (Recv pa k) (λ _ u', inbox (u_mem u') (p_tc pa) = Some (l ++ (MUni <$> (taken pa (mBindID b) <$> ds))) ∧
    map_find k (mBinds u') = Some (Some (Bind (mBindID b) (mSendBuffer b) more)) ∧ length (sock_buf u') = length (sock_buf u) ∧ u_log u' = u_log u) u.
Proof.
  intros Hb Hp Hl Hg Hn Hi. unfold Recv. apply wp_bind. eapply wp_some; [unfold get_bind; rewrite Hb; reflexivity|]. cbv beta.
  eapply recv_loop_ok; try done; [destruct Hn as [->|]; [by left|by right]|]. rewrite Hp, length_app, length_fmap. lia.
Qed.

(** ** Addresses as text *)
Definition octet (n : Z) : Prop := (0 ≤ n < 256)%Z.
Definition sock_ok (a : sockaddr_in) : Prop :=
  let '(w, x, y, z) := sin_addr a in octet w ∧ octet x ∧ octet y ∧ octet z ∧ (0 ≤ sin_port a < 65536)%Z.
Lemma ntoa_ok i : part_ok (inet_ntoa i).
Proof.
  destruct i as [[[w x] y] z]. cbn [inet_ntoa]. unfold part_ok. repeat apply Forall_app_2; try apply dec_ok; repeat constructor; lia.
Qed.
(** What the sender takes from the text is the address it was made from. *)
Lemma addr_text_ok a : sock_ok a → 0%Z ∉ addr_text a ∧
  TURI_of (addr_text a) = Some (URI (addr_text a) [] [] [] (addr_text a) (inet_ntoa (sin_addr a)) (Some (sin_port a))).
Proof.
  intros Ha. set (h := inet_ntoa (sin_addr a)). pose proof (ntoa_ok (sin_addr a)) as Hh. fold h in Hh. pose proof (dec_ok (sin_port a)) as Hp.
  assert (Hi : is_int (sin_port a)) by (unfold sock_ok in Ha; destruct (sin_addr a) as [[[w x] y] z]; unfold is_int; lia).
  assert (Hab : ∀ c, c ∈ [0; 47; 64]%Z → c ∉ addr_text a).
  { intros c Hc. unfold addr_text. fold h. rewrite !elem_of_app. intros [H1|[H1|H1]]; [|set_solver|];
      [apply (part_absent _ _ Hh) in H1|apply (part_absent _ _ Hp) in H1]; set_solver. }
  assert (H0 : 0%Z ∉ addr_text a) by (apply Hab; set_solver). split; [done|]. unfold TURI_of. rewrite (uri_upto0_id _ H0). unfold setUri.
  rewrite (split2_absent _ _ (no_slash_no_schema _ (Hab 47%Z ltac:(set_solver)))). unfold sep_at. rewrite (split2_none 64 [] _ (Hab 64%Z ltac:(set_solver))).
  assert (Hsp : split2 [58]%Z (addr_text a) = Some (h, dec (sin_port a))).
  { unfold addr_text. fold h. apply (split2_some 58 []); [apply (part_absent _ _ Hh); set_solver| |apply dec_nonempty].
    apply find_sub_absent, (part_absent _ _ Hp). set_solver. }
  cbn [user password]. unfold sep_colon. by rewrite Hsp, (atoi_dec _ Hi).
Qed.

(** ** Sending *)
(** A message of a send buffer, where it goes and what is made of it. *)
Record letter := Letter { l_ptr : ptr; l_msg : TUniNetMsg; l_to : sockaddr_in; l_frame : TTransMsg; l_info : bytes }.
Record sendable (h : store) (x : letter) : Prop := {
  sd_ptr : l_ptr x ≠ NULL; sd_msg : msgs h !! l_ptr x = Some (MUni (l_msg x));
  sd_hdr : ∃ hd, com_hdr (l_msg x) = Some hd ∧ argv hd !! 0 = Some (addr_text (l_to x));
  sd_body : com_body (l_msg x) = Some (l_info x); sd_frame : frame_of (l_msg x) (l_info x) = Some (l_frame x);
  sd_fits : fits (l_frame x) (l_info x); sd_to : sock_ok (l_to x) }.
Definition posted_to (x : letter) : bytes * Z * cells := (inet_ntoa (sin_addr (l_to x)), sin_port (l_to x), datagram (l_frame x) (l_info x)).
Lemma send_one_ok rt u x : sendable (u_mem u) x → ready_buf (sock_buf u) →
  wp (send_one rt (l_ptr x)) (λ _ u', u_log u' = u_log u ++ [posted_to x] ∧ mBinds u' = mBinds u ∧ length (sock_buf u') = length (sock_buf u) ∧
    u_mem u' = Store (boxes (u_mem u)) (delete (l_ptr x) (msgs (u_mem u))) (mPostFifo (u_mem u))) u.
Proof.
  intros [Hn Hm (hd & Hh & Harg) Hb Hf Hft Hto] Hl. destruct (frame_of_ok _ _ _ Hf Hft) as (Hfo & _ & Hlen & _).
  unfold send_one. apply wp_bind. eapply wp_some; [unfold on_store, zoom, read_uni; rewrite Hm; reflexivity|]. rewrite Hh, Hb.
  apply wp_bind. destruct (udp_clear_ok u Hl) as (c0 & Hc0 & Hc). destruct u as [bi bu me lg rc sc sf]. cbn [u_mem sock_buf mBinds u_log mSendCount mSendFaile mRecvCount put_buf] in *.
  eapply wp_some; [exact Hc|]. cbn [put_buf mBinds u_mem u_log mRecvCount mSendCount mSendFaile]. apply wp_bind.
  set (cs := if hasCSeq (l_msg x) then i32 <$> getCSeq (l_msg x) else Some 0%Z).
  assert (Hcs : ∀ u, (if hasCSeq (l_msg x) then n ← defined (getCSeq (l_msg x)); mret (i32 n) else mret 0%Z) u = defined cs (u : udp)).
  { intros u. unfold cs. destruct (hasCSeq (l_msg x)); [|done]. by destruct (getCSeq (l_msg x)). }
  unfold frame_of in Hf. fold cs in Hf. destruct cs as [c|]; [|done]. cbn in Hf. injection Hf as Hf.
  eapply wp_some; [apply Hcs|]. cbv beta zeta. change (split new_TTransMsg) with [0; 255; 0]%Z. rewrite Hf. unfold ready_buf, fits in *. pose proof (frame_size (l_frame x) (fo_split _ Hfo)) as Hsz.
  set (w := TTransMsg_encode (l_frame x)) in *. pose proof (length_str (l_info x)) as Hls. set (v := put_str (l_info x)) in *.
  apply wp_bind. eapply wp_some; [apply udp_write_ok; cbn [put_buf sock_buf]; lia|]. cbn [put_buf sock_buf mBinds u_mem u_log mRecvCount mSendCount mSendFaile].
  change (Z.to_nat 0) with 0. rewrite take_0, app_nil_l, Nat.add_0_l.
  apply wp_bind. eapply wp_some; [apply udp_write_ok; cbn [put_buf sock_buf]; rewrite ?length_app, ?length_drop; lia|]. cbn [put_buf sock_buf mBinds u_mem u_log mRecvCount mSendCount mSendFaile].
  replace (Z.to_nat (TTransMsg_size (l_frame x))) with (length w) by lia. rewrite take_app_length.
  set (tl := drop (length w + length v) (w ++ drop (length w) c0)).
  apply wp_bind. eapply wp_some; [rewrite Harg; reflexivity|]. destruct (addr_text_ok _ Hto) as [H0 Ht].
  apply wp_bind. eapply wp_some; [rewrite (uri_upto0_id _ H0), Ht; reflexivity|]. cbn [port host].
  apply wp_bind. eapply wp_some; [reflexivity|]. apply wp_bind, wp_gets. apply wp_bind, wp_gets. cbn [put_buf sock_buf u_log].
  rewrite Hlen. replace (Z.to_nat (TTransMsg_size (l_frame x) + CStr_size (l_info x))) with (length (w ++ v)) by (rewrite length_app; lia).
  rewrite (app_assoc w v), take_app_length. rewrite (uri_upto0_id (inet_ntoa _)) by (apply (part_absent _ _ (ntoa_ok _)); set_solver).
  apply wp_bind, wp_modify. unfold on_store. apply wp_zoom. cbn [put_buf u_mem]. eapply wp_some; [unfold delete_msg; rewrite Hm; reflexivity|].
  cbn [put_buf u_log mBinds sock_buf u_mem]. split_and!; [done|done| |done]. unfold tl. rewrite !length_app, !length_drop, !length_app, length_drop. lia.
Qed.
Lemma send_all_ok rt xs u : Forall (sendable (u_mem u)) xs → NoDup (l_ptr <$> xs) → ready_buf (sock_buf u) →
  wp (send_all rt (l_ptr <$> xs)) (λ _ u', u_log u' = u_log u ++ (posted_to <$> xs) ∧ mBinds u' = mBinds u ∧
    boxes (u_mem u') = boxes (u_mem u) ∧ (∀ q, msgs (u_mem u') !! q = if decide (q ∈ l_ptr <$> xs) then None else msgs (u_mem u) !! q)) u.
Proof.
  revert u. induction xs as [|x xs IH]; intros u Hs Hd Hl; [apply wp_ret; by rewrite app_nil_r|].
  apply Forall_cons in Hs as [Hx Hs]. apply NoDup_cons in Hd as [Hni Hd]. cbn [fmap list_fmap send_all]. fold (l_ptr <$> xs) in *.
  rewrite decide_False by exact (sd_ptr _ _ Hx). apply wp_bind. eapply wp_mono; [by apply send_one_ok|].
  intros [] u1 (Hlg & Hbi & Hbu & Hme). eapply wp_mono; [apply IH|].
  - rewrite Hme. rewrite Forall_forall in Hs |- *. intros y Hy. destruct (Hs y Hy) as [? Hm ? ? ? ? ?]. split; try done. cbn.
    rewrite lookup_delete_ne; [done|]. intros He. apply Hni. rewrite He. apply list_elem_of_fmap. by exists y.
  - done.
  - unfold ready_buf in *. lia.
  - intros [] u2 (H1 & H2 & H3 & H4). rewrite H1, H2, H3, Hlg, Hbi, Hme, <- app_assoc. split_and!; [done..|]. intros q. rewrite H4, Hme. cbn [msgs].
    destruct (decide (q = l_ptr x)) as [->|Hq].
    + rewrite lookup_delete_eq. rewrite (decide_True (P := l_ptr x ∈ l_ptr x :: _)) by set_solver. by case_decide.
    + rewrite lookup_delete_ne by done. do 2 case_decide; set_solver.
Qed.

(** ** Properties *)
(** What the receiver knows of a letter that came from [a] over the bind [id]. *)
Record conveyed (id : Z) (a : sockaddr_in) (m m' : TUniNetMsg) : Prop := {
  cv_cseq : getCSeq m' = getCSeq m; cv_trans : transID m' = if hasTransId m then transID m else [];
  cv_body : com_body m' = com_body m;
  cv_hdr : ∃ h, com_hdr m' = Some h ∧ facility h = id ∧ argv h !! 0 = Some (addr_text a) }.
Definition cseq_ok (m : TUniNetMsg) : Prop := ∀ n, getCSeq m = Some n → is_uint n.
Lemma u32_i32 n : is_uint n → u32 (i32 n) = n.
Proof. unfold is_uint, u32, i32. intros Hn. rewrite Zminus_mod_idemp_l, Z.add_simpl_r. by apply Z.mod_small. Qed.
Lemma letter_conveyed h x id a : sendable h x → cseq_ok (l_msg x) → ∀ pa, conveyed id a (l_msg x) (taken pa id (Packet (l_frame x) (l_info x) a)).
Proof.
  intros [_ _ _ Hb Hf _ _] Hc pa. unfold frame_of in Hf. unfold taken, incoming. cbn [pk_frame pk_info pk_from].
  assert (Hq : ∃ c, getCSeq (l_msg x) = Some (u32 c) ∧ tm_cseq (l_frame x) = c ∧
    tm_transid (l_frame x) = (if hasTransId (l_msg x) then transID (l_msg x) else [])).
  { destruct (hasCSeq (l_msg x)) eqn:Hs.
    - destruct (getCSeq (l_msg x)) as [n|] eqn:Hn; [|done]. cbn in Hf. injection Hf as <-.
      exists (i32 n). by rewrite u32_i32 by (by apply Hc).
    - cbn in Hf. injection Hf as <-. exists 0%Z. unfold getCSeq. by rewrite Hs. }
  destruct Hq as (c & Hcs & -> & ->). set (tr := if hasTransId _ then _ else _) in *.
  destruct (decide (c = 0)%Z) as [->|_], (decide (tr = [])) as [Htr|Htr]; rewrite ?setTransId_eq; (split;
    [rewrite Hcs; reflexivity|fold tr; first [reflexivity|by rewrite Htr]|by rewrite Hb|by eexists]).
Qed.

(** C8: messages through the network.  [Send] hands the messages of a bind to
    [sendto] in order, each as one datagram for the address in its first
    argument, and deletes them; where these datagrams (up to ten) wait at a bind
    of another host, [Recv] puts as many messages into its parent's queue, in
    order, with the same cseq, transaction id and body, and with the address the
    datagram came from in the place where [Send] looks for it - so that an
    answer made from the message goes back. *)
Theorem udp_end_to_end rt k u b xs : map_find k (mBinds u) = Some (Some b) → mSendBuffer b = l_ptr <$> xs →
  Forall (sendable (u_mem u)) xs → Forall (λ x, cseq_ok (l_msg x)) xs → NoDup (l_ptr <$> xs) → ready_buf (sock_buf u) →
  wp (Send rt k) (λ _ u', u_log u' = u_log u ++ (posted_to <$> xs) ∧ map_find k (mBinds u') = Some (Some (Bind (mBindID b) [] (pending b))) ∧
    ∀ q, msgs (u_mem u') !! q = if decide (q ∈ l_ptr <$> xs) then None else msgs (u_mem u) !! q) u ∧
  ∀ pa k' v c a l, map_find k' (mBinds v) = Some (Some c) → pending c = (λ x, ((posted_to x).2, a)) <$> xs → length xs ≤ 10 →
    ready_buf (sock_buf v) → inbox (u_mem v) (p_tc pa) = Some l →
    wp (Recv pa k') (λ _ v', ∃ ms, inbox (u_mem v') (p_tc pa) = Some (l ++ (MUni <$> ms)) ∧
      Forall2 (conveyed (mBindID c) a) (l_msg <$> xs) ms) v.
Proof.
  intros Hb Hq Hs Hcs Hd Hl. split.
  - unfold Send. apply wp_bind. eapply wp_some; [unfold get_bind; rewrite Hb; reflexivity|]. apply wp_bind. eapply wp_some; [reflexivity|].
    rewrite Hq. eapply wp_mono; [by apply send_all_ok|]. intros [] u' (H1 & H2 & _ & H4). rewrite H1, H2. split_and!; [done|apply map_find_set|done].
  - intros pa k' v c a l Hc Hp Hn Hbf Hi. set (ds := (λ x, Packet (l_frame x) (l_info x) a) <$> xs).
    eapply wp_mono; [apply (Recv_ok pa k' ds [] v c l); try done|].
    + rewrite Hp, app_nil_r. unfold ds. rewrite <- list_fmap_compose. reflexivity.
    + unfold ds. apply Forall_fmap. eapply Forall_impl; [exact Hs|]. intros x [_ _ _ _ Hf Hft _].
      destruct (frame_of_ok _ _ _ Hf Hft) as (? & ? & ? & ?). by split.
    + unfold ds. rewrite length_fmap. destruct (decide (length xs = 10)); [by left|right; split; [done|lia]].
    + intros [] v' (H1 & _). exists (taken pa (mBindID c) <$> ds). split; [done|]. unfold ds. rewrite <- list_fmap_compose.
      rewrite Forall2_fmap. apply Forall_Forall2_diag. rewrite Forall_forall in Hs, Hcs |- *. intros x Hx.
      eapply letter_conveyed; [by apply Hs|by apply Hcs].
Qed.

(** C32: the body of a datagram is read with the length in the body.  In a frame
    that passes both checks - of the mark and of the frame's own length - it may
    be any [n]: the message is accepted, with the next [n] cells of the buffer,
    also those of earlier datagrams, exactly when so many are left in the buffer;
    for every other [n] the code reads outside of it. *)
Theorem udp_recv_exact pa k len a u t b l n rest : frame_ok t → TTransMsg_check t = true → (tm_length t ≤ len - TTransMsg_size t)%Z →
  sock_buf u = TTransMsg_encode t ++ encode_int n ++ det rest → is_int n → map_find k (mBinds u) = Some (Some b) → inbox (u_mem u) (p_tc pa) = Some l →
  (is_Some (recv_one pa k len a u) ↔ (0 ≤ n ≤ Z.of_nat (length rest))%Z) ∧
  ((0 ≤ n ≤ Z.of_nat (length rest))%Z → ∃ u', recv_one pa k len a u = Some (true, u') ∧
    inbox (u_mem u') (p_tc pa) = Some (l ++ [MUni (posted pa (incoming (mBindID b) t a (take (Z.to_nat n) rest)))])).
Proof.
  intros Ht Hc Hn Hs Hi Hb Hl. rewrite (recv_one_body pa k len a u t b l (encode_int n ++ det rest)) by done.
  assert (Hok : (0 ≤ n ≤ Z.of_nat (length rest))%Z → get_str (encode_int n ++ det rest) = Some (take (Z.to_nat n) rest, det (drop (Z.to_nat n) rest))).
  { intros Hr. replace (encode_int n ++ det rest) with (put_str (take (Z.to_nat n) rest) ++ det (drop (Z.to_nat n) rest)).
    - apply reads_str. unfold str_ok, is_int in *. rewrite length_take. lia.
    - unfold put_str. rewrite <- app_assoc, <- fmap_app, take_drop, length_take. do 2 f_equal. lia. }
  split; [split|].
  - destruct (get_str _) as [[info r]|] eqn:Hg; [|by intros [? [=]]]. intros _. apply get_str_defined in Hg as [Hx Hp]; [|done].
    apply prefix_length in Hp. cbn in *. rewrite !length_fmap in Hp. lia.
  - intros Hr. rewrite (Hok Hr). by eexists.
  - intros Hr. rewrite (Hok Hr). eexists. split; [done|]. by apply inbox_put_in.
Qed.

(** A message for a bind that does not exist stays behind, in no buffer,
    and looking the bind up has made an entry without one: the next time the
    transport collects its descriptors it follows a NULL pointer. *)
Theorem udp_unknown_bind p m h u : p ≠ NULL → msgs (u_mem u) !! p = Some (MUni m) → com_hdr m = Some h → (0 < facility h)%Z →
  map_find (facility h) (mBinds u) = None →
  wp (onRecvSendMsg p) (λ _ u', u_mem u' = u_mem u ∧ (∀ k b, map_find k (mBinds u') = Some (Some b) → map_find k (mBinds u) = Some (Some b)) ∧
    onBuildFDSet u' = None) u.
Proof.
  intros Hp Hm Hh Hf Hn. unfold onRecvSendMsg. rewrite decide_False by done. apply wp_bind.
  eapply wp_some; [unfold on_store, zoom, read_uni; rewrite Hm; reflexivity|]. rewrite Hh. apply wp_bind, wp_gets. rewrite decide_True by done.
  cbn [mBinds]. rewrite Hn. eapply wp_some; [reflexivity|]. cbn [u_mem mBinds]. split; [by destruct u|].
  assert (Hset : ∀ k b, map_find k (map_set (facility h) None (mBinds u)) = Some b → (k = facility h ∧ b = None) ∨ map_find k (mBinds u) = Some b).
  { intros k b. clear. induction (mBinds u) as [|[k' b'] l IH]; cbn; repeat case_decide; cbn; repeat case_decide; subst; intros; try naive_solver. }
  split; [intros k b Hk; apply Hset in Hk as [[_ ?]|?]; done|]. unfold onBuildFDSet. erewrite bind_eq by reflexivity. cbn [mBinds].
  rewrite decide_False; [done|]. intros Hall. rewrite Forall_forall in Hall. destruct (Hall (facility h, None)) as [x Hx]; [|done].
  clear. induction (mBinds u) as [|[k' b'] l IH]; cbn; [set_solver|]. repeat case_decide; set_solver.
Qed.

(** *** Witnesses *)
Definition peer : sockaddr_in := SockAddr (10, 0, 0, 2)%Z 5000.
Definition home : sockaddr_in := SockAddr (10, 0, 0, 1)%Z 5001.
Definition out_msg (seq : Z) (info : bytes) : TUniNetMsg :=
  UniNetMsg (Tuple 4 5 6) 15 (Addr 1 2 3) (Addr 7 0 0) 0 100 10 [49; 50]%Z (Some seq)
    (Some (CtrlCom (ComHdr 0 (Addr 0 0 0) 0 0 1 1 (addr_text peer :: replicate 4 [])))) (Some (BodyCom info)).
Definition out_letter (p : ptr) (seq : Z) (info : bytes) : letter :=
  Letter p (out_msg seq info) peer (TransMsg [0; 255; 0]%Z [49; 50]%Z (i32 seq) (CStr_size info)) info.
Definition letters : list letter := [out_letter 1 9 [111; 107]%Z; out_letter 2 4294967295 []].
Definition fresh_udp (b : TBind) (h : store) : udp := Udp [(1%Z, Some b)] (uninit (Z.to_nat SocketBufferSize)) h [] None None None.
Definition sender_udp : udp :=
  fresh_udp (Bind 1 [1%N; 2%N] []) (Store ∅ (list_to_map ((λ x, (l_ptr x, MUni (l_msg x))) <$> letters)) []).
Definition pa0 : parent := Parent 8 (Addr 5 6 7).
Definition idle_store : store := Store {[8%N := TContainer ∅ []]} ∅ [].
Definition waiting : TBind := Bind 1 [] ((λ x, ((posted_to x).2, home)) <$> letters).
Definition receiver_udp : udp := fresh_udp waiting idle_store.
Lemma letters_sendable : Forall (sendable (u_mem sender_udp)) letters.
Proof.
  repeat constructor; try done; try (by eexists); try (unfold fits; by vm_compute).
Qed.
Lemma big_buf b h : ready_buf (sock_buf (fresh_udp b h)).
Proof. by vm_compute. Qed.

Lemma udp_end_to_end_witness :
  wp (Send (λ _, 5%Z) 1) (λ _ u', u_log u' = posted_to <$> letters ∧ map_find 1 (mBinds u') = Some (Some (Bind 1 [] [])) ∧
    ∀ q, msgs (u_mem u') !! q = if decide (q ∈ [1%N; 2%N]) then None else msgs (u_mem sender_udp) !! q) sender_udp ∧
  wp (Recv pa0 1) (λ _ v', ∃ ms, inbox (u_mem v') 8 = Some (MUni <$> ms) ∧ Forall2 (conveyed 1 home) (l_msg <$> letters) ms) receiver_udp.
Proof.
  destruct (udp_end_to_end (λ _, 5%Z) 1 sender_udp (Bind 1 [1%N; 2%N] []) letters eq_refl eq_refl letters_sendable) as [Hs Hr].
  - apply Forall_cons_2; [|apply Forall_cons_2; [|constructor]]; intros n [= <-]; unfold is_uint; lia.
  - by repeat constructor; set_solver.
  - apply big_buf.
  - split; [exact Hs|]. apply (Hr pa0 1%Z receiver_udp waiting home [] eq_refl eq_refl); [change (length letters) with 2; lia|apply big_buf|reflexivity].
Defined.
Definition short_frame : TTransMsg := TransMsg [0; 255; 0]%Z [] 0 1.
Definition stale_udp : udp := Udp [(1%Z, Some (Bind 1 [] []))] (TTransMsg_encode short_frame ++ encode_int 3 ++ det [115; 101; 99; 114]%Z) idle_store [] None None None.
(** A frame of 15 bytes and the length of the body: the body itself was not sent. *)
Lemma udp_recv_exact_witness :
  (is_Some (recv_one pa0 1 19 home stale_udp) ↔ (0 ≤ 3 ≤ 4)%Z) ∧
  ((0 ≤ 3 ≤ 4)%Z → ∃ u', recv_one pa0 1 19 home stale_udp = Some (true, u') ∧
    inbox (u_mem u') 8 = Some [MUni (posted pa0 (incoming 1 short_frame home [115; 101; 99]%Z))]).
Proof.
  apply (udp_recv_exact pa0 1 19 home stale_udp short_frame (Bind 1 [] []) [] 3 [115; 101; 99; 114]%Z);
    [split; unfold str_ok, is_int; cbn; (done || lia)|reflexivity|by vm_compute|reflexivity|unfold is_int; lia|reflexivity|reflexivity].
Defined.
Lemma udp_unknown_bind_witness :
  let u := Udp [] (uninit (Z.to_nat SocketBufferSize)) (u_mem sender_udp) [] None None None in
  wp (onRecvSendMsg 1) (λ _ u', u_mem u' = u_mem u ∧ (∀ k b, map_find k (mBinds u') = Some (Some b) → map_find k [] = Some (Some b)) ∧
    onBuildFDSet u' = None) u.
Proof.
  cbv zeta. apply (udp_unknown_bind 1 (out_msg 9 [111; 107]%Z) (ComHdr 0 (Addr 0 0 0) 0 0 1 1 (addr_text peer :: replicate 4 [])));
    [done|reflexivity|reflexivity|cbn; lia|reflexivity].
Defined.
