(* ===== verification/PsaRsc.v ===== *)
(** * The resource task ([facility/psarsc/psarsctask.C])

    The task that carries messages between hosts.  A resource message of a task
    becomes the body of a COM message, which the transport sends (Transport.v);
    on the other host the task there takes it out, gives it the address of the
    sender's host, and sends it on.  Messages from the transport go through the
    transaction machine (TransMachine.v).  Outputs are the messages handed to
    the control thread and those handed to the transport.  The configuration is
    the list of its elements; [isValidIPv4] ([comserv/func.C]) is given the cells
    in which its text lies, as it reads behind the text.  [None] is undefined
    behaviour, or a loop that does not end. *)

From S2P Require Import Prelude Command VarChar CStr UniMsg MsgCodec Uri RscMsg TransState ExpireBuffer TransMachine Transport.

(** ** Addresses *)
(** One number: up to three characters before a dot. *)
Fixpoint ip_field (k : nat) (ip : cells) : option (bytes * cells) :=
  c ← ip !! 0; c ← c;
  match k with
  | O => Some ([], ip)
  | S k => if decide (c = 46)%Z then Some ([], ip) else '(temp, ip) ← ip_field k (drop 1 ip); Some (c :: temp, ip)
  end.
(** [k] numbers are missing. *)
Fixpoint ip_fields (k : nat) (ip : cells) : option bool :=
  c ← ip !! 0; c ← c;
  match k with
  | O => Some (bool_decide (c = 0)%Z)
  | S k' =>
      if decide (c = 0)%Z then Some false else
      '(temp, ip) ← ip_field 3 ip; num ← atoi (upto0 temp);
      if decide (k = 4 ∧ num = 0%Z) then Some false
      else if decide (num < 0 ∨ 255 < num)%Z then Some false
      else ip_fields k' (drop 1 ip)
  end.
Definition isValidIPv4 (ip : cells) : option bool :=
  c ← ip !! 0; c ← c; if decide (c = 0)%Z then Some false else ip_fields 4 ip.
(** [TMsgAddress::encodeCStr], [decodeCStr]; [None] in the result: the text is
    not three pieces, and nothing is changed. *)
Definition encodeCStr (a : TMsgAddress) : bytes :=
  dec (i32 (logAddr a)) ++ [95%Z] ++ dec (i32 (phyAddr a)) ++ [95%Z] ++ dec (i32 (taskInstID a)).
Definition decodeCStr (buf : bytes) : option (option TMsgAddress) :=
  match pieces 3 [95%Z] (upto0 buf) with
  | [a; b; c] => l ← atoi a; ph ← atoi b; i ← atoi c; Some (Some (Addr (u32 l) (u32 ph) (u32 i)))
  | _ => Some None
  end.

(** ** The task *)
Definition DIALOG_BEGIN : Z := 1.
Definition DIALOG_CONTINUE : Z := 2.
Record SBind := BindOf { bindId : Z; b_host : bytes; b_port : Z }.
Record STask := TaskOf { taskid : Z; regx : bytes }.
(** What comes to [procMsg], by the class of header and body. *)
Inductive psa_msg := PCom (m : TUniNetMsg) | PRsc (m : rsc_msg).
(** What goes to other tasks; a header and body are of the resource classes. *)
Record up_msg := Up { up_uni : TUniNetMsg; up_parts : option (TRscMsgHdr * bytes) }.
(** What [TAbstractTask::sendMsg] writes into a message. *)
Record own := Own { w_tuple : STuple; w_addr : TMsgAddress }.
(** [mBindList]: a [std::map], in the order of its keys. *)
Record psa (T : Type) := Psa {
  ps_own : own; mCSeq : Z; mTaskDefault : Z; mTaskMapping : list STask; mBindList : list (Z * SBind);
  mDNSCache : gmap bytes bytes; mMaintain : Z; mBuffer : cells; ps_mach : machine T;
  ps_up : list up_msg; ps_down : list TUniNetMsg }.
Arguments Psa {T} _ _ _ _ _ _ _ _ _ _ _.
Arguments ps_own {T} _.
Arguments mCSeq {T} _.
Arguments mTaskDefault {T} _.
Arguments mTaskMapping {T} _.
Arguments mBindList {T} _.
Arguments mDNSCache {T} _.
Arguments mMaintain {T} _.
Arguments mBuffer {T} _.
Arguments ps_mach {T} _.
Arguments ps_up {T} _.
Arguments ps_down {T} _.

Fixpoint bind_find (k : Z) (l : list (Z * SBind)) : option SBind :=
  match l with [] => None | (k', b) :: l => if decide (k = k') then Some b else bind_find k l end.
Fixpoint bind_insert (k : Z) (b : SBind) (l : list (Z * SBind)) : list (Z * SBind) :=
  match l with [] => [(k, b)] | (k', b') :: l' => if decide (k < k')%Z then (k, b) :: l else (k', b') :: bind_insert k b l' end.
Definition bind_erase (k : Z) (l : list (Z * SBind)) : list (Z * SBind) := filter (λ x, x.1 ≠ k) l.
(** [mBindList.begin()->second] *)
Definition first_bind (l : list (Z * SBind)) : option SBind := match l with [] => None | x :: _ => Some x.2 end.

Section task.
Context {T : Type} `{ResendTimer T} `{OtherParts}.
Implicit Types (p : psa T).
Local Abbreviation P := (M (psa T)).

Definition on_mach {A} (m : M (machine T) A) : P A :=
  zoom ps_mach (λ w p, Psa (ps_own p) (mCSeq p) (mTaskDefault p) (mTaskMapping p) (mBindList p) (mDNSCache p) (mMaintain p) (mBuffer p) w (ps_up p) (ps_down p)) m.
Definition set_cseq (n : Z) : P unit :=
  modify (λ p, Psa (ps_own p) n (mTaskDefault p) (mTaskMapping p) (mBindList p) (mDNSCache p) (mMaintain p) (mBuffer p) (ps_mach p) (ps_up p) (ps_down p)).
Definition set_targets (d : Z) (l : list STask) : P unit :=
  modify (λ p, Psa (ps_own p) (mCSeq p) d l (mBindList p) (mDNSCache p) (mMaintain p) (mBuffer p) (ps_mach p) (ps_up p) (ps_down p)).
Definition set_bind_list (l : list (Z * SBind)) : P unit :=
  modify (λ p, Psa (ps_own p) (mCSeq p) (mTaskDefault p) (mTaskMapping p) l (mDNSCache p) (mMaintain p) (mBuffer p) (ps_mach p) (ps_up p) (ps_down p)).
Definition set_dns (d : gmap bytes bytes) : P unit :=
  modify (λ p, Psa (ps_own p) (mCSeq p) (mTaskDefault p) (mTaskMapping p) (mBindList p) d (mMaintain p) (mBuffer p) (ps_mach p) (ps_up p) (ps_down p)).
Definition set_maintain (k : Z) : P unit :=
  modify (λ p, Psa (ps_own p) (mCSeq p) (mTaskDefault p) (mTaskMapping p) (mBindList p) (mDNSCache p) k (mBuffer p) (ps_mach p) (ps_up p) (ps_down p)).
Definition set_mbuf (b : cells) : P unit :=
  modify (λ p, Psa (ps_own p) (mCSeq p) (mTaskDefault p) (mTaskMapping p) (mBindList p) (mDNSCache p) (mMaintain p) b (ps_mach p) (ps_up p) (ps_down p)).
(** [mTransport->add] *)
Definition transport_add (m : TUniNetMsg) : P unit :=
  modify (λ p, Psa (ps_own p) (mCSeq p) (mTaskDefault p) (mTaskMapping p) (mBindList p) (mDNSCache p) (mMaintain p) (mBuffer p) (ps_mach p) (ps_up p) (ps_down p ++ [m])).
(** [sendMsg] *)
Definition stamped (w : own) (u : TUniNetMsg) : TUniNetMsg :=
  UniNetMsg (w_tuple w) (optionSet u) (w_addr w) (tAddr u) (dialogType u) (msgName u) (msgType u) (transID u) (cseq u) (ctrlMsgHdr u) (msgBody u).
Definition send_up (x : up_msg) : P unit :=
  modify (λ p, Psa (ps_own p) (mCSeq p) (mTaskDefault p) (mTaskMapping p) (mBindList p) (mDNSCache p) (mMaintain p) (mBuffer p) (ps_mach p)
    (ps_up p ++ [Up (stamped (ps_own p) (up_uni x)) (up_parts x)]) (ps_down p)).

(** *** From the transport *)
(** The task of the first mapping whose text the URI begins with. *)
Fixpoint mapped (l : list STask) (ruri : bytes) : option Z :=
  match l with [] => None | t :: l => if decide (regx t `prefix_of` ruri) then Some (taskid t) else mapped l ruri end.
Definition with_target (a : TMsgAddress) (u : TUniNetMsg) : TUniNetMsg :=
  UniNetMsg (sender u) (optionSet u) (oAddr u) a (dialogType u) (msgName u) (msgType u) (transID u) (cseq u) (ctrlMsgHdr u) (msgBody u).
(** What [setCtrlMsgHdr] and [setMsgBody] leave in the option set. *)
Definition with_parts (u : TUniNetMsg) : TUniNetMsg := with_flag msgBody_flag (with_flag ctrlMsgHdr_flag u).
(** The message taken out of a COM message with header [h]; the last statement
    overrides what the mapping said. *)
Definition take_out (def : Z) (maps : list STask) (h : TComMsgHdr) (m : rsc_msg) : option up_msg :=
  let u := r_uni m in let rh := r_hdr m in
  arg ← argv h !! 0;
  a ← (if decide (user (rh_host rh) = []) then
         let l := match maps with [] => u32 def | _ => from_option u32 (logAddr (tAddr u)) (mapped maps (ruri rh)) end in
         Some (Addr l 0 0)
       else r ← decodeCStr (user (rh_host rh)); Some (default (tAddr u) r));
  v ← TURI_of arg;
  Some (Up (with_parts (with_target (Addr (u32 def) (phyAddr a) (taskInstID a)) u)) (Some (set_rh_host v rh, r_body m))).
Definition from_transport (now : Z) (m : TUniNetMsg) : P unit :=
  match com_hdr m, com_body m with
  | Some h, Some info =>
      r ← on_mach (processTM true now (Some m));
      match r with
      | (TSC_REFUSE, Some resp) => transport_add resp
      | (TSC_FORWARD, resp) =>
          (match resp with Some resp => transport_add resp | None => mret tt end) ;;
          x ← defined (rsc_decode (det info ++ [Some 0%Z]));
          d ← gets mTaskDefault; l ← gets mTaskMapping;
          x ← defined (take_out d l h x.1); send_up x
      | _ => mret tt
      end
  | _, _ => mret tt
  end.

(** *** To the transport *)
Definition before_dot (s : bytes) : bytes := match find_sub [46%Z] s with Some i => take i s | None => s end.
Fixpoint bind_with (hdr : bytes) (l : list (Z * SBind)) : option SBind :=
  match l with [] => None | (_, b) :: l => if decide (hdr `prefix_of` b_host b) then Some b else bind_with hdr l end.
(** [behind]: the cells behind the terminator of [dest]. *)
Definition transExist (behind : cells) (dest : bytes) : P SBind :=
  l ← gets mBindList;
  v ← defined (isValidIPv4 (det dest ++ Some 0%Z :: behind));
  dstip ← (if (v : bool) then mret (Some dest) else
             c ← gets mDNSCache; let ip := default [] (c !! dest) in set_dns (<[dest := ip]> c) ;;
             mret (if decide (ip = []) then None else Some ip));
  match dstip with
  | None => defined (first_bind l)
  | Some ip => defined (match bind_with (before_dot ip) l with Some b => Some b | None => first_bind l end)
  end.
Definition colon_at (a : bytes) (i : Z) (h : bytes) (pt : Z) : bytes := a ++ [58%Z] ++ dec i ++ [64%Z] ++ h ++ [58%Z] ++ dec pt.
(** The COM message without its body. *)
Definition envelope (m : rsc_msg) (cs pr f : Z) (b : SBind) : TUniNetMsg :=
  let u := r_uni m in
  let name := if decide (msgName u = RSC_REQUEST) then COM_MESSAGE_REQ else if decide (msgName u = RSC_RESPONSE) then COM_MESSAGE_RSP else COM_MESSAGE_REQ in
  let c := UniNetMsg (sender new_TUniNetMsg) (optionSet new_TUniNetMsg) (oAddr u) (tAddr new_TUniNetMsg) DIALOG_MESSAGE name COM_MESSAGE_TYPE [] None None None in
  let h := ComHdr 0 (Addr 0 0 0) 0 pr f 2 ([domain (rh_host (r_hdr m)); colon_at (encodeCStr (oAddr u)) (bindId b) (b_host b) (b_port b)] ++ replicate 3 []) in
  setTransId (transID u) (setCSeq cs (setCtrlMsgHdr (Some (CtrlCom h)) c)).
(** Which socket, and its bind; no destination gives none. *)
Definition choose_bind (behind : cells) (u : TURI) : P (option (Z * SBind)) :=
  l ← gets mBindList;
  if decide (password u = []) then
    if decide (domain u = []) then mret None else b ← transExist behind (host u); mret (Some (bindId b, b))
  else
    f ← defined (atoi (upto0 (password u)));
    b ← defined (match bind_find (u32 f) l with Some b => Some b | None => first_bind l end); mret (Some (f, b)).
(** [memset] of the first 8000 bytes, [encode], and a copy of as many bytes as
    it says. *)
Definition pack (m : rsc_msg) : P bytes :=
  b ← gets mBuffer; let b := replicate (Z.to_nat 8000) (Some 0%Z) ++ drop (Z.to_nat 8000) b in
  x ← defined (rsc_encode m); b ← defined (blit b 0 x.2 (Z.of_nat (length x.2))); set_mbuf b ;;
  if decide (x.1 ≤ Z.of_nat (length b))%Z then defined (mapM id (take (Z.to_nat x.1) b)) else ub.
(** Without a transaction id one is made of a digest of more bytes than its
    text has ([include/msg/msgdef.h]). *)
Definition from_task (behind : cells) (m : rsc_msg) : P unit :=
  let u := r_uni m in
  cs ← (if hasCSeq u then defined (getCSeq u) else n ← gets mCSeq; set_cseq (u32 (n + 1)) ;; mret (u32 (n + 1)));
  if negb (hasTransId u) then ub else
  r ← choose_bind behind (rh_host (r_hdr m));
  match r with
  | None => mret tt
  | Some (f, b) =>
      info ← pack m;
      transport_add (setMsgBody (Some (BodyCom info)) (envelope m cs (if decide (msgName u = RSC_REQUEST) then 1 else 0)%Z f b))
  end.

(** [procMsg]; [now] is what [time(0)] returns. *)
Definition procMsg (now : Z) (behind : cells) (m : psa_msg) : P unit :=
  let u := match m with PCom u => u | PRsc x => r_uni x end in
  if decide (taskID (sender u) = 0 ∧ logAddr (oAddr u) = 0)%Z then match m with PCom u => from_transport now u | PRsc _ => mret tt end
  else match m with PRsc x => from_task behind x | PCom _ => mret tt end.

(** ** Timers *)
(** A request that was not answered, as an answer to its task. *)
Definition report (resp : TUniNetMsg) : P unit :=
  match getComMsgCtrlHdr resp, getComMsgBody resp with
  | Some h, Some info =>
      x ← defined ((u ← TUniNetMsg_decode new_TUniNetMsg; _ ← TRscMsgHdr_decode new_TRscMsgHdr; mret u.2) (det info ++ [Some 0%Z]));
      let m := x.1 in
      let m := UniNetMsg (sender m) (optionSet m) (oAddr m) (tAddr m) (if decide (dialogType m = DIALOG_BEGIN) then DIALOG_CONTINUE else dialogType m)
        RSC_RESPONSE (msgType m) (transID m) (cseq m) (ctrlMsgHdr m) (msgBody m) in
      arg ← defined (argv h !! 1); v ← defined (TURI_of arg); a ← defined (decodeCStr (user v));
      send_up (Up (with_target (default (tAddr m) a) m) None)
  | _, _ => mret tt
  end.
Fixpoint maintain_loop (fuel : nat) (clock : nat → Z) (currentTime : Z) : P unit :=
  match fuel with
  | O => ub
  | S fuel =>
      r ← on_mach (processTM_expire clock currentTime);
      match r with
      | (TSC_TIMEOUT, Some resp) => report resp ;; maintain_loop fuel clock currentTime
      | (TSC_NULL, _) => mret tt
      | _ => maintain_loop fuel clock currentTime
      end
  end.
(** [onTimeOut]; [newkey]: what [setTimer] returns. *)
Definition onTimeOut (clock : nat → Z) (currentTime newkey timerKey : Z) (para : option bytes) : P unit :=
  k ← gets mMaintain;
  if decide (timerKey = k) then
    fuel ← gets (λ p, S (size (states (ps_mach p)))); maintain_loop fuel clock currentTime ;; set_maintain newkey
  else
    r ← on_mach (processTM_timer timerKey para);
    match r with (TSC_RESEND, Some m) => transport_add m | _ => mret tt end.

(** ** Start-up *)
(** A [bind] element, and what [psa] holds: the binds, and the default and the
    elements of [targets].  [c_opens i]: what the [i]-th attempt of [addTransport]
    returns; [c_behind]: the cells behind the text of the address. *)
Record bind_cfg := BindCfg { c_id : option Z; c_ip : bytes; c_port : option Z; c_behind : cells; c_opens : nat → bool }.
Record psa_cfg := PsaCfg { c_binds : list bind_cfg; c_targets : option (option Z * list (option Z * bytes)) }.
Definition DEFAULT_BIND_PORT : Z := 8000.
(** The loops over the elements: [continue] does not go to the next one, and
    the loop over the targets never does.  [i] attempts were made before. *)
Fixpoint read_binds (fuel i : nat) (l : list bind_cfg) : P unit :=
  match l, fuel with
  | [], _ => mret tt
  | _, O => ub
  | c :: rest, S fuel =>
      let id := default 0%Z (c_id c) in
      if decide (0 < id)%Z then
        v ← defined (isValidIPv4 (det (c_ip c) ++ Some 0%Z :: c_behind c));
        if negb v then read_binds fuel i l else
        bl ← gets mBindList;
        match bind_find (u32 id) bl with
        | Some _ => read_binds fuel i l
        | None =>
            set_bind_list (bind_insert (u32 id) (BindOf id (c_ip c) (default DEFAULT_BIND_PORT (c_port c))) bl) ;;
            if c_opens c i then read_binds fuel 0 rest
            else bl ← gets mBindList; set_bind_list (bind_erase (u32 id) bl) ;; read_binds fuel (S i) l
        end
      else read_binds fuel 0 rest
  end.
Fixpoint read_targets (fuel : nat) (l : list (option Z * bytes)) : P unit :=
  match l, fuel with
  | [], _ => mret tt
  | _, O => ub
  | (id, rx) :: _, S fuel =>
      d ← gets mTaskDefault; maps ← gets mTaskMapping;
      set_targets d (maps ++ [TaskOf (default d id) rx]) ;; read_targets fuel l
  end.
(** The two functions look for their elements behind a NULL pointer. *)
Definition reloadDNSCache : P bool := mret true.
Definition reloadOtherCfg : P bool := mret true.
(** [reloadTaskEnv] has no result for commands other than two. *)
Definition RELOAD : bytes := [114; 101; 108; 111; 97; 100]%Z.
Definition DNSCACHE : bytes := [100; 110; 115; 99; 97; 99; 104; 101]%Z.
Definition ALL : bytes := [97; 108; 108]%Z.
Definition reloadTaskEnv (cmd : bytes) : P bool :=
  x ← defined (cs_split cmd (replicate 5 []));
  let scmd := x.2 in
  if decide (scmd !! 0 = Some RELOAD) then
    if decide (scmd !! 1 = Some DNSCACHE) then reloadDNSCache
    else if decide (scmd !! 1 = Some ALL) then a ← reloadDNSCache; b ← (if (a : bool) then reloadOtherCfg else mret false); mret b
    else ub
  else ub.
(** [onInit]: the [psa] element, if there is one; [key]: what [setTimer] returns. *)
Definition onInit (fuel : nat) (key : Z) (cfg : option psa_cfg) : P bool :=
  (match cfg with
   | Some c =>
       read_binds fuel 0 (c_binds c) ;;
       match c_targets c with
       | Some (d, l) => maps ← gets mTaskMapping; set_targets (default 7%Z d) maps ;; read_targets fuel l
       | None => mret tt
       end
   | None => mret tt
   end) ;;
  a ← reloadDNSCache; b ← (if (a : bool) then reloadOtherCfg else mret false);
  if negb b then mret false else
  set_maintain key ;; l ← gets mBindList; mret (bool_decide (l ≠ [])).
End task.

(** ** What [isValidIPv4] reads *)
Definition cell_at (i : nat) (s : cells) : option Z := c ← s !! i; c.
Definition ends_at (i : nat) (s : cells) : option bool := c ← cell_at i s; Some (bool_decide (c = 0%Z)).
(** By the cells behind the terminator, for an address with the last number [d]. *)
Definition behind_verdict (d : Z) (s : cells) : option bool :=
  if decide (100 ≤ d)%Z then ends_at 0 s
  else if decide (10 ≤ d)%Z then _ ← cell_at 0 s; ends_at 1 s
  else c ← cell_at 0 s; if decide (c = 46)%Z then ends_at 1 s else _ ← cell_at 1 s; ends_at 2 s.

Lemma ip_field_run k w x rest : Forall (λ c, c ≠ 46%Z) w → length w = k ∨ (length w < k ∧ x = 46%Z) →
  ip_field k (det w ++ Some x :: rest) = Some (w, Some x :: rest).
Proof.
  intros Hw. revert k. induction Hw as [|c w Hc Hw IH]; intros k Hk; cbn [length] in Hk.
  - destruct k as [|k]; cbn; [done|]. destruct Hk as [?|[_ ->]]; [lia|]. done.
  - destruct k as [|k]; [lia|]. cbn. rewrite decide_False by done. rewrite drop_0. rewrite (IH k) by lia. done.
Qed.
Lemma dec_octet n : octet n → Forall (λ c, c ≠ 46%Z) (dec n) ∧
  length (dec n) = if decide (100 ≤ n)%Z then 3 else if decide (10 ≤ n)%Z then 2 else 1.
Proof.
  unfold octet. intros Hn. split.
  - apply Forall_forall. intros c Hc. apply dec_plain in Hc. lia.
  - unfold dec. rewrite decide_False by lia. cbn [dec_digits].
    destruct (decide (n < 10)%Z); [by rewrite !decide_False by lia|]. rewrite length_app. cbn [length].
    destruct (decide (n / 10 < 10)%Z) as [H1|H1].
    + assert (n < 100)%Z by (pose proof (Z.div_mod n 10); pose proof (Z.mod_pos_bound n 10); lia). rewrite decide_False, decide_True by lia. done.
    + assert (100 ≤ n)%Z by (pose proof (Z.div_mod n 10); pose proof (Z.mod_pos_bound n 10); lia). rewrite (decide_True (P := (100 ≤ n)%Z)) by done.
      assert (n / 10 / 10 < 10)%Z by (rewrite Z.div_div by lia; apply Z.div_lt_upper_bound; lia).
      rewrite decide_True by done. done.
Qed.
Lemma octet_int n : octet n → is_int n.
Proof. unfold octet, is_int. lia. Qed.
Lemma dec_nozero n : 0%Z ∉ dec n.
Proof. intros H. apply dec_plain in H. lia. Qed.
Lemma upto0_end w t : 0%Z ∉ w → upto0 (w ++ 0%Z :: t) = w.
Proof. induction w as [|c w IH]; [done|]. intros [Hc Hw]%not_elem_of_cons. cbn. rewrite decide_False by done. by rewrite IH. Qed.
(** One number with what follows its digits up to the third character. *)
Lemma ip_fields_step k n w x rest : octet n → (k = 3 → n ≠ 0%Z) → ip_field 3 (det (dec n) ++ w) = Some (x, rest) → upto0 x = dec n →
  ip_fields (S k) (det (dec n) ++ w) = ip_fields k (drop 1 rest).
Proof.
  intros Hn Hk Hf Hx. pose proof (dec_nonempty n) as Hne. pose proof (dec_nozero n) as Hz. unfold octet in Hn.
  assert (Hh : ∃ c, (det (dec n) ++ w) !! 0 = Some (Some c) ∧ c ≠ 0%Z).
  { destruct (dec n) as [|c s]; [done|]. exists c. split; [done|]. set_solver. }
  destruct Hh as (c & Hc & Hc0). cbn [ip_fields]. rewrite Hc. cbn [mbind option_bind]. rewrite decide_False by done.
  rewrite Hf. cbn [mbind option_bind]. rewrite Hx, (atoi_dec n) by (apply octet_int; exact Hn). cbn [mbind option_bind].
  rewrite decide_False by (intros [[= ->] H0]; by apply Hk). rewrite decide_False by lia. done.
Qed.
Lemma ip_fields_dot k n rest : octet n → (k = 3 → n ≠ 0%Z) → ip_fields (S k) (det (dec n) ++ Some 46%Z :: rest) = ip_fields k rest.
Proof.
  intros Hn Hk. destruct (dec_octet n Hn) as [Hd Hl]. erewrite ip_fields_step; [|done|done|apply ip_field_run; [done|]|apply uri_upto0_id, dec_nozero].
  - done.
  - rewrite Hl. repeat case_decide; lia.
Qed.
(** Where the next cell cannot be read. *)
Lemma ip_field_stuck w k r : Forall (λ c, c ≠ 46%Z) w → length w ≤ k → r !! 0 = None ∨ r !! 0 = Some None → ip_field k (det w ++ r) = None.
Proof.
  intros Hw. revert k. induction Hw as [|c w Hc Hw IH]; intros k Hk Hr; cbn in Hk.
  - destruct r as [|[c|] r]; [by destruct k|by destruct Hr|by destruct k].
  - destruct k as [|k]; [lia|]. cbn. rewrite decide_False by done. rewrite drop_0, (IH k) by (done || lia). done.
Qed.
(** A number, the terminator and what is read behind it. *)
Lemma last_app n (w : bytes) t : det (dec n) ++ Some 0%Z :: det w ++ t = det (dec n ++ 0%Z :: w) ++ t.
Proof. rewrite fmap_app. cbn [fmap list_fmap]. by rewrite <- app_assoc. Qed.
Lemma last_run n w x rest : octet n → Forall (λ c, c ≠ 46%Z) w → length (dec n) + S (length w) = 3 ∨ (length (dec n) + S (length w) < 3 ∧ x = 46%Z) →
  ip_fields 1 (det (dec n) ++ Some 0%Z :: det w ++ Some x :: rest) = ends_at 0 rest.
Proof.
  intros Hn Hw Hk. rewrite (ip_fields_step 0 n _ (dec n ++ 0%Z :: w) (Some x :: rest)); [|done|done| |by apply upto0_end, dec_nozero].
  - cbn [drop]. rewrite drop_0. by destruct rest as [|[c|] rest].
  - rewrite last_app. apply ip_field_run; [apply Forall_app_2; [by apply dec_octet|by apply Forall_cons_2]|]. rewrite length_app. cbn [length]. lia.
Qed.
Lemma last_stuck n w t : Forall (λ c, c ≠ 46%Z) (dec n ++ 0%Z :: w) → length (dec n) + S (length w) ≤ 3 → t !! 0 = None ∨ t !! 0 = Some None →
  ip_fields 1 (det (dec n) ++ Some 0%Z :: det w ++ t) = None.
Proof.
  intros Hw Hl Ht. pose proof (dec_nonempty n) as Hne. pose proof (dec_nozero n) as Hz.
  assert (Hf : ip_field 3 (det (dec n) ++ Some 0%Z :: det w ++ t) = None).
  { rewrite last_app. apply ip_field_stuck; [done| |done]. rewrite length_app. cbn [length]. lia. }
  cbn [ip_fields]. destruct (dec n) as [|c l]; [done|]. cbn [fmap list_fmap app] in *. cbn [lookup list_lookup mbind option_bind].
  rewrite decide_False by set_solver. by rewrite Hf.
Qed.
Lemma ip_fields_last n s : octet n → ip_fields 1 (det (dec n) ++ Some 0%Z :: s) = behind_verdict n s.
Proof.
  intros Hn. destruct (dec_octet n Hn) as [Hd Hl]. unfold behind_verdict.
  assert (Hw : ∀ w, Forall (λ c, c ≠ 46%Z) w → Forall (λ c, c ≠ 46%Z) (dec n ++ 0%Z :: w)) by (intros w Hw; apply Forall_app_2; [done|by apply Forall_cons_2]).
  pose proof (Hw [] ltac:(constructor)) as Hw0. destruct (decide (100 ≤ n)%Z); [|destruct (decide (10 ≤ n)%Z)].
  - rewrite (ip_fields_step 0 n _ (dec n) (Some 0%Z :: s)); [|done|done|apply ip_field_run; [done|lia]|by apply uri_upto0_id, dec_nozero].
    cbn [drop]. rewrite drop_0. by destruct s as [|[c|] s].
  - destruct s as [|[c|] s]; [by apply (last_stuck n [] []); [|cbn; lia|left]|by apply (last_run n [] c s); [| |cbn; lia]|by apply (last_stuck n [] (None :: s)); [|cbn; lia|right]].
  - destruct s as [|[c|] s]; [by apply (last_stuck n [] []); [|cbn; lia|left]| |by apply (last_stuck n [] (None :: s)); [|cbn; lia|right]].
    change (cell_at 0 (Some c :: s)) with (Some c). cbn [mbind option_bind]. destruct (decide (c = 46)%Z) as [->|Hc]; [by apply (last_run n [] 46 s); [| |cbn; lia]|].
    assert (Hcs : Forall (λ c, c ≠ 46%Z) [c]) by (by repeat constructor).
    destruct s as [|[x|] s]; [by apply (last_stuck n [c] []); [apply Hw|cbn; lia|left]|by apply (last_run n [c] x s); [| |cbn; lia]|by apply (last_stuck n [c] (None :: s)); [apply Hw|cbn; lia|right]].
Qed.
(** C25: [isValidIPv4] reads behind its text.  On every address in dotted
    notation whose first number is not 0 it decides by the memory behind the
    terminator: it is undefined where nothing is there, and accepts the address
    if zeros are. *)
Theorem ipv4_reads_behind (a b c d : Z) (s : cells) : octet a → octet b → octet c → octet d → a ≠ 0%Z →
  let ip := det (inet_ntoa (a, b, c, d)) ++ [Some 0%Z] in
  isValidIPv4 (ip ++ s) = behind_verdict d s ∧ isValidIPv4 ip = None ∧ isValidIPv4 (ip ++ replicate 3 (Some 0%Z)) = Some true.
Proof.
  intros Ha Hb Hc Hd Ha0 ip. assert (Hv : ∀ s, isValidIPv4 (ip ++ s) = behind_verdict d s).
  { clear s. intros s. unfold ip. rewrite <- app_assoc. unfold inet_ntoa. rewrite !fmap_app, <- !app_assoc. cbn [fmap list_fmap app].
    assert (Hh : ∀ t, isValidIPv4 (det (dec a) ++ t) = ip_fields 4 (det (dec a) ++ t)).
    { intros t. pose proof (dec_nonempty a) as Hne. pose proof (dec_nozero a) as Hz. unfold isValidIPv4. destruct (dec a) as [|x l]; [done|].
      cbn [fmap list_fmap app lookup list_lookup mbind option_bind]. by rewrite decide_False by set_solver. }
    rewrite Hh, (ip_fields_dot 3), (ip_fields_dot 2), (ip_fields_dot 1) by done. by apply ip_fields_last. }
  split_and!; [by apply Hv|rewrite <- (app_nil_r ip), Hv|rewrite Hv]; unfold behind_verdict; repeat case_decide; done.
Qed.

(** ** When start-up ends *)
Definition cfg_id (c : bind_cfg) : Z := default 0%Z (c_id c).
Definition pos_ids (l : list bind_cfg) : list Z := (λ c, u32 (cfg_id c)) <$> filter (λ c, 0 < cfg_id c)%Z l.
Definition bind_ok (c : bind_cfg) : Prop :=
  (0 < cfg_id c)%Z → isValidIPv4 (det (c_ip c) ++ Some 0%Z :: c_behind c) = Some true ∧ ∃ i, c_opens c i = true.
Lemma bind_find_insert k k' b l : bind_find k' l = None → bind_find k (bind_insert k' b l) = if decide (k = k') then Some b else bind_find k l.
Proof.
  induction l as [|[j x] l IH]; cbn; [done|]. destruct (decide (k' = j)) as [|Hj]; [done|]. intros Hn.
  destruct (decide (k' < j)%Z); cbn; [done|]. rewrite (IH Hn). repeat case_decide; congruence.
Qed.
Lemma bind_erase_insert k b l : bind_find k l = None → bind_erase k (bind_insert k b l) = l.
Proof.
  assert (Hid : ∀ l, bind_find k l = None → bind_erase k l = l).
  { clear l. induction l as [|[j x] l IH]; cbn [bind_find]; [done|]. destruct (decide (k = j)) as [|Hj]; [done|]. intros Hn. unfold bind_erase in *.
    rewrite filter_cons_True by (cbn; congruence). by rewrite (IH Hn). }
  induction l as [|[j x] l IH]; cbn [bind_find bind_insert].
  - intros _. unfold bind_erase. by rewrite filter_cons_False by (cbn; congruence).
  - destruct (decide (k = j)) as [|Hj]; [done|]. intros Hn. destruct (decide (k < j)%Z); unfold bind_erase in *.
    + rewrite filter_cons_False by (cbn; congruence). rewrite filter_cons_True by (cbn; congruence). f_equal. by apply Hid.
    + rewrite filter_cons_True by (cbn; congruence). by rewrite (IH Hn).
Qed.

Section startup.
Context {T : Type} `{ResendTimer T} `{OtherParts}.
Implicit Types (p : psa T).
Definition with_bind_list (l : list (Z * SBind)) p : psa T :=
  Psa (ps_own p) (mCSeq p) (mTaskDefault p) (mTaskMapping p) l (mDNSCache p) (mMaintain p) (mBuffer p) (ps_mach p) (ps_up p) (ps_down p).
(** One turn of the loop over the binds. *)
Lemma read_binds_S fuel i c rest p : read_binds (S fuel) i (c :: rest) p =
  if decide (0 < cfg_id c)%Z then
    v ← isValidIPv4 (det (c_ip c) ++ Some 0%Z :: c_behind c);
    if negb v then read_binds fuel i (c :: rest) p else
    match bind_find (u32 (cfg_id c)) (mBindList p) with
    | Some _ => read_binds fuel i (c :: rest) p
    | None => if c_opens c i then read_binds fuel 0 rest (with_bind_list (bind_insert (u32 (cfg_id c)) (BindOf (cfg_id c) (c_ip c) (default DEFAULT_BIND_PORT (c_port c))) (mBindList p)) p)
              else read_binds fuel (S i) (c :: rest) p
    end
  else read_binds fuel 0 rest p.
Proof.
  cbn [read_binds]. fold (cfg_id c). case_decide; [|done]. unfold defined. destruct (isValidIPv4 _) as [v|]; [|done].
  erewrite bind_eq by reflexivity. cbn [mbind option_bind]. destruct v; cbn [negb]; [|done]. erewrite bind_eq by reflexivity.
  destruct (bind_find _ _) as [b|] eqn:Hb; [done|]. erewrite bind_eq by reflexivity. destruct (c_opens c i); [done|].
  erewrite bind_eq by reflexivity. erewrite bind_eq by reflexivity. cbn [mBindList]. rewrite (bind_erase_insert _ _ _ Hb).
  by destruct p.
Qed.
Lemma pos_ids_cons c l : pos_ids (c :: l) = if decide (0 < cfg_id c)%Z then u32 (cfg_id c) :: pos_ids l else pos_ids l.
Proof. unfold pos_ids. rewrite filter_cons. by case_decide. Qed.
Lemma read_binds_inv fuel i l p p' : read_binds fuel i l p = Some (tt, p') →
  Forall bind_ok l ∧ NoDup (pos_ids l) ∧ (∀ k, k ∈ pos_ids l → bind_find k (mBindList p) = None) ∧
  ∀ k, is_Some (bind_find k (mBindList p')) ↔ is_Some (bind_find k (mBindList p)) ∨ k ∈ pos_ids l.
Proof.
  revert i l p. induction fuel as [|fuel IH]; intros i [|c rest] p; [|done| |].
  1,2: cbn; intros [= <-]; split_and!; [constructor|constructor|set_solver|set_solver].
  rewrite read_binds_S, pos_ids_cons. destruct (decide (0 < cfg_id c)%Z) as [Hc|Hc].
  - destruct (isValidIPv4 _) as [[|]|] eqn:Hv; cbn [mbind option_bind negb]; [|intros Hr; apply IH in Hr; by rewrite pos_ids_cons, decide_True in Hr|done].
    destruct (bind_find _ _) as [b|] eqn:Hb; [intros Hr; apply IH in Hr; by rewrite pos_ids_cons, decide_True in Hr|].
    destruct (c_opens c i) eqn:Ho; [|intros Hr; apply IH in Hr; by rewrite pos_ids_cons, decide_True in Hr].
    intros Hr. apply IH in Hr as (H1 & H2 & H3 & H4). cbn [with_bind_list mBindList] in H3, H4. split_and!.
    + constructor; [|done]. intros _. split; [done|by exists i].
    + constructor; [|done]. intros Hin. specialize (H3 _ Hin). by rewrite bind_find_insert, decide_True in H3 by done.
    + intros k [->|Hin]%elem_of_cons; [done|]. specialize (H3 _ Hin). rewrite bind_find_insert in H3 by done. by case_decide.
    + intros k. rewrite H4, bind_find_insert, elem_of_cons by done. case_decide; naive_solver.
  - intros Hr. apply IH in Hr as (H1 & H2 & H3 & H4). split_and!; [|done..]. constructor; [|done]. by intros ?.
Qed.
Lemma read_binds_ends l p i : Forall bind_ok l → NoDup (pos_ids l) → (∀ k, k ∈ pos_ids l → bind_find k (mBindList p) = None) →
  i = 0 → ∃ fuel p', read_binds fuel i l p = Some (tt, p').
Proof.
  intros Hl. revert i p. induction Hl as [|c l Hc Hl IH]; intros i p Hd Hf Hi; [by exists 0, p|]. rewrite pos_ids_cons in Hd, Hf.
  destruct (decide (0 < cfg_id c)%Z) as [Hp|Hp].
  2: { destruct (IH 0 p Hd Hf eq_refl) as (fuel & p' & Hr). exists (S fuel), p'. by rewrite read_binds_S, decide_False. }
  destruct (Hc Hp) as (Hv & j & Hj). apply NoDup_cons in Hd as [Hn Hd].
  set (q := with_bind_list (bind_insert (u32 (cfg_id c)) (BindOf (cfg_id c) (c_ip c) (default DEFAULT_BIND_PORT (c_port c))) (mBindList p)) p).
  assert (Hb : bind_find (u32 (cfg_id c)) (mBindList p) = None) by (apply Hf; set_solver).
  destruct (IH 0 q Hd) as (fuel & p' & Hr); [|done|].
  { intros k Hk. cbn [q with_bind_list mBindList]. rewrite bind_find_insert by done. rewrite decide_False by congruence. apply Hf. set_solver. }
  assert (Hgen : ∀ n i, i + n = j → ∃ fuel p', read_binds fuel i (c :: l) p = Some (tt, p')).
  { induction n as [|n IHn]; intros i' Hi'.
    - exists (S fuel), p'. rewrite read_binds_S, decide_True, Hv by done. cbn [mbind option_bind negb]. rewrite Hb.
      replace i' with j by lia. by rewrite Hj.
    - destruct (IHn (S i')) as (f2 & p2 & H2); [lia|]. destruct (c_opens c i') eqn:Ho.
      + exists (S fuel), p'. rewrite read_binds_S, decide_True, Hv by done. cbn [mbind option_bind negb]. by rewrite Hb, Ho.
      + exists (S f2), p2. rewrite read_binds_S, decide_True, Hv by done. cbn [mbind option_bind negb]. by rewrite Hb, Ho. }
  apply (Hgen j). lia.
Qed.
Lemma read_targets_never fuel x l p : read_targets fuel (x :: l) p = None.
Proof.
  revert p. induction fuel as [|fuel IH]; intros p; [by destruct x|]. destruct x as [id rx]. cbn [read_targets].
  do 3 (erewrite bind_eq by reflexivity). apply IH.
Qed.
Definition with_targets (d : Z) p : psa T :=
  Psa (ps_own p) (mCSeq p) d (mTaskMapping p) (mBindList p) (mDNSCache p) (mMaintain p) (mBuffer p) (ps_mach p) (ps_up p) (ps_down p).
Definition with_maintain (k : Z) p : psa T :=
  Psa (ps_own p) (mCSeq p) (mTaskDefault p) (mTaskMapping p) (mBindList p) (mDNSCache p) k (mBuffer p) (ps_mach p) (ps_up p) (ps_down p).
Lemma onInit_eq fuel key c p : onInit fuel key (Some c) p =
  '(_, p1) ← read_binds fuel 0 (c_binds c) p;
  p2 ← match c_targets c with
       | Some (d, []) => Some (with_targets (default 7%Z d) p1) | Some _ => None | None => Some p1 end;
  Some (bool_decide (mBindList p2 ≠ []), with_maintain key p2).
Proof.
  unfold onInit. destruct (read_binds fuel 0 (c_binds c) p) as [[[] p1]|] eqn:Hr; [|by unfold mbind, M_bind; rewrite Hr].
  cbn [mbind option_bind]. assert (Hl : ∀ q, (a ← reloadDNSCache; b ← (if (a : bool) then reloadOtherCfg else mret false);
    if negb b then mret false else set_maintain key ;; l ← gets mBindList; mret (bool_decide (l ≠ []))) q = Some (bool_decide (mBindList q ≠ []), with_maintain key q)) by done.
  destruct (c_targets c) as [[d [|x l]]|] eqn:Ht.
  - erewrite bind_eq; [exact (Hl _)|]. erewrite bind_eq by exact Hr. by destruct fuel.
  - assert (Hn : (read_binds fuel 0 (c_binds c) ;; maps ← gets mTaskMapping; set_targets (default 7%Z d) maps ;; read_targets fuel (x :: l)) p = None).
    { erewrite bind_eq by exact Hr. do 2 (erewrite bind_eq by reflexivity). apply read_targets_never. }
    unfold mbind at 1, M_bind at 1. by rewrite Hn.
  - erewrite bind_eq; [exact (Hl _)|]. by erewrite bind_eq by exact Hr.
Qed.
End startup.

(** ** Properties of the start-up *)
(** C24: when the start-up ends, and with what.  It ends exactly if every
    [bind] element with a positive id has an address that [isValidIPv4] accepts,
    an id of its own and a socket that can be opened some time, and if there is
    no [target] element; the task then runs if there is such a [bind].  In all
    other cases the loops stay at one element for ever (or [isValidIPv4] reads
    what is not there). *)
Theorem psa_init_ends {T} (c : psa_cfg) (key : Z) (p : psa T) : mBindList p = [] →
  ((∃ fuel b p', onInit fuel key (Some c) p = Some (b, p')) ↔
    Forall bind_ok (c_binds c) ∧ NoDup (pos_ids (c_binds c)) ∧ (c_targets c = None ∨ ∃ d, c_targets c = Some (d, []))) ∧
  ∀ fuel b p', onInit fuel key (Some c) p = Some (b, p') → b = bool_decide (pos_ids (c_binds c) ≠ []).
Proof.
  intros Hp. split; [split|].
  - intros (fuel & b & p' & Hr). rewrite onInit_eq in Hr. destruct (read_binds _ _ _ _) as [[[] p1]|] eqn:Hb; [|done].
    apply read_binds_inv in Hb as (H1 & H2 & _ & _). split_and!; [done|done|]. cbn [mbind option_bind] in Hr.
    destruct (c_targets c) as [[d [|x l]]|]; [right; by exists d|done|by left].
  - intros (H1 & H2 & Ht). destruct (read_binds_ends (c_binds c) p 0 H1 H2) as (fuel & p' & Hr); [by rewrite Hp|done|].
    exists fuel. rewrite onInit_eq, Hr. cbn [mbind option_bind]. destruct Ht as [->|[d ->]]; by eexists _, _.
  - intros fuel b p' Hr. rewrite onInit_eq in Hr. destruct (read_binds _ _ _ _) as [[[] p1]|] eqn:Hb; [|done].
    apply read_binds_inv in Hb as (_ & _ & _ & H4). rewrite Hp in H4. cbn [mbind option_bind] in Hr.
    assert (Hn : mBindList p1 ≠ [] ↔ pos_ids (c_binds c) ≠ []).
    { split.
      - intros Hne He. rewrite He in H4. destruct (mBindList p1) as [|[k x] l]; [done|].
        destruct (proj1 (H4 k)) as [[? [=]]|Hin]; [cbn; rewrite decide_True by done; by eexists|set_solver].
      - intros Hne He. destruct (pos_ids (c_binds c)) as [|k l]; [done|]. rewrite He in H4. destruct (proj2 (H4 k)) as [? [=]]. right. set_solver. }
    destruct (c_targets c) as [[d [|x l]]|]; [|done|]; cbn [mbind option_bind] in Hr; injection Hr as <- _; by apply bool_decide_ext.
Qed.

(** *** Witnesses *)
Lemma ipv4_reads_behind_witness :
  let ip := det (inet_ntoa (10, 0, 0, 25)%Z) ++ [Some 0%Z] in
  isValidIPv4 (ip ++ [Some 0%Z; Some 7%Z]) = Some false ∧ isValidIPv4 ip = None ∧ isValidIPv4 (ip ++ replicate 3 (Some 0%Z)) = Some true.
Proof. apply (ipv4_reads_behind 10 0 0 25 [Some 0%Z; Some 7%Z]); unfold octet; lia. Defined.
Definition demo_cfg (targets : option (option Z * list (option Z * bytes))) : psa_cfg :=
  PsaCfg [BindCfg (Some 1%Z) (inet_ntoa (10, 0, 0, 1)%Z) None (replicate 3 (Some 0%Z)) (λ i, bool_decide (i = 2)); BindCfg None [] None [] (λ _, false)] targets.
Definition demo_own : own := Own (Tuple 1 7 1) (Addr 7 1 1).
Definition blank_psa : psa TimerQueue.kern :=
  Psa demo_own 0 0 [] [] ∅ 0 (uninit (Z.to_nat 8192)) (new_machine TimerQueue.new_kern) [] [].
(** The socket opens at the third attempt; a [target] element is one too many. *)
Lemma psa_init_ends_witness :
  ((∃ fuel b p', onInit fuel 1 (Some (demo_cfg None)) blank_psa = Some (b, p')) ↔
    Forall bind_ok (c_binds (demo_cfg None)) ∧ NoDup (pos_ids (c_binds (demo_cfg None))) ∧ (c_targets (demo_cfg None) = None ∨ ∃ d, c_targets (demo_cfg None) = Some (d, []))) ∧
  ∀ fuel b p', onInit fuel 1 (Some (demo_cfg None)) blank_psa = Some (b, p') → b = true.
Proof. apply (psa_init_ends (demo_cfg None) 1 blank_psa). reflexivity. Defined.
