(* ===== verification/PsaRun.v ===== *)
(** * What the resource task does with messages

    The resource task (PsaRsc.v) over its transaction machine, through the
    refinement of TransMachine.v, and over the messages that Transport.v makes
    of datagrams.  Each of these arrives as a request without priority, so that
    every transaction of the task is a finished one of a server: the task is a
    filter of repeated messages, and never resends anything itself. *)

From S2P Require Import Prelude VarChar CStr UniMsg MsgCodec Uri RscMsg TransState ExpireBuffer TransMachine Transport PsaRsc.

(** ** Transactions of a receiver *)
Record idle_server (x : txn) : Prop := {
  is_role : tssend (x_st x) = false; is_state : tsstate (x_st x) = TS_TERMINATED; is_msg : msg (x_st x) = None;
  is_timer : timer (x_st x) = 0%Z; is_need : needrsp (x_st x) = Some 0%Z; is_id : c_string (ttransID (x_st x)) = x_id x }.
Definition key_of (x : txn) : bytes * Z := (x_id x, x_since x).

(** The message made of a datagram. *)
Definition hdr_from (id : Z) (a : sockaddr_in) : TComMsgHdr := ComHdr 0 (Addr 0 0 0) 0 0 id 1 (addr_text a :: replicate 4 []).
Lemma taken_facts pa id d : let m := taken pa id d in
  com_hdr m = Some (hdr_from id (pk_from d)) ∧ com_body m = Some (pk_info d) ∧ msgName m = COM_MESSAGE_REQ ∧ getComMsgPri m = 0%Z ∧
  msg_ok m = true ∧ sender m = Tuple 0 0 0 ∧ oAddr m = Addr 0 0 0 ∧ transID m = tm_transid (pk_frame d) ∧
  hasTransId m = negb (bool_decide (tm_transid (pk_frame d) = [])) ∧ getMsgBody m = Some (BodyCom (pk_info d)).
Proof.
  unfold taken, incoming. destruct d as [[sp tr cs ln] info from]. cbn [pk_frame pk_info pk_from tm_cseq tm_transid].
  destruct (decide (cs = 0)%Z), (decide (tr = [])) as [->|Htr]; rewrite ?setTransId_eq; rewrite ?bool_decide_true, ?bool_decide_false by done; split_and!; try reflexivity.
Qed.
Lemma answer_no_body m r : answers m r 100 → com_body r = None.
Proof. intros Hr. unfold com_body. by rewrite (an_body _ _ _ Hr). Qed.

Section machine.
Context {T : Type} `{ResendTimer T}.
Implicit Types (a : amach T) (l : list txn).

(** The first message of a transaction, and a repeated one. *)
Lemma first_change m id t : msgName m = COM_MESSAGE_REQ → getComMsgPri m = 0%Z → msg_ok m = true →
  ∃ r s, TS_CHANGE (Some m) (new_TTransState false id, t) = Some ((TSC_FORWARD, Some r), (s, t)) ∧ com_body r = None ∧
    ∀ since, idle_server (Txn (c_string id) since s).
Proof.
  intros Hn Hp Hm. destruct (genComMsgResp_ok m 100 Hm) as (r & Hr & _ & Ha).
  unfold TS_CHANGE, TSServer_CHANGE, take_cseq, read_needrsp, get, put, gets, modify, mbind, M_bind, mret, M_ret. cbn. rewrite decide_True by done. rewrite Hp. cbn.
  destruct (hasCSeq m) eqn:Hc.
  - destruct (getCSeq_ok m Hm) as (n & Hq). rewrite Hq. cbn. rewrite Hr. cbn. do 2 eexists. split; [reflexivity|]. split; [by eapply answer_no_body|]. by intros since.
  - cbn. rewrite Hr. cbn. do 2 eexists. split; [reflexivity|]. split; [by eapply answer_no_body|]. by intros since.
Qed.
Lemma repeated_change m x t : idle_server x → msgName m = COM_MESSAGE_REQ → msg_ok m = true →
  ∃ r s, TS_CHANGE (Some m) (x_st x, t) = Some ((TSC_REFUSE, Some r), (s, t)) ∧ com_body r = None ∧ idle_server (Txn (x_id x) (x_since x) s).
Proof.
  intros [H1 H2 H3 H4 H5 H6] Hn Hm. destruct (genComMsgResp_ok m 100 Hm) as (r & Hr & _ & Ha).
  destruct x as [xid since [sd ms st cf ch tm cs tr nd]]. cbn in *. subst.
  unfold TS_CHANGE, TSServer_CHANGE, read_needrsp, get, put, gets, modify, mbind, M_bind, mret, M_ret. cbn. rewrite decide_True by done. cbn. rewrite Hr. cbn.
  do 2 eexists. split; [reflexivity|]. split; [by eapply answer_no_body|done].
Qed.

Lemma tpos_key id l : tpos id l = None ↔ id ∉ (key_of <$> l).*1.
Proof.
  rewrite <- list_fmap_compose. change (fst ∘ key_of) with x_id. split; [apply tpos_None|].
  intros Hn. destruct (tpos id l) as [i|] eqn:Hi; [|done]. destruct (tpos_lookup _ _ _ Hi) as (x & Hx & <-).
  destruct Hn. apply list_elem_of_fmap. exists x. split; [done|]. by eapply list_elem_of_lookup_2.
Qed.
Lemma a_msg_taken pa id now d a : Forall idle_server (txns a) → tm_transid (pk_frame d) ≠ [] → (Z.of_nat (length (txns a)) + 1 < 2 ^ 32)%Z →
  let tid := c_string (tm_transid (pk_frame d)) in let known := bool_decide (tid ∈ (key_of <$> txns a).*1) in
  ∃ r a', a_msg true now (Some (taken pa id d)) a = Some ((if known then TSC_REFUSE else TSC_FORWARD, Some r), a') ∧ com_body r = None ∧
    Forall idle_server (txns a') ∧ living a' = living a ∧ a_tmr a' = a_tmr a ∧
    (key_of <$> txns a') = (key_of <$> txns a) ++ (if known then [] else [(tid, now)]).
Proof.
  intros Ha Ht Hl. cbv zeta. destruct (taken_facts pa id d) as (_ & _ & Hn & Hp & Hm & _ & _ & Hid & Hf & _). unfold a_msg.
  rewrite Hf, bool_decide_false, Hid by done. cbn [negb]. destruct (tpos _ _) as [i|] eqn:Hi.
  - destruct (tpos_lookup _ _ _ Hi) as (x & Hx & Hxi). destruct (Forall_lookup_1 _ _ _ _ Ha Hx) as [].
    destruct (repeated_change (taken pa id d) x (a_tmr a)) as (r & s & Hr & Hb & Hs); [done..|].
    rewrite bool_decide_true. 2: { rewrite <- Hxi, <- list_fmap_compose. apply list_elem_of_fmap. exists x. split; [done|]. by eapply list_elem_of_lookup_2. }
    unfold at_txn. rewrite Hx. cbn [mbind option_bind]. rewrite Hr. do 2 eexists. split; [done|]. cbn [txns living a_tmr].
    split_and!; [done|by apply Forall_insert|done|done|]. rewrite app_nil_r, list_fmap_insert. apply list_insert_id. by rewrite list_lookup_fmap, Hx.
  - pose proof (proj1 (tpos_key _ _) Hi) as Hnk. rewrite bool_decide_false by done. rewrite !decide_True by done.
    destruct (first_change (taken pa id d) (tm_transid (pk_frame d)) (a_tmr a)) as (r & s & Hr & Hb & Hs); [done..|].
    unfold at_txn. cbn [txns a_tmr living]. rewrite lookup_app_r, Nat.sub_diag by lia. cbn [lookup list_lookup mbind option_bind x_st negb].
    rewrite Hr. do 2 eexists. split; [done|]. cbn [txns living a_tmr x_id x_since]. rewrite insert_app_r_alt, Nat.sub_diag by lia. cbn [insert list_insert].
    split_and!; [done|by apply Forall_app_2; [|constructor]|done|done|by rewrite fmap_app].
Qed.
(** A timer of another service, and one that no transaction has. *)
Lemma a_timer_idle key b a : Forall idle_server (txns a) → a_timer key (Some b) a = Some ((TSC_NULL, None), a).
Proof.
  intros Ha. unfold a_timer. case_decide; [|done]. destruct (tpos _ _) as [i|] eqn:Hi; [|done].
  destruct (tpos_lookup _ _ _ Hi) as (x & Hx & _). destruct (Forall_lookup_1 _ _ _ _ Ha Hx) as [_ _ _ Ht _ _].
  unfold at_txn. rewrite Hx. cbn [mbind option_bind]. unfold TS_CHANGE_timer, get, gets, mbind, M_bind. cbn. rewrite Ht, decide_False by lia.
  cbn. rewrite list_insert_id by (by destruct x). by destruct a.
Qed.
Fixpoint drop_expired (liv now : Z) (l : list (bytes * Z)) : list (bytes * Z) :=
  match l with
  | (k, since) :: l' => if decide (liv < now - since)%Z then drop_expired liv now l' else l
  | [] => []
  end.
Lemma a_expire_idle clock now a : now ≠ 0%Z → Forall idle_server (txns a) →
  ∃ l, a_expire clock now a = Some ((TSC_NULL, None), AMach l (living a) (a_tmr a)) ∧ Forall idle_server l ∧
    key_of <$> l = drop_expired (living a) now (key_of <$> txns a).
Proof.
  intros Hn. unfold a_expire. destruct a as [l liv t]. cbn [txns living a_tmr]. generalize 0. induction l as [|x l IH]; intros i Hl; [by exists []|].
  apply Forall_cons in Hl as [Hx Hl]. cbn [a_expire_loop fmap list_fmap drop_expired key_of].
  assert (Hiff : txn_expired liv (clock i) now x ↔ (liv < now - x_since x)%Z) by (unfold txn_expired, old_time; by rewrite decide_False).
  destruct (decide (liv < now - x_since x)%Z).
  - rewrite decide_True by tauto. destruct Hx as [Hr _ _ Ht _ _]. unfold unanswered, stop_timer. rewrite Hr, Ht. cbn [andb]. rewrite decide_False by lia. by apply IH.
  - rewrite decide_False by tauto. eexists. split; [done|]. split; [by constructor|done].
Qed.
End machine.

(** ** Cells that were written *)
Definition written (w : cells) : Prop := ∃ x : bytes, w = det x.
Lemma written_app v w : written v → written w → written (v ++ w).
Proof. intros [x ->] [y ->]. exists (x ++ y). by rewrite fmap_app. Qed.
Lemma written_int n : written (encode_int n).
Proof. by eexists [_; _; _; _]. Qed.
Lemma written_str s : written (put_str s).
Proof. apply written_app; [apply written_int|by eexists]. Qed.
Lemma written_if (b : bool) w : written w → written (if b then w else []).
Proof. intros Hw. destruct b; [done|by exists []]. Qed.
Lemma written_addr a : written (TMsgAddress_encode a).
Proof. unfold TMsgAddress_encode. repeat apply written_app; apply written_int. Qed.
Lemma written_rsc `{OtherParts} m n w : head_ok (r_uni m) → rsc_encode m = Some (n, w) → written w.
Proof.
  intros Hu He. unfold rsc_encode in He. rewrite (encode_bare _ Hu) in He. cbn [mbind option_bind] in He.
  destruct (TRscMsgHdr_encode (r_hdr m)) as [[h v]|] eqn:Hh; [|done]. cbn [mbind option_bind] in He.
  apply Some_inj, (f_equal snd) in He. cbn [snd] in He. subst w. unfold TRscMsgHdr_encode, TURI_encode in Hh.
  destruct (if decide _ then _ else _) as [u|]; [|done]. cbn [mbind option_bind] in Hh.
  apply Some_inj, (f_equal snd) in Hh. cbn [snd] in Hh. subst v. unfold head_bytes.
  repeat first [apply written_int|apply written_str|apply written_addr|apply written_app|apply written_if; first [apply written_addr|apply written_str]].
  - by eexists [_].
  - destruct (hasCSeq _); [|by exists []]. destruct (cseq _); [apply written_int|by exists []].
Qed.
Lemma mapM_det x : mapM id (det x) = Some x.
Proof. induction x as [|c x IH]; [done|]. cbn. by rewrite IH. Qed.

(** ** To the transport *)
Definition DEFAULT_BUFFER_SIZE : Z := 8192.
(** The body of the COM message: what [encode] writes, and zeroes. *)
Definition packed `{OtherParts} (m : rsc_msg) : option bytes :=
  '(n, w) ← rsc_encode m; x ← mapM id w; Some (x ++ replicate (Z.to_nat n - length w) 0%Z).
Definition bind_for (l : list (Z * SBind)) (f : Z) : option SBind := match bind_find (u32 f) l with Some b => Some b | None => first_bind l end.
Definition carrier `{OtherParts} (l : list (Z * SBind)) (m : rsc_msg) : option TUniNetMsg :=
  cs ← getCSeq (r_uni m); f ← atoi (upto0 (password (rh_host (r_hdr m)))); b ← bind_for l f; info ← packed m;
  Some (setMsgBody (Some (BodyCom info)) (envelope m cs (if decide (msgName (r_uni m) = RSC_REQUEST) then 1 else 0)%Z f b)).
(** A message of a task that says which socket it goes through. *)
Record task_ok `{OtherParts} (m : rsc_msg) (v : TURI) : Prop := {
  tk_head : head_ok (r_uni m); tk_hdr : rsc_hdr_ok (r_hdr m) v; tk_body : str_ok (r_body m);
  tk_ids : hasCSeq (r_uni m) = true ∧ hasTransId (r_uni m) = true;
  tk_bind : password (rh_host (r_hdr m)) ≠ [] ∧ is_Some (atoi (upto0 (password (rh_host (r_hdr m)))));
  tk_size : ∀ n w, rsc_encode m = Some (n, w) → (n ≤ 8000)%Z;
  tk_from : taskID (sender (r_uni m)) ≠ 0%Z ∨ logAddr (oAddr (r_uni m)) ≠ 0%Z }.

Section task.
Context {T : Type} `{ResendTimer T} `{OtherParts}.
Implicit Types (p : psa T).
Definition sent_down (b : cells) (m : TUniNetMsg) p : psa T :=
  Psa (ps_own p) (mCSeq p) (mTaskDefault p) (mTaskMapping p) (mBindList p) (mDNSCache p) (mMaintain p) b (ps_mach p) (ps_up p) (ps_down p ++ [m]).
Lemma packed_ok m v : task_ok m v → ∃ info n x, packed m = Some info ∧ rsc_encode m = Some (n, det x) ∧
  info = x ++ replicate (Z.to_nat n - length x) 0%Z ∧ (Z.of_nat (length x) ≤ n ≤ 8000)%Z ∧ reads rsc_decode (rsc_received m v) (det x).
Proof.
  intros [Hu Hh Hb _ _ Hs _]. destruct (rsc_encode_ok m v Hu Hh Hb) as (w & He & Hr). destruct (written_rsc _ _ _ Hu He) as [x ->].
  pose proof (Hs _ _ He) as Hn. rewrite length_fmap in Hn. eexists _, _, x. unfold packed. rewrite He. cbn [mbind option_bind]. rewrite mapM_det. cbn [mbind option_bind]. rewrite length_fmap.
  split_and!; [done|done|done| |exact Hn|exact Hr]. unfold surplus, TURI_size, CStr_size. lia.
Qed.
Lemma pack_ok m v p : task_ok m v → Z.of_nat (length (mBuffer p)) = DEFAULT_BUFFER_SIZE → ∃ info b, packed m = Some info ∧ Z.of_nat (length b) = DEFAULT_BUFFER_SIZE ∧
  pack m p = Some (info, Psa (ps_own p) (mCSeq p) (mTaskDefault p) (mTaskMapping p) (mBindList p) (mDNSCache p) (mMaintain p) b (ps_mach p) (ps_up p) (ps_down p)).
Proof.
  intros Hm Hl. destruct (packed_ok m v Hm) as (info & n & x & Hp & He & -> & Hn & _). unfold DEFAULT_BUFFER_SIZE in *.
  set (b := det x ++ replicate (Z.to_nat 8000 - length x) (Some 0%Z) ++ drop (Z.to_nat 8000) (mBuffer p)). eexists _, b. split; [exact Hp|].
  assert (Hb : Z.of_nat (length b) = 8192%Z) by (unfold b; rewrite !length_app, length_fmap, length_replicate, length_drop; lia). split; [done|].
  assert (Hbl : blit (replicate (Z.to_nat 8000) (Some 0%Z) ++ drop (Z.to_nat 8000) (mBuffer p)) 0 (det x) (Z.of_nat (length (det x))) = Some b).
  { assert (Hrep : replicate (Z.to_nat 8000) (Some 0%Z) = replicate (length x) (Some 0%Z) ++ replicate (Z.to_nat 8000 - length x) (Some 0%Z))
      by (rewrite <- replicate_add; f_equal; lia).
    rewrite Hrep, <- app_assoc. rewrite <- (app_nil_r (det x)) at 1. apply (blit_eq []); [done|done|]. by rewrite length_replicate, length_fmap. }
  unfold pack. erewrite bind_eq by reflexivity. cbv zeta. rewrite He. erewrite bind_eq by reflexivity. cbn [fst snd].
  rewrite Hbl. erewrite bind_eq by reflexivity. erewrite bind_eq by reflexivity. rewrite decide_True by lia.
  assert (Ht : take (Z.to_nat n) b = det (x ++ replicate (Z.to_nat n - length x) 0%Z)).
  { unfold b. rewrite take_app_ge, length_fmap by (rewrite length_fmap; lia). rewrite fmap_app, fmap_replicate. f_equal.
    rewrite take_app_le by (rewrite length_replicate; lia). rewrite take_replicate. f_equal. lia. }
  by rewrite Ht, mapM_det.
Qed.
Lemma from_task_ok behind m v p : task_ok m v → Z.of_nat (length (mBuffer p)) = DEFAULT_BUFFER_SIZE → mBindList p ≠ [] →
  ∃ c b, carrier (mBindList p) m = Some c ∧ from_task behind m p = Some (tt, sent_down b c p) ∧ Z.of_nat (length b) = DEFAULT_BUFFER_SIZE.
Proof.
  intros Hm Hl Hbl. destruct (pack_ok m v p Hm Hl) as (info & b & Hp & Hb & Hpk). destruct Hm as [Hu _ _ [Hc Ht] [Hpw [f Hf]] _ _].
  assert (Hcs : ∃ n, getCSeq (r_uni m) = Some n) by (unfold getCSeq; rewrite Hc; destruct (hk_cseq _ Hu Hc) as (n & Hn & _); by exists n).
  destruct Hcs as [cs Hcs]. assert (Hbf : ∃ x, bind_for (mBindList p) f = Some x).
  { unfold bind_for. destruct (bind_find _ _) as [x|]; [by exists x|]. destruct (mBindList p) as [|y l]; [done|by eexists]. }
  destruct Hbf as [x Hx]. eexists _, b. split; [unfold carrier; rewrite Hcs; cbn [mbind option_bind]; rewrite Hf; cbn [mbind option_bind]; rewrite Hx; cbn [mbind option_bind]; rewrite Hp; reflexivity|].
  split; [|done]. unfold from_task. rewrite Hc, Hcs, Ht. cbn [negb]. erewrite bind_eq by reflexivity.
  erewrite bind_eq. 2: { unfold choose_bind. erewrite bind_eq by reflexivity. rewrite decide_False by done. rewrite Hf.
    erewrite bind_eq by reflexivity. fold (bind_for (mBindList p) f). rewrite Hx. reflexivity. }
  cbv iota beta. erewrite bind_eq by exact Hpk. reflexivity.
Qed.
End task.

(** ** Specification: a filter of repeated messages *)
Record psa_conf := Conf { cf_own : own; cf_default : Z; cf_maps : list STask; cf_binds : list (Z * SBind) }.
(** The live transactions, by the C string of their id, and since when; the messages passed on; the bodies
    handed to the transport. *)
Record pspec := PSpec { sp_live : list (bytes * Z); sp_maintain : Z; sp_up : list up_msg; sp_sent : list bytes }.
Inductive psa_event :=
  | EArrive (now : Z) (behind : cells) (pa : parent) (id : Z) (d : packet)
  | ETask (now : Z) (behind : cells) (m : rsc_msg)
  | ETimeOut (clock : nat → Z) (now newkey key : Z) (para : option bytes).

(** What is made of a message from a datagram. *)
Definition opened (info : bytes) : option rsc_msg := fst <$> rsc_decode (det info ++ [Some 0%Z]).
Definition passed_on (c : psa_conf) (id : Z) (d : packet) : option up_msg :=
  m ← opened (pk_info d); u ← take_out (cf_default c) (cf_maps c) (hdr_from id (pk_from d)) m;
  Some (Up (stamped (cf_own c) (up_uni u)) (up_parts u)).
Definition spec_step `{OtherParts} (c : psa_conf) (liv : Z) (e : psa_event) (s : pspec) : option pspec :=
  match e with
  | EArrive now _ _ id d =>
      let tid := c_string (tm_transid (pk_frame d)) in
      if decide (tm_transid (pk_frame d) = [] ∨ tid ∈ (sp_live s).*1) then Some s
      else u ← passed_on c id d; Some (PSpec (sp_live s ++ [(tid, now)]) (sp_maintain s) (sp_up s ++ [u]) (sp_sent s))
  | ETask _ _ m => info ← packed m; Some (PSpec (sp_live s) (sp_maintain s) (sp_up s) (sp_sent s ++ [info]))
  | ETimeOut _ now newkey key _ =>
      if decide (key = sp_maintain s) then Some (PSpec (drop_expired liv now (sp_live s)) newkey (sp_up s) (sp_sent s)) else Some s
  end.
Fixpoint spec_run `{OtherParts} (c : psa_conf) (liv : Z) (es : list psa_event) (s : pspec) : option pspec :=
  match es with [] => Some s | e :: es => s ← spec_step c liv e s; spec_run c liv es s end.
Definition psa_step {T} `{ResendTimer T} `{OtherParts} (e : psa_event) : M (psa T) unit :=
  match e with
  | EArrive now behind pa id d => procMsg now behind (PCom (taken pa id d))
  | ETask now behind m => procMsg now behind (PRsc m)
  | ETimeOut clock now newkey key para => onTimeOut clock now newkey key para
  end.
Fixpoint psa_run {T} `{ResendTimer T} `{OtherParts} (es : list psa_event) : M (psa T) unit :=
  match es with [] => mret tt | e :: es => psa_step e ;; psa_run es end.
(** Messages that can be taken apart, well-formed messages of tasks, timers
    with their parameter. *)
Definition psa_event_ok `{OtherParts} (c : psa_conf) (e : psa_event) : Prop :=
  match e with
  | EArrive _ _ _ id d => tm_transid (pk_frame d) ≠ [] → is_Some (passed_on c id d)
  | ETask _ _ m => ∃ v, task_ok m v
  | ETimeOut _ now _ _ para => now ≠ 0%Z ∧ is_Some para
  end.

Section filter.
Context {T : Type} `{ResendTimer T} `{OtherParts}.
Implicit Types (p : psa T).
Record prepr (c : psa_conf) (liv : Z) (t : T) p (s : pspec) : Prop := {
  pr_mach : ∃ a, mrepr (ps_mach p) a ∧ Forall idle_server (txns a) ∧ living a = liv ∧ a_tmr a = t ∧ key_of <$> txns a = sp_live s;
  pr_conf : ps_own p = cf_own c ∧ mTaskDefault p = cf_default c ∧ mTaskMapping p = cf_maps c ∧ mBindList p = cf_binds c;
  pr_out : mMaintain p = sp_maintain s ∧ ps_up p = sp_up s ∧ omap com_body (ps_down p) = sp_sent s;
  pr_buf : Z.of_nat (length (mBuffer p)) = DEFAULT_BUFFER_SIZE }.

Lemma wp_on_mach {A} (m : M (machine T) A) f (Q : A → psa T → Prop) p a r a' : mrefines m f → mrepr (ps_mach p) a → f a = Some (r, a') →
  (∀ w, mrepr w a' → Q r (Psa (ps_own p) (mCSeq p) (mTaskDefault p) (mTaskMapping p) (mBindList p) (mDNSCache p) (mMaintain p) (mBuffer p) w (ps_up p) (ps_down p))) → wp (on_mach m) Q p.
Proof. intros Hm Hr Hf HQ. unfold on_mach. apply wp_zoom. eapply wp_mono; [by eapply Hm|]. intros r' w [-> Hw]. by apply HQ. Qed.

Lemma arrive_ok c liv t p s now behind pa id d : prepr c liv t p s → psa_event_ok c (EArrive now behind pa id d) → (Z.of_nat (length (sp_live s)) + 1 < 2 ^ 32)%Z →
  ∃ s', spec_step c liv (EArrive now behind pa id d) s = Some s' ∧ length (sp_live s') ≤ S (length (sp_live s)) ∧
    wp (psa_step (EArrive now behind pa id d)) (λ _ p', prepr c liv t p' s') p.
Proof.
  intros [(a & Ha & Hi & Hlv & Ht & Hk) (Ho & Hd & Hm & Hb) (Hmt & Hu & Hs) Hbf] Hok Hl. cbn [psa_step spec_step psa_event_ok] in *.
  destruct (taken_facts pa id d) as (Hh & Hbd & _ & _ & _ & Hse & Hoa & _ & Hf & _). set (tid := c_string (tm_transid (pk_frame d))) in *.
  assert (Hproc : procMsg now behind (PCom (taken pa id d)) = from_transport (T := T) now (taken pa id d)) by (unfold procMsg; by rewrite Hse, Hoa, decide_True by done).
  rewrite Hproc. unfold from_transport. rewrite Hh, Hbd.
  destruct (decide (tm_transid (pk_frame d) = [])) as [Hnil|Hne].
  - rewrite decide_True by by left. exists s. split; [done|]. split; [lia|]. apply wp_bind. eapply wp_on_mach; [apply processTM_refines|exact Ha| |].
    + unfold a_msg. rewrite Hf, bool_decide_true by done. reflexivity.
    + intros w Hw. apply wp_ret. split; [by exists a|done..].
  - destruct (a_msg_taken pa id now d a) as (r & a' & Hr & Hbr & Hi' & Hlv' & Ht' & Hk'); [done|done| |].
    { rewrite <- (length_fmap key_of), Hk. done. }
    rewrite Hk in Hr, Hk'. fold tid in Hr, Hk'. destruct (decide (tid ∈ (sp_live s).*1)) as [Hin|Hni].
    + rewrite decide_True by by right. rewrite bool_decide_true in Hr, Hk' by done. rewrite app_nil_r in Hk'. exists s. split; [done|]. split; [lia|].
      apply wp_bind. eapply wp_on_mach; [apply processTM_refines|exact Ha|exact Hr|]. intros w Hw. apply wp_modify. cbn.
      split; [exists a'; split_and!; [done|done|by rewrite Hlv'|by rewrite Ht'|done]|done| |done]. cbn. rewrite omap_app. cbn. rewrite Hbr, app_nil_r. done.
    + rewrite decide_False by (intros [?|?]; done). rewrite bool_decide_false in Hr, Hk' by done. destruct (Hok Hne) as [u Hpo]. rewrite Hpo. cbn [mbind option_bind].
      eexists. split; [done|]. split; [cbn; rewrite length_app; cbn; lia|].
      unfold passed_on, opened in Hpo. destruct (rsc_decode _) as [[m rest]|] eqn:Hdec; [|done]. cbn [fmap option_fmap option_map fst mbind option_bind] in Hpo.
      destruct (take_out (cf_default c) (cf_maps c) (hdr_from id (pk_from d)) m) as [x|] eqn:Hx; [|done]. cbn [mbind option_bind] in Hpo. apply Some_inj in Hpo. subst u.
      apply wp_bind. eapply wp_on_mach; [apply processTM_refines|exact Ha|exact Hr|]. intros w Hw. cbv iota beta. apply wp_bind, wp_modify.
      apply wp_bind. eapply wp_defined; [reflexivity|]. apply wp_bind, wp_gets. apply wp_bind, wp_gets. cbn [mTaskDefault mTaskMapping fst]. rewrite Hd, Hm.
      apply wp_bind. eapply wp_defined; [exact Hx|]. apply wp_modify. cbn. rewrite Ho, Hu.
      split; [exists a'; split_and!; [done|done|by rewrite Hlv'|by rewrite Ht'|done]|done| |done]. cbn. by rewrite omap_app, Hs; cbn; rewrite Hbr, app_nil_r.
Qed.
Lemma envelope_body info m cs pr f b : com_body (setMsgBody (Some (BodyCom info)) (envelope m cs pr f b)) = Some info.
Proof. unfold envelope. rewrite setTransId_eq. reflexivity. Qed.
Lemma task_step_ok c liv t p s now behind m v : prepr c liv t p s → task_ok m v → cf_binds c ≠ [] →
  ∃ s', spec_step c liv (ETask now behind m) s = Some s' ∧ sp_live s' = sp_live s ∧ wp (psa_step (ETask now behind m)) (λ _ p', prepr c liv t p' s') p.
Proof.
  intros [Hmach (Ho & Hd & Hm & Hb) (Hmt & Hu & Hs) Hbf] Hok Hne. destruct (from_task_ok behind m v p Hok Hbf) as (x & b & Hc & Hf & Hl); [by rewrite Hb|].
  pose proof (tk_from _ _ Hok) as Hfrom. cbn [psa_step spec_step]. unfold carrier in Hc. destruct (getCSeq _) as [cs|]; [|done]. cbn [mbind option_bind] in Hc.
  destruct (atoi _) as [f|]; [|done]. cbn [mbind option_bind] in Hc. destruct (bind_for _ _) as [bd|]; [|done]. cbn [mbind option_bind] in Hc.
  destruct (packed m) as [info|]; [|done]. cbn [mbind option_bind] in Hc |- *. apply Some_inj in Hc. eexists. split; [done|]. split; [done|].
  unfold procMsg. rewrite decide_False by (intros [??]; destruct Hfrom; done). eapply wp_some; [exact Hf|]. unfold sent_down.
  split; [exact Hmach|done| |done]. cbn [mMaintain ps_up ps_down sp_maintain sp_up sp_sent]. split_and!; [done|done|]. rewrite omap_app, Hs. cbn [omap list_omap].
  by rewrite <- Hc, envelope_body.
Qed.
Lemma timeout_ok c liv t p s clock now newkey key para : prepr c liv t p s → now ≠ 0%Z → is_Some para →
  ∃ s', spec_step c liv (ETimeOut clock now newkey key para) s = Some s' ∧ length (sp_live s') ≤ length (sp_live s) ∧
    wp (psa_step (ETimeOut clock now newkey key para)) (λ _ p', prepr c liv t p' s') p.
Proof.
  intros [(a & Ha & Hi & Hlv & Ht & Hk) Hcf (Hmt & Hu & Hs) Hbf] Hn [b ->]. cbn [psa_step spec_step]. unfold onTimeOut.
  assert (Hdrop : ∀ l, length (drop_expired liv now l) ≤ length l).
  { induction l as [|[k x] l IH]; [done|]. cbn. case_decide; cbn; lia. }
  destruct (decide (key = sp_maintain s)) as [Hkey|Hkey]; eexists; (split; [done|]).
  - split; [apply Hdrop|]. apply wp_bind, wp_gets. rewrite decide_True by congruence. apply wp_bind, wp_gets.
    destruct (a_expire_idle clock now a Hn Hi) as (l & He & Hil & Hkl).
    apply wp_bind. cbn [maintain_loop]. apply wp_bind. eapply wp_on_mach; [apply processTM_expire_refines|exact Ha|exact He|]. intros w Hw. apply wp_ret.
    apply wp_modify. rewrite <- Hlv, <- Hk. split; [|done| |done]; cbn; [|done]. exists (AMach l (living a) (a_tmr a)). by split_and!.
  - split; [done|]. apply wp_bind, wp_gets. rewrite decide_False by congruence. apply wp_bind.
    eapply wp_on_mach; [apply processTM_timer_refines|exact Ha|by apply a_timer_idle|]. intros w Hw. apply wp_ret.
    split; [|done| |done]; cbn; [|done]. by exists a.
Qed.
Lemma psa_run_ok c liv t es p s : prepr c liv t p s → Forall (psa_event_ok c) es → cf_binds c ≠ [] → (Z.of_nat (length (sp_live s) + length es) < 2 ^ 32)%Z →
  ∃ s', spec_run c liv es s = Some s' ∧ wp (psa_run es) (λ _ p', prepr c liv t p' s') p.
Proof.
  revert p s. induction es as [|e es IH]; intros p s Hp Hes Hb Hl; [exists s; split; [done|by apply wp_ret]|].
  apply Forall_cons in Hes as [He Hes]. cbn [length] in Hl. cbn [spec_run psa_run].
  assert (Hst : ∃ s1, spec_step c liv e s = Some s1 ∧ length (sp_live s1) ≤ S (length (sp_live s)) ∧ wp (psa_step e) (λ _ p', prepr c liv t p' s1) p).
  { destruct e as [now bh pa id d|now bh m|clock now nk key para]; cbn [psa_event_ok] in He.
    - apply arrive_ok; [done|done|lia].
    - destruct He as [v Hv]. destruct (task_step_ok c liv t p s now bh m v Hp Hv Hb) as (s1 & H1 & H2 & H3). exists s1. rewrite H2. split_and!; [done|lia|done].
    - destruct He as [Hn Hpa]. destruct (timeout_ok c liv t p s clock now nk key para Hp Hn Hpa) as (s1 & H1 & H2 & H3). exists s1. split_and!; [done|lia|done]. }
  destruct Hst as (s1 & -> & Hl1 & Hw). cbn [mbind option_bind].
  destruct (wp_elim _ _ _ Hw) as ([] & p1 & Hr & Hp1). destruct (IH p1 s1 Hp1 Hes Hb) as (s' & Hs' & Hw'); [lia|].
  exists s'. split; [done|]. apply wp_bind. eapply wp_some; [exact Hr|]. exact Hw'.
Qed.
End filter.



Section end_to_end.
Context `{OtherParts}.
End end_to_end.


Definition fresh_psa {T} `{ResendTimer T} (c : psa_conf) (key : Z) (buf : cells) (t : T) : psa T :=
  Psa (cf_own c) 0 (cf_default c) (cf_maps c) (cf_binds c) ∅ key buf (new_machine t) [] [].
Lemma fresh_prepr {T} `{ResendTimer T} (c : psa_conf) (key : Z) (buf : cells) (t : T) : Z.of_nat (length buf) = DEFAULT_BUFFER_SIZE →
  prepr c 172800 t (fresh_psa c key buf t) (PSpec [] key [] []).
Proof. intros Hb. split; [|done|done|exact Hb]. exists (AMach [] 172800 t). split_and!; [apply new_machine_repr|constructor|done|done|done]. Qed.
(** C15: the task as a filter.  On well-formed messages and timeouts, in any
    order, the task is defined and returns; it passes on the first message of
    each transaction id that is not among those of the last 172800 seconds (ids
    are compared as the C strings [strcmp] sees, up to their first zero), and
    hands to the transport the message of each task once, and nothing else that
    has a body, which the transport would send: neither answers nor
    repetitions.  It never sets a timer of its transactions. *)
Theorem psa_filter_refines {T} `{ResendTimer T} `{OtherParts} (c : psa_conf) (key : Z) (buf : cells) (t : T) (es : list psa_event) :
  Z.of_nat (length buf) = DEFAULT_BUFFER_SIZE → cf_binds c ≠ [] → Forall (psa_event_ok c) es → (Z.of_nat (length es) < 2 ^ 32)%Z →
  ∃ s p', spec_run c 172800 es (PSpec [] key [] []) = Some s ∧ psa_run es (fresh_psa c key buf t) = Some (tt, p') ∧
    ps_up p' = sp_up s ∧ omap com_body (ps_down p') = sp_sent s ∧ tmr (ps_mach p') = t.
Proof.
  intros Hbf Hb Hes Hl. destruct (psa_run_ok c 172800 t es _ _ (fresh_prepr c key buf t Hbf) Hes Hb) as (s & Hs & Hw); [done|].
  destruct (wp_elim _ _ _ Hw) as ([] & p' & Hr & [(a & (x & Hx) & _ & _ & Ht & _) _ (_ & Hu & Hd) _]).
  exists s, p'. split_and!; try done. destruct (mr_conf _ _ _ Hx) as (_ & _ & _ & Htm). by rewrite Htm.
Qed.

(** *** Witnesses *)
Definition demo_conf : psa_conf := Conf demo_own 30 [] [(1%Z, BindOf 1 (inet_ntoa (sin_addr home)) 5001)].
Definition demo_buf : cells := uninit (Z.to_nat 8192).
Definition demo_psa : psa TimerQueue.kern := fresh_psa (H:=demo_T) demo_conf 1 demo_buf TimerQueue.new_kern.
Lemma sample_task_ok : task_ok (H:=no_parts) sample_rsc sample_seen.
Proof.
  destruct sample_rsc_ok as [Hu Hh]. split; [done|done|by vm_compute|done|split; [by vm_compute|by eexists]| |by left].
  intros n w He. vm_compute in He. injection He as <- _. lia.
Qed.
(** A message of a task, and one that arrives twice, with the maintenance after it. *)
Definition demo_packet : packet :=
  Packet (TransMsg [0; 255; 0]%Z [49; 50]%Z 9 (CStr_size (default [] (packed (H:=no_parts) sample_rsc)))) (default [] (packed (H:=no_parts) sample_rsc)) home.
Definition demo_run : list psa_event :=
  [ETask 1000 [] sample_rsc; EArrive 1001 [] pa0 2 demo_packet; EArrive 1002 [] pa0 2 demo_packet; ETimeOut (λ _, 0%Z) 1003 9 1 (Some [])].
Lemma psa_filter_refines_witness :
  ∃ s p', spec_run (H:=no_parts) demo_conf 172800 demo_run (PSpec [] 1 [] []) = Some s ∧ psa_run (H:=demo_T) (H0:=no_parts) demo_run demo_psa = Some (tt, p') ∧
    ps_up p' = sp_up s ∧ omap com_body (ps_down p') = sp_sent s ∧ tmr (ps_mach p') = TimerQueue.new_kern.
Proof.
  apply (psa_filter_refines (H:=demo_T) (H0:=no_parts) demo_conf 1 demo_buf TimerQueue.new_kern demo_run); [by vm_compute|done| |cbn; lia].
  assert (Hpo : is_Some (passed_on demo_conf 2 demo_packet)) by (vm_compute; by eexists).
  apply Forall_cons_2; [by exists sample_seen; apply sample_task_ok|]. apply Forall_cons_2; [by intros _|]. apply Forall_cons_2; [by intros _|].
  apply Forall_cons_2; [split; [done|by eexists]|constructor].
Defined.
