(* ===== verification/Mqtt.v ===== *)
(** * MQTT packets ([facility/psamqtt/mqttmsg.C])

    [CMqttMsg]: how packets, lengths, strings and numbers are appended to a
    [CStr], here by its content (CStr.v shows that its member functions append),
    and how they are read from a pointer and the number of bytes that are left.
    The pointer is the list of cells from it on; the number is kept by the code
    and need not agree with it.  Numbers are turned round with [htonl] on a
    little-endian machine, as the code assumes. *)

From S2P Require Import Prelude VarChar CStr.

Definition MQTT_P_CONNECT : Z := 1.
Definition MQTT_P_CONNACK : Z := 2.
Definition MQTT_P_PUBLISH : Z := 3.
Definition MQTT_P_SUBSCRIBE : Z := 8.
Definition MQTT_P_SUBACK : Z := 9.
Definition MQTT_P_UNSUBSCRIBE : Z := 10.
Definition MQTT_P_UNSUBACK : Z := 11.
Definition MQTT_P_PINGREQ : Z := 12.
Definition MQTT_P_PINGRESP : Z := 13.
Definition MQTT_P_DISCONNECT : Z := 14.

(** ** Writing *)
(** An [int] has at most five digits to the base 128. *)
Fixpoint append_length (fuel : nat) (length : Z) : option bytes :=
  match fuel with
  | O => None
  | S fuel =>
      let c := u8 (Z.rem length 128) in let length := Z.quot length 128 in
      if decide (0 < length)%Z then r ← append_length fuel length; Some (u8 (Z.lor c 128) :: r) else Some [c]
  end.
Definition appendLength (length : Z) : option bytes := append_length 5 length.
(** [pack(msg, packetType)], [pack(msg, packetType, body, flags)] *)
Definition pack0 (packetType : Z) : bytes := [u8 (Z.shiftl packetType 4); 0%Z].
Definition pack (packetType : Z) (body : bytes) (flags : Z) : option bytes :=
  l ← appendLength (Z.of_nat (length body)); Some ([u8 (Z.shiftl packetType 4 + flags)] ++ l ++ body).
(** The two low bytes, the higher one first. *)
Definition appendShort (value : Z) : bytes := [u8 (Z.shiftr value 8); u8 value].
(** [appendStr]: a C string. *)
Definition appendStr (str : bytes) : bytes := let s := upto0 str in appendShort (Z.of_nat (length s)) ++ s.

(** ** Reading *)
(** [p] and [length] *)
Abbreviation pcur := (cells * Z)%type.
Abbreviation PM := (M pcur).
Definition next_byte : PM Z := λ c, b ← peek c.1 0; Some (u8 b, (drop 1 c.1, c.2 - 1)%Z).
Fixpoint parse_length (fuel : nat) (multiplier value : Z) : PM Z :=
  match fuel with
  | O => ub
  | S fuel =>
      n ← gets snd;
      if decide (n < 0)%Z then mret (-2)%Z else
      encodedByte ← next_byte;
      let value := (value + Z.land encodedByte 127 * multiplier)%Z in
      let multiplier := (multiplier * 128)%Z in
      if decide (128 * 128 * 128 < multiplier)%Z then mret (-1)%Z else
      if decide (Z.land encodedByte 128 ≠ 0)%Z then parse_length fuel multiplier value else mret value
  end.
Definition parseLength : PM Z := parse_length 4 1 0.
(** FALSE is [None]. *)
Definition parseByte : PM (option Z) :=
  n ← gets snd; if decide (n < 1)%Z then mret None else b ← next_byte; mret (Some b).
(** Two bytes, the higher one first, without moving. *)
Definition peek_short : PM Z := λ c, a ← peek c.1 0; b ← peek c.1 1; Some (Z.shiftl (u8 a) 8 + u8 b, c)%Z.
Definition skip_bytes (n : Z) : PM unit := λ c, Some (tt, (drop (Z.to_nat n) c.1, c.2 - n)%Z).
Definition parseShort : PM (option Z) :=
  n ← gets snd; if decide (n < 2)%Z then mret None else v ← peek_short; skip_bytes 2 ;; mret (Some v).
(** [result.set(p, n)] *)
Definition set_at (p : cells) (n : Z) : option bytes :=
  if decide (0 ≤ n ≤ Z.of_nat (length p))%Z then mapM id (take (Z.to_nat n) p) else None.
Definition parseString : PM (option bytes) :=
  n ← gets snd; if decide (n < 2)%Z then mret None else
  stringLength ← peek_short;
  if decide (n < stringLength)%Z then mret None else
  skip_bytes 2 ;; s ← (λ c, s ← set_at c.1 stringLength; Some (s, c)); skip_bytes stringLength ;; mret (Some s).
Definition isPacket (content : cells) (packetId : Z) : option bool :=
  b ← peek content 0; Some (bool_decide (Z.shiftr (u8 b) 4 = packetId)).

(** ** Reading what was written *)
(** [m] reads exactly the bytes [w], whatever follows, when they are inside of
    what is left, and gives [a]. *)
Definition preads {A} (m : PM A) (a : A) (w : bytes) : Prop :=
  ∀ rest n, (Z.of_nat (length w) ≤ n)%Z → m (det w ++ rest, n) = Some (a, (rest, n - Z.of_nat (length w))%Z).
Lemma preads_bind {A B} (m : PM A) (f : A → PM B) a b w w' : preads m a w → preads (f a) b w' → preads (m ≫= f) b (w ++ w').
Proof.
  intros Hm Hf rest n Hn. rewrite length_app in Hn. unfold mbind, M_bind. rewrite fmap_app, <- app_assoc, Hm by lia. rewrite Hf by lia.
  do 2 f_equal. rewrite length_app. f_equal. lia.
Qed.
Lemma preads_ret {A} (a : A) : preads (mret a) a [].
Proof. intros rest n Hn. cbn. unfold mret, M_ret. do 3 f_equal. lia. Qed.
Lemma preads_last {A B} (m : PM A) (f : A → PM B) a b w : preads m a w → preads (f a) b [] → preads (m ≫= f) b w.
Proof. intros Hm Hf. rewrite <- (app_nil_r w). by eapply preads_bind. Qed.

Lemma u8_byte x : is_byte x → u8 x = x.
Proof. intros Hx. by apply Z.mod_small. Qed.
Lemma u8_is_byte x : is_byte (u8 x).
Proof. unfold is_byte, u8. apply Z.mod_pos_bound. lia. Qed.
Lemma next_byte_cons c p n : is_byte c → next_byte (Some c :: p, n) = Some (c, (p, n - 1)%Z).
Proof. intros Hc. unfold next_byte. change (peek (Some c :: p, n).1 0) with (Some c). cbn [mbind option_bind fst snd drop]. by rewrite u8_byte. Qed.
Lemma preads_byte c : is_byte c → preads next_byte c [c].
Proof. intros Hc rest n Hn. by apply next_byte_cons. Qed.
Lemma digit_bits d (b : bool) : (0 ≤ d < 128)%Z → let c := if b then (d + 128)%Z else d in
  is_byte c ∧ Z.land c 127 = d ∧ (Z.land c 128 ≠ 0 ↔ b = true)%Z.
Proof.
  intros Hd c. assert (Hc : c = (d + Z.b2z b * 128)%Z) by (unfold c; destruct b; cbn; lia).
  assert (Hm : ∀ x, Z.land x 127 = (x mod 128)%Z) by (intros x; apply (Z.land_ones x 7); lia).
  split; [unfold is_byte; rewrite Hc; destruct b; cbn; lia|]. split.
  - rewrite Hm, Hc, Z.mod_add by lia. by apply Z.mod_small.
  - assert (Hb : Z.testbit c 7 = b).
    { rewrite Hc. apply Z.b2z_inj. rewrite Z.testbit_spec' by lia. change (2 ^ 7)%Z with 128%Z. rewrite Z.div_add, Z.div_small by lia. by destruct b. }
    assert (H8 : Z.land c 128 = if b then 128%Z else 0%Z).
    { apply Z.bits_inj'. intros n Hn. rewrite Z.land_spec. change 128%Z with (2 ^ 7)%Z. rewrite Z.pow2_bits_eqb by lia.
      destruct (Z.eqb_spec 7 n) as [<-|Hne]; [rewrite Hb; by destruct b|]. rewrite andb_false_r.
      destruct b; [rewrite Z.pow2_bits_false by lia; done|by rewrite Z.bits_0]. }
    rewrite H8. by destruct b.
Qed.

(** *** Lengths *)
Lemma append_length_step f n : (0 ≤ n)%Z → append_length (S f) n =
  if decide (128 ≤ n)%Z then r ← append_length f (n / 128)%Z; Some ((n mod 128 + 128)%Z :: r) else Some [n].
Proof.
  intros Hn. cbn [append_length]. rewrite Z.rem_mod_nonneg, Z.quot_div_nonneg by lia.
  pose proof (Z.mod_pos_bound n 128). pose proof (Z.div_mod n 128).
  destruct (decide (128 ≤ n)%Z) as [Hb|Hb].
  - rewrite decide_True by lia. assert (Hm : u8 (n mod 128) = (n mod 128)%Z) by (apply u8_byte; unfold is_byte; lia). rewrite Hm.
    rewrite <- Z.lxor_lor, <- Z.add_nocarry_lxor; try (by destruct (digit_bits (n mod 128) false) as (_ & _ & Hz); [lia|]; destruct (decide (Z.land (n mod 128) 128 = 0)%Z); [done|naive_solver]).
    rewrite u8_byte by (unfold is_byte; lia). done.
  - rewrite decide_False by (rewrite Z.div_small; lia). rewrite Z.mod_small by lia. by rewrite u8_byte by (unfold is_byte; lia).
Qed.
Lemma append_length_total f n : (0 ≤ n < 128 ^ Z.of_nat (S f))%Z → is_Some (append_length (S f) n).
Proof.
  revert n. induction f as [|f IH]; intros n Hn; rewrite append_length_step by apply Hn; (case_decide as Hb; [|by eexists]).
  - change (128 ^ Z.of_nat 1)%Z with 128%Z in Hn. lia.
  - rewrite Nat2Z.inj_succ, Z.pow_succ_r in Hn by lia. destruct (IH (n / 128)%Z) as [r ->]; [|by eexists].
    split; [apply Z.div_pos; lia|apply Z.div_lt_upper_bound; lia].
Qed.
(** With [k] digits left to read the multiplier is [128 ^ (3 - k)]. *)
Lemma parse_length_ok k fa fp n v w : (k ≤ 3)%nat → k < fp → (0 < n ∨ (0 < k)%nat)%Z → (0 ≤ n < 128 ^ Z.of_nat k)%Z → append_length fa n = Some w →
  preads (parse_length fp (128 ^ (3 - Z.of_nat k)) v) (v + n * 128 ^ (3 - Z.of_nat k))%Z w.
Proof.
  revert fa fp n v w. induction k as [|k IH]; intros fa fp n v w Hk Hfp H0 Hn Hw; [change (128 ^ Z.of_nat 0)%Z with 1%Z in Hn; lia|].
  destruct fa as [|fa]; [done|]. destruct fp as [|fp]; [lia|]. rewrite append_length_step in Hw by apply Hn.
  set (m := (128 ^ (3 - Z.of_nat (S k)))%Z).
  assert (Hm : (m * 128 = 128 ^ (3 - Z.of_nat k))%Z).
  { unfold m. replace (3 - Z.of_nat k)%Z with (Z.succ (3 - Z.of_nat (S k))) by lia. rewrite Z.pow_succ_r by lia. lia. }
  assert (Hle : (128 ^ (3 - Z.of_nat k) ≤ 128 * 128 * 128)%Z) by (change (128 * 128 * 128)%Z with (128 ^ 3)%Z; apply Z.pow_le_mono_r; lia).
  pose proof (Z.mod_pos_bound n 128 ltac:(lia)). pose proof (Z.div_mod n 128 ltac:(lia)).
  intros rest l Hl. cbn [parse_length].
  case_decide as Hb.
  - destruct (append_length fa (n / 128)%Z) as [r|] eqn:Hr; [|done]. injection Hw as <-. cbn [length] in Hl.
    destruct (digit_bits (n mod 128) true) as (Hc & Hd & Hf); [lia|].
    erewrite (bind_eq (gets snd)) by reflexivity. cbv beta. cbn [snd]. rewrite decide_False by lia.
    change (det ((n mod 128 + 128)%Z :: r) ++ rest) with (det [(n mod 128 + 128)%Z] ++ (det r ++ rest)).
    erewrite bind_eq by (apply preads_byte; [exact Hc|cbn; lia]). cbv beta zeta. rewrite Hm, decide_False by lia.
    rewrite Hd, decide_True by (by apply Hf). rewrite Nat2Z.inj_succ, Z.pow_succ_r in Hn by lia.
    rewrite (IH fa fp (n / 128)%Z (v + n mod 128 * m)%Z r); [|lia|lia|left; apply Z.div_str_pos; lia| |done|cbn in Hl |- *; lia].
    + do 2 f_equal; [rewrite <- Hm; lia|cbn; f_equal; lia].
    + split; [apply Z.div_pos; lia|apply Z.div_lt_upper_bound; lia].
  - injection Hw as <-. cbn [length] in Hl. destruct (digit_bits n false) as (Hc & Hd & Hf); [lia|].
    erewrite (bind_eq (gets snd)) by reflexivity. cbv beta. cbn [snd]. rewrite decide_False by lia.
    erewrite bind_eq by (apply preads_byte; [exact Hc|cbn; lia]). cbv beta zeta. rewrite Hm, decide_False by lia.
    rewrite Hd, decide_False by (intros Hx; by apply Hf in Hx). done.
Qed.
(** The length of a body below 2 MB is read back. *)
Lemma appendLength_total n : (0 ≤ n < 2 ^ 31)%Z → is_Some (appendLength n).
Proof. intros Hn. apply append_length_total. change (128 ^ Z.of_nat 5)%Z with 34359738368%Z. lia. Qed.
Lemma preads_length n w : (0 ≤ n < 128 * 128 * 128)%Z → appendLength n = Some w → preads parseLength n w.
Proof.
  intros Hn Hw. pose proof (parse_length_ok 3 5 4 n 0 w ltac:(lia) ltac:(lia) ltac:(right; lia)) as Hp.
  change (128 ^ (3 - Z.of_nat 3))%Z with 1%Z in Hp. change (128 ^ Z.of_nat 3)%Z with (128 * 128 * 128)%Z in Hp.
  rewrite Z.mul_1_r, Z.add_0_l in Hp. by apply Hp.
Qed.
Lemma first_digit fa n w : (0 ≤ n)%Z → append_length fa n = Some w → ∃ fa' c r, fa = S fa' ∧ w = c :: r ∧ is_byte c ∧
  ((n < 128)%Z ∨ (128 ≤ n ∧ Z.land c 128 ≠ 0)%Z ∧ append_length fa' (n / 128)%Z = Some r).
Proof.
  intros Hn Hw. destruct fa as [|fa]; [done|]. rewrite append_length_step in Hw by done. case_decide as Hb.
  - destruct (append_length fa (n / 128)%Z) as [r|] eqn:Hr; [|done]. injection Hw as <-. pose proof (Z.mod_pos_bound n 128 ltac:(lia)).
    destruct (digit_bits (n mod 128) true) as (Hc & _ & Hf); [lia|]. eexists _, _, r. split_and!; [done..|]. right. split; [|done]. split; [lia|by apply Hf].
  - injection Hw as <-. eexists _, _, _. split_and!; [done|done|unfold is_byte; lia|left; lia].
Qed.
(** A longer one is refused: the fourth digit is not accepted. *)
Lemma parse_length_long k fa fp n v w rest l : (k ≤ 3)%nat → k < fp → (128 ^ Z.of_nat k ≤ n)%Z → append_length fa n = Some w →
  (Z.of_nat (length w) ≤ l)%Z → ∃ c, parse_length fp (128 ^ (3 - Z.of_nat k)) v (det w ++ rest, l) = Some ((-1)%Z, c).
Proof.
  revert fa fp n v w rest l. induction k as [|k IH]; intros fa fp n v w rest l Hk Hfp Hn Hw Hl; (destruct fp as [|fp]; [lia|]).
  - change (128 ^ Z.of_nat 0)%Z with 1%Z in Hn. destruct (first_digit fa n w) as (fa' & c & r & -> & -> & Hc & _); [lia|done|].
    cbn [parse_length length] in *. erewrite (bind_eq (gets snd)) by reflexivity. cbv beta. cbn [snd]. rewrite decide_False by lia.
    cbn [fmap list_fmap app]. erewrite bind_eq by (by apply next_byte_cons). cbv beta zeta. by eexists.
  - rewrite Nat2Z.inj_succ, Z.pow_succ_r in Hn by lia. pose proof (Z.pow_pos_nonneg 128 (Z.of_nat k) ltac:(lia) ltac:(lia)).
    destruct (first_digit fa n w) as (fa' & c & r & -> & -> & Hc & Hd); [lia|done|]. destruct Hd as [Hd|[[_ Hd] Hr]]; [lia|].
    cbn [parse_length length] in *. erewrite (bind_eq (gets snd)) by reflexivity. cbv beta. cbn [snd]. rewrite decide_False by lia.
    cbn [fmap list_fmap app]. erewrite bind_eq by (by apply next_byte_cons). cbv beta zeta.
    replace (128 ^ (3 - Z.of_nat (S k)) * 128)%Z with (128 ^ (3 - Z.of_nat k))%Z.
    2: { replace (3 - Z.of_nat k)%Z with (Z.succ (3 - Z.of_nat (S k))) by lia. rewrite Z.pow_succ_r by lia. lia. }
    case_decide; [by eexists|]. rewrite decide_True by done. eapply (IH fa'); [lia|lia| |exact Hr|cbn in Hl |- *; lia].
    apply Z.div_le_lower_bound; lia.
Qed.

(** *** Numbers and strings *)
Lemma short_bytes_eq v : (0 ≤ v < 65536)%Z → appendShort v = [v / 256; v mod 256]%Z ∧ is_byte (v / 256)%Z ∧ is_byte (v mod 256)%Z.
Proof.
  intros Hv. pose proof (Z.mod_pos_bound v 256 ltac:(lia)). assert (Hq : is_byte (v / 256)%Z).
  { unfold is_byte. split; [apply Z.div_pos; lia|apply Z.div_lt_upper_bound; lia]. }
  unfold appendShort. rewrite Z.shiftr_div_pow2 by lia. change (2 ^ 8)%Z with 256%Z. by rewrite u8_byte.
Qed.
Lemma peek_short_ok v rest n : (0 ≤ v < 65536)%Z → peek_short (det (appendShort v) ++ rest, n) = Some (v, (det (appendShort v) ++ rest, n)).
Proof.
  intros Hv. destruct (short_bytes_eq v Hv) as (-> & H1 & H2). unfold peek_short. cbn [fmap list_fmap app fst].
  change (peek (?a :: ?b :: ?r) 0) with a. change (peek (?a :: ?b :: ?r) 1) with b. cbn [mbind option_bind].
  rewrite !u8_byte by done. rewrite Z.shiftl_mul_pow2 by lia. change (2 ^ 8)%Z with 256%Z. do 2 f_equal.
  pose proof (Z.div_mod v 256). lia.
Qed.
Lemma preads_short v : (0 ≤ v < 65536)%Z → preads parseShort (Some v) (appendShort v).
Proof.
  intros Hv rest n Hn. change (Z.of_nat (length (appendShort v))) with 2%Z in *. unfold parseShort.
  erewrite (bind_eq (gets snd)) by reflexivity. cbv beta. cbn [snd]. rewrite decide_False by lia. erewrite bind_eq by (by apply peek_short_ok). done.
Qed.
Lemma mqtt_set_at_ok s t : set_at (det s ++ t) (Z.of_nat (length s)) = Some s.
Proof.
  unfold set_at. rewrite decide_True by (rewrite length_app, length_fmap; lia). rewrite Nat2Z.id, take_app_length' by (by rewrite length_fmap).
  apply mapM_Some_2, Forall2_fmap_l, Forall_Forall2_diag. by apply Forall_true.
Qed.
Lemma preads_string s : nonzero s → (Z.of_nat (length s) < 65536)%Z → preads parseString (Some s) (appendStr s).
Proof.
  intros Hz Hs rest n Hn. unfold appendStr in *. rewrite (upto0_id s Hz) in *. cbv zeta in *. rewrite length_app in Hn. change (length (appendShort _)) with 2 in Hn.
  unfold parseString. erewrite (bind_eq (gets snd)) by reflexivity. cbv beta. cbn [snd]. rewrite decide_False by lia.
  rewrite fmap_app, <- app_assoc. erewrite bind_eq by (apply peek_short_ok; lia). cbv beta. rewrite decide_False by lia.
  erewrite bind_eq by reflexivity. change (drop (Z.to_nat 2) (det (appendShort (Z.of_nat (length s))) ++ det s ++ rest, n).1) with (det s ++ rest).
  erewrite bind_eq by (cbn [fst]; rewrite mqtt_set_at_ok; reflexivity). erewrite bind_eq by reflexivity. unfold mret, M_ret. cbn [fst snd].
  rewrite Nat2Z.id, drop_app_length' by (by rewrite length_fmap). do 3 f_equal. rewrite length_app. change (length (appendShort _)) with 2. lia.
Qed.

(** *** A length that is cut off *)
Lemma parse_length_zero fp m v : (m * 128 ≤ 128 * 128 * 128)%Z → parse_length (S fp) m v ([Some 0%Z], 0%Z) = Some (v, ([], (-1)%Z)).
Proof.
  intros Hm. cbn [parse_length]. erewrite (bind_eq (gets snd)) by reflexivity. cbv beta. cbn [snd]. rewrite decide_False by lia.
  erewrite bind_eq by reflexivity. cbv beta zeta. rewrite decide_False by lia. change (Z.land 0 128) with 0%Z. rewrite decide_False by tauto.
  change (Z.land 0 127) with 0%Z. by rewrite Z.mul_0_l, Z.add_0_r.
Qed.
(** In front of the terminator of a C string it reads as some length, and one
    byte beyond what is left. *)
Lemma parse_length_cut k fa fp n v q r : (k < 3)%nat → k < fp → (0 ≤ n < 128 ^ Z.of_nat (S k))%Z → (0 ≤ v)%Z → append_length fa n = Some (q ++ r) → r ≠ [] →
  ∃ v', (0 ≤ v')%Z ∧ parse_length fp (128 ^ (2 - Z.of_nat k)) v (det q ++ [Some 0%Z], Z.of_nat (length q)) = Some (v', ([], (-1)%Z)).
Proof.
  revert fa fp n v q. induction k as [|k IH]; intros fa fp n v q Hk Hfp Hn Hv Hw Hr; (destruct fp as [|fp]; [lia|]).
  - destruct q as [|c q]; [exists v; split; [done|]; by apply parse_length_zero|].
    change (128 ^ Z.of_nat 1)%Z with 128%Z in Hn. destruct fa as [|fa]; [done|]. rewrite append_length_step, decide_False in Hw by lia.
    injection Hw as _ Hw. by apply eq_sym, app_nil in Hw as [_ ->].
  - assert (Hm : (128 ^ (2 - Z.of_nat (S k)) * 128 = 128 ^ (2 - Z.of_nat k))%Z).
    { replace (2 - Z.of_nat k)%Z with (Z.succ (2 - Z.of_nat (S k))) by lia. rewrite Z.pow_succ_r by lia. lia. }
    assert (Hle : (128 ^ (2 - Z.of_nat k) ≤ 128 * 128 * 128)%Z) by (change (128 * 128 * 128)%Z with (128 ^ 3)%Z; apply Z.pow_le_mono_r; lia).
    assert (Hpos : (0 < 128 ^ (2 - Z.of_nat (S k)))%Z) by (apply Z.pow_pos_nonneg; lia).
    destruct q as [|c q]; [exists v; split; [done|]; apply parse_length_zero; lia|].
    destruct (first_digit fa n _ (proj1 Hn) Hw) as (fa' & c' & r' & -> & [= <- <-] & Hc & Hd).
    destruct Hd as [Hd|[[Hb Hd] Hr']].
    { rewrite append_length_step, decide_False in Hw by lia. injection Hw as _ Hw. by apply eq_sym, app_nil in Hw as [_ ->]. }
    rewrite Nat2Z.inj_succ, Z.pow_succ_r in Hn by lia.
    destruct (IH fa' fp (n / 128)%Z (v + Z.land c 127 * 128 ^ (2 - Z.of_nat (S k)))%Z q) as (v' & Hv' & He); [lia|lia| | |done|done|].
    + split; [apply Z.div_pos; lia|apply Z.div_lt_upper_bound; lia].
    + apply Z.add_nonneg_nonneg; [done|]. apply Z.mul_nonneg_nonneg; [|lia]. by apply Z.land_nonneg; right.
    + exists v'. split; [done|]. cbn [parse_length]. erewrite (bind_eq (gets snd)) by reflexivity. cbv beta. cbn [snd]. rewrite decide_False by lia.
      cbn [fmap list_fmap app]. erewrite bind_eq by (by apply next_byte_cons). cbv beta zeta. rewrite Hm, decide_False, decide_True by (done || lia).
      replace (Z.of_nat (length (c :: q)) - 1)%Z with (Z.of_nat (length q)) by (cbn [length]; lia). exact He.
Qed.
Lemma parseLength_cut n q r : (0 ≤ n < 128 * 128 * 128)%Z → appendLength n = Some (q ++ r) → r ≠ [] →
  ∃ v, (0 ≤ v)%Z ∧ parseLength (det q ++ [Some 0%Z], Z.of_nat (length q)) = Some (v, ([], (-1)%Z)).
Proof. intros Hn Hw Hr. apply (parse_length_cut 2 5 4 n 0 q r); [lia|lia|exact Hn|lia|exact Hw|exact Hr]. Qed.

(** ** Properties *)
(** The lengths that can be read.  Of every length an [int] can hold, what
    [appendLength] writes is read back exactly when the length is below 2 MB
    (three digits); from there on, where MQTT allows four, [parseLength] refuses
    its own output. *)
Theorem mqtt_length_limits n : (0 ≤ n < 2 ^ 31)%Z → ∃ w, appendLength n = Some w ∧ length w ≤ 5 ∧
  ∀ rest l, (Z.of_nat (length w) ≤ l)%Z → ∃ v c, parseLength (det w ++ rest, l) = Some (v, c) ∧
    ((n < 2097152)%Z → v = n ∧ c = (rest, l - Z.of_nat (length w))%Z) ∧ ((2097152 ≤ n)%Z → v = (-1)%Z).
Proof.
  intros Hn. destruct (appendLength_total n Hn) as [w Hw]. exists w. split; [done|]. split.
  { clear -Hw. unfold appendLength in Hw. revert Hw. generalize 5. intros f. revert n w. induction f as [|f IH]; intros n w Hw; [done|].
    cbn [append_length] in Hw. case_decide; [|injection Hw as <-; cbn; lia].
    destruct (append_length f _) as [r|] eqn:Hr; [|done]. injection Hw as <-. apply IH in Hr. cbn. lia. }
  intros rest l Hl. destruct (decide (n < 2097152)%Z) as [Hs|Hs].
  - eexists _, _. split; [apply (preads_length n w); [lia|done|done]|]. split; [done|lia].
  - destruct (parse_length_long 3 5 4 n 0 w rest l) as [c Hc]; [lia|lia|change (128 ^ Z.of_nat 3)%Z with 2097152%Z; lia|done|done|].
    exists (-1)%Z, c. split; [exact Hc|]. split; [lia|done].
Qed.
Lemma mqtt_length_limits_witness :
  (∃ w, appendLength 2097152 = Some w ∧ length w ≤ 5 ∧
    ∀ rest l, (Z.of_nat (length w) ≤ l)%Z → ∃ v c, parseLength (det w ++ rest, l) = Some (v, c) ∧
      ((2097152 < 2097152)%Z → v = 2097152%Z ∧ c = (rest, l - Z.of_nat (length w))%Z) ∧ ((2097152 ≤ 2097152)%Z → v = (-1)%Z)) ∧
  (0 ≤ 2097152 < 2 ^ 31)%Z.
Proof. split; [apply (mqtt_length_limits 2097152); lia|lia]. Defined.
