(* ===== verification/MqttLink.v ===== *)
(** * MQTT links ([facility/psamqtt/mqttlink.C], [mqttserver.C])

    [CMqttLink] with its two kinds, the server's and the client's end of a
    connection: taking packets apart ([msgParse] for datagrams, [msgParseStream]
    for a byte stream), what is done with each packet, the packets and messages
    they make, and the keep-alive clock; and [CMqttServerUdp], which gives
    datagrams to links.  A link logs the packets it sends, the messages it makes
    (the calls that would pass them on are commented out in the code) and how
    often its [closeLink] was called.  Tracing and printing are not modelled, but
    for [UniINFO] of strings a peer sent, which formats them into an array of
    8096 bytes before anything else. *)

From S2P Require Import Prelude VarChar CStr UniMsg MsgCodec Uri Mqtt.

(** ** Messages to the application *)
Definition MQTT_CONNACK : Z := 2602.
Definition MQTT_PUBLISH : Z := 2603.
Definition MQTT_SUBSCRIBE : Z := 2604.
Definition MQTT_UNSUBSCRIBE : Z := 2605.
Definition MQTT_SUBACK : Z := 2606.
Definition MQTT_UNSUBACK : Z := 2607.
Definition MQTT_DISCONNECT : Z := 2608.
Definition DIALOG_CONTINUE : Z := 2.
Inductive mqtt_body :=
  | TMqttConnect (clientName userName password : bytes)
  | TMqttConnAck (code : Z)
  | TMqttPublish (clientName topic content : bytes)
  | TMqttSubscribe (clientName : bytes) (msgId : Z) (topic : list bytes)
  | TMqttUnsubscribe (clientName : bytes) (msgId : Z) (topic : list bytes)
  | TMqttSubAck (msgId code : Z)
  | TMqttUnsubAck (msgId : Z)
  | TMqttDisconnect (clientName : bytes).
(** The members of the [TUniNetMsg] that are set; a NULL body is [None]. *)
Record mqtt_msg := MqttMsg {
  mm_oAddr : TMsgAddress; mm_tAddr : TMsgAddress; mm_dialogType : option Z; mm_msgName : Z; mm_body : option mqtt_body }.

(** ** The state of a link *)
(** [mAddrMap], a [CHashTable], by the finite map it implements (HashTable.v).
    [mClientName] is the server link's and [mPingTimer] the client link's;
    [mParent] is the default application key of the [CMqtt], if there is one. *)
Record link := Link {
  mCurrentPacketId : Z; mAddrMap : gmap Z TMsgAddress; mKeepAlive : Z; mIdleSec : Z; mAlive : bool;
  mClientName : bytes; mPingTimer : Z; getLinkId : Z; mParent : option Z;
  k_sent : list bytes; k_made : list mqtt_msg; k_closed : nat }.
Abbreviation LK := (M link).
Definition new_link (id : Z) (parent : option Z) : link := Link 0 ∅ 0 0 false [] 0 id parent [] [] 0.

Definition sendPacket (p : bytes) : LK unit := modify (λ k, Link (mCurrentPacketId k) (mAddrMap k) (mKeepAlive k) (mIdleSec k) (mAlive k)
  (mClientName k) (mPingTimer k) (getLinkId k) (mParent k) (k_sent k ++ [p]) (k_made k) (k_closed k)).
Definition make_msg (m : mqtt_msg) : LK unit := modify (λ k, Link (mCurrentPacketId k) (mAddrMap k) (mKeepAlive k) (mIdleSec k) (mAlive k)
  (mClientName k) (mPingTimer k) (getLinkId k) (mParent k) (k_sent k) (k_made k ++ [m]) (k_closed k)).
Definition count_close : LK unit := modify (λ k, Link (mCurrentPacketId k) (mAddrMap k) (mKeepAlive k) (mIdleSec k) (mAlive k)
  (mClientName k) (mPingTimer k) (getLinkId k) (mParent k) (k_sent k) (k_made k) (S (k_closed k))).
Definition set_ids (n : Z) (a : gmap Z TMsgAddress) : LK unit := modify (λ k, Link n a (mKeepAlive k) (mIdleSec k) (mAlive k)
  (mClientName k) (mPingTimer k) (getLinkId k) (mParent k) (k_sent k) (k_made k) (k_closed k)).
Definition set_keepAlive (n : Z) : LK unit := modify (λ k, Link (mCurrentPacketId k) (mAddrMap k) n (mIdleSec k) (mAlive k)
  (mClientName k) (mPingTimer k) (getLinkId k) (mParent k) (k_sent k) (k_made k) (k_closed k)).
Definition set_idle (n : Z) : LK unit := modify (λ k, Link (mCurrentPacketId k) (mAddrMap k) (mKeepAlive k) n (mAlive k)
  (mClientName k) (mPingTimer k) (getLinkId k) (mParent k) (k_sent k) (k_made k) (k_closed k)).
Definition set_alive (b : bool) : LK unit := modify (λ k, Link (mCurrentPacketId k) (mAddrMap k) (mKeepAlive k) (mIdleSec k) b
  (mClientName k) (mPingTimer k) (getLinkId k) (mParent k) (k_sent k) (k_made k) (k_closed k)).
Definition set_clientName (s : bytes) : LK unit := modify (λ k, Link (mCurrentPacketId k) (mAddrMap k) (mKeepAlive k) (mIdleSec k) (mAlive k)
  s (mPingTimer k) (getLinkId k) (mParent k) (k_sent k) (k_made k) (k_closed k)).
Definition set_pingTimer (n : Z) : LK unit := modify (λ k, Link (mCurrentPacketId k) (mAddrMap k) (mKeepAlive k) (mIdleSec k) (mAlive k)
  (mClientName k) n (getLinkId k) (mParent k) (k_sent k) (k_made k) (k_closed k)).

Definition newPacketId (addr : TMsgAddress) : LK Z :=
  c ← gets mCurrentPacketId; a ← gets mAddrMap;
  let id := Z.rem (c + 1) 65536 in set_ids id (<[id := addr]> a) ;; mret id.
Definition freePacketId (packetId : Z) : LK unit :=
  c ← gets mCurrentPacketId; a ← gets mAddrMap; set_ids c (delete packetId a).
Definition getAppAddr (packetId : Z) : LK (option TMsgAddress) := a ← gets mAddrMap; mret (a !! packetId).

(** ** Sending *)
Definition send_pack (type : Z) (body : bytes) : LK unit := p ← defined (pack type body 0); sendPacket p.
Definition sendPublish (topic content : bytes) : LK unit := send_pack MQTT_P_PUBLISH (appendStr topic ++ content).
Definition g_thisPsaId : Z := 1999.
Definition invokeService (msgId : Z) (msgBody : mqtt_body) : LK unit :=
  id ← gets getLinkId; p ← gets mParent; key ← defined p;
  make_msg (MqttMsg (Addr g_thisPsaId 0 id) (Addr key 0 0) None msgId (Some msgBody)).
Definition responseService (msgId : Z) (addr : TMsgAddress) (msgBody : mqtt_body) : LK unit :=
  id ← gets getLinkId;
  make_msg (MqttMsg (Addr g_thisPsaId 0 id) addr (Some DIALOG_CONTINUE) msgId (Some msgBody)).

(** [UniINFO]: whatever the log level is, the position ("[mqttlink.C:406] ", the
    file as the makefile names it) and the text are formatted with [vsprintf]
    into an array of [INFO_BUF_SIZE] characters ([comserv/info.C]); a text that
    is too long for it is written behind the array. *)
Definition INFO_BUF_SIZE : Z := 8096.
Definition UniINFO (position text : bytes) : LK unit :=
  if decide (Z.of_nat (length (position ++ text)) < INFO_BUF_SIZE)%Z then mret tt else ub.
(** ["%02X"] of a byte. *)
Definition hex_digit (n : Z) : Z := if decide (n < 10)%Z then (48 + n)%Z else (55 + n)%Z.
Definition hex_byte (n : Z) : bytes := [hex_digit (n / 16); hex_digit (n mod 16)].
(** A [%s] prints up to the first 0. *)
Definition connect_text (protocolName : bytes) (protocolLevel connectFlags keepAlive : Z) (clientName userName password : bytes) : bytes :=
  lit "received connect message: " ++ upto0 protocolName ++ lit "," ++ dec protocolLevel ++ lit ",0x" ++ hex_byte connectFlags ++
  lit "," ++ dec keepAlive ++ lit ": " ++ upto0 clientName ++ lit "," ++ upto0 userName ++ lit "," ++ upto0 password.

(** The [MQTT_PARSE_] macros: return when the parser says FALSE. *)
Definition parsing {A} (m : PM (option A)) (c : pcur) (f : A → pcur → LK unit) : LK unit :=
  match m c with None => ub | Some (None, _) => mret tt | Some (Some x, c) => f x c end.

(** ** The server link *)
Definition sendSubAck (msgId code : Z) : LK unit := send_pack MQTT_P_SUBACK (appendShort msgId ++ [u8 code]).
Definition sendUnsubAck (msgId : Z) : LK unit := send_pack MQTT_P_UNSUBACK (appendShort msgId).
Definition sendPingResp : LK unit := sendPacket (pack0 MQTT_P_PINGRESP).
(** [closeLink] is virtual, and empty in [CMqttServerLink]. *)
Definition s_closeLink : LK unit := count_close.
Definition sendConnAck (sessionPresent : bool) (code : Z) : LK unit :=
  send_pack MQTT_P_CONNACK [Z.b2z sessionPresent; u8 code] ;; if decide (code ≠ 0)%Z then s_closeLink else mret tt.
Definition processDisconnect : LK unit :=
  n ← gets mClientName;
  UniINFO (lit "[mqttlink.C:341] ") (lit "received disconnect message from client " ++ upto0 n) ;;
  invokeService MQTT_DISCONNECT (TMqttDisconnect n) ;; set_alive false.
Definition str_MQTT : bytes := [77; 81; 84; 84]%Z.
Definition connect_done (protocolName : bytes) (protocolLevel connectFlags keepAlive : Z) (clientName userName password : bytes) : LK unit :=
  UniINFO (lit "[mqttlink.C:406] ") (connect_text protocolName protocolLevel connectFlags keepAlive clientName userName password) ;;
  if decide (upto0 protocolName ≠ str_MQTT ∨ protocolLevel ≠ 4%Z) then sendConnAck false 1 else
  n ← gets mClientName; invokeService MQTT_P_CONNECT (TMqttConnect n userName password) ;; set_alive true.
Definition processConnect (c : pcur) : LK unit :=
  parsing parseString c (λ protocolName c, parsing parseByte c (λ protocolLevel c, parsing parseByte c (λ connectFlags c,
  parsing parseShort c (λ keepAlive c,
    set_keepAlive keepAlive ;;
    parsing parseString c (λ clientName c,
      set_clientName clientName ;;
      let has_flag f := bool_decide (Z.land connectFlags f ≠ 0)%Z in
      let last user c := if has_flag 64%Z then parsing parseString c (λ password _, connect_done protocolName protocolLevel connectFlags keepAlive clientName user password)
                         else connect_done protocolName protocolLevel connectFlags keepAlive clientName user [] in
      let next c := if has_flag 128%Z then parsing parseString c last else last [] c in
      if has_flag 4%Z then parsing parseString c (λ willTopic c, parsing parseString c (λ willMessage c, next c)) else next c))))).
Definition content_of (c : pcur) : option bytes := set_at c.1 c.2.
Definition s_processPublish (c : pcur) (flags : Z) : LK unit :=
  if decide (flags ≠ 0)%Z then mret tt else
  parsing parseString c (λ topicName c,
    content ← defined (content_of c); n ← gets mClientName; invokeService MQTT_P_PUBLISH (TMqttPublish n topicName content)).
(** The topics; [None] when one of them is not there. *)
Fixpoint topics_loop (with_qos : bool) (fuel : nat) (acc : list bytes) : PM (option (list bytes)) :=
  n ← gets snd;
  if decide (0 < n)%Z then
    match fuel with
    | O => ub
    | S fuel =>
        t ← parseString;
        match t with
        | None => mret None
        | Some topic =>
            q ← (if with_qos then parseByte else mret (Some 0%Z));
            match q with None => mret None | Some _ => topics_loop with_qos fuel (acc ++ [topic]) end
        end
    end
  else mret (Some acc).
Definition topics (with_qos : bool) : PM (option (list bytes)) := n ← gets snd; topics_loop with_qos (Z.to_nat n) [].
Definition processSubscribe (c : pcur) : LK unit :=
  parsing parseShort c (λ packetId c, parsing (topics true) c (λ l _,
    n ← gets mClientName; invokeService MQTT_P_SUBSCRIBE (TMqttSubscribe n packetId l))).
Definition processUnsubscribe (c : pcur) : LK unit :=
  parsing parseShort c (λ packetId c, parsing (topics false) c (λ l _,
    n ← gets mClientName; invokeService MQTT_P_UNSUBSCRIBE (TMqttUnsubscribe n packetId l))).
Definition s_msgProcess (packetType flags : Z) (c : pcur) : LK unit :=
  if decide (packetType = MQTT_P_CONNECT) then processConnect c
  else if decide (packetType = MQTT_P_PUBLISH) then s_processPublish c flags
  else if decide (packetType = MQTT_P_SUBSCRIBE) then processSubscribe c
  else if decide (packetType = MQTT_P_UNSUBSCRIBE) then processUnsubscribe c
  else if decide (packetType = MQTT_P_PINGREQ) then sendPingResp
  else if decide (packetType = MQTT_P_DISCONNECT) then processDisconnect
  else mret tt.
(** Messages of the application; the body is cast to the class that goes with
    the name. *)
Definition s_procAppMsg (m : mqtt_msg) : LK bool :=
  if decide (mm_msgName m = MQTT_PUBLISH) then
    match mm_body m with Some (TMqttPublish _ t c) => sendPublish t c ;; mret true | _ => ub end
  else if decide (mm_msgName m = MQTT_CONNACK) then
    match mm_body m with Some (TMqttConnAck c) => sendConnAck false c ;; mret true | _ => ub end
  else if decide (mm_msgName m = MQTT_SUBACK) then
    match mm_body m with Some (TMqttSubAck i c) => sendSubAck i c ;; mret true | _ => ub end
  else if decide (mm_msgName m = MQTT_UNSUBACK) then
    match mm_body m with Some (TMqttUnsubAck i) => sendUnsubAck i ;; mret true | _ => ub end
  else mret false.
Definition s_secAction : LK unit :=
  k ← gets mKeepAlive; if decide (k ≤ 0)%Z then mret tt else
  a ← gets mAlive; if negb a then mret tt else
  n ← gets mIdleSec; set_idle (n + 1)%Z ;; if decide (k < n + 1)%Z then s_closeLink else mret tt.

Definition sendSubscribe (topics : list bytes) (packetId : Z) : LK unit :=
  send_pack MQTT_P_SUBSCRIBE (appendShort packetId ++ concat ((λ t, appendStr t ++ [0%Z]) <$> topics)).
Definition sendUnsubscribe (topics : list bytes) (packetId : Z) : LK unit :=
  send_pack MQTT_P_UNSUBSCRIBE (appendShort packetId ++ concat (appendStr <$> topics)).
Definition sendPingReq : LK unit := sendPacket (pack0 MQTT_P_PINGREQ).
Definition sendDisconnect : LK unit := sendPacket (pack0 MQTT_P_DISCONNECT) ;; set_alive false.
Definition c_closeLink : LK unit := count_close ;; sendDisconnect.
Definition processSubAck (c : pcur) : LK unit :=
  parsing parseShort c (λ packetId c, parsing parseByte c (λ code _,
    a ← getAppAddr packetId;
    match a with Some addr => responseService MQTT_SUBACK addr (TMqttSubAck packetId code) | None => mret tt end)).
Definition processUnsubAck (c : pcur) : LK unit :=
  parsing parseShort c (λ packetId _,
    a ← getAppAddr packetId;
    match a with Some addr => responseService MQTT_UNSUBACK addr (TMqttUnsubAck packetId) | None => mret tt end).
(** The first byte of the body, which is the session flag, is taken for the code. *)
Definition processConnAck (c : pcur) : LK unit :=
  parsing parseByte c (λ code _, if decide (code = 0)%Z then set_alive true else mret tt).
Definition c_processPublish (c : pcur) (flags : Z) : LK unit :=
  if decide (flags ≠ 0)%Z then mret tt else
  parsing parseString c (λ topicName c,
    content ← defined (content_of c); invokeService MQTT_PUBLISH (TMqttPublish [] topicName content)).
Definition c_msgProcess (packetType flags : Z) (c : pcur) : LK unit :=
  if decide (packetType = MQTT_P_PUBLISH) then c_processPublish c flags
  else if decide (packetType = MQTT_P_SUBACK) then processSubAck c
  else if decide (packetType = MQTT_P_UNSUBACK) then processUnsubAck c
  else if decide (packetType = MQTT_P_CONNACK) then processConnAck c
  else mret tt.
Definition c_procAppMsg (m : mqtt_msg) : LK bool :=
  if decide (mm_msgName m = MQTT_PUBLISH) then
    match mm_body m with Some (TMqttPublish _ t c) => sendPublish t c ;; mret true | _ => ub end
  else if decide (mm_msgName m = MQTT_SUBSCRIBE) then
    match mm_body m with
    | Some (TMqttSubscribe _ _ l) => i ← newPacketId (mm_oAddr m); sendSubscribe l i ;; mret true
    | None => mret false | _ => ub end
  else if decide (mm_msgName m = MQTT_UNSUBSCRIBE) then
    match mm_body m with
    | Some (TMqttUnsubscribe _ _ l) => i ← newPacketId (mm_oAddr m); sendUnsubscribe l i ;; mret true
    | None => mret false | _ => ub end
  else mret false.
Definition c_secAction : LK unit :=
  k ← gets mKeepAlive; if decide (k ≤ 0)%Z then mret tt else
  a ← gets mAlive; if negb a then mret tt else
  n ← gets mIdleSec; set_idle (n + 1)%Z ;;
  (if decide (k < n + 1)%Z then c_closeLink else mret tt) ;;
  t ← gets mPingTimer; set_pingTimer (t - 1)%Z ;;
  if decide (t - 1 ≤ 0)%Z then sendPingReq ;; set_pingTimer (if decide (k = 1)%Z then 1 else Z.quot k 2)%Z else mret tt.

(** ** Taking packets apart *)
(** [proc] is the virtual function [msgProcess]. *)
Section parse.
Context (proc : Z → Z → pcur → LK unit).

Definition msgParse (content : cells) (length : Z) : LK Z :=
  set_idle 0 ;;
  if decide (length < 2)%Z then mret (-1)%Z else
  '(headByte, c) ← defined (next_byte (content, length));
  '(bodyLength, c) ← defined (parseLength c);
  if decide (bodyLength ≠ c.2)%Z then mret (-1)%Z else
  proc (Z.shiftr headByte 4) (Z.land headByte 15) (c.1, bodyLength) ;; mret 1%Z.

(** [mBufferMsg], by its content, and the link. *)
Record stream := Stream { mBufferMsg : bytes; s_link : link }.
Definition on_link {A} (m : LK A) : M stream A := zoom s_link (λ k s, Stream (mBufferMsg s) k) m.
Definition set_buffer (b : bytes) : M stream unit := modify (λ s, Stream b (s_link s)).
(** [cut(-n)] takes the last [n] characters off. *)
Definition stream_end (remainLength msgCount : Z) : M stream Z :=
  b ← gets mBufferMsg;
  (if decide (remainLength ≠ 0)%Z then
     if decide (remainLength < Z.of_nat (length b))%Z then set_buffer (take (length b - Z.to_nat remainLength) b) else mret tt
   else set_buffer []) ;; mret msgCount.
Fixpoint stream_loop (fuel : nat) (c : pcur) (msgCount : Z) : M stream Z :=
  match fuel with
  | O => ub
  | S fuel =>
      if decide (c.2 < 2)%Z then mret 0%Z else
      '(headByte, c1) ← defined (next_byte c);
      '(bodyLength, c2) ← defined (parseLength c1);
      if decide (bodyLength = -1)%Z then mret (-1)%Z else
      if decide (bodyLength = -2)%Z then stream_end c.2 msgCount else
      if decide (c2.2 < bodyLength)%Z then stream_end c.2 msgCount else
      on_link (proc (Z.shiftr headByte 4) (Z.land headByte 15) (c2.1, bodyLength)) ;;
      let remainLength := (c2.2 - bodyLength)%Z in
      if decide (0 < remainLength)%Z then stream_loop fuel (drop (Z.to_nat bodyLength) c2.1, remainLength) (msgCount + 1)
      else stream_end remainLength (msgCount + 1)
  end.
(** The pointer is the one of [c_str()]: the characters and a zero. *)
Definition msgParseStream (content : bytes) : M stream Z :=
  on_link (set_idle 0) ;;
  b ← gets mBufferMsg; set_buffer (b ++ content) ;;
  stream_loop (S (length (b ++ content))) (det (b ++ content) ++ [Some 0%Z], Z.of_nat (length (b ++ content))) 0.
End parse.

(** ** The UDP server *)
Record udp_link := UdpLink { mClientIp : bytes; mClientPort : Z; u_link : link }.
(** [_linkId] is a static of [setInfo]. *)
Record udp_server := UdpServer { us_links : list udp_link; _linkId : Z; us_appKey : Z }.
Definition matchClient (ip : bytes) (port : Z) (l : udp_link) : bool := bool_decide (mClientIp l = ip ∧ mClientPort l = port).
(** Running a member function of the [i]-th link. *)
Definition on_udp_link {A} (i : nat) (m : LK A) : M udp_server A := λ s,
  l ← us_links s !! i; '(x, k) ← m (u_link l);
  Some (x, UdpServer (<[i := UdpLink (mClientIp l) (mClientPort l) k]> (us_links s)) (_linkId s) (us_appKey s)).
Definition procFdSet (buffer : cells) (length : Z) (ip : bytes) (port : Z) : M udp_server unit :=
  if decide (length ≤ 0)%Z then mret tt else
  l ← gets us_links;
  c ← defined (isPacket buffer MQTT_P_CONNECT);
  if (c : bool) then
    modify (λ s, UdpServer (l ++ [UdpLink ip port (new_link (_linkId s) (Some (us_appKey s)))]) (_linkId s + 1) (us_appKey s)) ;;
    on_udp_link (List.length l) (msgParse s_msgProcess buffer length) ;; mret tt
  else
    match find_pos (matchClient ip port) l with
    | None => mret tt
    | Some i => on_udp_link i (msgParse s_msgProcess buffer length) ;; mret tt
    end.
Definition udp_getLink (id : Z) (s : udp_server) : option nat := find_pos (λ l, bool_decide (getLinkId (u_link l) = id)) (us_links s).
Fixpoint each_udp (n : nat) (i : nat) (m : LK unit) : M udp_server unit :=
  match n with O => mret tt | S n => on_udp_link i m ;; each_udp n (S i) m end.
Definition udp_secAction : M udp_server unit := l ← gets us_links; each_udp (List.length l) 0 s_secAction.

(** ** Packets taken apart *)
(** What follows the head byte. *)
Lemma pack_eq type body flags w : (Z.of_nat (length body) < 128 * 128 * 128)%Z → pack type body flags = Some w →
  ∃ l, w = u8 (Z.shiftl type 4 + flags) :: l ++ body ∧ preads parseLength (Z.of_nat (length body)) l ∧ l ≠ [].
Proof.
  intros Hb Hw. unfold pack in Hw. destruct (appendLength _) as [l|] eqn:Hl; [|done]. injection Hw as <-. exists l. split; [done|].
  split; [apply preads_length; [lia|done]|]. intros ->.
  destruct (first_digit 5 _ _ (Nat2Z.is_nonneg _) Hl) as (? & ? & ? & _ & ? & _). done.
Qed.
Lemma pack_total type body flags : (Z.of_nat (length body) < 128 * 128 * 128)%Z → is_Some (pack type body flags).
Proof. intros Hb. unfold pack. destruct (appendLength_total (Z.of_nat (length body))) as [l ->]; [lia|]. by eexists. Qed.
Lemma head_byte type flags : (0 ≤ type < 16)%Z → (0 ≤ flags < 16)%Z → let h := u8 (Z.shiftl type 4 + flags) in
  is_byte h ∧ Z.shiftr h 4 = type ∧ Z.land h 15 = flags.
Proof.
  intros Ht Hf h. assert (Hh : h = (type * 16 + flags)%Z).
  { unfold h. rewrite Z.shiftl_mul_pow2 by lia. change (2 ^ 4)%Z with 16%Z. apply u8_byte. unfold is_byte. lia. }
  rewrite Hh. split; [unfold is_byte; lia|]. split.
  - rewrite Z.shiftr_div_pow2 by lia. change (2 ^ 4)%Z with 16%Z. rewrite Z.div_add_l, Z.div_small by lia. lia.
  - change 15%Z with (Z.ones 4). rewrite Z.land_ones by lia. change (2 ^ 4)%Z with 16%Z. rewrite Z.add_comm, Z.mod_add by lia. by apply Z.mod_small.
Qed.
Record packet := Packet { pk_type : Z; pk_flags : Z; pk_body : bytes }.
Definition packet_ok (x : packet) : Prop := (0 ≤ pk_type x < 16)%Z ∧ (0 ≤ pk_flags x < 16)%Z ∧ (Z.of_nat (length (pk_body x)) < 128 * 128 * 128)%Z.
Definition wire_of (x : packet) : bytes := default [] (pack (pk_type x) (pk_body x) (pk_flags x)).
Lemma wire_eq x : packet_ok x → ∃ h l, wire_of x = h :: l ++ pk_body x ∧ is_byte h ∧ Z.shiftr h 4 = pk_type x ∧ Z.land h 15 = pk_flags x ∧
  preads parseLength (Z.of_nat (length (pk_body x))) l ∧ l ≠ [].
Proof.
  intros (Ht & Hf & Hb). unfold wire_of. destruct (pack_total (pk_type x) (pk_body x) (pk_flags x) Hb) as [w Hw]. rewrite Hw. cbn [default from_option id].
  destruct (pack_eq _ _ _ _ Hb Hw) as (l & -> & Hl & Hn). destruct (head_byte _ _ Ht Hf) as (H1 & H2 & H3). by exists (u8 (Z.shiftl (pk_type x) 4 + pk_flags x)), l.
Qed.
Definition idle0 (k : link) : link := Link (mCurrentPacketId k) (mAddrMap k) (mKeepAlive k) 0 (mAlive k)
  (mClientName k) (mPingTimer k) (getLinkId k) (mParent k) (k_sent k) (k_made k) (k_closed k).
(** A datagram that is one packet. *)
Lemma msgParse_wire proc x rest k : packet_ok x →
  msgParse proc (det (wire_of x) ++ rest) (Z.of_nat (length (wire_of x))) k =
  (proc (pk_type x) (pk_flags x) (det (pk_body x) ++ rest, Z.of_nat (length (pk_body x))) ;; mret 1%Z) (idle0 k).
Proof.
  intros Hx. destruct (wire_eq x Hx) as (h & l & -> & Hh & <- & <- & Hl & Hn). destruct l as [|c l]; [done|]. set (body := pk_body x) in *.
  unfold msgParse. erewrite bind_eq by reflexivity. rewrite decide_False by (cbn; rewrite ?length_app; lia).
  cbn [fmap list_fmap app]. erewrite bind_eq by (rewrite next_byte_cons by done; reflexivity). cbv beta iota.
  change (Some c :: (det (l ++ body) ++ rest)) with (det ((c :: l) ++ body) ++ rest). rewrite fmap_app, <- app_assoc.
  erewrite bind_eq by (rewrite Hl by (cbn; rewrite ?length_app; lia); reflexivity). cbv beta iota. cbn [snd fst].
  replace (Z.of_nat (length (h :: c :: l ++ body)) - 1 - Z.of_nat (length (c :: l)))%Z with (Z.of_nat (length body)) by (cbn; rewrite length_app; lia).
  rewrite decide_False by tauto. reflexivity.
Qed.
Lemma parsing_ok {A} (m : PM (option A)) a w rest n f : preads m (Some a) w → (Z.of_nat (length w) ≤ n)%Z →
  parsing m (det w ++ rest, n) f = f a (rest, n - Z.of_nat (length w))%Z.
Proof. intros Hm Hn. unfold parsing. by rewrite Hm. Qed.
(** The same where more follows. *)
Lemma parsing_app {A} (m : PM (option A)) a w w' rest n f : preads m (Some a) w → (Z.of_nat (length (w ++ w')) ≤ n)%Z →
  parsing m (det (w ++ w') ++ rest, n) f = f a (det w' ++ rest, n - Z.of_nat (length w))%Z.
Proof. intros Hm Hn. rewrite length_app in Hn. rewrite fmap_app, <- app_assoc. apply parsing_ok; [done|lia]. Qed.
Lemma preads_parseByte c : is_byte c → preads parseByte (Some c) [c].
Proof.
  intros Hc rest n Hn. cbn in Hn. unfold parseByte. erewrite (bind_eq (gets snd)) by reflexivity. cbv beta. cbn [snd]. rewrite decide_False by lia.
  cbn [fmap list_fmap app]. by erewrite bind_eq by (by apply next_byte_cons).
Qed.
Definition short_ok (s : bytes) : Prop := nonzero s ∧ (Z.of_nat (length s) < 65536)%Z.
Lemma preads_text s : short_ok s → preads parseString (Some s) (appendStr s).
Proof. intros [Hz Hs]. by apply preads_string. Qed.
Lemma length_appendStr s : short_ok s → Z.of_nat (length (appendStr s)) = (2 + Z.of_nat (length s))%Z.
Proof. intros [Hz Hs]. unfold appendStr. rewrite (upto0_id s Hz). cbv zeta. rewrite length_app. change (length (appendShort _)) with 2. lia. Qed.

(** ** Connecting *)
Definition connect_body (name user passwd : bytes) (keepAlive : Z) : bytes :=
  appendStr str_MQTT ++ [4%Z] ++ [194%Z] ++ appendShort keepAlive ++ appendStr name ++ appendStr user ++ appendStr passwd.
Definition connect_packet (name user passwd : bytes) (keepAlive : Z) : packet := Packet MQTT_P_CONNECT 0 (connect_body name user passwd keepAlive).
Lemma connect_packet_ok name user passwd ka : short_ok name → short_ok user → short_ok passwd → packet_ok (connect_packet name user passwd ka).
Proof.
  intros Hn Hu Hp. split; [done|]. split; [done|]. cbn [connect_packet pk_body]. unfold connect_body.
  rewrite !length_app, !Nat2Z.inj_add, !length_appendStr by (done || (by split; [repeat constructor; lia|])).
  change (length (appendShort ka)) with 2. destruct Hn as [_ Hn], Hu as [_ Hu], Hp as [_ Hp]. cbn [length str_MQTT]. lia.
Qed.
Definition with_sent (p : bytes) (k : link) : link := Link (mCurrentPacketId k) (mAddrMap k) (mKeepAlive k) (mIdleSec k) (mAlive k)
  (mClientName k) (mPingTimer k) (getLinkId k) (mParent k) (k_sent k ++ [p]) (k_made k) (k_closed k).
Lemma send_pack_ok type body k : (Z.of_nat (length body) < 128 * 128 * 128)%Z →
  send_pack type body k = Some (tt, with_sent (wire_of (Packet type 0 body)) k).
Proof.
  intros Hb. unfold send_pack, wire_of. cbn [pk_type pk_body pk_flags]. by destruct (pack_total type body 0 Hb) as [w ->].
Qed.
(** One parser of a sequence. *)
Ltac parse_next L := rewrite (parsing_app _ _ _ _ _ _ _ L) by lia; rewrite length_app, Nat2Z.inj_add, Z.add_simpl_l.
(** Whether the text of the connect message fits, by the three strings: the rest
    of it has 59 characters and the digits of the keep-alive time. *)
Definition log_fits (name user passwd : bytes) (ka : Z) : Prop := (Z.of_nat (length name + length user + length passwd + length (dec ka)) < 8037)%Z.
#[global] Instance log_fits_dec name user passwd ka : Decision (log_fits name user passwd ka).
Proof. unfold log_fits. apply _. Defined.
Lemma connect_text_length name user passwd ka : short_ok name → short_ok user → short_ok passwd →
  Z.of_nat (length (lit "[mqttlink.C:406] " ++ connect_text str_MQTT 4 194 ka name user passwd)) =
  (59 + Z.of_nat (length name + length user + length passwd + length (dec ka)))%Z.
Proof.
  intros [Hn _] [Hu _] [Hp _]. unfold connect_text. rewrite !upto0_id by (done || (repeat constructor; lia)).
  rewrite !length_app. cbn -[dec]. change (length (dec 4)) with 1. lia.
Qed.
(** The client's connect packet is parsed, up to the end. *)
Lemma processConnect_parsed name user passwd ka rest s : short_ok name → short_ok user → short_ok passwd → (0 ≤ ka < 65536)%Z →
  processConnect (det (connect_body name user passwd ka) ++ rest, Z.of_nat (length (connect_body name user passwd ka))) s =
  connect_done str_MQTT 4 194 ka name user passwd (Link (mCurrentPacketId s) (mAddrMap s) ka (mIdleSec s) (mAlive s) name (mPingTimer s)
    (getLinkId s) (mParent s) (k_sent s) (k_made s) (k_closed s)).
Proof.
  intros Hn Hu Hp Hka. assert (Hm : short_ok str_MQTT) by (split; [repeat constructor; lia|done]).
  unfold connect_body, processConnect.
  parse_next (preads_text _ Hm).
  parse_next (preads_parseByte 4 ltac:(done)).
  parse_next (preads_parseByte 194 ltac:(done)).
  parse_next (preads_short _ Hka).
  erewrite bind_eq by reflexivity.
  parse_next (preads_text _ Hn).
  erewrite bind_eq by reflexivity. cbv zeta.
  change (bool_decide (Z.land 194 4 ≠ 0%Z)) with false. change (bool_decide (Z.land 194 128 ≠ 0%Z)) with true. change (bool_decide (Z.land 194 64 ≠ 0%Z)) with true. cbv iota.
  parse_next (preads_text _ Hu).
  by rewrite (parsing_ok _ _ _ _ _ _ (preads_text _ Hp)) by lia.
Qed.
Lemma connect_logged name user passwd ka k : short_ok name → short_ok user → short_ok passwd →
  UniINFO (lit "[mqttlink.C:406] ") (connect_text str_MQTT 4 194 ka name user passwd) k =
  if decide (log_fits name user passwd ka) then Some (tt, k) else None.
Proof.
  intros Hn Hu Hp. unfold UniINFO. rewrite connect_text_length by done. unfold log_fits, INFO_BUF_SIZE.
  repeat case_decide; done || lia.
Qed.

(** ** Subscribing *)
Definition topic_bytes (with_qos : bool) (t : bytes) : bytes := appendStr t ++ (if with_qos then [0%Z] else []).
Definition topics_bytes (with_qos : bool) (l : list bytes) : bytes := concat (topic_bytes with_qos <$> l).
Lemma topics_loop_ok q l fuel acc rest : Forall short_ok l → length l ≤ fuel →
  topics_loop q fuel acc (det (topics_bytes q l) ++ rest, Z.of_nat (length (topics_bytes q l))) = Some (Some (acc ++ l), (rest, 0%Z)).
Proof.
  intros Hl. revert fuel acc. induction Hl as [|t l Ht Hl IH]; intros fuel acc Hf.
  - rewrite app_nil_r. by destruct fuel.
  - destruct fuel as [|fuel]; [cbn in Hf; lia|]. pose proof (length_appendStr t Ht) as Hlt. cbn [topics_bytes fmap list_fmap concat]. fold (topics_bytes q l).
    unfold topic_bytes. cbn [topics_loop]. erewrite (bind_eq (gets snd)) by reflexivity. cbv beta. cbn [snd].
    rewrite decide_True by (rewrite !length_app; lia). rewrite <- app_assoc, fmap_app, <- app_assoc.
    erewrite bind_eq by (apply (preads_text t Ht); rewrite !length_app; lia). cbv beta iota. rewrite length_app, Nat2Z.inj_add, Z.add_simpl_l.
    rewrite fmap_app, <- app_assoc. replace (acc ++ t :: l) with ((acc ++ [t]) ++ l) by (by rewrite <- app_assoc).
    destruct q.
    + erewrite bind_eq by (apply (preads_parseByte 0 ltac:(done)); rewrite ?length_app; cbn; lia). cbv beta iota.
      rewrite length_app, Nat2Z.inj_add, Z.add_simpl_l. apply IH. cbn in Hf. lia.
    + erewrite bind_eq by reflexivity. cbv beta iota. apply IH. cbn in Hf. lia.
Qed.
Lemma topics_ok q l rest f : Forall short_ok l →
  parsing (topics q) (det (topics_bytes q l) ++ rest, Z.of_nat (length (topics_bytes q l))) f = f l (rest, 0%Z).
Proof.
  intros Hl. assert (Hn : length l ≤ length (topics_bytes q l)).
  { induction Hl as [|t l Ht Hl IH]; [done|]. unfold topics_bytes, topic_bytes in *. cbn [fmap list_fmap concat length]. rewrite !length_app. pose proof (length_appendStr t Ht). lia. }
  unfold parsing, topics. erewrite (bind_eq (gets snd)) by reflexivity. cbv beta. cbn [snd]. rewrite Nat2Z.id. by rewrite (topics_loop_ok q l _ [] rest Hl Hn).
Qed.
Definition with_made (m : mqtt_msg) (k : link) : link := Link (mCurrentPacketId k) (mAddrMap k) (mKeepAlive k) (mIdleSec k) (mAlive k)
  (mClientName k) (mPingTimer k) (getLinkId k) (mParent k) (k_sent k) (k_made k ++ [m]) (k_closed k).
Lemma requests_ok (q : bool) i l rest s key : Forall short_ok l → (0 ≤ i < 65536)%Z → mParent s = Some key →
  let body := appendShort i ++ topics_bytes q l in
  (if q then processSubscribe else processUnsubscribe) (det body ++ rest, Z.of_nat (length body)) s =
  Some (tt, with_made (MqttMsg (Addr 1999 0 (getLinkId s)) (Addr key 0 0) None (if q then MQTT_P_SUBSCRIBE else MQTT_P_UNSUBSCRIBE)
    (Some ((if q then TMqttSubscribe else TMqttUnsubscribe) (mClientName s) i l))) s).
Proof.
  intros Hl Hi Hpar body. unfold body, processSubscribe, processUnsubscribe.
  destruct q; parse_next (preads_short _ Hi); rewrite (topics_ok _ _ _ _ Hl); erewrite bind_eq by reflexivity; unfold invokeService; destruct s; cbn in Hpar; subst; reflexivity.
Qed.

(** ** Publishing *)
Lemma set_at_negative p n : (n < 0)%Z → set_at p n = None.
Proof. intros Hn. unfold set_at. by rewrite decide_False by lia. Qed.
(** The body of a publish packet that is [L] bytes long and says its topic has [m]. *)
Lemma publish_body_ok m rest tail s L : (0 ≤ m < 65536)%Z → L = (2 + Z.of_nat (length rest))%Z → mParent s ≠ None →
  is_Some (s_processPublish (det (appendShort m ++ rest) ++ tail, L) 0 s) ↔ (L < m ∨ m + 2 ≤ L)%Z.
Proof.
  intros Hm -> Hpar. unfold s_processPublish. rewrite decide_False by tauto. unfold parsing, parseString.
  erewrite (bind_eq (gets snd)) by reflexivity. cbv beta. cbn [snd]. rewrite decide_False by lia.
  rewrite fmap_app, <- app_assoc. erewrite bind_eq by (by apply peek_short_ok). cbv beta. case_decide as Hlt; [split; [lia|by eexists]|].
  erewrite bind_eq by reflexivity. change (drop (Z.to_nat 2) (det (appendShort m) ++ det rest ++ tail, _).1) with (det rest ++ tail). cbn [fst snd].
  unfold mbind at 1 2. unfold M_bind. cbn [fst snd].
  split.
  - intros [x Hx]. right. destruct (set_at (det rest ++ tail) m) as [t|]; [|done]. cbn [mbind option_bind skip_bytes mret M_ret] in Hx.
    destruct (decide (m + 2 ≤ 2 + Z.of_nat (length rest))%Z) as [?|Hn]; [done|]. unfold mret, M_ret in Hx. cbn [content_of fst snd] in Hx.
    unfold content_of in Hx. cbn [fst snd] in Hx. by rewrite set_at_negative in Hx by lia.
  - intros [?|Hle]; [lia|]. rewrite <- (take_drop (Z.to_nat m) rest). set (t := take _ rest). set (d := drop _ rest).
    assert (Ht : Z.of_nat (length t) = m) by (unfold t; rewrite length_take; lia). rewrite fmap_app, <- app_assoc, <- Ht, mqtt_set_at_ok.
    cbn [mbind option_bind]. unfold skip_bytes, mret, M_ret. cbn [fst snd]. rewrite Nat2Z.id, drop_app_length' by (by rewrite length_fmap).
    unfold content_of. cbn [fst snd]. rewrite length_app.
    replace (2 + Z.of_nat (length t + length d) - 2 - Z.of_nat (length t))%Z with (Z.of_nat (length d)) by lia. rewrite mqtt_set_at_ok.
    destruct (mParent s) as [key|] eqn:Hk; [|done]. eexists. unfold invokeService, mbind, M_bind, gets, make_msg, modify. cbn. rewrite Hk. reflexivity.
Qed.

(** ** The byte stream *)
Section stream.
Context (proc : Z → Z → pcur → LK unit).
(** [proc] on a packet, whatever follows it in the buffer. *)
Definition handled (x : packet) (k k' : link) : Prop :=
  ∀ tail, proc (pk_type x) (pk_flags x) (det (pk_body x) ++ tail, Z.of_nat (length (pk_body x))) k = Some (tt, k').
Fixpoint handled_all (xs : list packet) (k k' : link) : Prop :=
  match xs with [] => k = k' | x :: xs => ∃ k1, handled x k k1 ∧ handled_all xs k1 k' end.
Definition wires (xs : list packet) : bytes := concat (wire_of <$> xs).
(** A non-empty beginning of a packet. *)
Definition part_of (b : bytes) (x : packet) : Prop := ∃ r, wire_of x = b ++ r ∧ r ≠ [] ∧ b ≠ [].

Lemma wire_long x : packet_ok x → 2 ≤ length (wire_of x).
Proof. intros Hx. destruct (wire_eq x Hx) as (h & l & -> & _ & _ & _ & _ & Hn). destruct l; [done|]. cbn. lia. Qed.
Lemma stream_packet x fuel tail n cnt b k k' : packet_ok x → handled x k k' → (Z.of_nat (length (wire_of x)) ≤ n)%Z →
  stream_loop proc (S fuel) (det (wire_of x) ++ tail, n) cnt (Stream b k) =
  (if decide (0 < n - Z.of_nat (length (wire_of x)))%Z then stream_loop proc fuel (tail, n - Z.of_nat (length (wire_of x)))%Z (cnt + 1)%Z
   else stream_end (n - Z.of_nat (length (wire_of x)))%Z (cnt + 1)%Z) (Stream b k').
Proof.
  intros Hx Hh Hn. pose proof (wire_long x Hx) as Hlong. destruct (wire_eq x Hx) as (h & l & Hw & Hb & Ht & Hf & Hl & Hne). rewrite Hw in *.
  cbn [stream_loop]. rewrite decide_False by (cbn [snd]; lia). cbn [length] in *. rewrite length_app in *.
  change (det (h :: l ++ pk_body x) ++ tail) with (Some h :: (det (l ++ pk_body x) ++ tail)). rewrite fmap_app, <- app_assoc.
  erewrite bind_eq by (rewrite next_byte_cons by done; reflexivity). cbv beta iota.
  erewrite bind_eq by (rewrite Hl by lia; reflexivity). cbv beta iota. cbn [snd fst].
  rewrite decide_False by lia. rewrite decide_False by lia. rewrite decide_False by lia. rewrite Ht, Hf.
  erewrite bind_eq by (unfold on_link, zoom; cbn [s_link]; rewrite Hh; reflexivity). cbv zeta. cbn [mBufferMsg].
  rewrite Nat2Z.id, drop_app_length' by (by rewrite length_fmap).
  replace (n - 1 - Z.of_nat (length l) - Z.of_nat (length (pk_body x)))%Z with (n - Z.of_nat (S (length l + length (pk_body x))))%Z by lia. reflexivity.
Qed.
(** At the beginning of a packet nothing is taken. *)
Lemma stream_part x fuel p cnt b k : packet_ok x → part_of p x → 
  stream_loop proc (S fuel) (det p ++ [Some 0%Z], Z.of_nat (length p)) cnt (Stream b k) =
  (if decide (length p < 2) then mret 0%Z else stream_end (Z.of_nat (length p)) cnt) (Stream b k).
Proof.
  intros Hx (r & Hw & Hr & Hp). cbn [stream_loop]. cbn [snd]. case_decide as H2; [by rewrite decide_True by lia|]. rewrite decide_False by lia.
  destruct (wire_eq x Hx) as (h & l & Hwx & Hb & Ht & Hf & Hl & Hne). rewrite Hwx in Hw. destruct p as [|h' q]; [done|]. injection Hw as <- Hq.
  cbn [fmap list_fmap app]. erewrite bind_eq by (rewrite next_byte_cons by done; reflexivity). cbv beta iota. cbn [length] in *.
  replace (Z.of_nat (S (length q)) - 1)%Z with (Z.of_nat (length q)) by lia.
  destruct (decide (length l ≤ length q)) as [Hlq|Hlq].
  - assert (Hqe : q = l ++ take (length q - length l) (pk_body x)).
    { assert (Ht2 := f_equal (take (length q)) Hq). rewrite take_app_ge, take_app_length in Ht2 by done. done. }
    set (t := take _ _) in Hqe. assert (Hts : length t < length (pk_body x)).
    { pose proof (f_equal length Hq) as Hlen. rewrite !length_app in Hlen. destruct r; [done|]. cbn in Hlen. rewrite Hqe in Hlen. rewrite length_app in Hlen. lia. }
    rewrite Hqe, fmap_app, <- app_assoc. erewrite bind_eq by (rewrite Hl by (rewrite length_app; lia); reflexivity). cbv beta iota. cbn [snd fst].
    rewrite decide_False by lia. rewrite decide_False by lia. rewrite decide_True by (rewrite length_app; lia). done.
  - assert (Hcut : ∃ v, (0 ≤ v)%Z ∧ parseLength (det q ++ [Some 0%Z], Z.of_nat (length q)) = Some (v, ([], (-1)%Z))).
    { assert (Hal : appendLength (Z.of_nat (length (pk_body x))) = Some l).
      { unfold wire_of, pack in Hwx. destruct (appendLength _) as [l3|] eqn:Hl3; [|cbn in Hwx; done]. cbn in Hwx. injection Hwx as _ Hwx. by apply app_inv_tail in Hwx as ->. }
      assert (Hlr : l = q ++ drop (length q) l).
      { rewrite <- (take_drop (length q) l) at 1. f_equal. assert (Ht2 := f_equal (take (length q)) Hq). rewrite take_app_le, take_app_length in Ht2 by lia. done. }
      rewrite Hlr in Hal. eapply parseLength_cut; [|exact Hal|]; [destruct Hx as (_ & _ & Hx); lia|]. intros Hd. apply (f_equal length) in Hd. rewrite length_drop in Hd. cbn in Hd. lia. }
    destruct Hcut as (v & Hv & Hcut). erewrite bind_eq by (rewrite Hcut; reflexivity). cbv beta iota. cbn [snd].
    rewrite decide_False by lia. rewrite decide_False by lia. rewrite decide_True by lia. done.
Qed.
(** Whole packets, and then whatever comes. *)
Lemma stream_packets xs fuel tail cnt b k k' : Forall packet_ok xs → handled_all xs k k' → (0 < length tail ∨ xs = [])%nat →
  stream_loop proc (length xs + fuel) (det (wires xs ++ tail) ++ [Some 0%Z], Z.of_nat (length (wires xs ++ tail))) cnt (Stream b k) =
  stream_loop proc fuel (det tail ++ [Some 0%Z], Z.of_nat (length tail)) (cnt + Z.of_nat (length xs)) (Stream b k').
Proof.
  intros Hx. revert cnt k. induction Hx as [|x xs Hx Hxs IH]; intros cnt k; cbn [handled_all].
  - intros -> _. cbn. by rewrite Z.add_0_r.
  - intros (k1 & H1 & H2) Ht. cbn [length Nat.add wires fmap list_fmap concat]. fold (wires xs). rewrite <- app_assoc, fmap_app, <- app_assoc.
    rewrite (stream_packet x) with (k' := k1) by (rewrite ?length_app; done || lia).
    replace (Z.of_nat (length (wire_of x ++ wires xs ++ tail)) - Z.of_nat (length (wire_of x)))%Z with (Z.of_nat (length (wires xs ++ tail))) by (rewrite (length_app (wire_of x)); lia).
    rewrite decide_True by (rewrite length_app; destruct Ht; [lia|done]).
    rewrite IH by (done || (left; destruct Ht; [lia|done])). f_equal. lia.
Qed.
Lemma wires_app xs ys : wires (xs ++ ys) = wires xs ++ wires ys.
Proof. unfold wires. by rewrite fmap_app, concat_app. Qed.
Lemma stream_whole xs x fuel b k k' : Forall packet_ok (xs ++ [x]) → handled_all (xs ++ [x]) k k' →
  stream_loop proc (S (length xs + fuel)) (det (wires (xs ++ [x])) ++ [Some 0%Z], Z.of_nat (length (wires (xs ++ [x])))) 0 (Stream b k) =
  Some (Z.of_nat (length (xs ++ [x])), Stream [] k').
Proof.
  intros [Hxs Hx]%Forall_app Hh. apply Forall_cons in Hx as [Hx _].
  assert (Hsplit : ∃ k1, handled_all xs k k1 ∧ handled x k1 k').
  { clear -Hh. revert k Hh. induction xs as [|y xs IH]; intros k; cbn.
    - intros (k1 & H1 & <-). by exists k.
    - intros (k1 & H1 & H2). destruct (IH _ H2) as (k2 & H3 & H4). exists k2. split; [by exists k1|done]. }
  destruct Hsplit as (k1 & H1 & H2). assert (Hw : wires [x] = wire_of x) by (unfold wires; cbn; apply app_nil_r).
  rewrite wires_app, Hw. replace (S (length xs + fuel)) with (length xs + S fuel) by lia. pose proof (wire_long x Hx).
  rewrite (stream_packets xs (S fuel) (wire_of x) 0 b k k1) by (done || (left; lia)). rewrite (stream_packet x) with (k' := k') by (done || lia).
  rewrite Z.sub_diag. rewrite decide_False by lia. rewrite length_app. unfold stream_end. erewrite bind_eq by reflexivity. rewrite decide_False by tauto.
  erewrite bind_eq by reflexivity. unfold mret, M_ret. cbn [length s_link]. do 2 f_equal. lia.
Qed.
Lemma parse_stream_eq c b k : msgParseStream proc c (Stream b k) =
  stream_loop proc (S (length (b ++ c))) (det (b ++ c) ++ [Some 0%Z], Z.of_nat (length (b ++ c))) 0 (Stream (b ++ c) (idle0 k)).
Proof. reflexivity. Qed.
Lemma wires_long xs : Forall packet_ok xs → length xs ≤ length (wires xs).
Proof.
  induction 1 as [|x xs Hx Hxs IH]; [done|]. unfold wires in *. cbn [fmap list_fmap concat length]. rewrite length_app. pose proof (wire_long x Hx). lia.
Qed.
(** A call with a beginning of a packet keeps it; with whole packets it handles
    them. *)
Lemma stream_keeps x c b k : packet_ok x → part_of (b ++ c) x → msgParseStream proc c (Stream b k) = Some (0%Z, Stream (b ++ c) (idle0 k)).
Proof.
  intros Hx Hp. rewrite parse_stream_eq, (stream_part x) by done. case_decide as Hs; [done|]. unfold stream_end.
  erewrite bind_eq by reflexivity. rewrite decide_True by lia. cbn [mBufferMsg]. rewrite decide_False by lia. reflexivity.
Qed.
Lemma stream_takes xs c b k k' : xs ≠ [] → Forall packet_ok xs → b ++ c = wires xs → handled_all xs (idle0 k) k' →
  msgParseStream proc c (Stream b k) = Some (Z.of_nat (length xs), Stream [] k').
Proof.
  intros Hne Hx Hw Hh. rewrite parse_stream_eq, Hw. destruct (exists_last Hne) as (ys & y & ->).
  pose proof (wires_long _ Hx) as Hl. rewrite length_app in Hl. cbn [length] in Hl.
  replace (S (length (wires (ys ++ [y])))) with (S (length ys + (length (wires (ys ++ [y])) - length ys))) by lia. by apply stream_whole.
Qed.
Fixpoint feed (cs : list bytes) : M stream (list Z) :=
  match cs with [] => mret [] | c :: cs => r ← msgParseStream proc c; rs ← feed cs; mret (r :: rs) end.
Lemma feed_app cs ds : ∀ s, feed (cs ++ ds) s = (rs ← feed cs; qs ← feed ds; mret (rs ++ qs)) s.
Proof.
  induction cs as [|c cs IH]; intros s.
  - cbn. unfold mbind, M_bind, mret, M_ret. by destruct (feed ds s) as [[??]|].
  - cbn [app feed]. rewrite bind_assoc_eq. unfold mbind, M_bind in *. destruct (msgParseStream proc c s) as [[r s1]|]; [|done].
    rewrite IH. destruct (feed cs s1) as [[rs s2]|]; [|done]. cbn. unfold mret, M_ret. by destruct (feed ds s2) as [[qs s3]|].
Qed.
(** Chunks that bring the packets [xs]: the first packet in any number of
    pieces, the others with its last one. *)
Definition brings (xs : list packet) (cs : list bytes) : Prop :=
  Forall packet_ok xs ∧ Forall (λ c, c ≠ []) cs ∧ concat cs = wires xs ∧
  ∃ x ys ds d, xs = x :: ys ∧ cs = ds ++ [d] ∧ length (concat ds) < length (wire_of x).
Lemma feed_parts x ds b k : packet_ok x → Forall (λ c, c ≠ []) ds → (∃ r, wire_of x = b ++ concat ds ++ r ∧ r ≠ []) → ds ≠ [] →
  feed ds (Stream b k) = Some (replicate (length ds) 0%Z, Stream (b ++ concat ds) (idle0 k)).
Proof.
  intros Hx Hds. revert b k. induction Hds as [|d ds Hd Hds IH]; intros b k (r & Hw & Hr) Hne; [done|]. cbn [concat] in *. cbn [feed].
  erewrite bind_eq; [|apply (stream_keeps x); [done|exists (concat ds ++ r); rewrite <- app_assoc in Hw |- *; split_and!; [done|by destruct (concat ds)|by destruct b]]].
  destruct (decide (ds = [])) as [->|Hne2]; [cbn; by rewrite app_nil_r|].
  erewrite bind_eq; [|apply IH; [exists r; by rewrite <- !app_assoc in *|done]]. unfold mret, M_ret. rewrite <- app_assoc. reflexivity.
Qed.
Lemma feed_brings xs cs k k' : brings xs cs → handled_all xs (idle0 k) k' →
  ∃ rs, feed cs (Stream [] k) = Some (rs, Stream [] k') ∧ foldr Z.add 0%Z rs = Z.of_nat (length xs) ∧ length rs = length cs.
Proof.
  intros (Hx & Hc & Hw & x & ys & ds & d & -> & -> & Hlt) Hh. apply Forall_app in Hc as [Hds Hd]. apply Forall_cons in Hd as [Hd _].
  exists (replicate (length ds) 0%Z ++ [Z.of_nat (length (x :: ys))]). split; [|split].
  - rewrite feed_app. rewrite concat_app in Hw. cbn in Hw. rewrite app_nil_r in Hw.
    assert (Hlast : ∀ b j, idle0 j = idle0 k → b = concat ds → feed [d] (Stream b j) = Some ([Z.of_nat (length (x :: ys))], Stream [] k')).
    { intros b j Hj ->. cbn [feed]. erewrite bind_eq by (eapply (stream_takes (x :: ys)); [done|done|exact Hw|by rewrite Hj]). reflexivity. }
    destruct (decide (ds = [])) as [->|Hne].
    + cbn [app length replicate]. erewrite bind_eq by reflexivity. erewrite bind_eq by (by apply Hlast). reflexivity.
    + erewrite bind_eq.
      2: { apply (feed_parts x); [exact (Forall_inv Hx)|done| |done]. exists (drop (length (concat ds)) (wire_of x)). split.
           - assert (Hp := f_equal (take (length (concat ds))) Hw). unfold wires in Hp. cbn [fmap list_fmap concat] in Hp.
             rewrite take_app_length, take_app_le in Hp by (apply Nat.lt_le_incl, Hlt). cbn [app]. rewrite <- (take_drop (length (concat ds)) (wire_of x)) at 1. f_equal. exact (eq_sym Hp).
           - intros Hn. apply (f_equal length) in Hn. rewrite length_drop in Hn. change (@length Z []) with 0 in Hn. clear -Hn Hlt. lia. }
      erewrite bind_eq by (by apply Hlast). reflexivity.
  - rewrite foldr_app. cbn [foldr]. induction (length ds) as [|n IH]; cbn in *; lia.
  - rewrite !length_app, length_replicate. done.
Qed.
End stream.

(** ** Properties *)
Lemma to_packet type body k w : (Z.of_nat (length body) < 128 * 128 * 128)%Z → w = wire_of (Packet type 0 body) → send_pack type body k = Some (tt, with_sent w k).
Proof. intros Hb ->. by apply send_pack_ok. Qed.

Lemma newPacketId_ok addr c : let i := Z.rem (mCurrentPacketId c + 1) 65536 in newPacketId addr c =
  Some (i, Link i (<[i := addr]> (mAddrMap c)) (mKeepAlive c) (mIdleSec c) (mAlive c) (mClientName c) (mPingTimer c) (getLinkId c) (mParent c)
    (k_sent c) (k_made c) (k_closed c)).
Proof. reflexivity. Qed.

(** A connect packet whose three strings are too long for the log - a client
    that was not authenticated may send it - is written behind the array. *)
Theorem mqtt_connect_overruns name user passwd ka s rest : short_ok name → short_ok user → short_ok passwd → (0 ≤ ka < 65536)%Z →
  (8037 ≤ Z.of_nat (length name + length user + length passwd))%Z →
  let w := wire_of (connect_packet name user passwd ka) in msgParse s_msgProcess (det w ++ rest) (Z.of_nat (length w)) s = None.
Proof.
  intros Hn Hu Hp Hka Hlen w. unfold w. rewrite msgParse_wire by by apply connect_packet_ok. apply ub_fail.
  change (processConnect (det (connect_body name user passwd ka) ++ rest, Z.of_nat (length (connect_body name user passwd ka))) (idle0 s) = None).
  rewrite processConnect_parsed by done. unfold connect_done. apply ub_fail. rewrite connect_logged by done.
  rewrite decide_False; [done|]. unfold log_fits. lia.
Qed.

(** A subscription and its answer.  The topics the application of a client
    asks for reach the application of the server, in order and with the packet
    id; when that answers, the acknowledgement goes to the address the request
    came from. *)
Theorem mqtt_subscribe_answered addr to nm mid l c s code key : Forall short_ok l → (Z.of_nat (length (topics_bytes true l)) < 2097150)%Z →
  (0 ≤ mCurrentPacketId c < 65536)%Z → mParent s = Some key → is_byte code →
  ∃ i w c1 s1 w2 s2 c2,
    c_procAppMsg (MqttMsg addr to None MQTT_SUBSCRIBE (Some (TMqttSubscribe nm mid l))) c = Some (true, c1) ∧ k_sent c1 = k_sent c ++ [w] ∧
    msgParse s_msgProcess (det w) (Z.of_nat (length w)) s = Some (1%Z, s1) ∧
    k_made s1 = k_made s ++ [MqttMsg (Addr 1999 0 (getLinkId s)) (Addr key 0 0) None MQTT_P_SUBSCRIBE (Some (TMqttSubscribe (mClientName s) i l))] ∧
    s_procAppMsg (MqttMsg addr to None MQTT_SUBACK (Some (TMqttSubAck i code))) s1 = Some (true, s2) ∧ k_sent s2 = k_sent s1 ++ [w2] ∧
    msgParse c_msgProcess (det w2) (Z.of_nat (length w2)) c1 = Some (1%Z, c2) ∧
    k_made c2 = k_made c ++ [MqttMsg (Addr 1999 0 (getLinkId c)) addr (Some DIALOG_CONTINUE) MQTT_SUBACK (Some (TMqttSubAck i code))].
Proof.
  intros Hl Hlen Hid Hpar Hcode. set (i := Z.rem (mCurrentPacketId c + 1) 65536).
  assert (Hi : (0 ≤ i < 65536)%Z) by (unfold i; rewrite Z.rem_mod_nonneg by lia; apply Z.mod_pos_bound; lia).
  set (x := Packet MQTT_P_SUBSCRIBE 0 (appendShort i ++ topics_bytes true l)).
  set (y := Packet MQTT_P_SUBACK 0 (appendShort i ++ [code])).
  assert (Hx : packet_ok x) by (split; [done|]; split; [done|]; cbn [x pk_body]; rewrite length_app; change (length (appendShort i)) with 2; lia).
  assert (Hy : packet_ok y) by done.
  eexists i, (wire_of x), _, _, (wire_of y), _, _. split_and!.
  - unfold c_procAppMsg. cbn [mm_msgName mm_body mm_oAddr]. rewrite decide_False, decide_True by done.
    erewrite bind_eq by apply newPacketId_ok. fold i. erewrite bind_eq by (unfold sendSubscribe; by apply send_pack_ok, Hx). reflexivity.
  - done.
  - rewrite <- (app_nil_r (det (wire_of x))), msgParse_wire by done.
    erewrite bind_eq by (by apply (requests_ok true i l [] (idle0 s) key)). reflexivity.
  - done.
  - unfold s_procAppMsg. cbn [mm_msgName mm_body]. rewrite decide_False, decide_False, decide_True by done.
    erewrite bind_eq by (unfold sendSubAck; rewrite u8_byte by done; by apply send_pack_ok, Hy). reflexivity.
  - done.
  - rewrite <- (app_nil_r (det (wire_of y))), msgParse_wire by done. cbn [y pk_type pk_flags pk_body].
    unfold c_msgProcess. rewrite decide_False, decide_True by done. unfold processSubAck.
    erewrite bind_eq; [reflexivity|]. parse_next (preads_short _ Hi). rewrite (parsing_ok _ _ _ _ _ _ (preads_parseByte _ Hcode)) by (cbn; lia).
    erewrite bind_eq by (unfold getAppAddr; erewrite bind_eq by reflexivity; cbn [idle0 mAddrMap with_sent]; rewrite lookup_insert_eq; reflexivity). reflexivity.
  - done.
Qed.

(** A publish packet decides whether the server survives.  Its body starts
    with the length of the topic, which the code compares with the whole body
    instead of what follows the length: from a topic that is one or two bytes too
    long it takes a negative length for the content and copies it.  Every other
    packet is handled. *)
Theorem mqtt_publish_survives m rest tail s : (0 ≤ m < 65536)%Z → (Z.of_nat (length rest) < 2097150)%Z → mParent s ≠ None →
  let x := Packet MQTT_P_PUBLISH 0 (appendShort m ++ rest) in let L := Z.of_nat (length (pk_body x)) in
  is_Some (msgParse s_msgProcess (det (wire_of x) ++ tail) (Z.of_nat (length (wire_of x))) s) ↔ m ≠ (L - 1)%Z ∧ m ≠ L.
Proof.
  intros Hm Hr Hpar x L. assert (HL : L = (2 + Z.of_nat (length rest))%Z) by (unfold L; cbn [x pk_body]; rewrite length_app; change (length (appendShort m)) with 2; lia).
  rewrite msgParse_wire by (split; [done|]; split; [done|]; fold L; lia). fold L.
  change (s_msgProcess (pk_type x) (pk_flags x)) with (λ c, s_processPublish c 0). cbv beta.
  pose proof (publish_body_ok m rest tail (idle0 s) L Hm HL Hpar) as Hok. unfold mbind, M_bind. cbn [pk_body x] in *.
  destruct (s_processPublish _ 0 (idle0 s)) as [[u k]|].
  - split; [intros _; destruct (proj1 Hok ltac:(by eexists)); lia|by eexists].
  - split; [by intros [? ?]|]. intros [H1 H2]. destruct Hok as [_ Hok]. destruct Hok as [? ?]; [lia|done].
Qed.

Fixpoint handled_in_turn (proc : Z → Z → pcur → LK unit) (gs : list (list packet)) (k k' : link) : Prop :=
  match gs with [] => k = k' | g :: gs => ∃ k1, handled_all proc g (idle0 k) k1 ∧ handled_in_turn proc gs k1 k' end.
(** C12: packets from a stream.  However the bytes of the packets come - the
    first packet of a group in any number of pieces, other packets with the last
    of them, and all with bodies below 2 MB, which is 2^21 bytes ([packet_ok]) -
    every packet is handled once, in order, the results count them, and nothing stays in the buffer. *)
Theorem mqtt_stream_exact proc gs css k k' : Forall2 brings gs css → handled_in_turn proc gs k k' →
  ∃ rs, feed proc (concat css) (Stream [] k) = Some (rs, Stream [] k') ∧ foldr Z.add 0%Z rs = Z.of_nat (length (concat gs)) ∧
    length rs = length (concat css).
Proof.
  intros Hg. revert k. induction Hg as [|g cs gs css Hb Hg IH]; intros k; cbn [handled_in_turn].
  - intros <-. by exists [].
  - intros (k1 & H1 & H2). destruct (feed_brings proc g cs k k1 Hb H1) as (rs & Hf & Hs & Hl). destruct (IH k1 H2) as (qs & Hq & Ht & Hm).
    exists (rs ++ qs). cbn [concat]. rewrite feed_app. erewrite bind_eq by exact Hf. erewrite bind_eq by exact Hq. split; [done|].
    rewrite !length_app. split; [|lia]. rewrite foldr_app, Ht, Nat2Z.inj_add, <- Hs. clear. induction rs as [|r rs IH]; cbn in *; lia.
Qed.

(** C33: what the stream does when a call ends inside of a packet after whole
    ones, all with bodies below 2 MB ([packet_ok]).  It handles the whole ones and keeps them; of the beginning of the next
    packet it keeps one byte and drops two or more ([cut] takes off the end).  So
    the next call handles the same packets again before it looks at what comes. *)
Theorem mqtt_stream_repeats proc xs p x b c d k k1 k2 : xs ≠ [] → Forall packet_ok xs → packet_ok x → part_of p x → b ++ c = wires xs ++ p →
  handled_all proc xs (idle0 k) k1 → handled_all proc xs (idle0 k1) k2 → d ≠ [] →
  let q := if decide (length p < 2) then p else [] in
  msgParseStream proc c (Stream b k) = Some (if decide (length p < 2) then 0%Z else Z.of_nat (length xs), Stream (wires xs ++ q) k1) ∧
  ∃ fuel, msgParseStream proc d (Stream (wires xs ++ q) k1) =
    stream_loop proc (S fuel) (det (q ++ d) ++ [Some 0%Z], Z.of_nat (length (q ++ d))) (Z.of_nat (length xs)) (Stream ((wires xs ++ q) ++ d) k2).
Proof.
  intros Hne Hxs Hx Hp Hw H1 H2 Hd q. pose proof (wires_long xs Hxs) as Hlen. split.
  - rewrite parse_stream_eq, Hw. replace (S (length (wires xs ++ p))) with (length xs + S (length (wires xs ++ p) - length xs)) by (rewrite length_app; lia).
    destruct Hp as (r & Hwx & Hr & Hpn). rewrite (stream_packets proc xs _ p 0 _ _ k1) by (done || (left; destruct p; [done|cbn; lia])).
    rewrite (stream_part proc x) by (done || by exists r). rewrite Z.add_0_l. unfold q. destruct (decide (length p < 2)) as [Hs|Hs]; [done|].
    unfold stream_end. erewrite bind_eq by reflexivity. cbn [mBufferMsg]. rewrite decide_True by lia.
    assert (Hxl : 0 < length (wires xs)) by (destruct xs; [done|cbn [length] in Hlen; lia]).
    rewrite decide_True by (rewrite length_app; lia). erewrite bind_eq by reflexivity. unfold mret, M_ret. cbn [s_link]. do 3 f_equal.
    rewrite Nat2Z.id, length_app. replace (length (wires xs) + length p - length p) with (length (wires xs)) by lia. by rewrite take_app_length, app_nil_r.
  - exists (length ((wires xs ++ q) ++ d) - length xs). rewrite parse_stream_eq.
    replace (S (length ((wires xs ++ q) ++ d))) with (length xs + S (length ((wires xs ++ q) ++ d) - length xs)) at 1 by (rewrite !length_app; lia).
    rewrite <- !app_assoc. rewrite (stream_packets proc xs _ (q ++ d) 0 _ _ k2); [by rewrite Z.add_0_l|done|done|].
    left. rewrite length_app. destruct d; [done|cbn; lia].
Qed.

(** ** Keeping a link alive *)
Fixpoint deliver_to (proc : Z → Z → pcur → LK unit) (ps : list bytes) : LK unit :=
  match ps with [] => mret tt | p :: ps => msgParse proc (det p) (Z.of_nat (length p)) ;; deliver_to proc ps end.
(** What was sent, which leaves the link. *)
Definition take_sent : LK (list bytes) := λ k, Some (k_sent k, Link (mCurrentPacketId k) (mAddrMap k) (mKeepAlive k) (mIdleSec k) (mAlive k)
  (mClientName k) (mPingTimer k) (getLinkId k) (mParent k) [] (k_made k) (k_closed k)).
(** A second at both ends: each sends what it has at once. *)
Definition second (cs : link * link) : option (link * link) :=
  '(ps, c) ← (c_secAction ;; take_sent) cs.1;
  '(qs, s) ← (deliver_to s_msgProcess ps ;; s_secAction ;; take_sent) cs.2;
  '(_, c) ← deliver_to c_msgProcess qs c; Some (c, s).
Fixpoint seconds (n : nat) (cs : link * link) : option (link * link) :=
  match n with O => Some cs | S n => cs ← second cs; seconds n cs end.
Definition ping_period (k : Z) : Z := if decide (k = 1)%Z then 1%Z else (Z.quot k 2)%Z.
Record kept_alive (k : Z) (cs : link * link) : Prop := {
  ka_keep : mKeepAlive cs.1 = k ∧ mKeepAlive cs.2 = k; ka_alive : mAlive cs.1 = true ∧ mAlive cs.2 = true;
  ka_sent : k_sent cs.1 = [] ∧ k_sent cs.2 = [];
  ka_client : (0 ≤ mIdleSec cs.1)%Z ∧ (mIdleSec cs.1 + mPingTimer cs.1 ≤ ping_period k)%Z ∧ (1 ≤ mPingTimer cs.1 ∨ mIdleSec cs.1 = 0)%Z;
  ka_server : (0 ≤ mIdleSec cs.2 ≤ mIdleSec cs.1 + 1)%Z }.
Lemma period_bounds k : (1 ≤ k)%Z → (1 ≤ ping_period k ≤ k)%Z ∧ (k = 1 ∨ 2 * ping_period k ≤ k)%Z.
Proof.
  intros Hk. unfold ping_period. case_decide; [lia|]. rewrite Z.quot_div_nonneg by lia. pose proof (Z.div_mod k 2). pose proof (Z.mod_pos_bound k 2). lia.
Qed.
Definition with_clock (idle timer : Z) (k : link) : link := Link (mCurrentPacketId k) (mAddrMap k) (mKeepAlive k) idle (mAlive k)
  (mClientName k) timer (getLinkId k) (mParent k) (k_sent k) (k_made k) (k_closed k).
Lemma c_second k : (1 ≤ mKeepAlive k)%Z → mAlive k = true → (mIdleSec k + 1 ≤ mKeepAlive k)%Z → c_secAction k = Some (tt,
  if decide (mPingTimer k - 1 ≤ 0)%Z then with_sent (pack0 MQTT_P_PINGREQ) (with_clock (mIdleSec k + 1) (ping_period (mKeepAlive k)) k)
  else with_clock (mIdleSec k + 1) (mPingTimer k - 1) k).
Proof.
  intros Hk Ha Hi. unfold c_secAction. erewrite (bind_eq (gets _)) by reflexivity. cbv beta. rewrite decide_False by lia.
  erewrite (bind_eq (gets _)) by reflexivity. cbv beta. rewrite Ha. cbn [negb]. erewrite (bind_eq (gets _)) by reflexivity. cbv beta.
  erewrite bind_eq by reflexivity. rewrite (decide_False (P := (mKeepAlive k < mIdleSec k + 1)%Z)) by lia. erewrite bind_eq by reflexivity.
  erewrite (bind_eq (gets _)) by reflexivity. cbv beta. erewrite bind_eq by reflexivity. cbn [mPingTimer]. by case_decide.
Qed.
Lemma s_second k : (1 ≤ mKeepAlive k)%Z → mAlive k = true → (mIdleSec k + 1 ≤ mKeepAlive k)%Z → s_secAction k = Some (tt, with_clock (mIdleSec k + 1) (mPingTimer k) k).
Proof.
  intros Hk Ha Hi. unfold s_secAction. erewrite (bind_eq (gets _)) by reflexivity. cbv beta. rewrite decide_False by lia.
  erewrite (bind_eq (gets _)) by reflexivity. cbv beta. rewrite Ha. cbn [negb]. erewrite (bind_eq (gets _)) by reflexivity. cbv beta.
  erewrite bind_eq by reflexivity. by rewrite decide_False by lia.
Qed.
Lemma ping_answered s : deliver_to s_msgProcess [pack0 MQTT_P_PINGREQ] s = Some (tt, with_sent (pack0 MQTT_P_PINGRESP) (idle0 s)).
Proof. reflexivity. Qed.
Lemma pong_taken c : deliver_to c_msgProcess [pack0 MQTT_P_PINGRESP] c = Some (tt, idle0 c).
Proof. reflexivity. Qed.
Lemma second_kept k cs : (1 ≤ k)%Z → kept_alive k cs →
  ∃ cs', second cs = Some cs' ∧ kept_alive k cs' ∧ k_closed cs'.1 = k_closed cs.1 ∧ k_closed cs'.2 = k_closed cs.2.
Proof.
  intros Hk [[Hk1 Hk2] [Ha1 Ha2] [Hs1 Hs2] (Hi & Hp & Ht) Hsi]. destruct (period_bounds k Hk) as [Hh Hd]. destruct cs as [c s]. cbn [fst snd] in *.
  unfold second. cbn [fst snd]. erewrite (bind_eq c_secAction) by (apply c_second; [lia|done|lia]).
  destruct (decide (mPingTimer c - 1 ≤ 0)%Z) as [Hpt|Hpt].
  - cbn [take_sent k_sent with_sent with_clock mbind option_bind]. rewrite Hs1. cbn [app]. erewrite (bind_eq (deliver_to _ _)) by apply ping_answered.
    erewrite (bind_eq s_secAction) by (apply s_second; cbn; [lia|done|lia]). cbn [take_sent k_sent with_sent with_clock idle0 mbind option_bind].
    rewrite Hs2. cbn [app]. rewrite pong_taken. cbn [mbind option_bind]. eexists. split; [reflexivity|]. split; [|done].
    split; cbn; (done || lia || (split; lia) || auto). rewrite Hk1. lia.
  - cbn [take_sent k_sent with_clock mbind option_bind]. rewrite Hs1. cbn [deliver_to]. erewrite (bind_eq (mret tt)) by reflexivity.
    erewrite (bind_eq s_secAction) by (apply s_second; [lia|done|lia]). cbn [take_sent k_sent with_clock mbind option_bind]. rewrite Hs2.
    cbn [deliver_to]. unfold mret, M_ret. cbn [mbind option_bind]. eexists. split; [reflexivity|]. split; [|done].
    split; cbn; (done || lia || (split; lia) || auto).
Qed.
(** C16: a link with no other traffic stays open.  After connecting, with both
    ends knowing the same keep-alive time of at least a second and packets that
    arrive within the second, the client's pings keep the idle time of both ends
    within it: neither closes the link, however many seconds pass. *)
Theorem mqtt_keepalive k c s : (1 ≤ k)%Z → mKeepAlive c = k → mKeepAlive s = k → mAlive c = true → mAlive s = true → k_sent c = [] → k_sent s = [] →
  mIdleSec c = 0%Z → mPingTimer c = 0%Z → mIdleSec s = 0%Z →
  ∀ n, ∃ c' s', seconds n (c, s) = Some (c', s') ∧ mAlive c' = true ∧ mAlive s' = true ∧ k_closed c' = k_closed c ∧ k_closed s' = k_closed s ∧
    (mIdleSec c' ≤ k)%Z ∧ (mIdleSec s' ≤ k)%Z.
Proof.
  intros Hk Hkc Hks Hac Has Hsc Hss Hic Hpc His n. pose proof (period_bounds k Hk) as [Hh Hd].
  assert (Hka : kept_alive k (c, s)) by (split; cbn; (done || lia || (split; lia) || auto); rewrite ?Hic, ?Hpc, ?His; lia).
  assert (Hrun : ∃ cs', seconds n (c, s) = Some cs' ∧ kept_alive k cs' ∧ k_closed cs'.1 = k_closed c ∧ k_closed cs'.2 = k_closed s).
  { change (k_closed c) with (k_closed (c, s).1). change (k_closed s) with (k_closed (c, s).2). generalize dependent (c, s). clear -Hk.
    induction n as [|n IH]; intros cs Hka; [by exists cs|]. destruct (second_kept k cs Hk Hka) as (cs1 & H1 & H2 & H3 & H4).
    destruct (IH cs1 H2) as (cs2 & H5 & H6 & H7 & H8). exists cs2. cbn [seconds]. rewrite H1. cbn. by rewrite <- H3, <- H4. }
  destruct Hrun as ([c' s'] & Hr & [_ [Ha1 Ha2] _ (Hi & Hp & Ht) Hsi] & Hc1 & Hc2). exists c', s'. cbn in *. split_and!; try done; lia.
Qed.

(** ** Reconnecting over UDP *)
Definition find_udp (ip : bytes) (port : Z) (s : udp_server) : option nat := find_pos (matchClient ip port) (us_links s).
Lemma find_pos_app {A} (P : A → bool) l l' i : find_pos P l = Some i → find_pos P (l ++ l') = Some i.
Proof.
  revert i. induction l as [|x l IH]; intros i; cbn; [done|]. destruct (P x); [done|]. intros (j & Hj & ->)%fmap_Some. by rewrite (IH j Hj).
Qed.
Lemma on_udp_link_others {A} i (m : LK A) s x s' : on_udp_link i m s = Some (x, s') → ∀ j, j ≠ i → us_links s' !! j = us_links s !! j.
Proof.
  unfold on_udp_link. destruct (us_links s !! i) as [l|]; [|done]. cbn. destruct (m (u_link l)) as [[y k]|]; [|done]. cbn. intros [= _ <-] j Hj.
  cbn. by rewrite list_lookup_insert_ne.
Qed.
(** A client that connects again, from the same address over UDP, gets a new
    link behind its old one, and is not heard by it: every later packet of that
    address is handled by the old link, and the new one does not change (so its
    idle time runs out). *)
Theorem mqtt_udp_reconnect ip port i buf n s s1 : find_udp ip port s = Some i → isPacket buf MQTT_P_CONNECT = Some true → (0 < n)%Z →
  procFdSet buf n ip port s = Some (tt, s1) →
  let j := length (us_links s) in
  length (us_links s1) = S j ∧ (∃ l, us_links s1 !! j = Some l ∧ matchClient ip port l = true) ∧ find_udp ip port s1 = Some i ∧
  ∀ buf2 n2 s2, isPacket buf2 MQTT_P_CONNECT = Some false → procFdSet buf2 n2 ip port s1 = Some (tt, s2) →
    us_links s2 !! j = us_links s1 !! j ∧ (∀ q, q ≠ i → us_links s2 !! q = us_links s1 !! q).
Proof.
  intros Hf Hp Hn Hs j. pose proof (find_pos_lt _ _ _ Hf) as Hij. fold j in Hij.
  assert (Hl1 : ∃ k, us_links s1 = us_links s ++ [UdpLink ip port k]).
  { unfold procFdSet in Hs. rewrite decide_False in Hs by lia. unfold mbind, M_bind in Hs. cbn [gets] in Hs. rewrite Hp in Hs. cbn in Hs.
    unfold on_udp_link in Hs. cbn [us_links] in Hs. rewrite list_lookup_middle in Hs by done. cbn in Hs.
    destruct (msgParse _ _ _ _) as [[x k]|]; [|done]. cbn in Hs. injection Hs as <-. exists k. cbn [us_links]. rewrite insert_app_r_alt, Nat.sub_diag by done. done. }
  destruct Hl1 as [k Hl1]. assert (Hf1 : find_udp ip port s1 = Some i) by (unfold find_udp; rewrite Hl1; by apply find_pos_app).
  split; [rewrite Hl1, length_app; cbn; unfold j; lia|].
  split; [eexists; split; [rewrite Hl1; by apply list_lookup_middle|]; unfold matchClient; by apply bool_decide_eq_true_2|]. split; [done|].
  intros buf2 n2 s2 Hp2 Hs2. assert (Hother : ∀ q, q ≠ i → us_links s2 !! q = us_links s1 !! q).
  { unfold procFdSet in Hs2. case_decide as H0; [by injection Hs2 as <-|]. unfold mbind, M_bind in Hs2. cbn [gets] in Hs2. rewrite Hp2 in Hs2. cbn in Hs2.
    fold (find_udp ip port s1) in Hs2. rewrite Hf1 in Hs2. destruct (on_udp_link i _ s1) as [[x s3]|] eqn:Ho; [|done]. injection Hs2 as <-.
    by eapply on_udp_link_others. }
  split; [apply Hother; lia|done].
Qed.

(** *** Witnesses *)
Definition text (n : nat) (c : Z) : bytes := replicate n c.
Lemma short_text n c : c ≠ 0%Z → (Z.of_nat n < 65536)%Z → short_ok (text n c).
Proof. intros Hc Hn. split; [by apply Forall_replicate|]. unfold text. by rewrite length_replicate. Qed.
Definition server0 : link := new_link 3 (Some 300%Z).
Definition client0 : link := new_link 0 None.
Lemma mqtt_subscribe_answered_witness :
  let addr := Addr 7 8 9 in let to := Addr 0 0 0 in
  ∃ i w c1 s1 w2 s2 c2,
    c_procAppMsg (MqttMsg addr to None MQTT_SUBSCRIBE (Some (TMqttSubscribe [] 0 [text 2 97; text 1 98]))) client0 = Some (true, c1) ∧ k_sent c1 = [w] ∧
    msgParse s_msgProcess (det w) (Z.of_nat (length w)) server0 = Some (1%Z, s1) ∧
    k_made s1 = [MqttMsg (Addr 1999 0 3) (Addr 300 0 0) None MQTT_P_SUBSCRIBE (Some (TMqttSubscribe [] i [text 2 97; text 1 98]))] ∧
    s_procAppMsg (MqttMsg addr to None MQTT_SUBACK (Some (TMqttSubAck i 0))) s1 = Some (true, s2) ∧ k_sent s2 = k_sent s1 ++ [w2] ∧
    msgParse c_msgProcess (det w2) (Z.of_nat (length w2)) c1 = Some (1%Z, c2) ∧
    k_made c2 = [MqttMsg (Addr 1999 0 0) addr (Some DIALOG_CONTINUE) MQTT_SUBACK (Some (TMqttSubAck i 0))].
Proof.
  cbv zeta. apply (mqtt_subscribe_answered (Addr 7 8 9) (Addr 0 0 0) [] 0 [text 2 97; text 1 98] client0 server0 0 300);
    [repeat apply Forall_cons_2; [by apply short_text..|constructor]|reflexivity|cbn; lia|reflexivity|done].
Defined.
Lemma mqtt_publish_survives_witness :
  let x := Packet MQTT_P_PUBLISH 0 (appendShort 3 ++ [97; 98]%Z) in let L := Z.of_nat (length (pk_body x)) in
  is_Some (msgParse s_msgProcess (det (wire_of x) ++ [Some 99%Z]) (Z.of_nat (length (wire_of x))) server0) ↔ 3%Z ≠ (L - 1)%Z ∧ 3%Z ≠ L.
Proof. apply (mqtt_publish_survives 3 [97; 98]%Z [Some 99%Z] server0); [lia|reflexivity|discriminate]. Defined.
Definition ping : packet := Packet MQTT_P_PINGREQ 0 [].
Lemma ping_ok : packet_ok ping.
Proof. done. Qed.
Lemma ping_handled k : handled s_msgProcess ping k (with_sent (pack0 MQTT_P_PINGRESP) k).
Proof. by intros tail. Qed.
(** Two pings: the first in pieces, the second with its end, and a third. *)
Definition ping_groups : list (list packet) := [[ping; ping]; [ping]].
Definition ping_chunks : list (list bytes) := [[[192]; [0; 192; 0]]; [[192; 0]]]%Z.
Definition pinged (k : link) : link := with_sent (pack0 MQTT_P_PINGRESP) k.
Lemma mqtt_stream_exact_witness :
  ∃ rs, feed s_msgProcess (concat ping_chunks) (Stream [] server0) = Some (rs, Stream [] (pinged (idle0 (pinged (pinged (idle0 server0)))))) ∧
    foldr Z.add 0%Z rs = 3%Z ∧ length rs = 3.
Proof.
  apply (mqtt_stream_exact s_msgProcess ping_groups ping_chunks server0).
  - apply Forall2_cons_2; [|apply Forall2_cons_2; [|constructor]]; (split; [by repeat constructor|split; [by repeat constructor|split; [reflexivity|]]]).
    + exists ping, [ping], [[192%Z]], [0; 192; 0]%Z. split; [done|]. split; [done|]. vm_compute. lia.
    + exists ping, [], [], [192; 0]%Z. split; [done|]. split; [done|]. vm_compute. lia.
  - eexists. split; [eexists; split; [apply ping_handled|]; eexists; split; [apply ping_handled|reflexivity]|].
    eexists. split; [eexists; split; [apply ping_handled|reflexivity]|reflexivity].
Defined.
(** A ping and one byte of the next one, which arrives with the next call: the
    first ping is answered twice. *)
Lemma mqtt_stream_repeats_witness :
  msgParseStream s_msgProcess [192; 0; 192]%Z (Stream [] server0) = Some (0%Z, Stream [192; 0; 192]%Z (pinged (idle0 server0))) ∧
  ∃ fuel, msgParseStream s_msgProcess [0%Z] (Stream [192; 0; 192]%Z (pinged (idle0 server0))) =
    stream_loop s_msgProcess (S fuel) (det [192; 0]%Z ++ [Some 0%Z], 2%Z) 1 (Stream [192; 0; 192; 0]%Z (pinged (idle0 (pinged (idle0 server0))))).
Proof.
  apply (mqtt_stream_repeats s_msgProcess [ping] [192%Z] ping [] [192; 0; 192]%Z [0%Z] server0); [done|by repeat constructor|done| |reflexivity| | |done].
  - exists [0%Z]. done.
  - eexists. split; [apply ping_handled|reflexivity].
  - eexists. split; [apply ping_handled|reflexivity].
Defined.
Definition open_link (k : Z) : link := Link 0 ∅ k 0 true [] 0 0 None [] [] 0.
Lemma mqtt_keepalive_witness :
  ∃ c' s', seconds 600 (open_link 60, open_link 60) = Some (c', s') ∧ mAlive c' = true ∧ mAlive s' = true ∧ k_closed c' = 0 ∧ k_closed s' = 0 ∧
    (mIdleSec c' ≤ 60)%Z ∧ (mIdleSec s' ≤ 60)%Z.
Proof. apply (mqtt_keepalive 60 (open_link 60) (open_link 60)); [lia|reflexivity..]. Defined.
Definition home_ip : bytes := [49; 46; 49]%Z.
Definition udp0 : udp_server := UdpServer [UdpLink home_ip 5000 server0] 4 300.
Definition connect_again : bytes := wire_of (connect_packet (text 3 97) (text 1 98) (text 1 98) 60).
Definition udp1 : udp_server := default udp0 (snd <$> procFdSet (det connect_again) (Z.of_nat (length connect_again)) home_ip 5000 udp0).
Lemma mqtt_udp_reconnect_witness :
  length (us_links udp1) = 2 ∧ (∃ l, us_links udp1 !! 1 = Some l ∧ matchClient home_ip 5000 l = true) ∧ find_udp home_ip 5000 udp1 = Some 0 ∧
  ∀ buf2 n2 s2, isPacket buf2 MQTT_P_CONNECT = Some false → procFdSet buf2 n2 home_ip 5000 udp1 = Some (tt, s2) →
    us_links s2 !! 1 = us_links udp1 !! 1 ∧ (∀ q, q ≠ 0 → us_links s2 !! q = us_links udp1 !! q).
Proof.
  apply (mqtt_udp_reconnect home_ip 5000 0 (det connect_again) (Z.of_nat (length connect_again)) udp0 udp1);
    [vm_compute; reflexivity|vm_compute; reflexivity|vm_compute; reflexivity|].
  assert (Hr : is_Some (procFdSet (det connect_again) (Z.of_nat (length connect_again)) home_ip 5000 udp0)) by (vm_compute; by eexists).
  unfold udp1. destruct Hr as [[[] s1] ->]. reflexivity.
Defined.
